(* ===== verification/_CoqProject ===== *)
-Q . S2P
Prelude.v
Zpp.v
Proto.v
DB.v
Connections.v
ORM.v
Decimal.v
Samples.v
ReserveTable.v
Coordinator.v
Deterministic.v
DeterministicProofs.v
AriaEquiv.v
Serial.v
Serializability.v
WriteBased.v
SmallBank.v
TpccSchema.v
Tpcc.v
Crdt.v
Mix.v
Engine.v
VectorOrder.v
OrderAssigner.v
InterChainOrder.v
InterChainProofs.v
InterChainFaults.v
GlobalOrder.v
RoundBased.v
LRU.v
Storage.v
StorageLog.v
OrderACB.v
RaftFSM.v
BaselineOrders.v
ISS.v
ZmqPorts.v
ThreadPool.v
Peer.v
Ycsb.v
SimpleChaincodes.v
Merkle.v
MerkleProofs.v
MerkleParallel.v
ProofGenerator.v
LightClient.v
UserService.v
LocalConsensus.v
RequestReplicator.v
Fragments.v
BFG.v
ErasureCode.v
BlockReceiver.v
Replication.v
Replicator.v
Direct.v
DirectReplicator.v
PbftService.v
Yaml.v
Property.v
Crypto.v
KeyStore.v
ConfigInit.v
Deploy.v
ModuleFactory.v
GroupStart.v
