(* ===== verification/Prelude.v ===== *)
(** * MassBFT with mixed concurrency control: a verification library

    The repository is a permissioned ledger for nodes in several groups
    (regions).  A group agrees on its own blocks with PBFT, sends them to the
    other groups as erasure-coded fragments, the groups vote on one global order
    of all blocks, and every node executes the ordered blocks with a
    deterministic engine over a key-value store.  This library translates these
    parts from the C++ sources into executable definitions and proves what makes
    them correct.  Paths below are under src/ of the repository.

    ** How the code is modelled

    Pure code is a function; code that changes an object takes and returns its
    state; a glog [CHECK], an exception that nothing catches or an access out of
    range is [None] or a constructor of the result type of its own.  Machine
    integers are [Z] with their wrap-around written out ([wrap32], [wrap64u])
    where it can be reached, and [nat] where the values are sizes of containers.
    Worker threads are lists of atomic actions on one shared object
    ([par_step], [par_run] below), so a theorem about a parallel phase is about
    every schedule.  Code outside the repository is a parameter with its
    documented behaviour as a class of laws and a concrete instance that shows
    the laws can hold: LevelDB and RocksDB ([KVLib], instance [Plain]), protobuf
    ([Protobuf], instance [plain_protobuf]), the serialization library zpp_bits
    ([Zpp], [ZppLaws], instance [LE]), the erasure codes ([BFG.ECLaws], instance [toy_ec]) and the
    libraries below them ([GoLib], [LibEC]), SHA-256 and signatures (functions,
    with their width as only hypothesis; where keys are made and stored,
    OpenSSL's keys as a class [EvpLib] with [EvpLaws], instance [Toy]), yaml-cpp
    ([YamlLib], [YamlLaws], instance [Tree]), ZeroMQ (which sockets open), SSH
    (which connections, copies and commands succeed) and braft (which nodes
    start).

    ** The files

    - Prelude: notation, tactics, hint databases, fold lemmas, interleavings.
    - Zpp, Proto: the serialization interface and the messages of include/proto
      (blocks, requests, read-write sets, orders); reading back what was written.
    - DB, Connections, ORM: the in-memory store (peer/db/phmap_connection.h), the
      other databases and what users of a database rely on (db_interface.h), and
      the view of it a chaincode has (peer/chaincode/orm.h).  Decimal:
      std::to_string and atoi.  Samples: small chaincodes used as concrete inputs.
    - ReserveTable, Coordinator, Deterministic, DeterministicProofs, AriaEquiv,
      Serial, Serializability: the deterministic engine
      (peer/concurrency_control/deterministic and my_cc/deterministic), its
      workers and coordinator, the serial coordinators, and the theorems that
      every schedule gives one outcome, what commits, and that the outcome is
      serializable.
    - WriteBased, Crdt, Mix: the write-based engine, the CRDT engine and the
      coordinator that mixes engines (my_cc).  Engine: what a peer relies on of
      an engine, as a class with laws; the serial, the deterministic and the
      mixed coordinator are its instances.
    - SmallBank, TpccSchema, Tpcc, Ycsb, SimpleChaincodes: the chaincodes of
      src/peer/chaincode and include/peer/chaincode with their registry, refined
      against a bank, an order book and tables.
    - VectorOrder, OrderAssigner, InterChainOrder, InterChainProofs,
      InterChainFaults, GlobalOrder, OrderACB, RoundBased: the ordering service
      (peer/consensus/block_order): assignment of watermarks, the order manager
      of a replica, agreement of replicas, the callbacks that carry votes, and
      the round-based manager.
    - RaftFSM, BaselineOrders, ISS: the raft instances a process starts and their
      state machine (agreement_raft_fsm.h, common/raft), and the orders the
      system is compared with (round_based, steward, geobft, iss).
    - LRU, Storage, StorageLog: common/lru.h, peer/storage/mr_block_storage.h, and
      the log a block storage implements.
    - ZmqPorts, ThreadPool: the port tables of a deployment
      (common/zmq_port_util) and the thread pool (common/thread_pool_light.h).
    - Peer: the modules put together (peer/core/module_coordinator,
      common/async_serial_executor.h): blocks come in, are ordered, executed one
      after the other and shown to users.
    - Merkle, MerkleProofs, MerkleParallel, ProofGenerator, LightClient: Merkle
      trees (common/parallel_merkle_tree), proofs of requests and of results
      (common/proof_generator), and queries of light clients
      (peer/core/user_rpc_controller, client/sdk).
    - UserService: the requests of a client, its other queries, and the monitor
      that measures a benchmark (client/neuchain_db, client/core).
    - LocalConsensus, RequestReplicator: the callbacks of a group's consensus
      (peer/consensus/pbft/local_consensus, pbft_block_cache) and the batches a
      leader sends to its followers (request_replicator.h).
    - PbftService: the service the BFT engine of a group calls
      (common/pbft/pbft_rpc_service.h), the controller that joins it with the
      state machine and the storage (local_consensus_controller.h), and a group of
      such nodes with its engine.
    - Fragments, BFG, ErasureCode, BlockReceiver, Replication, Replicator: which
      node sends which fragments (peer/replicator/v2/fragment_util.h), how
      fragments and their proofs are written and checked
      (block_fragment_generator), the erasure codes (common/erasure_code.h), how
      a block is sent and collected (block_sender.h, block_receiver.h,
      mr_block_receiver.h), what these achieve together, and how the nodes of a
      deployment are connected (replicator.h).
    - Direct, DirectReplicator: replication of whole blocks
      (peer/replicator/direct, peer/replicator/multyway_only), and how its nodes
      are connected.
    - Yaml, Property: the interface of yaml-cpp and the configuration document of
      a node with its accessors (common/property).
    - Crypto, KeyStore: hex texts, digests and Ed25519 keys (common/crypto.h), and
      the key provider of a node over its storages (common/bccsp.h,
      yaml_key_storage.h).
    - ConfigInit, Deploy: the certificate authority: the default configuration
      (ca/config_initializer) and the service that installs, configures and
      starts the hosts (ca/ca_http_service).
    - ModuleFactory, GroupStart: what a peer builds from its configuration
      (peer/core/module_factory), the process of the BFT engine
      (bft_instance_controller.h, single_pbft_controller.h) among it.

    ** What the theorems show

    - The system: given blocks whose requests are agreed on and batches with
      distinct ids and no double writes, a peer refines the ledger that executes
      the order block by block ([peer_refines_ledger]), two peers with their own
      interleavings agree ([peers_agree]) and tell users the same
      ([users_told_the_same]), a peer whose blocks are there executes them
      ([peer_catches_up]) and a leader votes for what it stores
      ([leader_votes_stored]).  That the nodes of a group store the same requests
      is [group_commits], that they reach the other groups unchanged is
      [replicators_deliver].
    - Ordering: assigners and replicas agree on one order whatever the
      interleaving ([ordering_service_agrees]); a replica delivers in that order
      and is not blocked ([replica_delivers_in_order], [replica_live]); leaders'
      votes are lawful and reach every replica ([assigner_votes],
      [vote_message_applied], [forced_vote_at_majority]); the baselines deliver
      complete rounds ([rounds_delivered], [geobft_rounds]), ISS proposes within
      its epoch ([iss_epochs_safe]), and leaders propose their own blocks
      ([round_based_proposes]).
    - Execution: one outcome for every schedule ([schedule_deterministic],
      [wb_schedule_deterministic], [crdt_schedule_deterministic]); the commit
      rule and the equivalence of the two workers ([commit_rule],
      [mycc_worker_equivalent]); serializability ([batch_serializable]); the
      coordinators ([processTransactions_batch], [mix_correct]); the chaincodes
      ([smallbank_refines], [ycsb_refines], [ycsb_field_refines],
      [transfer_refines], [simple_vote_equivalent], [vote_initialised],
      [new_order_effects], [crdt_vote_counts]).
    - Consensus of a group: delivered blocks form a hash chain ([local_chain]),
      followers accept a correct leader ([follower_accepts_leader]) and get its
      batches ([batches_replicated]); a group driven by an engine through any
      leaders and batches stores the same blocks on every node
      ([group_commits]), from the configuration files on
      ([deployed_group_commits]).
    - Replication: the nodes' connections fit each other ([replicators_connect],
      on ports that do not clash, [local_ports_disjoint], [distributed_ports])
      and carry a block from the storage of one group to that of another although
      a third of the nodes of either side are silent ([replicators_deliver],
      [block_reaches_group]), because enough fragments survive
      ([enough_fragments_survive]), the shares partition them
      ([shares_partition]), what is written is accepted ([fragments_roundtrip])
      and the codes recover the message ([go_code_recovers],
      [lib_code_recovers]); whole blocks get through past silent senders and
      relays ([direct_replicates], [groups_receive]).
    - Storage and proofs: the databases are interchangeable
      ([connections_agree]); the block storages implement a log
      ([storage_refines_log], [storage_keeps_window]); [lru_correct],
      [block_roundtrip]; Merkle trees are complete, sound, the
      same in every mode and under every schedule ([merkle_complete],
      [merkle_sound], [merkle_modes_agree], [merkle_parallel_deterministic]).
    - Users: requests reach the peer ([requests_reach_peer]), queries are
      answered ([light_client_accepts], [user_reads_chain]) and the monitor
      counts what happened ([monitor_counts]).
    - Deployment: the default configuration reads back as intended
      ([default_config]), every host gets it with its own identity whatever
      connections fail ([hosts_configured]), peers started from it agree on the
      raft participants ([ordering_participants]) and build connections that fit
      ([deployment_comes_up]); keys outlive a restart ([keys_survive_restart]) and
      signatures are accepted where the key is known ([signatures_accepted]).
    - The thread pool runs every task once and comes to rest
      ([pool_runs_every_task]), and a split loop covers its range
      ([push_loop_covers]).
    - Behaviour the code probably does not intend is stated as theorems too, as
      [invalidate_never_returns], [wb_committed_write_lost],
      [unsigned_block_stored], [rejected_fragment_takes_index],
      [unreadable_fragment_terminates], [late_block_kills_peer],
      [steward_other_leader_dies], [epoch_lost], [direct_gap_loses_block],
      [sender_overrun_stuck], [repeated_request_once], [equal_ids_diverge],
      [faults_starve] and the ones in the same files.

    ** Bounds

    Loops whose recursion is not structural take fuel: [popBlocks], which returns
    for every fuel of at least [fuel_for] the decisions; the loops of the
    round-based manager, of [LRU.prune] and of strided workers, whose fuel is
    the size of what they run over; [LCM], with the sum of its arguments; the
    epochs of ISS, with the number of blocks received ahead; GeoBFT's thread,
    with the number of blocks stored.  The theorems show that this is enough;
    loops over containers are structural.  The fuel of a sender's loop is the
    number of its rounds.  The steps of a thread pool are bounded by [measure].
    [max_alloc] bounds vectors by 2^31 digests, numbers of fragments by 2^31 and
    serialized blocks by 2^31 bytes, as the [int] counters of the code do.

    ** Not modelled

    Sockets, threads as such, the HTTP front end of the certificate authority
    (they are input and output); the BFT engine itself, braft, libssh, RocksDB,
    LevelDB, OpenSSL and the erasure codes' libraries (outside the repository);
    the load generators of clients and the initial population of the benchmarks, which draw random rows; the pool of
    erasure-code instances beyond its counter, and concurrent validation of one
    fragment context, which the code serialises per block.

    * Prelude

    Shared vocabulary: the option-based outcome of code that may hit a glog
    [CHECK], the automation every component uses, generic list and fold lemmas,
    and the theory of interleavings that models worker threads performing atomic
    actions on one shared object. *)

From stdpp Require Export base tactics option list gmap strings numbers vector.
From stdpp Require Export relations.
From Stdlib Require Export ZArith Lia.

(** ** Scope and notations *)

Declare Scope mass_scope.
Delimit Scope mass_scope with mass.

(** [CHECK(b); k]: glog's [CHECK] ends the process when the condition is false.
    A computation that may die is an [option]; [None] is the dead process. *)
Notation "'CHECK' b ';;' k" := (if b then k else None)
  (at level 100, b at level 99, k at level 200, right associativity) : mass_scope.

Open Scope mass_scope.

(** ** Hint databases and tactics *)

Create HintDb mass.
Create HintDb mass_rw.

(** Split a boolean test of the goal or of a hypothesis. *)
Ltac bool_cases :=
  repeat match goal with
  | H : (_ && _)%bool = true |- _ => apply andb_true_iff in H; destruct H
  | H : (_ || _)%bool = false |- _ => apply orb_false_iff in H; destruct H
  | H : negb _ = true |- _ => apply negb_true_iff in H
  | H : negb _ = false |- _ => apply negb_false_iff in H
  | H : (_ <? _)%Z = true |- _ => apply Z.ltb_lt in H
  | H : (_ <? _)%Z = false |- _ => apply Z.ltb_ge in H
  | H : (_ <=? _)%Z = true |- _ => apply Z.leb_le in H
  | H : (_ <=? _)%Z = false |- _ => apply Z.leb_gt in H
  | H : (_ =? _)%Z = true |- _ => apply Z.eqb_eq in H
  | H : (_ =? _)%Z = false |- _ => apply Z.eqb_neq in H
  | H : bool_decide _ = true |- _ => apply bool_decide_eq_true in H
  | H : bool_decide _ = false |- _ => apply bool_decide_eq_false in H
  end.

(** Case analysis on every match of the goal, closing the easy branches. *)
Ltac case_all := repeat case_match; simplify_eq/=; try done.

(** Introduce, simplify, and try the local database. *)
Ltac mass := intros; simplify_eq/=; eauto with mass.

(** ** Machine integers *)

(** Two's complement wrap of a mathematical integer to [int32_t]: the value the
    compiled code computes; [in_int32] marks the range where C++ defines it. *)
Definition wrap32 (z : Z) : Z := ((z + 2 ^ 31) mod 2 ^ 32 - 2 ^ 31)%Z.
Definition in_int32 (z : Z) : Prop := (- 2 ^ 31 <= z < 2 ^ 31)%Z.
Definition wrap64u (z : Z) : Z := (z mod 2 ^ 64)%Z.

Lemma wrap32_range z : in_int32 (wrap32 z).
Proof.
  unfold in_int32, wrap32.
  pose proof (Z.mod_pos_bound (z + 2 ^ 31) (2 ^ 32)). lia.
Qed.

Lemma wrap32_id z : in_int32 z → wrap32 z = z.
Proof.
  unfold in_int32, wrap32. intros. rewrite Z.mod_small; lia.
Qed.

Lemma wrap32_add_wrap a b : wrap32 (wrap32 a + b) = wrap32 (a + b).
Proof.
  unfold wrap32. f_equal.
  replace ((a + 2 ^ 31) mod 2 ^ 32 - 2 ^ 31 + b + 2 ^ 31)%Z
    with ((a + 2 ^ 31) mod 2 ^ 32 + b)%Z by lia.
  rewrite Zplus_mod_idemp_l. f_equal. lia.
Qed.

Lemma wrap32_add_comm a b c :
  wrap32 (wrap32 (a + b) + c) = wrap32 (wrap32 (a + c) + b).
Proof. rewrite !wrap32_add_wrap. f_equal. lia. Qed.

#[export] Hint Resolve wrap32_range wrap32_id : mass.

(** ** Permutation-invariant folds *)

(** A fold whose step function commutes on the elements at hand does not depend
    on the order of the list. *)
Lemma fold_left_perm_on {A S} (f : S → A → S) (l l' : list A) s :
  (∀ a b s, a ∈ l → b ∈ l → f (f s a) b = f (f s b) a) →
  l ≡ₚ l' → fold_left f l s = fold_left f l' s.
Proof.
  intros Hc Hp. revert s. induction Hp as [|x l l' Hp IH|x y l|l l1 l2 H1 IH1 H2 IH2];
    intros s; simpl; [done| | |].
  - apply IH. intros a b s0 ??. apply Hc; by right.
  - f_equal. apply Hc; set_solver.
  - rewrite IH1 by done. apply IH2. intros a b s0 ??.
    apply Hc; by rewrite H1.
Qed.

(** The same when only elements at two different positions commute: enough when
    the list has no duplicates. *)
Lemma fold_left_perm_distinct {A S} (f : S → A → S) (l l' : list A) s :
  NoDup l →
  (∀ a b s, a ∈ l → b ∈ l → a ≠ b → f (f s a) b = f (f s b) a) →
  l ≡ₚ l' → fold_left f l s = fold_left f l' s.
Proof.
  intros Hn Hc Hp. revert s Hn Hc.
  induction Hp as [|x l l' Hp IH|x y l|l l1 l2 H1 IH1 H2 IH2];
    intros s Hn Hc; simpl; [done| | |].
  - apply NoDup_cons in Hn as [??]. apply IH; [done|].
    intros a b s0 ???. apply Hc; [by right..|done].
  - f_equal. apply NoDup_cons in Hn as [Hy _].
    apply Hc; set_solver.
  - rewrite IH1 by done. apply IH2; [by rewrite <-H1|].
    intros a b s0 ???. apply Hc; [by rewrite H1..|done].
Qed.

Lemma fold_left_concat {A S} (f : S → A → S) (ls : list (list A)) s :
  fold_left f (concat ls) s = fold_left (λ s l, fold_left f l s) ls s.
Proof.
  revert s. induction ls as [|l ls IH]; intros s; [done|].
  simpl. by rewrite fold_left_app, IH.
Qed.

(** ** Interleavings of worker threads *)

Section interleaving.
Context {A S : Type} (exec : S → A → S).

(** A configuration: the actions each worker still has to perform, and the
    shared object.  One step: some worker performs its next action. *)
Inductive par_step : list (list A) * S → list (list A) * S → Prop :=
| par_step_intro ws s i a rest :
    ws !! i = Some (a :: rest) →
    par_step (ws, s) (<[i := rest]> ws, exec s a).

(** All workers are done. *)
Definition par_done (ws : list (list A)) : Prop := Forall (λ w, w = []) ws.

(** [par_run ws s s']: some schedule of the workers takes [s] to [s']. *)
Definition par_run (ws : list (list A)) (s s' : S) : Prop :=
  ∃ ws', rtc par_step (ws, s) (ws', s') ∧ par_done ws'.

Lemma par_done_concat ws : par_done ws → concat ws = [].
Proof. induction 1 as [|w ws -> _ IH]; [done|]. exact IH. Qed.

Lemma concat_take_head (ws : list (list A)) i a rest :
  ws !! i = Some (a :: rest) →
  concat ws ≡ₚ a :: concat (<[i := rest]> ws).
Proof.
  revert i. induction ws as [|w ws IH]; intros [|i] H; simplify_eq/=; [done|].
  rewrite (IH _ H). by rewrite Permutation_middle.
Qed.

Lemma par_steps_fold c c' :
  rtc par_step c c' →
  ∃ l, concat c.1 ≡ₚ l ++ concat c'.1 ∧ c'.2 = fold_left exec l c.2.
Proof.
  induction 1 as [c|c c1 c' Hs _ (l & Hp & He)]; [by exists []|].
  inversion Hs as [ws s i a rest Hi]; subst; simpl in *.
  exists (a :: l). split; [|done].
  rewrite (concat_take_head _ _ _ _ Hi), Hp. done.
Qed.

(** Every complete schedule performs a permutation of all the actions. *)
Lemma par_run_fold ws s s' :
  par_run ws s s' → ∃ l, concat ws ≡ₚ l ∧ s' = fold_left exec l s.
Proof.
  intros (ws' & Hr & Hd).
  destruct (par_steps_fold _ _ Hr) as (l & Hp & He); simpl in *.
  rewrite (par_done_concat _ Hd), app_nil_r in Hp. eauto.
Qed.

Lemma par_steps_worker pre w post s :
  rtc par_step (pre ++ w :: post, s) (pre ++ [] :: post, fold_left exec w s).
Proof.
  revert s. induction w as [|a w IH]; intros s; [reflexivity|].
  eapply rtc_l; [|apply IH].
  pose proof (par_step_intro (pre ++ (a :: w) :: post) s (length pre) a w) as H.
  rewrite list_lookup_middle in H by done. specialize (H eq_refl).
  by rewrite insert_app_r_alt, Nat.sub_diag in H by lia.
Qed.

Lemma par_steps_seq pre ws s :
  rtc par_step (pre ++ ws, s)
    (pre ++ replicate (length ws) [], fold_left exec (concat ws) s).
Proof.
  revert pre s. induction ws as [|w ws IH]; intros pre s; [reflexivity|].
  etrans; [apply par_steps_worker|].
  specialize (IH (pre ++ [[]]) (fold_left exec w s)).
  rewrite <-!app_assoc in IH; simpl in IH.
  simpl. by rewrite fold_left_app.
Qed.

(** Running the workers one after the other is a schedule: no interleaving
    statement below is vacuous. *)
Lemma par_run_seq ws s : par_run ws s (fold_left exec (concat ws) s).
Proof.
  exists (replicate (length ws) []). split; [apply (par_steps_seq [])|].
  apply Forall_replicate. done.
Qed.

(** Commuting actions: the outcome does not depend on the schedule. *)
Lemma par_run_comm ws s s' :
  (∀ a b s, a ∈ concat ws → b ∈ concat ws →
    exec (exec s a) b = exec (exec s b) a) →
  par_run ws s s' → s' = fold_left exec (concat ws) s.
Proof.
  intros Hc (l & Hp & ->)%par_run_fold. symmetry.
  by apply fold_left_perm_on.
Qed.

Lemma par_run_distinct ws s s' :
  NoDup (concat ws) →
  (∀ a b s, a ∈ concat ws → b ∈ concat ws → a ≠ b →
    exec (exec s a) b = exec (exec s b) a) →
  par_run ws s s' → s' = fold_left exec (concat ws) s.
Proof.
  intros Hn Hc (l & Hp & ->)%par_run_fold. symmetry.
  by apply fold_left_perm_distinct.
Qed.
End interleaving.

(** ** Small list lemmas *)

Lemma fold_left_ext_in {A S} (f g : S → A → S) l s :
  (∀ s a, a ∈ l → f s a = g s a) → fold_left f l s = fold_left g l s.
Proof.
  revert s. induction l as [|a l IH]; intros s H; [done|].
  simpl. rewrite H by left. apply IH. intros. apply H. by right.
Qed.

Lemma NoDup_fmap_ne {A B} (f : A → B) (l : list A) a b :
  NoDup (f <$> l) → a ∈ l → b ∈ l → f a = f b → a = b.
Proof.
  induction l as [|x l IH]; csimpl; [set_solver|].
  rewrite NoDup_cons. intros [Hx Hn] [->|Ha]%elem_of_cons [->|Hb]%elem_of_cons E; auto.
  - destruct Hx. rewrite E. by apply list_elem_of_fmap_2.
  - destruct Hx. rewrite <-E. by apply list_elem_of_fmap_2.
Qed.

Lemma concat_fmap_elem {A B} (f : A → list B) l b :
  b ∈ concat (f <$> l) ↔ ∃ a, a ∈ l ∧ b ∈ f a.
Proof.
  rewrite list_elem_of_In, in_concat. setoid_rewrite <-list_elem_of_In.
  setoid_rewrite list_elem_of_fmap. naive_solver.
Qed.
