(* ===== verification/Zpp.v ===== *)
(** * Zpp: the serialization interface

    Every message, key and value of the system goes through the zpp_bits
    library, which is not part of the repository.  It is a parameter here: the
    class [Zpp] has one codec per C++ type the sources serialize, and the class
    [ZppLaws] states the documented behaviour the sources rely on, namely that
    reading back what was written gives the value and leaves the rest of the
    buffer.  [archive(a, b, c)] writes or reads its arguments in order, which is
    [seq_codec].  [LE] is a concrete little-endian instance of both classes. *)

From S2P Require Import Prelude.
From Stdlib Require Import Floats.SpecFloat.

(** [double]: the binary64 numbers with the operations the sources use. *)
Definition double := spec_float.
Definition dadd : double → double → double := SFadd 53 1024.
Definition dsub : double → double → double := SFsub 53 1024.
Definition dmul : double → double → double := SFmul 53 1024.
Definition dltb : double → double → bool := SFltb.
Definition dleb : double → double → bool := SFleb.
(** Conversion from an integer type. *)
Definition dofZ (z : Z) : double := binary_normalize 53 1024 z 0 false.
Definition dzero : double := S754_zero false.
Definition done1 : double := S754_finite false (2 ^ 52)%positive (-52).

#[export] Instance double_eq_dec : EqDecision double.
Proof. unfold double. solve_decision. Defined.

Record codec (A : Type) := Codec {
  out : A → string;
  inp : string → option (A * string)
}.
Arguments Codec {A} _ _.
Arguments out {A} _ _.
Arguments inp {A} _ _.

(** Reading back a written value of the domain [P], whatever follows it. *)
Definition codec_ok {A} (P : A → Prop) (c : codec A) : Prop :=
  ∀ a r, P a → inp c (out c a +:+ r) = Some (a, r).

(** [archive(a, b)]. *)
Definition seq_codec {A B} (ca : codec A) (cb : codec B) : codec (A * B) :=
  Codec (λ p, out ca p.1 +:+ out cb p.2)
    (λ s, match inp ca s with
          | Some (a, s1) =>
              match inp cb s1 with
              | Some (b, s2) => Some ((a, b), s2)
              | None => None
              end
          | None => None
          end).

(** A class serialized through the tuple of its members. *)
Definition iso_codec {A B} (f : A → B) (g : B → A) (c : codec A) : codec B :=
  Codec (λ b, out c (g b))
    (λ s, match inp c s with Some (a, r) => Some (f a, r) | None => None end).

(** [in(x)] on a buffer that holds one value; trailing bytes are ignored. *)
Definition read {A} (c : codec A) (s : string) : option A := fst <$> inp c s.

Class Zpp := {
  c_i32 : codec Z;
  c_i64 : codec Z;
  c_u32 : codec Z;
  c_u64 : codec Z;
  c_byte : codec Z;
  c_f64 : codec double;
  c_sv : codec string;
  c_arr : ∀ n, codec (vec Z n);
  c_vec : ∀ {A}, codec A → codec (list A)
}.

(** Strings and vectors carry a 32-bit length. *)
Definition sv_ok (s : string) : Prop := (Z.of_nat (String.length s) < 2 ^ 32)%Z.
Definition vec_ok {A} (P : A → Prop) (l : list A) : Prop :=
  Forall P l ∧ (Z.of_nat (length l) < 2 ^ 32)%Z.
Definition in_int64 (z : Z) : Prop := (- 2 ^ 63 <= z < 2 ^ 63)%Z.
Definition in_uint (w : Z) (z : Z) : Prop := (0 <= z < 2 ^ w)%Z.
Definition arr_ok {n} (v : vec Z n) : Prop := Forall (in_uint 8) (vec_to_list v).
(** The spec floats that are binary64 numbers. *)
Definition f64_ok (d : double) : Prop := valid_binary 53 1024 d = true.

Class ZppLaws (ZP : Zpp) : Prop := {
  i32_law : codec_ok in_int32 c_i32;
  i64_law : codec_ok in_int64 c_i64;
  u32_law : codec_ok (in_uint 32) c_u32;
  u64_law : codec_ok (in_uint 64) c_u64;
  byte_law : codec_ok (in_uint 8) c_byte;
  f64_law : codec_ok f64_ok c_f64;
  sv_law : codec_ok sv_ok c_sv;
  arr_law : ∀ n, codec_ok arr_ok (c_arr n);
  vec_law : ∀ A (P : A → Prop) (c : codec A),
    codec_ok P c → codec_ok (vec_ok P) (c_vec c);
  (** four bytes are needed to read an [int] *)
  i32_short : ∀ s, (String.length s < 4)%nat → inp c_i32 s = None
}.

(** ** Generic codec lemmas *)

Lemma string_app_assoc (a b c : string) : (a +:+ b) +:+ c = a +:+ (b +:+ c).
Proof. induction a as [|x a IH]; [done|]. exact (f_equal (String x) IH). Qed.

Lemma string_app_nil_r (a : string) : a +:+ EmptyString = a.
Proof. induction a as [|x a IH]; [done|]. exact (f_equal (String x) IH). Qed.

Lemma seq_codec_ok {A B} (P : A → Prop) (Q : B → Prop) ca cb :
  codec_ok P ca → codec_ok Q cb →
  codec_ok (λ p, P p.1 ∧ Q p.2) (seq_codec ca cb).
Proof.
  intros Ha Hb [a b] r [HP HQ]; simpl in *.
  by rewrite string_app_assoc, (Ha _ _ HP), (Hb _ _ HQ).
Qed.

Lemma iso_codec_ok {A B} (f : A → B) (g : B → A) (P : A → Prop) (Q : B → Prop) c :
  (∀ b, f (g b) = b) → codec_ok P c → (∀ b, Q b → P (g b)) →
  codec_ok Q (iso_codec f g c).
Proof. intros Hfg Hc HQ b r Hb. simpl. by rewrite (Hc _ _ (HQ _ Hb)), Hfg. Qed.

Lemma codec_ok_weaken {A} (P Q : A → Prop) c :
  (∀ a, Q a → P a) → codec_ok P c → codec_ok Q c.
Proof. intros H Hc a r Ha. by apply Hc, H. Qed.

Lemma read_out {A} (P : A → Prop) c a : codec_ok P c → P a → read c (out c a) = Some a.
Proof.
  intros Hc Ha. unfold read. specialize (Hc a EmptyString Ha).
  rewrite string_app_nil_r in Hc. by rewrite Hc.
Qed.

Lemma out_inj {A} (P : A → Prop) (c : codec A) a b :
  codec_ok P c → P a → P b → out c a = out c b → a = b.
Proof.
  intros Hc Ha Hb E. pose proof (read_out P c a Hc Ha) as H1.
  rewrite E, (read_out P c b Hc Hb) in H1. congruence.
Qed.

Lemma out_nonempty {A} (P : A → Prop) (c : codec A) a b :
  codec_ok P c → P a → P b → a ≠ b → out c a ≠ EmptyString.
Proof.
  intros Hc Ha Hb Hne E. pose proof (Hc a (out c b) Ha) as H1. rewrite E in H1.
  pose proof (Hc b EmptyString Hb) as H2. rewrite string_app_nil_r in H2.
  change (EmptyString +:+ out c b) with (out c b) in H1. congruence.
Qed.

#[export] Hint Resolve i32_law i64_law u32_law u64_law byte_law f64_law sv_law
  arr_law vec_law seq_codec_ok : mass.

(** The law of a class's codec from the laws of its members' codecs. *)
Ltac codec_law :=
  eapply iso_codec_ok; [by intros []|eauto 10 with mass|intros [] H; exact H].

(** ** A concrete instance *)

Module LE.
Fixpoint enc (n : nat) (z : Z) : string :=
  match n with
  | O => EmptyString
  | S n => String (Ascii.ascii_of_N (Z.to_N (z mod 256))) (enc n (z / 256))
  end.

Fixpoint dec (n : nat) (s : string) : option (Z * string) :=
  match n, s with
  | O, s => Some (0%Z, s)
  | S n, String c s =>
      match dec n s with
      | Some (z, r) => Some ((Z.of_N (Ascii.N_of_ascii c) + 256 * z)%Z, r)
      | None => None
      end
  | S _, EmptyString => None
  end.

Definition uint (n : nat) : codec Z := Codec (enc n) (dec n).

Definition sint (n : nat) : codec Z :=
  let w := (8 * Z.of_nat n)%Z in
  Codec (λ z, enc n (z mod 2 ^ w))
    (λ s, match dec n s with
          | Some (z, r) => Some (((z + 2 ^ (w - 1)) mod 2 ^ w - 2 ^ (w - 1))%Z, r)
          | None => None
          end).

Fixpoint take_str (n : nat) (s : string) : option (string * string) :=
  match n, s with
  | O, s => Some (EmptyString, s)
  | S n, String c s =>
      match take_str n s with Some (a, r) => Some (String c a, r) | None => None end
  | S _, EmptyString => None
  end.

Definition sv : codec string :=
  Codec (λ s, enc 4 (Z.of_nat (String.length s)) +:+ s)
    (λ s, match dec 4 s with
          | Some (n, r) => take_str (Z.to_nat n) r
          | None => None
          end).

Fixpoint seq_out {A} (c : codec A) (l : list A) : string :=
  match l with [] => EmptyString | a :: l => out c a +:+ seq_out c l end.

Fixpoint seq_inp {A} (c : codec A) (n : nat) (s : string) : option (list A * string) :=
  match n with
  | O => Some ([], s)
  | S n =>
      match inp c s with
      | Some (a, s1) =>
          match seq_inp c n s1 with
          | Some (l, r) => Some (a :: l, r)
          | None => None
          end
      | None => None
      end
  end.

Definition vec {A} (c : codec A) : codec (list A) :=
  Codec (λ l, enc 4 (Z.of_nat (length l)) +:+ seq_out c l)
    (λ s, match dec 4 s with
          | Some (n, r) => seq_inp c (Z.to_nat n) r
          | None => None
          end).

Fixpoint arr_inp (n : nat) (s : string) : option (vector.vec Z n * string) :=
  match n with
  | O => Some ([#], s)
  | S n =>
      match dec 1 s with
      | Some (z, s1) =>
          match arr_inp n s1 with
          | Some (v, r) => Some (z ::: v, r)
          | None => None
          end
      | None => None
      end
  end.

Definition arr (n : nat) : codec (vector.vec Z n) :=
  Codec (λ v, seq_out (uint 1) (vec_to_list v)) (arr_inp n).

Definition f64 : codec double :=
  Codec
    (λ d, match d with
          | S754_zero s => enc 1 (if s then 1 else 0)
          | S754_infinity s => enc 1 (if s then 3 else 2)
          | S754_nan => enc 1 4
          | S754_finite s m e =>
              enc 1 (if s then 6 else 5) +:+ (enc 8 (Zpos m) +:+ out (sint 4) e)
          end)
    (λ s, match dec 1 s with
          | Some (0%Z, r) => Some (S754_zero false, r)
          | Some (1%Z, r) => Some (S754_zero true, r)
          | Some (2%Z, r) => Some (S754_infinity false, r)
          | Some (3%Z, r) => Some (S754_infinity true, r)
          | Some (4%Z, r) => Some (S754_nan, r)
          | Some (t, r) =>
              match dec 8 r with
              | Some (Zpos m, r1) =>
                  match inp (sint 4) r1 with
                  | Some (e, r2) => Some (S754_finite (6 =? t)%Z m e, r2)
                  | None => None
                  end
              | _ => None
              end
          | None => None
          end).

#[export] Instance zpp : Zpp := {|
  c_i32 := sint 4; c_i64 := sint 8; c_u32 := uint 4; c_u64 := uint 8;
  c_byte := uint 1; c_f64 := f64; c_sv := sv; c_arr := arr; c_vec := @vec
|}.

Lemma dec_enc n z r :
  (0 <= z < 256 ^ Z.of_nat n)%Z → dec n (enc n z +:+ r) = Some (z, r).
Proof.
  revert z. induction n as [|n IH]; intros z Hz.
  - simpl in *. f_equal. f_equal. lia.
  - rewrite Nat2Z.inj_succ, Z.pow_succ_r in Hz by lia.
    pose proof (Z.mod_pos_bound z 256). pose proof (Z.div_mod z 256).
    simpl. rewrite IH.
    2: { split; [apply Z.div_pos; lia|]. apply Z.div_lt_upper_bound; lia. }
    rewrite Ascii.N_ascii_embedding by lia. do 2 f_equal. lia.
Qed.

Lemma uint_ok n : codec_ok (in_uint (8 * Z.of_nat n)) (uint n).
Proof.
  intros z r Hz. apply dec_enc. unfold in_uint in Hz.
  by rewrite Z.pow_mul_r in Hz by lia.
Qed.

Lemma sint_ok n : (0 < n)%nat →
  codec_ok (λ z, - 2 ^ (8 * Z.of_nat n - 1) <= z < 2 ^ (8 * Z.of_nat n - 1))%Z (sint n).
Proof.
  intros Hn z r Hz. cbn -[Z.pow Z.modulo Z.mul Z.sub].
  set (w := (8 * Z.of_nat n)%Z) in *.
  assert (2 ^ w = 2 * 2 ^ (w - 1))%Z as Hw.
  { rewrite <-Z.pow_succ_r by lia. f_equal. lia. }
  assert (0 < 2 ^ (w - 1))%Z by (apply Z.pow_pos_nonneg; lia).
  rewrite dec_enc.
  2: { replace (256 ^ Z.of_nat n)%Z with (2 ^ w)%Z by (unfold w; by rewrite Z.pow_mul_r by lia).
       apply Z.mod_pos_bound. lia. }
  do 2 f_equal.
  rewrite Zplus_mod_idemp_l, Z.mod_small; lia.
Qed.

Lemma take_str_app s r : take_str (String.length s) (s +:+ r) = Some (s, r).
Proof. induction s as [|c s IH]; [done|]. simpl. by rewrite IH. Qed.

Lemma len_ok (n : nat) (r : string) :
  (Z.of_nat n < 2 ^ 32)%Z →
  dec 4 (enc 4 (Z.of_nat n) +:+ r) = Some (Z.of_nat n, r).
Proof. intros H. apply dec_enc. simpl (Z.of_nat 4). lia. Qed.

Lemma sv_rt : codec_ok sv_ok sv.
Proof.
  intros s r Hs. cbn -[enc dec]. rewrite string_app_assoc.
  rewrite len_ok by done. by rewrite Nat2Z.id, take_str_app.
Qed.

Lemma seq_rt {A} (P : A → Prop) (c : codec A) l r :
  codec_ok P c → Forall P l → seq_inp c (length l) (seq_out c l +:+ r) = Some (l, r).
Proof.
  intros Hc. induction 1 as [|a l Ha _ IH]; [done|].
  simpl. by rewrite string_app_assoc, (Hc _ _ Ha), IH.
Qed.

Lemma vec_rt A (P : A → Prop) (c : codec A) : codec_ok P c → codec_ok (vec_ok P) (vec c).
Proof.
  intros Hc l r [Hl Hn]. cbn -[enc dec]. rewrite string_app_assoc.
  rewrite len_ok by done. by rewrite Nat2Z.id, (seq_rt P).
Qed.

Lemma arr_rt n : codec_ok arr_ok (arr n).
Proof.
  intros v r. unfold arr_ok. cbn. induction v as [|z n v IH]; [done|].
  cbn [vec_to_list seq_out arr_inp]. intros Hv. inversion Hv as [|?? Hz Hv']; subst.
  rewrite string_app_assoc. change (out (uint 1) z) with (enc 1 z).
  rewrite dec_enc by (unfold in_uint in Hz; simpl (Z.of_nat 1); lia).
  by rewrite IH.
Qed.

Lemma tag_ok (t : Z) (r : string) :
  (0 <= t < 256)%Z → dec 1 (enc 1 t +:+ r) = Some (t, r).
Proof. intros H. apply dec_enc. simpl (Z.of_nat 1). lia. Qed.

Lemma digits_bound (m : positive) : (Zpos m < 2 ^ Zpos (digits2_pos m))%Z.
Proof.
  induction m as [m IH|m IH|]; simpl digits2_pos; [| |done];
    rewrite Pos2Z.inj_succ, Z.pow_succ_r by done; lia.
Qed.

(** A binary64 number has a 53-bit mantissa and a small exponent. *)
Lemma f64_ok_bounds s m e :
  f64_ok (S754_finite s m e) → (Zpos m < 2 ^ 64)%Z ∧ in_int32 e.
Proof.
  unfold f64_ok, valid_binary, bounded, canonical_mantissa, fexp, emin, in_int32.
  intros [H1%Zeq_bool_eq H2%Z.leb_le]%andb_prop.
  pose proof (digits_bound m) as Hd.
  assert (2 ^ Zpos (digits2_pos m) <= 2 ^ 53)%Z by (apply Z.pow_le_mono_r; lia). lia.
Qed.

Lemma f64_rt : codec_ok f64_ok f64.
Proof.
  intros d r Hd. unfold f64, out, inp.
  destruct d as [[]|[]| |s m e]; try (by rewrite tag_ok by lia).
  apply f64_ok_bounds in Hd as [Hm He].
  assert (inp (sint 4) (out (sint 4) e +:+ r) = Some (e, r)) as Hs
    by (apply (sint_ok 4); [lia|done]).
  rewrite string_app_assoc, tag_ok by (destruct s; lia).
  rewrite string_app_assoc.
  destruct s; rewrite dec_enc by (simpl (Z.of_nat 8); lia);
    unfold inp, out in Hs; by rewrite Hs.
Qed.

Lemma i32_short_le s : (String.length s < 4)%nat → inp (sint 4) s = None.
Proof.
  intros H. do 4 (destruct s as [|? s]; [done|]). simpl in H. lia.
Qed.

#[export] Instance zpp_laws : ZppLaws zpp.
Proof.
  constructor.
  - intros z r H. by apply (sint_ok 4); [lia|].
  - intros z r H. by apply (sint_ok 8); [lia|].
  - apply (uint_ok 4).
  - apply (uint_ok 8).
  - apply (uint_ok 1).
  - apply f64_rt.
  - apply sv_rt.
  - apply arr_rt.
  - apply vec_rt.
  - apply i32_short_le.
Qed.
End LE.
