(* ===== verification/Proto.v ===== *)
(** * Proto: the messages (include/proto)

    The data the components exchange, one record per class, the comparison of
    digests and transaction ids, and the serialization of each class in the
    member order of its [serialize] function, over the codecs of [Zpp]. *)

From S2P Require Import Prelude Zpp.

(** [std::array<uint8_t, 64>] and [std::array<uint8_t, 32>]. *)
Definition DigestString := vec Z 64.
Definition HashString := vec Z 32.
Definition tid_type := DigestString.

(** [std::memcmp] on the first [n] bytes: the sign of the first difference. *)
Fixpoint memcmp (n : nat) (a b : list Z) : Z :=
  match n, a, b with
  | S n, x :: a, y :: b =>
      if (x <? y)%Z then (-1)%Z else if (y <? x)%Z then 1%Z else memcmp n a b
  | _, _, _ => 0%Z
  end.

Definition CompareTID (lhs rhs : tid_type) : Z :=
  memcmp (length (vec_to_list lhs)) (vec_to_list lhs) (vec_to_list rhs).

Definition CompareDigest (lhs rhs : DigestString) : Z :=
  memcmp (length (vec_to_list lhs)) (vec_to_list lhs) (vec_to_list rhs).

(** ** user_request.h *)

Record SignatureString := mkSignature { ski : string; digest : DigestString }.

Record UserRequest := mkUserRequest {
  ccName : string; funcName : string; args : string; nonce : Z
}.

Record Envelop := mkEnvelop { payload : string; signature : SignatureString }.

(** ** read_write_set.h *)

Record KV := mkKV { kv_key : string; kv_value : string }.
Abbreviation KVList := (list KV).

Record TxReadWriteSet := mkRWSet {
  requestDigest : DigestString; retValue : string; retCode : Z;
  reads : KVList; writes : KVList
}.

(** The constructor: the return code starts at -1, which is PENDING. *)
Definition newRWSet (d : DigestString) : TxReadWriteSet :=
  mkRWSet d EmptyString (-1) [] [].

(** ** transaction.h *)

Inductive ExecutionResult := COMMIT | PENDING | ABORT | ABORT_NO_RETRY.

#[export] Instance ExecutionResult_eq_dec : EqDecision ExecutionResult.
Proof. solve_decision. Defined.

Definition result_code (r : ExecutionResult) : Z :=
  match r with
  | COMMIT => 0 | PENDING => -1 | ABORT => 1 | ABORT_NO_RETRY => 2
  end%Z.

Record Transaction := mkTxn {
  tid : tid_type; envelop : Envelop; userRequest : UserRequest;
  executionResult : TxReadWriteSet
}.

Definition txn_reads (t : Transaction) : KVList := reads (executionResult t).
Definition txn_writes (t : Transaction) : KVList := writes (executionResult t).

(** [txn->setExecutionResult(er)]. *)
Definition setExecutionResult (er : ExecutionResult) (t : Transaction) : Transaction :=
  let e := executionResult t in
  mkTxn (tid t) (envelop t) (userRequest t)
    (mkRWSet (requestDigest e) (retValue e) (result_code er) (reads e) (writes e)).

(** [txn->getExecutionResult() == er]: the stored code is compared. *)
Definition hasResult (er : ExecutionResult) (t : Transaction) : bool :=
  Z.eqb (retCode (executionResult t)) (result_code er).

(** [txn->setRetValue(chaincode->reset(txn->getReads(), txn->getWrites()))]. *)
Definition setRWSets (ret : string) (rs ws : KVList) (t : Transaction) : Transaction :=
  let e := executionResult t in
  mkTxn (tid t) (envelop t) (userRequest t)
    (mkRWSet (requestDigest e) ret (retCode e) rs ws).

Definition setRetValue (ret : string) (t : Transaction) : Transaction :=
  setRWSets ret (txn_reads t) (txn_writes t) t.

Definition DestroyTransaction (t : Transaction) : Envelop * TxReadWriteSet :=
  (envelop t, executionResult t).

(** ** block.h and block_order.h *)

Record Header := mkHeader {
  number : Z; previousHash : HashString; dataHash : HashString
}.

Record Body := mkBody { userRequests : list Envelop }.

Record ExecuteResult := mkExecuteResult {
  txReadWriteSet : list TxReadWriteSet; transactionFilter : list Z
}.

Abbreviation SignaturePair := (string * SignatureString)%type.

Record Metadata := mkMetadata {
  consensusSignatures : list SignaturePair; validateSignatures : list SignaturePair
}.

Record Block := mkBlock {
  header : Header; body : Body; executeResult : ExecuteResult; metadata : Metadata
}.

(** The value-initialised header and the default block. *)
Definition newHeader : Header := mkHeader 0 (vreplicate 32 0%Z) (vreplicate 32 0%Z).
Definition newBlock : Block :=
  mkBlock newHeader (mkBody []) (mkExecuteResult [] []) (mkMetadata [] []).

Record BlockOrder := mkBlockOrder {
  bo_chainId : Z; bo_blockId : Z; bo_voteChainId : Z; bo_voteBlockId : Z
}.

Record SignedBlockOrder := mkSignedBlockOrder {
  serializedBlockOrder : string; sb_signatures : list SignatureString
}.

(** [Body::findEnvelop]: the first envelope with the given digest. *)
Fixpoint findEnvelop (l : list Envelop) (d : DigestString) : option Envelop :=
  match l with
  | [] => None
  | e :: l =>
      if negb (CompareDigest (digest (signature e)) d =? 0)%Z then findEnvelop l d
      else Some e
  end.

(** [ExecuteResult::findRWSet]: the read-write set and the validity byte at the
    same index; the filter is indexed without a bounds check. *)
Fixpoint findRWSet (l : list TxReadWriteSet) (filter : list Z) (d : DigestString)
    : option (TxReadWriteSet * option Z) :=
  match l with
  | [] => None
  | r :: l =>
      if negb (CompareDigest (requestDigest r) d =? 0)%Z then findRWSet l (tail filter) d
      else Some (r, head filter)
  end.

Record PosList := mkPosList {
  valid : bool; headerPos : nat; bodyPos : nat; execResultPos : nat;
  metadataPos : nat; endPos : nat
}.

(** ** Serialization *)

Section serialize.
Context {ZP : Zpp}.

Definition c_signature : codec SignatureString :=
  iso_codec (λ p, mkSignature p.1 p.2) (λ s, (ski s, digest s))
    (seq_codec c_sv (c_arr 64)).

Definition c_userRequest : codec UserRequest :=
  iso_codec (λ p, mkUserRequest p.1.1.1 p.1.1.2 p.1.2 p.2)
    (λ u, (ccName u, funcName u, args u, nonce u))
    (seq_codec (seq_codec (seq_codec c_sv c_sv) c_sv) c_i64).

Definition c_envelop : codec Envelop :=
  iso_codec (λ p, mkEnvelop p.1 p.2) (λ e, (payload e, signature e))
    (seq_codec c_sv c_signature).

Definition c_kv : codec KV :=
  iso_codec (λ p, mkKV p.1 p.2) (λ k, (kv_key k, kv_value k)) (seq_codec c_sv c_sv).

Definition c_rwset : codec TxReadWriteSet :=
  iso_codec (λ p, mkRWSet p.1.1.1.1 p.1.1.1.2 p.1.1.2 p.1.2 p.2)
    (λ r, (requestDigest r, retValue r, retCode r, reads r, writes r))
    (seq_codec (seq_codec (seq_codec (seq_codec (c_arr 64) c_sv) c_i32)
      (c_vec c_kv)) (c_vec c_kv)).

Definition c_header : codec Header :=
  iso_codec (λ p, mkHeader p.1.1 p.1.2 p.2)
    (λ h, (number h, previousHash h, dataHash h))
    (seq_codec (seq_codec c_u64 (c_arr 32)) (c_arr 32)).

Definition c_body : codec Body := iso_codec mkBody userRequests (c_vec c_envelop).

Definition c_executeResult : codec ExecuteResult :=
  iso_codec (λ p, mkExecuteResult p.1 p.2)
    (λ e, (txReadWriteSet e, transactionFilter e))
    (seq_codec (c_vec c_rwset) (c_vec c_byte)).

Definition c_metadata : codec Metadata :=
  iso_codec (λ p, mkMetadata p.1 p.2)
    (λ m, (consensusSignatures m, validateSignatures m))
    (seq_codec (c_vec (seq_codec c_sv c_signature)) (c_vec (seq_codec c_sv c_signature))).

Definition c_blockOrder : codec BlockOrder :=
  iso_codec (λ p, mkBlockOrder p.1.1.1 p.1.1.2 p.1.2 p.2)
    (λ b, (bo_chainId b, bo_blockId b, bo_voteChainId b, bo_voteBlockId b))
    (seq_codec (seq_codec (seq_codec c_i32 c_i32) c_i32) c_i32).

Definition c_signedBlockOrder : codec SignedBlockOrder :=
  iso_codec (λ p, mkSignedBlockOrder p.1 p.2)
    (λ s, (serializedBlockOrder s, sb_signatures s))
    (seq_codec c_sv (c_vec c_signature)).

(** [NewTransactionFromEnvelop]: [nullptr] when the payload does not parse. *)
Definition NewTransactionFromEnvelop (e : Envelop) : option Transaction :=
  match read c_userRequest (payload e) with
  | None => None
  | Some u => Some (mkTxn (digest (signature e)) e u (newRWSet (digest (signature e))))
  end.

(** [Block::serializeToString] with [pos = 0]. *)
Definition serializeToString (b : Block) : string * PosList :=
  let h := out c_header (header b) in
  let y := out c_body (body b) in
  let e := out c_executeResult (executeResult b) in
  let m := out c_metadata (metadata b) in
  let n1 := String.length h in
  let n2 := n1 + String.length y in
  let n3 := n2 + String.length e in
  (h +:+ (y +:+ (e +:+ m)), mkPosList true 0 n1 n2 n3 (n3 + String.length m)).

(** [Block::deserializeFromString(0)]: the members are read in order and the
    first failure leaves the remaining ones, and the position list, as they
    are.  A position is the number of bytes consumed so far. *)
Definition deserializeFromString (raw : string) (b : Block) : PosList * Block :=
  let pos (r : string) := String.length raw - String.length r in
  match inp c_header raw with
  | None => (mkPosList false 0 0 0 0 0, b)
  | Some (h, r1) =>
      let b1 := mkBlock h (body b) (executeResult b) (metadata b) in
      match inp c_body r1 with
      | None => (mkPosList false 0 (pos r1) 0 0 0, b1)
      | Some (y, r2) =>
          let b2 := mkBlock h y (executeResult b) (metadata b) in
          match inp c_executeResult r2 with
          | None => (mkPosList false 0 (pos r1) (pos r2) 0 0, b2)
          | Some (e, r3) =>
              let b3 := mkBlock h y e (metadata b) in
              match inp c_metadata r3 with
              | None => (mkPosList false 0 (pos r1) (pos r2) (pos r3) 0, b3)
              | Some (m, r4) =>
                  (mkPosList true 0 (pos r1) (pos r2) (pos r3) (pos r4), mkBlock h y e m)
              end
          end
      end
  end.
End serialize.

(** The values the serialization carries faithfully: bytes are bytes, integers
    fit their width and lengths fit 32 bits. *)
Definition signature_ok (s : SignatureString) : Prop := sv_ok (ski s) ∧ arr_ok (digest s).
Definition userRequest_ok (u : UserRequest) : Prop :=
  ((sv_ok (ccName u) ∧ sv_ok (funcName u)) ∧ sv_ok (args u)) ∧ in_int64 (nonce u).
Definition envelop_ok (e : Envelop) : Prop := sv_ok (payload e) ∧ signature_ok (signature e).
Definition kv_ok (k : KV) : Prop := sv_ok (kv_key k) ∧ sv_ok (kv_value k).
Definition rwset_ok (r : TxReadWriteSet) : Prop :=
  (((arr_ok (requestDigest r) ∧ sv_ok (retValue r)) ∧ in_int32 (retCode r)) ∧
    vec_ok kv_ok (reads r)) ∧ vec_ok kv_ok (writes r).
Definition header_ok (h : Header) : Prop :=
  (in_uint 64 (number h) ∧ arr_ok (previousHash h)) ∧ arr_ok (dataHash h).
Definition sigpair_ok (p : SignaturePair) : Prop := sv_ok p.1 ∧ signature_ok p.2.
Definition block_ok (b : Block) : Prop :=
  header_ok (header b) ∧ vec_ok envelop_ok (userRequests (body b)) ∧
  (vec_ok rwset_ok (txReadWriteSet (executeResult b)) ∧
   vec_ok (in_uint 8) (transactionFilter (executeResult b))) ∧
  (vec_ok sigpair_ok (consensusSignatures (metadata b)) ∧
   vec_ok sigpair_ok (validateSignatures (metadata b))).
Definition blockOrder_ok (b : BlockOrder) : Prop :=
  ((in_int32 (bo_chainId b) ∧ in_int32 (bo_blockId b)) ∧ in_int32 (bo_voteChainId b)) ∧
  in_int32 (bo_voteBlockId b).

(** ** The order of transaction ids *)

Lemma memcmp_refl n a : memcmp n a a = 0%Z.
Proof.
  revert a. induction n as [|n IH]; intros [|x a]; [done..|].
  simpl. by rewrite Z.ltb_irrefl.
Qed.

Lemma memcmp_eq n a b : length a = n → length b = n → memcmp n a b = 0%Z → a = b.
Proof.
  revert a b. induction n as [|n IH]; intros [|x a] [|y b]; simpl; try done.
  intros [= Ha] [= Hb] H. destruct (Z.ltb_spec x y), (Z.ltb_spec y x); try done.
  f_equal; [lia|]. by apply IH.
Qed.

Lemma memcmp_anti n a b : memcmp n b a = (- memcmp n a b)%Z.
Proof.
  revert a b. induction n as [|n IH]; intros [|x a] [|y b]; try done.
  simpl. destruct (Z.ltb_spec x y), (Z.ltb_spec y x); try done; lia.
Qed.

Lemma memcmp_lt_trans n a b c :
  length a = n → length b = n → length c = n →
  (memcmp n a b < 0)%Z → (memcmp n b c < 0)%Z → (memcmp n a c < 0)%Z.
Proof.
  revert a b c. induction n as [|n IH]; intros [|x a] [|y b] [|z c]; simpl; try done.
  intros [= Ha] [= Hb] [= Hc].
  destruct (Z.ltb_spec x y), (Z.ltb_spec y x), (Z.ltb_spec y z), (Z.ltb_spec z y),
    (Z.ltb_spec x z), (Z.ltb_spec z x); try lia.
  eauto.
Qed.

Definition tid_lt (a b : tid_type) : Prop := (CompareTID a b < 0)%Z.

#[export] Instance tid_lt_dec : RelDecision tid_lt.
Proof. intros a b. unfold tid_lt. apply _. Defined.

Lemma CompareTID_refl a : CompareTID a a = 0%Z.
Proof. apply memcmp_refl. Qed.

Lemma CompareTID_eq a b : CompareTID a b = 0%Z → a = b.
Proof.
  intros H. apply vec_to_list_inj2.
  apply (memcmp_eq (length (vec_to_list a))); [done| |done].
  by rewrite !length_vec_to_list.
Qed.

Lemma CompareTID_anti a b : CompareTID b a = (- CompareTID a b)%Z.
Proof.
  unfold CompareTID. rewrite !length_vec_to_list. apply memcmp_anti.
Qed.

#[export] Instance tid_lt_strict : StrictOrder tid_lt.
Proof.
  split.
  - intros a H. unfold tid_lt in H. rewrite CompareTID_refl in H. lia.
  - intros a b c. unfold tid_lt, CompareTID. rewrite !length_vec_to_list.
    apply memcmp_lt_trans; apply length_vec_to_list.
Qed.

Lemma tid_lt_trichotomy a b : tid_lt a b ∨ a = b ∨ tid_lt b a.
Proof.
  unfold tid_lt. rewrite (CompareTID_anti a b).
  destruct (Z.lt_trichotomy (CompareTID a b) 0) as [|[H|]]; [by left| |right; right; lia].
  right; left. by apply CompareTID_eq.
Qed.

Lemma tid_lt_irrefl a : ¬ tid_lt a a.
Proof. apply irreflexivity, _. Qed.

Lemma tid_lt_asym a b : tid_lt a b → ¬ tid_lt b a.
Proof. intros H1 H2. apply (tid_lt_irrefl a). by transitivity b. Qed.

#[export] Hint Resolve tid_lt_irrefl : mass.

(** ** Serialization lemmas *)

Section codec_laws.
Context `{HZ : !ZppLaws ZP}.

Lemma signature_codec_ok : codec_ok signature_ok c_signature.
Proof. codec_law. Qed.
#[local] Hint Resolve signature_codec_ok : mass.

Lemma envelop_codec_ok : codec_ok envelop_ok c_envelop.
Proof. codec_law. Qed.
#[local] Hint Resolve envelop_codec_ok : mass.

Lemma userRequest_codec_ok : codec_ok userRequest_ok c_userRequest.
Proof. codec_law. Qed.

Lemma kv_codec_ok : codec_ok kv_ok c_kv.
Proof. codec_law. Qed.
#[local] Hint Resolve kv_codec_ok : mass.

Lemma rwset_codec_ok : codec_ok rwset_ok c_rwset.
Proof. codec_law. Qed.
#[local] Hint Resolve rwset_codec_ok : mass.

Lemma header_codec_ok : codec_ok header_ok c_header.
Proof. codec_law. Qed.

Lemma body_codec_ok : codec_ok (λ b, vec_ok envelop_ok (userRequests b)) c_body.
Proof. codec_law. Qed.

Lemma executeResult_codec_ok :
  codec_ok (λ e, vec_ok rwset_ok (txReadWriteSet e) ∧
                 vec_ok (in_uint 8) (transactionFilter e)) c_executeResult.
Proof. codec_law. Qed.

Lemma sigpair_codec_ok : codec_ok sigpair_ok (seq_codec c_sv c_signature).
Proof. apply (seq_codec_ok sv_ok signature_ok); eauto with mass. Qed.
#[local] Hint Resolve sigpair_codec_ok : mass.

Lemma metadata_codec_ok :
  codec_ok (λ m, vec_ok sigpair_ok (consensusSignatures m) ∧
                 vec_ok sigpair_ok (validateSignatures m)) c_metadata.
Proof.
  apply (iso_codec_ok _ _ (λ p, vec_ok sigpair_ok p.1 ∧ vec_ok sigpair_ok p.2));
    [by intros []| |intros [] H; exact H].
  apply (seq_codec_ok (vec_ok sigpair_ok) (vec_ok sigpair_ok));
    apply vec_law, sigpair_codec_ok.
Qed.

Lemma blockOrder_codec_ok : codec_ok blockOrder_ok c_blockOrder.
Proof. codec_law. Qed.

Lemma signedBlockOrder_codec_ok :
  codec_ok (λ s, sv_ok (serializedBlockOrder s) ∧ vec_ok signature_ok (sb_signatures s))
    c_signedBlockOrder.
Proof. codec_law. Qed.
End codec_laws.

#[export] Hint Resolve signature_codec_ok envelop_codec_ok userRequest_codec_ok
  kv_codec_ok rwset_codec_ok header_codec_ok blockOrder_codec_ok : mass.

Section block_roundtrip.
Context `{HZ : !ZppLaws ZP}.

Lemma string_length_app (a b : string) :
  String.length (a +:+ b) = String.length a + String.length b.
Proof. induction a as [|c a IH]; [done|]. exact (f_equal S IH). Qed.

Lemma deserialize_serialize (b b0 : Block) : block_ok b →
  deserializeFromString (serializeToString b).1 b0 = ((serializeToString b).2, b).
Proof.
  intros (Hh & Hb & He & Hm). destruct b as [h y e m].
  unfold deserializeFromString, serializeToString.
  cbn [fst snd header body executeResult metadata] in *.
  rewrite (header_codec_ok h _ Hh), (body_codec_ok y _ Hb).
  rewrite (executeResult_codec_ok e _ He).
  pose proof (metadata_codec_ok m EmptyString Hm) as Hm'.
  rewrite string_app_nil_r in Hm'. rewrite Hm'.
  rewrite !string_length_app. cbn [String.length]. f_equal. f_equal; lia.
Qed.


(** Reading a serialized block back gives the same block, whatever the
    receiving object held, and the position list computed by the reader is the
    one the writer reported, so that the header, body, execution result and
    metadata can be located and rewritten in the buffer. *)
Theorem block_roundtrip (b b0 : Block) :
  block_ok b →
  deserializeFromString (serializeToString b).1 b0 = ((serializeToString b).2, b).
Proof. apply deserialize_serialize. Qed.

(** A transaction built from an envelope carries the request that was
    signed, is identified by the envelope's digest and starts PENDING with
    empty read and write sets; destroying it returns the envelope. *)
Theorem newTransaction_from_payload (u : UserRequest) (s : SignatureString) :
  userRequest_ok u →
  ∃ t, NewTransactionFromEnvelop (mkEnvelop (out c_userRequest u) s) = Some t ∧
    userRequest t = u ∧ tid t = digest s ∧ hasResult PENDING t = true ∧
    txn_reads t = [] ∧ txn_writes t = [] ∧
    DestroyTransaction t =
      (mkEnvelop (out c_userRequest u) s, newRWSet (digest s)).
Proof.
  intros Hu. unfold NewTransactionFromEnvelop; cbn [payload].
  rewrite (read_out userRequest_ok) by eauto with mass.
  eexists; split; [done|]. by repeat split.
Qed.
End block_roundtrip.

(** ** Witnesses, at the concrete little-endian instance *)

#[local] Existing Instance LE.zpp.
#[local] Existing Instance LE.zpp_laws.

Definition sample_request : UserRequest := mkUserRequest "transfer" "t" "args" 7.
Definition sample_envelop : Envelop :=
  mkEnvelop "payload" (mkSignature "ski" (vreplicate 64 5%Z)).
Definition sample_block : Block :=
  mkBlock (mkHeader 3 (vreplicate 32 1%Z) (vreplicate 32 255%Z)) (mkBody [sample_envelop])
    (mkExecuteResult
       [mkRWSet (vreplicate 64 5%Z) "r" 0 [mkKV "a" "1"] [mkKV "b" "2"]] [1%Z])
    (mkMetadata [] []).

Ltac ok_solve :=
  repeat first
    [ done | split | apply Forall_cons | apply Forall_nil_2
    | vm_compute; repeat split; repeat constructor; done ].

Lemma sample_block_ok : block_ok sample_block.
Proof. ok_solve. Qed.

Lemma block_roundtrip_witness :
  deserializeFromString (serializeToString sample_block).1 newBlock
  = ((serializeToString sample_block).2, sample_block).
Proof. apply (@block_roundtrip LE.zpp LE.zpp_laws), sample_block_ok. Defined.

Lemma newTransaction_from_payload_witness :
  ∃ t, NewTransactionFromEnvelop
         (mkEnvelop (out c_userRequest sample_request) (mkSignature "ski" (vreplicate 64 5%Z)))
       = Some t ∧ userRequest t = sample_request ∧ tid t = vreplicate 64 5%Z ∧
    hasResult PENDING t = true ∧ txn_reads t = [] ∧ txn_writes t = [] ∧
    DestroyTransaction t =
      (mkEnvelop (out c_userRequest sample_request) (mkSignature "ski" (vreplicate 64 5%Z)),
       newRWSet (vreplicate 64 5%Z)).
Proof.
  apply (@newTransaction_from_payload LE.zpp LE.zpp_laws sample_request
           (mkSignature "ski" (vreplicate 64 5%Z))).
  ok_solve.
Defined.
