(* ===== verification/DB.v ===== *)
(** * DB: the state database (include/peer/db/phmap_connection.h)

    [PHMapConnection] is the [DBConnection] the system is built with: a
    concurrent hash map whose single-key operations are atomic, and a write
    batch that collects puts and deletes and applies all puts before all
    deletes. *)

From S2P Require Import Prelude Proto.

(** [PHMapConnection::db]. *)
Abbreviation database := (gmap string string).

Record WriteBatch := mkBatch {
  wb_writes : list (string * string);
  wb_deletes : list string
}.

Definition emptyBatch : WriteBatch := mkBatch [] [].

Definition batchPut (key value : string) (b : WriteBatch) : WriteBatch :=
  mkBatch (wb_writes b ++ [(key, value)]) (wb_deletes b).

Definition batchDelete (key : string) (b : WriteBatch) : WriteBatch :=
  mkBatch (wb_writes b) (wb_deletes b ++ [key]).

(** [syncPut], [get] and [syncDelete]; the async versions call them. *)
Definition syncPut (key value : string) (db : database) : database := <[key := value]> db.
Definition db_get (key : string) (db : database) : option string := db !! key.
Definition syncDelete (key : string) (db : database) : database := delete key db.

(** [syncWriteBatch]: run the callback on an empty batch; when it returns
    [true], perform every put, then every delete. *)
Definition syncWriteBatch (callback : WriteBatch → WriteBatch * bool) (db : database)
    : database * bool :=
  let '(batch, ok) := callback emptyBatch in
  if negb ok then (db, false)
  else
    let db1 := fold_left (λ d kv, syncPut kv.1 kv.2 d) (wb_writes batch) db in
    (fold_left (λ d k, syncDelete k d) (wb_deletes batch) db1, true).

(** The loop body shared by the commit handlers: an empty value is a delete. *)
Definition putOrDelete (b : WriteBatch) (kv : KV) : WriteBatch :=
  if decide (kv_value kv = EmptyString) then batchDelete (kv_key kv) b
  else batchPut (kv_key kv) (kv_value kv) b.

(** The atomic actions another thread can interleave with. *)
Inductive db_op := OpPut (key value : string) | OpDelete (key : string).

Definition exec_db_op (db : database) (o : db_op) : database :=
  match o with
  | OpPut k v => syncPut k v db
  | OpDelete k => syncDelete k db
  end.

Definition batch_ops (b : WriteBatch) : list db_op :=
  ((λ kv, OpPut kv.1 kv.2) <$> wb_writes b) ++ (OpDelete <$> wb_deletes b).

(** The meaning of a write set: one write after the other. *)
Definition applyWrite (db : database) (kv : KV) : database :=
  if decide (kv_value kv = EmptyString) then delete (kv_key kv) db
  else <[kv_key kv := kv_value kv]> db.

Definition applyWrites (ws : KVList) (db : database) : database :=
  fold_left applyWrite ws db.

(** ** Lemmas *)

#[export] Instance db_op_eq_dec : EqDecision db_op.
Proof. solve_decision. Defined.

Definition op_key (o : db_op) : string :=
  match o with OpPut k _ => k | OpDelete k => k end.

Definition write_op (kv : KV) : db_op :=
  if decide (kv_value kv = EmptyString) then OpDelete (kv_key kv)
  else OpPut (kv_key kv) (kv_value kv).

Lemma write_op_key kv : op_key (write_op kv) = kv_key kv.
Proof. unfold write_op. by case_decide. Qed.

Lemma exec_write_op db kv : exec_db_op db (write_op kv) = applyWrite db kv.
Proof. unfold write_op, applyWrite. by case_decide. Qed.

Lemma exec_db_op_comm db o1 o2 :
  op_key o1 ≠ op_key o2 →
  exec_db_op (exec_db_op db o1) o2 = exec_db_op (exec_db_op db o2) o1.
Proof.
  destruct o1, o2; simpl; intros H; unfold syncPut, syncDelete.
  - by apply insert_insert_ne.
  - by rewrite delete_insert_ne.
  - by rewrite delete_insert_ne.
  - apply delete_delete.
Qed.

(** A batch is the fold of its actions. *)
Lemma syncWriteBatch_ops callback db :
  (callback emptyBatch).2 = true →
  syncWriteBatch callback db =
    (fold_left exec_db_op (batch_ops (callback emptyBatch).1) db, true).
Proof.
  unfold syncWriteBatch, batch_ops. destruct (callback emptyBatch) as [b ok].
  simpl. intros ->. simpl. rewrite fold_left_app. f_equal.
  revert db. induction (wb_writes b) as [|kv l IH]; intros db; [|apply IH].
  simpl. revert db. induction (wb_deletes b) as [|k ks IH]; intros db; [done|apply IH].
Qed.

(** Collecting writes in a batch sorts the deletes behind the puts. *)
Lemma batch_ops_perm (ws : KVList) (b : WriteBatch) :
  batch_ops (fold_left putOrDelete ws b) ≡ₚ batch_ops b ++ (write_op <$> ws).
Proof.
  revert b. induction ws as [|kv ws IH]; intros b; [by rewrite app_nil_r|].
  csimpl. rewrite IH. clear IH. unfold putOrDelete, write_op, batch_ops.
  case_decide; simpl; rewrite fmap_app; simpl; solve_Permutation.
Qed.

Lemma fold_write_ops ws db :
  fold_left exec_db_op (write_op <$> ws) db = applyWrites ws db.
Proof.
  revert db. induction ws as [|kv ws IH]; intros db; [done|].
  csimpl. by rewrite exec_write_op, IH.
Qed.

(** Actions on pairwise different keys can be performed in any order. *)
Lemma db_ops_perm (l l' : list db_op) db :
  NoDup (op_key <$> l) → l ≡ₚ l' →
  fold_left exec_db_op l db = fold_left exec_db_op l' db.
Proof.
  intros Hn Hp. apply fold_left_perm_distinct; [by eapply NoDup_fmap_1| |done].
  intros a b s Ha Hb Hne. apply exec_db_op_comm. intros E.
  by apply Hne, (NoDup_fmap_ne op_key l).
Qed.

Lemma NoDup_write_ops (ws : KVList) :
  NoDup (kv_key <$> ws) → NoDup (op_key <$> (write_op <$> ws)).
Proof.
  rewrite <-list_fmap_compose. intros H. rewrite (list_fmap_ext _ kv_key); [done|].
  intros i kv _. apply write_op_key.
Qed.

(** For a write set without duplicate keys the batch means the write set. *)
Lemma batch_applyWrites ws db :
  NoDup (kv_key <$> ws) →
  fold_left exec_db_op (batch_ops (fold_left putOrDelete ws emptyBatch)) db =
    applyWrites ws db.
Proof.
  intros Hn. rewrite <-fold_write_ops. symmetry.
  apply db_ops_perm; [by apply NoDup_write_ops|]. by rewrite batch_ops_perm.
Qed.

Lemma applyWrite_lookup db kv k :
  applyWrite db kv !! k =
    if decide (kv_key kv = k)
    then (if decide (kv_value kv = EmptyString) then None else Some (kv_value kv))
    else db !! k.
Proof.
  unfold applyWrite. repeat case_decide; simplify_map_eq; try done.
Qed.

Lemma applyWrites_lookup_notin ws db k :
  k ∉ kv_key <$> ws → applyWrites ws db !! k = db !! k.
Proof.
  unfold applyWrites. revert db. induction ws as [|kv ws IH]; intros db Hk; [done|].
  csimpl in *. rewrite IH by set_solver. rewrite applyWrite_lookup.
  case_decide; [set_solver|done].
Qed.

Lemma applyWrites_app ws1 ws2 db :
  applyWrites (ws1 ++ ws2) db = applyWrites ws2 (applyWrites ws1 db).
Proof. apply fold_left_app. Qed.

Lemma applyWrites_perm ws ws' db :
  NoDup (kv_key <$> ws) → ws ≡ₚ ws' → applyWrites ws db = applyWrites ws' db.
Proof.
  intros Hn Hp. rewrite <-!fold_write_ops. apply db_ops_perm.
  - by apply NoDup_write_ops.
  - by rewrite Hp.
Qed.
