(* ===== verification/Connections.v ===== *)
(** * Connections: the databases a peer can be built with

    include/peer/db: the code that uses the database is written against the
    concept [db_like] (db_interface.h) and compiled for the in-memory map ([DB]);
    LevelDB (leveldb_connection.h) and RocksDB (rocksdb_connection.h) are the
    alternatives.  The libraries are parameters: a store that is opened by name,
    with single writes, atomic batches and reads, each of which reports whether
    it succeeded. *)

From S2P Require Import Prelude Proto DB.

(** ** The libraries

    [contents] is what a store holds; a successful write has the documented
    effect, a batch that of its operations in the order they were added. *)
Class KVLib (D : Type) := {
  lib_Open : string → option D;
  lib_Put : bool → string → string → D → D * bool;
  lib_Delete : bool → string → D → D * bool;
  lib_Write : bool → list db_op → D → D * bool;
  lib_Get : string → D → option string;
  contents : D → database
}.

Class KVLaws (D : Type) `{KVLib D} : Prop := {
  put_effect sync k v d d' : lib_Put sync k v d = (d', true) → contents d' = <[k := v]> (contents d);
  delete_effect sync k d d' : lib_Delete sync k d = (d', true) → contents d' = delete k (contents d);
  write_effect sync ops d d' : lib_Write sync ops d = (d', true) → contents d' = fold_left exec_db_op ops (contents d);
  get_effect k d : lib_Get k d = contents d !! k
}.

(** A callback of [syncWriteBatch]: the calls of [Put] and [Delete] it makes on
    the batch, and what it returns. *)
Abbreviation callback := (list db_op * bool)%type.

(** ** The connections *)

Module Leveldb.
Section connection.
Context {D : Type} `{KVLib D}.

Record Connection := mkConn { dbName : string; db : D }.

Definition NewConnection (name : string) : option Connection := d ← lib_Open name; Some (mkConn name d).
Definition getDBName (c : Connection) : string := dbName c.
Definition asyncPut (k v : string) (c : Connection) : Connection * bool :=
  let '(d, ok) := lib_Put false k v (db c) in (mkConn (dbName c) d, ok).
Definition syncPut (k v : string) (c : Connection) : Connection * bool :=
  let '(d, ok) := lib_Put true k v (db c) in (mkConn (dbName c) d, ok).
Definition asyncDelete (k : string) (c : Connection) : Connection * bool :=
  let '(d, ok) := lib_Delete false k (db c) in (mkConn (dbName c) d, ok).
Definition syncDelete (k : string) (c : Connection) : Connection * bool :=
  let '(d, ok) := lib_Delete true k (db c) in (mkConn (dbName c) d, ok).
Definition syncWriteBatch (cb : callback) (c : Connection) : Connection * bool :=
  if negb cb.2 then (c, false) else
  let '(d, ok) := lib_Write true cb.1 (db c) in (mkConn (dbName c) d, ok).
Definition get (k : string) (c : Connection) : option string := lib_Get k (db c).
End connection.
Arguments Connection : clear implicits.
End Leveldb.

Module Rocksdb.
Section connection.
Context {D : Type} `{KVLib D}.

Record Connection := mkConn { dbName : string; db : D }.

Definition NewConnection (name : string) : option Connection := d ← lib_Open name; Some (mkConn name d).
Definition getDBName (c : Connection) : string := dbName c.
Definition asyncPut (k v : string) (c : Connection) : Connection * bool :=
  let '(d, ok) := lib_Put false k v (db c) in (mkConn (dbName c) d, ok).
Definition syncPut (k v : string) (c : Connection) : Connection * bool :=
  let '(d, ok) := lib_Put true k v (db c) in (mkConn (dbName c) d, ok).
Definition asyncDelete (k : string) (c : Connection) : Connection * bool :=
  let '(d, ok) := lib_Delete false k (db c) in (mkConn (dbName c) d, ok).
Definition syncDelete (k : string) (c : Connection) : Connection * bool :=
  let '(d, ok) := lib_Delete true k (db c) in (mkConn (dbName c) d, ok).
Definition syncWriteBatch (cb : callback) (c : Connection) : Connection * bool :=
  if negb cb.2 then (c, false) else
  let '(d, ok) := lib_Write true cb.1 (db c) in (mkConn (dbName c) d, ok).
Definition get (k : string) (c : Connection) : option string := lib_Get k (db c).
End connection.
Arguments Connection : clear implicits.
End Rocksdb.

(** ** What users of the database rely on

    The operations of [db_like], and their effect on what is stored: a batch is
    promised its effect when no key occurs twice in it. *)
Class DBLike (T : Type) := {
  c_put : bool → string → string → T → T * bool;
  c_delete : bool → string → T → T * bool;
  c_batch : callback → T → T * bool;
  c_get : string → T → option string;
  stored : T → database
}.

Class DBLikeLaws (T : Type) `{DBLike T} : Prop := {
  c_put_ok sync k v t t' : c_put sync k v t = (t', true) → stored t' = <[k := v]> (stored t);
  c_delete_ok sync k t t' : c_delete sync k t = (t', true) → stored t' = delete k (stored t);
  c_batch_ok ops t t' : NoDup (op_key <$> ops) → c_batch (ops, true) t = (t', true) →
    stored t' = fold_left exec_db_op ops (stored t);
  c_batch_refused ops t : c_batch (ops, false) t = (t, false);
  c_get_ok k t : c_get k t = stored t !! k
}.

(** The in-memory connection: the callback fills a [WriteBatch]. *)
Definition fill (b : WriteBatch) (o : db_op) : WriteBatch :=
  match o with OpPut k v => batchPut k v b | OpDelete k => batchDelete k b end.

Definition phmap_batch (cb : callback) (d : database) : database * bool :=
  syncWriteBatch (λ b, (fold_left fill cb.1 b, cb.2)) d.

#[export] Instance phmap_like : DBLike database := {
  c_put := λ _ k v d, (syncPut k v d, true);
  c_delete := λ _ k d, (syncDelete k d, true);
  c_batch := phmap_batch;
  c_get := db_get;
  stored := id
}.

#[export] Instance leveldb_like {D} `{KVLib D} : DBLike (Leveldb.Connection D) := {
  c_put := λ sync : bool, if sync then Leveldb.syncPut else Leveldb.asyncPut;
  c_delete := λ sync : bool, if sync then Leveldb.syncDelete else Leveldb.asyncDelete;
  c_batch := Leveldb.syncWriteBatch;
  c_get := Leveldb.get;
  stored := λ c, contents (Leveldb.db c)
}.

#[export] Instance rocksdb_like {D} `{KVLib D} : DBLike (Rocksdb.Connection D) := {
  c_put := λ sync : bool, if sync then Rocksdb.syncPut else Rocksdb.asyncPut;
  c_delete := λ sync : bool, if sync then Rocksdb.syncDelete else Rocksdb.asyncDelete;
  c_batch := Rocksdb.syncWriteBatch;
  c_get := Rocksdb.get;
  stored := λ c, contents (Rocksdb.db c)
}.

(** Filling a batch sorts the deletes behind the puts. *)
Lemma fill_perm ops b : batch_ops (fold_left fill ops b) ≡ₚ batch_ops b ++ ops.
Proof.
  revert b. induction ops as [|o ops IH]; intros b; [by rewrite app_nil_r|]. cbn [fold_left]. rewrite IH.
  destruct o; unfold batch_ops; cbn; rewrite fmap_app; cbn; solve_Permutation.
Qed.

Lemma phmap_batch_ok ops d : NoDup (op_key <$> ops) → phmap_batch (ops, true) d = (fold_left exec_db_op ops d, true).
Proof.
  intros Hn. unfold phmap_batch. rewrite syncWriteBatch_ops by done. cbn [fst snd]. f_equal.
  symmetry. apply db_ops_perm; [done|]. by rewrite fill_perm.
Qed.

#[export] Instance phmap_laws : DBLikeLaws database.
Proof.
  split; cbn -[phmap_batch].
  - by intros sync k v d d' [= <-].
  - by intros sync k d d' [= <-].
  - intros ops d d' Hn Hb. rewrite phmap_batch_ok in Hb by done. by injection Hb as <-.
  - done.
  - done.
Qed.

#[export] Instance leveldb_laws {D} `{KVLib D} `{!KVLaws D} : DBLikeLaws (Leveldb.Connection D).
Proof.
  split; cbn.
  - intros [] k v c c'; unfold Leveldb.syncPut, Leveldb.asyncPut; destruct (lib_Put _ _ _ _) as [d []] eqn:E; intros [= <-];
      by apply put_effect in E.
  - intros [] k c c'; unfold Leveldb.syncDelete, Leveldb.asyncDelete; destruct (lib_Delete _ _ _) as [d []] eqn:E; intros [= <-];
      by apply delete_effect in E.
  - intros ops c c' _. unfold Leveldb.syncWriteBatch. cbn [fst snd negb]. destruct (lib_Write _ _ _) as [d []] eqn:E; intros [= <-].
    by apply write_effect in E.
  - done.
  - intros k c. apply get_effect.
Qed.

#[export] Instance rocksdb_laws {D} `{KVLib D} `{!KVLaws D} : DBLikeLaws (Rocksdb.Connection D).
Proof.
  split; cbn.
  - intros [] k v c c'; unfold Rocksdb.syncPut, Rocksdb.asyncPut; destruct (lib_Put _ _ _ _) as [d []] eqn:E; intros [= <-];
      by apply put_effect in E.
  - intros [] k c c'; unfold Rocksdb.syncDelete, Rocksdb.asyncDelete; destruct (lib_Delete _ _ _) as [d []] eqn:E; intros [= <-];
      by apply delete_effect in E.
  - intros ops c c' _. unfold Rocksdb.syncWriteBatch. cbn [fst snd negb]. destruct (lib_Write _ _ _) as [d []] eqn:E; intros [= <-].
    by apply write_effect in E.
  - done.
  - intros k c. apply get_effect.
Qed.

(** ** Any database will do *)

Inductive access := APut (sync : bool) (k v : string) | ADelete (sync : bool) (k : string) | ABatch (ops : list db_op) (ok : bool).

(** The batches of the engines have distinct keys. *)
Definition distinct_access (a : access) : Prop := match a with ABatch ops _ => NoDup (op_key <$> ops) | _ => True end.

Definition perform {T} `{DBLike T} (a : access) (t : T) : T * bool :=
  match a with
  | APut sync k v => c_put sync k v t
  | ADelete sync k => c_delete sync k t
  | ABatch ops ok => c_batch (ops, ok) t
  end.

(** What an access does to a plain map. *)
Definition effect (a : access) (d : database) : database :=
  match a with
  | APut _ k v => <[k := v]> d
  | ADelete _ k => delete k d
  | ABatch ops ok => if ok then fold_left exec_db_op ops d else d
  end.

(** A database of one of the three kinds a peer can be built with. *)
Inductive Conn (D1 D2 : Type) :=
| Phmap (d : database)
| Level (c : Leveldb.Connection D1)
| Rocks (c : Rocksdb.Connection D2).
Arguments Phmap {D1 D2} _.
Arguments Level {D1 D2} _.
Arguments Rocks {D1 D2} _.

Section conn.
Context {D1 D2 : Type} `{KVLib D1} `{KVLib D2}.

(** One access: the method of the connection it calls, and what it returns. *)
Definition conn_access (a : access) (c : Conn D1 D2) : Conn D1 D2 * bool :=
  match c, a with
  | Phmap d, APut _ k v => (Phmap (syncPut k v d), true)
  | Phmap d, ADelete _ k => (Phmap (syncDelete k d), true)
  | Phmap d, ABatch ops ok => prod_map Phmap id (syncWriteBatch (λ b, (fold_left fill ops b, ok)) d)
  | Level c, APut true k v => prod_map Level id (Leveldb.syncPut k v c)
  | Level c, APut false k v => prod_map Level id (Leveldb.asyncPut k v c)
  | Level c, ADelete true k => prod_map Level id (Leveldb.syncDelete k c)
  | Level c, ADelete false k => prod_map Level id (Leveldb.asyncDelete k c)
  | Level c, ABatch ops ok => prod_map Level id (Leveldb.syncWriteBatch (ops, ok) c)
  | Rocks c, APut true k v => prod_map Rocks id (Rocksdb.syncPut k v c)
  | Rocks c, APut false k v => prod_map Rocks id (Rocksdb.asyncPut k v c)
  | Rocks c, ADelete true k => prod_map Rocks id (Rocksdb.syncDelete k c)
  | Rocks c, ADelete false k => prod_map Rocks id (Rocksdb.asyncDelete k c)
  | Rocks c, ABatch ops ok => prod_map Rocks id (Rocksdb.syncWriteBatch (ops, ok) c)
  end.

Definition conn_get (k : string) (c : Conn D1 D2) : option string :=
  match c with Phmap d => db_get k d | Level c => Leveldb.get k c | Rocks c => Rocksdb.get k c end.

Fixpoint conn_run (l : list access) (c : Conn D1 D2) : Conn D1 D2 * list bool :=
  match l with
  | [] => (c, [])
  | a :: l => let x := conn_access a c in let y := conn_run l x.1 in (y.1, x.2 :: y.2)
  end.

(** What a connection was opened on. *)
Definition held (c : Conn D1 D2) : database :=
  match c with Phmap d => d | Level c => contents (Leveldb.db c) | Rocks c => contents (Rocksdb.db c) end.

(** The answer of an access that meets no error. *)
Definition agreed (a : access) : bool := match a with ABatch _ ok => ok | _ => true end.

Context `{!KVLaws D1} `{!KVLaws D2}.

Lemma access_effect {T} `{DBLike T} `{!DBLikeLaws T} a (t t' : T) :
  distinct_access a → perform a t = (t', agreed a) → stored t' = effect a (stored t).
Proof.
  destruct a as [sync k v|sync k|ops [|]]; cbn [perform effect distinct_access agreed]; intros Hd E.
  - by apply c_put_ok in E.
  - by apply c_delete_ok in E.
  - by apply c_batch_ok in E.
  - rewrite c_batch_refused in E. by injection E as <-.
Qed.

Lemma conn_access_effect a c c' :
  distinct_access a → conn_access a c = (c', agreed a) → held c' = effect a (held c).
Proof using All.
  intros Hd E. destruct c as [d|c|c].
  - assert (conn_access a (Phmap d) = prod_map Phmap id (perform a d)) as Ep by (by destruct a as [[]|[]|]).
    rewrite Ep in E. destruct (perform a d) as [d' b] eqn:Ea. injection E as <- Eb. cbn in Eb. subst b.
    exact (access_effect a d d' Hd Ea).
  - assert (conn_access a (Level c) = prod_map Level id (perform a c)) as Ep by (by destruct a as [[]|[]|]).
    rewrite Ep in E. destruct (perform a c) as [d' b] eqn:Ea. injection E as <- Eb. cbn in Eb. subst b.
    exact (access_effect a c d' Hd Ea).
  - assert (conn_access a (Rocks c) = prod_map Rocks id (perform a c)) as Ep by (by destruct a as [[]|[]|]).
    rewrite Ep in E. destruct (perform a c) as [d' b] eqn:Ea. injection E as <- Eb. cbn in Eb. subst b.
    exact (access_effect a c d' Hd Ea).
Qed.

Lemma conn_run_effect l : ∀ c c',
  Forall distinct_access l → conn_run l c = (c', agreed <$> l) → held c' = fold_left (λ d a, effect a d) l (held c).
Proof using All.
  induction l as [|a l IH]; intros c c'; [by intros _ [= <-]|]. intros [Ha Hl]%Forall_cons.
  cbn [conn_run fmap list_fmap fold_left]. destruct (conn_access a c) as [c1 b] eqn:E. cbn [fst snd].
  destruct (conn_run l c1) as [c2 bs] eqn:E2. cbn [fst snd]. intros [= <- -> ->].
  rewrite <-(conn_access_effect a c c1 Ha E). by apply IH.
Qed.

Lemma conn_get_held k c : conn_get k c = held c !! k.
Proof using All. destruct c; cbn; [done|apply get_effect|apply get_effect]. Qed.

(** C28: The database can be exchanged.  Let a peer run writes, deletes and
    batches on the in-memory map, on LevelDB or on RocksDB, whose libraries have
    the documented effect; when every call reports success, except the batches
    whose callback refuses, which report failure, every later read finds
    exactly what the accesses leave in a plain map that starts with the same
    data: single writes and deletes take effect at once, a batch of an agreeing
    callback as a whole, a refused batch not at all.  No batch names a key
    twice. *)
Theorem connections_agree l c c' oks :
  Forall distinct_access l → conn_run l c = (c', oks) → oks = agreed <$> l →
  ∀ k, conn_get k c' = fold_left (λ d a, effect a d) l (held c) !! k.
Proof using All. intros Hl E -> k. by rewrite conn_get_held, (conn_run_effect l c c'). Qed.
End conn.

(** A batch that deletes a key and puts it again is where they differ: the
    in-memory connection performs all puts first. *)
Module Plain.
Definition plain_lib : KVLib database := {|
  lib_Open := λ _, Some ∅;
  lib_Put := λ _ k v d, (<[k := v]> d, true);
  lib_Delete := λ _ k d, (delete k d, true);
  lib_Write := λ _ ops d, (fold_left exec_db_op ops d, true);
  lib_Get := λ k d, d !! k;
  contents := id
|}.

Lemma plain_kv : @KVLaws database plain_lib.
Proof. split; cbn; intros; simplify_eq; done. Qed.
End Plain.

#[local] Existing Instance Plain.plain_lib.
#[local] Existing Instance Plain.plain_kv.

Lemma batches_differ :
  let ops := [OpDelete "k"; OpPut "k" "v"] in
  (phmap_batch (ops, true) ∅).1 !! "k" = None ∧
  Leveldb.get "k" (Leveldb.syncWriteBatch (ops, true) (Leveldb.mkConn "db" ∅)).1 = Some "v".
Proof. by vm_compute. Qed.

Definition some_accesses : list access :=
  [APut true "a" "1"; ABatch [OpPut "b" "2"; OpDelete "a"] true; ABatch [OpPut "c" "3"] false; ADelete false "d"].

Lemma connections_agree_witness :
  conn_get "b" (conn_run some_accesses (Phmap ∅ : Conn database database)).1 = Some "2"%string ∧
  conn_get "b" (conn_run some_accesses (Rocks (Rocksdb.mkConn "db" ∅) : Conn database database)).1 = Some "2"%string.
Proof.
  assert (Forall distinct_access some_accesses) as Hd.
  { unfold some_accesses. repeat (apply Forall_cons; split); first [done|by apply (bool_decide_unpack _)]. }
  split.
  - etrans; [apply (connections_agree some_accesses _ _ _ Hd (surjective_pairing _)); by vm_compute|by vm_compute].
  - etrans; [apply (connections_agree some_accesses _ _ _ Hd (surjective_pairing _)); by vm_compute|by vm_compute].
Defined.
