(* ===== verification/ORM.v ===== *)
(** * ORM: how a chaincode reads and writes (include/peer/chaincode/orm.h)

    A chaincode sees the database only through [ORM::get], [put], [del] and
    [setResult].  It is modelled as a program over exactly these four calls
    ([prog]; [Die] is a failed [CHECK] or undefined behaviour of the chaincode);
    [run] interprets the calls by the methods of the [ORM] class.  The
    interface pays off in [run_agree]: whatever the chaincode, its execution is
    determined by the answers to its [get] calls. *)

From S2P Require Import Prelude Proto DB.

(** ** The ORM object *)

Record ORM := mkORM { orm_reads : KVList; orm_writes : KVList; orm_result : string }.

Definition newORM : ORM := mkORM [] [] EmptyString.

(** [ORM::keyAlreadyExistInWrites]: gives up beyond 100 writes. *)
Definition keyAlreadyExistInWrites (key : string) (o : ORM) : bool :=
  if (100 <? Z.of_nat (length (orm_writes o)))%Z then false
  else existsb (λ kv, bool_decide (key = kv_key kv)) (orm_writes o).

(** What [get] finds: an empty value is a deleted key. *)
Definition visible (db : database) (key : string) : option string :=
  match db_get key db with
  | Some v => if decide (v = EmptyString) then None else Some v
  | None => None
  end.

(** [ORM::get]: a found value is recorded in the read set, a missing key is
    not. *)
Definition orm_get (db : database) (key : string) (o : ORM) : ORM * option string :=
  match visible db key with
  | None => (o, None)
  | Some v => (mkORM (orm_reads o ++ [mkKV key v]) (orm_writes o) (orm_result o), Some v)
  end.

Definition orm_put (key value : string) (o : ORM) : ORM :=
  mkORM (orm_reads o) (orm_writes o ++ [mkKV key value]) (orm_result o).

Definition orm_del (key : string) (o : ORM) : ORM :=
  mkORM (orm_reads o) (orm_writes o ++ [mkKV key EmptyString]) (orm_result o).

Definition orm_setResult (r : string) (o : ORM) : ORM :=
  mkORM (orm_reads o) (orm_writes o) r.

(** [ORM::reset(reads_, writes_)]: everything is moved out, which leaves the
    vectors and the string empty. *)
Definition orm_reset (o : ORM) : (string * KVList * KVList) * ORM :=
  ((orm_result o, orm_reads o, orm_writes o), newORM).

(** ** Chaincode programs *)

Inductive prog (A : Type) :=
| Ret (a : A)
| Get (key : string) (k : option string → prog A)
| Put (key value : string) (p : prog A)
| Del (key : string) (p : prog A)
| SetResult (r : string) (p : prog A)
| Die.
Arguments Ret {A} _.
Arguments Get {A} _ _.
Arguments Put {A} _ _ _.
Arguments Del {A} _ _.
Arguments SetResult {A} _ _.
Arguments Die {A}.

Fixpoint prog_bind {A B} (f : A → prog B) (p : prog A) : prog B :=
  match p with
  | Ret a => f a
  | Get key k => Get key (λ v, prog_bind f (k v))
  | Put key value p => Put key value (prog_bind f p)
  | Del key p => Del key (prog_bind f p)
  | SetResult r p => SetResult r (prog_bind f p)
  | Die => Die
  end.

#[export] Instance prog_mret : MRet prog := @Ret.
#[export] Instance prog_mbind : MBind prog := @prog_bind.

(** The interpretation by the ORM. *)
Fixpoint run {A} (db : database) (p : prog A) (o : ORM) : option (ORM * A) :=
  match p with
  | Ret a => Some (o, a)
  | Get key k => let '(o1, v) := orm_get db key o in run db (k v) o1
  | Put key value p => run db p (orm_put key value o)
  | Del key p => run db p (orm_del key o)
  | SetResult r p => run db p (orm_setResult r o)
  | Die => None
  end.

(** The debug build: each call first checks that its key was not written. *)
Fixpoint debug_run {A} (db : database) (p : prog A) (o : ORM) : option (ORM * A) :=
  match p with
  | Ret a => Some (o, a)
  | Get key k =>
      CHECK negb (keyAlreadyExistInWrites key o) ;;
      let '(o1, v) := orm_get db key o in debug_run db (k v) o1
  | Put key value p =>
      CHECK negb (keyAlreadyExistInWrites key o) ;; debug_run db p (orm_put key value o)
  | Del key p =>
      CHECK negb (keyAlreadyExistInWrites key o) ;; debug_run db p (orm_del key o)
  | SetResult r p => debug_run db p (orm_setResult r o)
  | Die => None
  end.

(** The interface of [peer::chaincode::Chaincode]: a return code, zero for
    success, from a function name and serialized arguments. *)
Definition Chaincode := string → string → prog Z.

(** The keys a run asks for, found or not. *)
Fixpoint gets {A} (db : database) (p : prog A) : list string :=
  match p with
  | Ret _ | Die => []
  | Get key k => key :: gets db (k (visible db key))
  | Put _ _ p | Del _ p | SetResult _ p => gets db p
  end.

(** ** Lemmas *)

Lemma debug_run_run {A} db (p : prog A) o r : debug_run db p o = Some r → run db p o = Some r.
Proof.
  revert o. induction p as [a|key k IH|key v p IH|key p IH|s p IH|]; intros o; simpl.
  - done.
  - destruct (negb _); [|done]. destruct (orm_get db key o). apply IH.
  - destruct (negb _); [|done]. apply IH.
  - destruct (negb _); [|done]. apply IH.
  - apply IH.
  - done.
Qed.

(** An execution depends on the database only through the answers it got. *)
Lemma run_agree {A} (p : prog A) db1 db2 o :
  (∀ k, k ∈ gets db1 p → visible db2 k = visible db1 k) →
  run db2 p o = run db1 p o ∧ gets db2 p = gets db1 p.
Proof.
  revert o. induction p as [a|key k IH|key v p IH|key p IH|s p IH|]; intros o H; simpl in *;
    [done| |by apply IH..|done].
  assert (visible db2 key = visible db1 key) as E by (apply H; left).
  unfold orm_get. rewrite E.
  destruct (visible db1 key) as [v|];
    match goal with |- run _ (k ?x) ?o' = _ ∧ _ =>
      destruct (IH x o') as [-> ->] end; try done;
    intros ??; apply H; by right.
Qed.

(** The read set holds exactly the keys that were asked for and found. *)
Lemma run_reads {A} (p : prog A) db o o' a :
  run db p o = Some (o', a) →
  orm_reads o' = orm_reads o ++ omap (λ k, mkKV k <$> visible db k) (gets db p).
Proof.
  revert o. induction p as [a0|key k IH|key v p IH|key p IH|s p IH|]; intros o H; simpl in *;
    [simplify_eq; by rewrite app_nil_r| |by rewrite (IH _ H)..|done].
  unfold orm_get in H. destruct (visible db key) as [v|]; rewrite (IH _ _ H); simpl; [|done].
  by rewrite <-app_assoc.
Qed.

Lemma run_read_keys {A} (p : prog A) db o a k :
  run db p newORM = Some (o, a) →
  k ∈ gets db p → is_Some (visible db k) → k ∈ kv_key <$> orm_reads o.
Proof.
  intros Hr Hk [v Hv]. rewrite (run_reads _ _ _ _ _ Hr). simpl.
  apply list_elem_of_fmap. exists (mkKV k v). split; [done|].
  apply list_elem_of_omap. exists k. split; [done|]. by rewrite Hv.
Qed.

(** Sequencing. *)
Lemma run_bind {A B} (f : A → prog B) (p : prog A) db o :
  run db (prog_bind f p) o =
  match run db p o with Some (o1, a) => run db (f a) o1 | None => None end.
Proof.
  revert o. induction p as [a|key k IH|key v p IH|key p IH|s p IH|]; intros o; simpl; auto.
  destruct (orm_get db key o). apply IH.
Qed.

Lemma visible_applyWrite db kv k :
  visible (applyWrite db kv) k =
  if decide (kv_key kv = k)
  then (if decide (kv_value kv = EmptyString) then None else Some (kv_value kv))
  else visible db k.
Proof.
  unfold visible, db_get. rewrite applyWrite_lookup.
  repeat case_decide; simplify_eq; done.
Qed.

Lemma visible_applyWrites_notin ws db k :
  k ∉ kv_key <$> ws → visible (applyWrites ws db) k = visible db k.
Proof. intros H. unfold visible, db_get. by rewrite applyWrites_lookup_notin. Qed.

(** ** The write set *)

(** Runs only append to the write set. *)
Lemma run_writes_mono {A} (p : prog A) db o o' a :
  run db p o = Some (o', a) → ∃ ws, orm_writes o' = orm_writes o ++ ws.
Proof.
  revert o. induction p as [a0|key k IH|key v p IH|key p IH|s p IH|]; intros o H; simpl in *.
  - simplify_eq. exists []. by rewrite app_nil_r.
  - unfold orm_get in H. destruct (visible db key); apply IH in H; done.
  - apply IH in H as [ws ->]. simpl. rewrite <-app_assoc. eauto.
  - apply IH in H as [ws ->]. simpl. rewrite <-app_assoc. eauto.
  - by apply IH in H.
  - done.
Qed.

Lemma run_writes_elem {A} (p : prog A) db o o' a kv :
  run db p o = Some (o', a) → kv ∈ orm_writes o → kv ∈ orm_writes o'.
Proof. intros [ws ->]%run_writes_mono H. apply elem_of_app. by left. Qed.

(** Every write a program can make satisfies [P]. *)
Fixpoint puts {A} (P : KV → Prop) (p : prog A) : Prop :=
  match p with
  | Ret _ | Die => True
  | Get _ k => ∀ v, puts P (k v)
  | Put key value p => P (mkKV key value) ∧ puts P p
  | Del key p => P (mkKV key EmptyString) ∧ puts P p
  | SetResult _ p => puts P p
  end.

Lemma run_puts {A} (P : KV → Prop) (p : prog A) db o o' a :
  puts P p → Forall P (orm_writes o) → run db p o = Some (o', a) → Forall P (orm_writes o').
Proof.
  revert o. induction p as [a0|key k IH|key v p IH|key p IH|s p IH|]; intros o Hp Ho H; simpl in *.
  - by simplify_eq.
  - unfold orm_get in H. destruct (visible db key); by eapply IH in H.
  - destruct Hp. eapply IH; [done| |done]. by apply Forall_app_2; [|apply Forall_singleton].
  - destruct Hp. eapply IH; [done| |done]. by apply Forall_app_2; [|apply Forall_singleton].
  - by eapply IH in H.
  - done.
Qed.

(** A key all whose writes are empty is gone after the commit. *)
Lemma visible_deleted ws db k kv :
  kv ∈ ws → kv_key kv = k → Forall (λ kv, kv_key kv = k → kv_value kv = EmptyString) ws →
  visible (applyWrites ws db) k = None.
Proof.
  intros Hin Hk Hall. induction ws as [|kv' ws IH] using rev_ind; [by apply elem_of_nil in Hin|].
  rewrite applyWrites_app. apply Forall_app in Hall as [Hall Hl]. rewrite Forall_singleton in Hl.
  unfold visible, db_get, applyWrites at 1. simpl. rewrite applyWrite_lookup.
  case_decide as E; [by rewrite decide_True by auto|].
  apply elem_of_app in Hin as [Hin|Hin%list_elem_of_singleton]; [|congruence].
  specialize (IH Hin Hall). unfold visible, db_get in IH. done.
Qed.
