(* ===== verification/Decimal.v ===== *)
(** * Decimal: numbers as text

    What the chaincodes use of the C++ library to keep numbers as text:
    [std::to_string], [std::atoi] and [std::stoi] on [int]. *)

From S2P Require Import Prelude.
From Stdlib Require Import Ascii.

Definition digit_char (d : Z) : ascii := ascii_of_nat (48 + Z.to_nat d).

(** The decimal digits of a non-negative number, before [acc]; an [int] has at
    most ten. *)
Fixpoint show_digits (fuel : nat) (n : Z) (acc : string) : string :=
  match fuel with
  | 0 => acc
  | S fuel =>
      let acc' := String (digit_char (n mod 10)) acc in
      if (n <? 10)%Z then acc' else show_digits fuel (n / 10) acc'
  end.

Definition to_string (z : Z) : string :=
  if (z <? 0)%Z then String "-" (show_digits 10 (- z) EmptyString) else show_digits 10 z EmptyString.

Definition isspace (c : ascii) : bool :=
  let n := nat_of_ascii c in (n =? 32)%nat || ((9 <=? n) && (n <=? 13))%nat.

Definition digit_val (c : ascii) : option Z :=
  let n := Z.of_nat (nat_of_ascii c) in
  if ((48 <=? n) && (n <=? 57))%Z then Some (n - 48)%Z else None.

(** The digits at the front of a string, after [a]. *)
Fixpoint read_digits (s : string) (a : Z) : Z :=
  match s with
  | EmptyString => a
  | String c s' => match digit_val c with Some d => read_digits s' (a * 10 + d) | None => a end
  end.

Definition signed_digits (s : string) : Z :=
  match s with
  | String "-" s' => (- read_digits s' 0)%Z
  | String "+" s' => read_digits s' 0
  | _ => read_digits s 0
  end.

Fixpoint skip_spaces (s : string) : string :=
  match s with
  | String c s' => if isspace c then skip_spaces s' else s
  | EmptyString => EmptyString
  end.

(** [std::atoi]: 0 when there are no digits; a value that does not fit in an
    [int] is undefined. *)
Definition atoi (s : string) : option Z :=
  let v := signed_digits (skip_spaces s) in
  if decide (in_int32 v) then Some v else None.

(** [std::stoi]: an exception when there are no digits or the value does not
    fit. *)
Definition has_digits (s : string) : bool :=
  match s with
  | String c s' =>
      match digit_val c with
      | Some _ => true
      | None =>
          if bool_decide (c = "-"%char ∨ c = "+"%char)
          then match s' with String c' _ => bool_decide (is_Some (digit_val c')) | _ => false end
          else false
      end
  | EmptyString => false
  end.

Definition stoi (s : string) : option Z :=
  let s' := skip_spaces s in
  if has_digits s' then
    let v := signed_digits s' in if decide (in_int32 v) then Some v else None
  else None.

(** ** Reading back what was printed *)

Lemma digit_val_char d : (0 ≤ d < 10)%Z → digit_val (digit_char d) = Some d.
Proof.
  intros H. unfold digit_val, digit_char. rewrite nat_ascii_embedding by lia.
  destruct (Z.leb_spec 48 (Z.of_nat (48 + Z.to_nat d))); [|lia].
  destruct (Z.leb_spec (Z.of_nat (48 + Z.to_nat d)) 57); [|lia]. simpl. f_equal. lia.
Qed.

Lemma read_show fuel n s a :
  (0 ≤ n < 10 ^ Z.of_nat fuel)%Z → 0 < fuel →
  ∃ k : Z, (0 ≤ k)%Z ∧ read_digits (show_digits fuel n s) a = read_digits s (a * 10 ^ k + n).
Proof.
  revert n s. induction fuel as [|fuel IH]; intros n s Hn Hf; [lia|]. cbn [show_digits].
  assert (Hd : digit_val (digit_char (n mod 10)) = Some (n mod 10)%Z).
  { apply digit_val_char, Z.mod_pos_bound. lia. }
  destruct (Z.ltb_spec n 10) as [Hs|Hs].
  - exists 1%Z. split; [lia|]. cbn [read_digits]. rewrite Hd. f_equal. rewrite Z.mod_small by lia. lia.
  - assert (fuel ≠ 0) by (intros ->; simpl in Hn; lia).
    assert (Hdiv : (0 ≤ n / 10 < 10 ^ Z.of_nat fuel)%Z).
    { split; [apply Z.div_pos; lia|]. apply Z.div_lt_upper_bound; [lia|].
      rewrite <-Z.pow_succ_r by lia. replace (Z.succ (Z.of_nat fuel)) with (Z.of_nat (S fuel)) by lia. lia. }
    destruct (IH (n / 10)%Z (String (digit_char (n mod 10)) s)) as (k & Hk & ->); [done|lia|].
    exists (Z.succ k). split; [lia|]. cbn [read_digits]. rewrite Hd. f_equal.
    rewrite Z.pow_succ_r by done. pose proof (Z.div_mod n 10). lia.
Qed.

Lemma show_first fuel n s :
  0 < fuel → (0 ≤ n)%Z → ∃ c s', show_digits fuel n s = String c s' ∧ is_Some (digit_val c).
Proof.
  revert n s. induction fuel as [|fuel IH]; intros n s Hf Hn; [lia|]. cbn [show_digits].
  assert (Hd : is_Some (digit_val (digit_char (n mod 10)))).
  { rewrite digit_val_char; [by eexists|apply Z.mod_pos_bound; lia]. }
  destruct (n <? 10)%Z; [eauto|]. destruct fuel as [|fuel]; [simpl; eauto|].
  apply IH; [lia|apply Z.div_pos; lia].
Qed.

(** A digit is neither a space nor a sign. *)
Lemma digit_plain c s : is_Some (digit_val c) →
  skip_spaces (String c s) = String c s ∧ signed_digits (String c s) = read_digits (String c s) 0.
Proof.
  intros [d Hd]. revert Hd. destruct c as [[] [] [] [] [] [] [] []]; vm_compute digit_val; try done.
Qed.

Lemma to_string_signed z :
  in_int32 z → skip_spaces (to_string z) = to_string z ∧ signed_digits (to_string z) = z.
Proof.
  intros Hz. unfold in_int32 in Hz. unfold to_string. destruct (Z.ltb_spec z 0).
  - split; [done|]. cbn [signed_digits].
    destruct (read_show 10 (- z) EmptyString 0) as (k & _ & ->); [lia|lia|]. cbn [read_digits]. lia.
  - destruct (show_first 10 z EmptyString) as (c & s' & E & Hc); [lia|done|]. rewrite E.
    destruct (digit_plain c s' Hc) as [-> ->]. split; [done|]. rewrite <-E.
    destruct (read_show 10 z EmptyString 0) as (k & _ & ->); [lia|lia|]. cbn [read_digits]. lia.
Qed.

Lemma atoi_to_string z : in_int32 z → atoi (to_string z) = Some z.
Proof.
  intros Hz. unfold atoi. destruct (to_string_signed z Hz) as [-> ->]. by rewrite decide_True.
Qed.

Lemma stoi_to_string z : in_int32 z → stoi (to_string z) = Some z.
Proof.
  intros Hz. unfold stoi. destruct (to_string_signed z Hz) as [-> ->].
  assert (Hh : has_digits (to_string z) = true); [|by rewrite Hh, decide_True].
  unfold to_string. unfold in_int32 in Hz. destruct (Z.ltb_spec z 0).
  - destruct (show_first 10 (- z) EmptyString) as (c & s' & -> & Hc); [lia|lia|]. cbn [has_digits].
    change (digit_val "-") with (@None Z). rewrite bool_decide_true by (by left). by apply bool_decide_true.
  - destruct (show_first 10 z EmptyString) as (c & s' & -> & [d Hd]); [lia|done|]. cbn [has_digits]. by rewrite Hd.
Qed.

Lemma to_string_inj z1 z2 : in_int32 z1 → in_int32 z2 → to_string z1 = to_string z2 → z1 = z2.
Proof.
  intros H1 H2 E. pose proof (atoi_to_string z1 H1) as A1. rewrite E, atoi_to_string in A1 by done. congruence.
Qed.

Lemma to_string_nonempty z : in_int32 z → to_string z ≠ EmptyString.
Proof.
  intros Hz E. pose proof (stoi_to_string z Hz) as H. by rewrite E in H.
Qed.
