(* ===== verification/Samples.v ===== *)
(** * Samples: concrete inputs

    A small chaincode over the ORM and transactions that call it, at which the
    engine theorems are instantiated. *)

From S2P Require Import Prelude Proto DB ORM.

(** Function name = source key, arguments = destination key: copies the source
    with a mark appended.  The source "fail" gives an error code. *)
Definition copycc : Chaincode := λ src dst,
  if decide (src = "fail"%string) then Ret 1%Z
  else
    Get src (λ v,
      Put dst (match v with Some s => String.append s "+" | None => "0"%string end) (Ret 0%Z)).

(** Only reads. *)
Definition readcc : Chaincode := λ src _, Get src (λ _, Ret 0%Z).

Definition sample_chaincodes (name : string) : option Chaincode :=
  if decide (name = "copy"%string) then Some copycc
  else if decide (name = "read"%string) then Some readcc
  else None.

Definition sample_tid (n : Z) : tid_type := vreplicate 64 n.

Definition sample_txn (n : Z) (cc src dst : string) : Transaction :=
  mkTxn (sample_tid n) (mkEnvelop EmptyString (mkSignature EmptyString (sample_tid n)))
    (mkUserRequest cc src dst n) (newRWSet (sample_tid n)).

Definition sample_db : database := <["a" := "x"]> (<["b" := "y"]> ∅).

(** A batch with a write-write conflict on "b", a read-only transaction and a
    failing one. *)
Definition sample_batch : list Transaction :=
  [ sample_txn 5 "copy" "a" "b"; sample_txn 3 "copy" "b" "b";
    sample_txn 4 "read" "b" EmptyString; sample_txn 9 "copy" "fail" "a";
    sample_txn 7 "copy" "b" "c" ].

(** Both orders of a conflict cycle between "a" and "b". *)
Definition sample_skew : list Transaction :=
  [ sample_txn 1 "copy" "a" "b"; sample_txn 2 "copy" "b" "a" ].
