(* ===== verification/ReserveTable.v ===== *)
(** * ReserveTable: the reservation tables of the deterministic engines

    include/peer/concurrency_control/deterministic/reserve_table.h, its copy in
    my_cc/deterministic/reserve_table.h, and the tables of the write-based
    engine, deterministic/write_based/wb_reserve_table.h.

    A table maps a key to the smallest transaction id that reserved it.  The
    per-key update ([try_emplace_l]) is atomic, so concurrent workers interleave
    at the granularity of [reserve_op]. *)

From S2P Require Import Prelude Proto.

Abbreviation table := (gmap string tid_type).

(** [table.try_emplace_l(key, exist, tid)] with the lambda of the sources: skip
    when the id in the map is smaller than or equal to the current one. *)
Definition reserve (m : table) (key : string) (t : tid_type) : table :=
  match m !! key with
  | None => <[key := t]> m
  | Some old => if (CompareTID old t <=? 0)%Z then m else <[key := t]> m
  end.

(** [if_contains_unsafe] with the test of the sources: somebody with a smaller
    id reserved the key. *)
Definition reservedBefore (m : table) (key : string) (t : tid_type) : bool :=
  match m !! key with
  | Some old => (CompareTID old t <? 0)%Z
  | None => false
  end.

(** The scanning loop: set the flag and break at the first hit. *)
Fixpoint scan (m : table) (kvs : KVList) (t : tid_type) : bool :=
  match kvs with
  | [] => false
  | kv :: kvs => if reservedBefore m (kv_key kv) t then true else scan m kvs t
  end.

(** The reserving loop. *)
Fixpoint reserveAll (m : table) (kvs : KVList) (t : tid_type) : table :=
  match kvs with
  | [] => m
  | kv :: kvs => reserveAll (reserve m (kv_key kv) t) kvs t
  end.

Record Dependency := mkDep { waw : bool; war : bool; raw : bool }.

(** ** class peer::cc::ReserveTable *)
Module Aria.
Record ReserveTable := mkTable { readTable : table; writeTable : table }.

Definition reset : ReserveTable := mkTable ∅ ∅.

Definition reserveRWSets (rt : ReserveTable) (rs ws : KVList) (t : tid_type)
    : ReserveTable :=
  mkTable (reserveAll (readTable rt) rs t) (reserveAll (writeTable rt) ws t).

Definition analysisDependent (rt : ReserveTable) (rs ws : KVList) (t : tid_type)
    : Dependency :=
  mkDep (scan (writeTable rt) ws t) (scan (readTable rt) ws t)
    (scan (writeTable rt) rs t).
End Aria.

(** ** class peer::cc::mycc::deterministic::ReserveTable *)
Module MyCC.
Record ReserveTable := mkTable { readTable : table; writeTable : table }.

Definition reset : ReserveTable := mkTable ∅ ∅.

Definition updateTable (rt : ReserveTable) (rs ws : KVList) (t : tid_type)
    : ReserveTable :=
  mkTable (reserveAll (readTable rt) rs t) (reserveAll (writeTable rt) ws t).

Definition getDependence (rt : ReserveTable) (rs ws : KVList) (t : tid_type)
    : Dependency :=
  mkDep (scan (writeTable rt) ws t) (scan (readTable rt) ws t)
    (scan (writeTable rt) rs t).

(** The atomic actions of [updateTable]. *)
Inductive reserve_op :=
| ReserveRead (key : string) (t : tid_type)
| ReserveWrite (key : string) (t : tid_type).

Definition exec_reserve (rt : ReserveTable) (o : reserve_op) : ReserveTable :=
  match o with
  | ReserveRead k t => mkTable (reserve (readTable rt) k t) (writeTable rt)
  | ReserveWrite k t => mkTable (readTable rt) (reserve (writeTable rt) k t)
  end.

Definition reserve_ops (rs ws : KVList) (t : tid_type) : list reserve_op :=
  ((λ kv, ReserveRead (kv_key kv) t) <$> rs) ++
  ((λ kv, ReserveWrite (kv_key kv) t) <$> ws).
End MyCC.

(** ** class peer::cc::WBReserveTable *)
Module WB.
Record WBReserveTable := mkTable { rsTable : table; cmtTable : table }.

Definition reset : WBReserveTable := mkTable ∅ ∅.

Definition reserveWrites (rt : WBReserveTable) (ws : KVList) (t : tid_type)
    : WBReserveTable :=
  mkTable (reserveAll (rsTable rt) ws t) (cmtTable rt).

Definition detectRAW (rt : WBReserveTable) (rs : KVList) (t : tid_type) : bool :=
  scan (rsTable rt) rs t.

(** The commit table keeps the largest id. *)
Definition mvccReserve (m : table) (key : string) (t : tid_type) : table :=
  match m !! key with
  | None => <[key := t]> m
  | Some old => if (0 <=? CompareTID old t)%Z then m else <[key := t]> m
  end.

Definition mvccReserveWrites (rt : WBReserveTable) (ws : KVList) (t : tid_type)
    : WBReserveTable :=
  mkTable (rsTable rt)
    (fold_left (λ m kv, mvccReserve m (kv_key kv) t) ws (cmtTable rt)).

(** The writes handed to the callback: those whose key is mapped to this very
    id in [rsTable]. *)
Definition updateDB (rt : WBReserveTable) (ws : KVList) (t : tid_type) : KVList :=
  List.filter (λ kv, match rsTable rt !! kv_key kv with
                     | Some old => (CompareTID old t =? 0)%Z
                     | None => false
                     end) ws.
End WB.

(** ** Lemmas *)

Definition tid_min (a b : tid_type) : tid_type := if (CompareTID a b <=? 0)%Z then a else b.

Lemma tid_nlt_trans a b c : ¬ tid_lt b a → ¬ tid_lt c b → ¬ tid_lt c a.
Proof.
  intros H1 H2 H3. destruct (tid_lt_trichotomy a b) as [H|[->|H]]; try done.
  destruct H2. by transitivity a.
Qed.

Lemma tid_nlt_anti a b : ¬ tid_lt a b → ¬ tid_lt b a → a = b.
Proof. intros H1 H2. by destruct (tid_lt_trichotomy a b) as [|[|]]. Qed.

Lemma tid_min_spec a b :
  (¬ tid_lt b a ∧ tid_min a b = a) ∨ (tid_lt b a ∧ tid_min a b = b).
Proof.
  unfold tid_min, tid_lt. rewrite (CompareTID_anti a b).
  destruct (Z.leb_spec (CompareTID a b) 0); [left|right]; split; try done; lia.
Qed.

Lemma tid_min_comm a b : tid_min a b = tid_min b a.
Proof.
  destruct (tid_min_spec a b) as [[? ->]|[? ->]], (tid_min_spec b a) as [[? ->]|[? ->]];
    try done; [by apply tid_nlt_anti|]. by destruct (tid_lt_asym a b).
Qed.

Lemma tid_min_assoc a b c : tid_min (tid_min a b) c = tid_min a (tid_min b c).
Proof.
  destruct (tid_min_spec a b) as [[? ->]|[? ->]], (tid_min_spec b c) as [[? ->]|[? ->]];
    try done.
  - destruct (tid_min_spec a c) as [[? ->]|[? ->]], (tid_min_spec a b) as [[? ->]|[? ->]];
      try done. exfalso. by apply (tid_nlt_trans a b c).
  - by destruct (tid_min_spec a b) as [[? ->]|[? ->]].
  - destruct (tid_min_spec a c) as [[? ->]|[? ->]]; [|done].
    assert (tid_lt c a) by (by transitivity b). done.
Qed.

Definition union_min (o : option tid_type) (t : tid_type) : tid_type :=
  match o with None => t | Some old => tid_min old t end.

Lemma reserve_lookup m k t k' :
  reserve m k t !! k' = if decide (k = k') then Some (union_min (m !! k) t) else m !! k'.
Proof.
  unfold reserve, union_min, tid_min. case_decide as E; [subst|];
    (destruct (m !! _) as [old|] eqn:E'; [destruct (_ <=? _)%Z|]; by simplify_map_eq).
Qed.

Lemma reserve_comm m k1 t1 k2 t2 :
  reserve (reserve m k1 t1) k2 t2 = reserve (reserve m k2 t2) k1 t1.
Proof.
  apply map_eq. intros k. rewrite !reserve_lookup.
  destruct (decide (k2 = k)) as [->|], (decide (k1 = k)) as [->|]; try done;
    rewrite ?decide_True, ?decide_False by done; try done.
  f_equal. unfold union_min. destruct (m !! k) as [old|]; [|apply tid_min_comm].
  by rewrite !tid_min_assoc, (tid_min_comm t1).
Qed.

(** The reservations of a list of (key, id) pairs. *)
Definition reserveList (l : list (string * tid_type)) (m : table) : table :=
  fold_left (λ m p, reserve m p.1 p.2) l m.

Lemma reserveAll_list m kvs t :
  reserveAll m kvs t = reserveList ((λ kv, (kv_key kv, t)) <$> kvs) m.
Proof. revert m. induction kvs as [|kv kvs IH]; intros m; [done|]. apply IH. Qed.

(** A key is mapped to some id that reserved it, and to the smallest. *)
Lemma reserveList_spec l k :
  match reserveList l ∅ !! k with
  | Some t => (k, t) ∈ l ∧ ∀ t', (k, t') ∈ l → ¬ tid_lt t' t
  | None => ∀ t', (k, t') ∉ l
  end.
Proof.
  unfold reserveList. induction l as [|[k1 t1] l IH] using rev_ind.
  { simpl. rewrite lookup_empty. set_solver. }
  rewrite fold_left_app. simpl. rewrite reserve_lookup.
  destruct (decide (k1 = k)) as [->|Hk].
  - unfold union_min. destruct (fold_left _ l ∅ !! k) as [old|].
    + destruct IH as [Hin Hmin].
      destruct (tid_min_spec old t1) as [[? ->]|[? ->]].
      * split; [set_solver|]. intros t' [Ht'|[= ->]%list_elem_of_singleton]%elem_of_app; eauto.
      * split; [set_solver|]. intros t' [Ht'|[= ->]%list_elem_of_singleton]%elem_of_app;
          [|by apply tid_lt_irrefl].
        intros ?. apply (Hmin t'); [done|]. by transitivity t1.
    + split; [set_solver|]. intros t' [Ht'|[= ->]%list_elem_of_singleton]%elem_of_app;
        [by destruct (IH t')|]. by apply tid_lt_irrefl.
  - destruct (fold_left _ l ∅ !! k) as [old|]; [|set_solver].
    destruct IH as [Hin Hmin]. split; [set_solver|].
    intros t' [Ht'|[= -> ->]%list_elem_of_singleton]%elem_of_app; eauto.
Qed.

(** The flag of the scanning loop: somebody with a smaller id reserved one of
    the keys. *)
Lemma scan_spec l kvs t :
  scan (reserveList l ∅) kvs t = true ↔
  ∃ kv t', kv ∈ kvs ∧ (kv_key kv, t') ∈ l ∧ tid_lt t' t.
Proof.
  induction kvs as [|kv kvs IH]; simpl.
  { split; [done|]. intros (?&?&?&?). set_solver. }
  unfold reservedBefore. pose proof (reserveList_spec l (kv_key kv)) as Hs.
  destruct (reserveList l ∅ !! kv_key kv) as [old|].
  - destruct Hs as [Hin Hmin]. destruct (Z.ltb_spec (CompareTID old t) 0) as [Hlt|Hge].
    + split; [|done]. intros _. exists kv, old. split; [left|]. done.
    + rewrite IH. split.
      * intros (kv'&t'&?&?&?). exists kv', t'. split; [by right|done].
      * intros (kv'&t'&[->|]%elem_of_cons&Hl&Ht); [|by eauto].
        exfalso. destruct (tid_lt_trichotomy t' old) as [Hx|[->|Hx]].
        -- by apply (Hmin t').
        -- unfold tid_lt in Ht. lia.
        -- assert (tid_lt old t) as Hy by (by transitivity t'). unfold tid_lt in Hy. lia.
  - rewrite IH. split.
    + intros (kv'&t'&?&?&?). exists kv', t'. split; [by right|done].
    + intros (kv'&t'&[->|]%elem_of_cons&Hl&Ht); [by destruct (Hs t')|by eauto].
Qed.

Module MyCCFacts.
Import MyCC.

Lemma exec_reserve_comm rt a b :
  exec_reserve (exec_reserve rt a) b = exec_reserve (exec_reserve rt b) a.
Proof. destruct a, b; simpl; f_equal; apply reserve_comm. Qed.

Lemma updateTable_ops rt rs ws t :
  updateTable rt rs ws t = fold_left exec_reserve (reserve_ops rs ws t) rt.
Proof.
  unfold updateTable, reserve_ops. rewrite fold_left_app.
  destruct rt as [r w]; simpl.
  assert (∀ r, fold_left exec_reserve
    ((λ kv : KV, ReserveRead (kv_key kv) t) <$> rs) (mkTable r w) =
    mkTable (reserveAll r rs t) w) as ->.
  { induction rs as [|kv rs IH]; intros r0; [done|apply IH]. }
  generalize (reserveAll r rs t). intros r'. revert w.
  induction ws as [|kv ws IH]; intros w; [done|apply IH].
Qed.

(** The tables after a list of actions, as lists of reservations. *)
Definition read_pairs (l : list reserve_op) : list (string * tid_type) :=
  omap (λ o, match o with ReserveRead k t => Some (k, t) | _ => None end) l.
Definition write_pairs (l : list reserve_op) : list (string * tid_type) :=
  omap (λ o, match o with ReserveWrite k t => Some (k, t) | _ => None end) l.

Lemma fold_exec_reserve l rt :
  fold_left exec_reserve l rt =
  mkTable (reserveList (read_pairs l) (readTable rt))
    (reserveList (write_pairs l) (writeTable rt)).
Proof.
  revert rt. induction l as [|[k t|k t] l IH]; intros [r w]; simpl; [done|apply IH..].
Qed.
End MyCCFacts.
