(* ===== verification/Coordinator.v ===== *)
(** * Coordinator: workers and work distribution

    include/peer/concurrency_control/worker_fsm.h and coordinator.h: the command
    protocol between the coordinator and its workers, the blocking broadcast of
    a command ([processParallel]), and the strided distribution of a list over
    the workers and back. *)

From S2P Require Import Prelude.

(** ** worker_fsm.h *)

Inductive InvokerCommand := IDLE | START | EXEC | COMMIT_CMD | CUSTOM | EXIT.
Inductive ReceiverState := READY | FINISH_EXEC | FINISH_COMMIT | FINISH_CUSTOM | EXITED.

#[export] Instance InvokerCommand_eq_dec : EqDecision InvokerCommand.
Proof. solve_decision. Defined.
#[export] Instance ReceiverState_eq_dec : EqDecision ReceiverState.
Proof. solve_decision. Defined.

(** The virtual methods of [WorkerFSM]: each returns the state it reports. *)
Record WorkerFSM := mkFSM {
  OnCreate : ReceiverState; OnDestroy : ReceiverState;
  OnExecuteTransaction : ReceiverState; OnCommitTransaction : ReceiverState
}.

(** The switch of [Worker::run]; [IDLE] goes back to waiting. *)
Definition dispatch (fsm : WorkerFSM) (c : InvokerCommand) : option ReceiverState :=
  match c with
  | IDLE => None
  | START => Some (OnCreate fsm)
  | EXEC => Some (OnExecuteTransaction fsm)
  | COMMIT_CMD => Some (OnCommitTransaction fsm)
  | CUSTOM => Some FINISH_CUSTOM
  | EXIT => Some (OnDestroy fsm)
  end.

(** The command cell and the program counter of [Worker::run].  [Loaded c]: the
    thread has loaded [c] from the cell and is about to [compare_exchange]. *)
Inductive pc := Waiting | Loaded (c : InvokerCommand) | Running (c : InvokerCommand) | Stopped.
Record WState := mkW { cell : InvokerCommand; wpc : pc; executed : list InvokerCommand }.

(** One atomic action of the worker thread. [butex_wait] returns at once when
    the cell is not [IDLE]; [spurious] lets it return early on an idle cell
    (an interrupted wait), which the inner loop re-checks. *)
Inductive worker_step (spurious : bool) : WState → WState → Prop :=
| ws_wake c ex :
    c ≠ IDLE ∨ spurious = true →
    worker_step spurious (mkW c Waiting ex) (mkW c (Loaded c) ex)
| ws_cas_ok c ex :
    worker_step spurious (mkW c (Loaded c) ex)
      (mkW IDLE (if decide (c = IDLE) then Waiting else Running c) ex)
| ws_cas_fail c c' ex :
    c ≠ c' →
    worker_step spurious (mkW c (Loaded c') ex)
      (mkW c (if decide (c = IDLE) then Waiting else Running c) ex)
| ws_run c c0 ex :
    worker_step spurious (mkW c (Running c0) ex)
      (mkW c (if decide (c0 = EXIT) then Stopped else Waiting) (ex ++ [c0])).

(** [Worker::execute]: store the command and wake. *)
Definition post (c : InvokerCommand) (w : WState) : WState := mkW c (wpc w) (executed w).

(** ** coordinator.h *)

(** [processParallel]: every worker runs the command and its callback compares
    the reported state; the result is [true] when all of them agree. *)
Definition processParallel (fsms : list WorkerFSM) (c : InvokerCommand)
    (expect : ReceiverState) : bool :=
  forallb (λ fsm, match dispatch fsm c with
                  | Some rs => bool_decide (rs = expect)
                  | None => false
                  end) fsms.

(** [for (int i = id; i < size; i += n) fsmTxnList.push_back(list[i])]: the
    first argument is the distance to the next element taken. *)
Fixpoint stride {A} (skip n : nat) (l : list A) : list A :=
  match l with
  | [] => []
  | x :: l =>
      match skip with
      | O => x :: stride (pred n) n l
      | S skip => stride skip n l
      end
  end.

(** [for (int i = id, j = 0; i < size; i += n) list[i] = fsmTxnList[j++]]. *)
Fixpoint stride_put {A} (skip n : nat) (src dst : list A) : list A :=
  match dst with
  | [] => []
  | y :: dst =>
      match skip with
      | O =>
          match src with
          | x :: src => x :: stride_put (pred n) n src dst
          | [] => y :: dst
          end
      | S skip => y :: stride_put skip n src dst
      end
  end.

(** [afterStart] on every worker. *)
Definition scatter {A} (n : nat) (l : list A) : list (list A) :=
  (λ id, stride id n l) <$> seq 0 n.

(** [afterCommit] on every worker: each writes back at its own indices. *)
Definition gather {A} (n : nat) (slices : list (list A)) (dst : list A) : list A :=
  fold_left (λ d p, stride_put p.1 n p.2 d) (zip (seq 0 n) slices) dst.

(** ** Lemmas on the distribution *)

Lemma stride_lookup {A} (n : nat) (l : list A) s j :
  0 < n → stride s n l !! j = l !! (s + j * n).
Proof.
  intros Hn. revert s j. induction l as [|x l IH]; intros s j; [done|].
  destruct s as [|s]; simpl; [|apply IH].
  destruct j as [|j]; [done|]. simpl. rewrite IH.
  destruct n as [|n]; [lia|]. simpl. done.
Qed.

Lemma stride_put_length {A} (n s : nat) (src dst : list A) :
  length (stride_put s n src dst) = length dst.
Proof.
  revert s src. induction dst as [|y dst IH]; intros s src; [done|].
  destruct s as [|s]; simpl; [destruct src; simpl; by rewrite ?IH|by rewrite IH].
Qed.

(** Writing back a strided slice: its own indices get the slice, the others are
    untouched. *)
Lemma stride_put_lookup {A} (n s : nat) (l dst : list A) i :
  0 < n → length l = length dst →
  stride_put s n (stride s n l) dst !! i =
    if decide (s ≤ i ∧ (i - s) mod n = 0) then l !! i else dst !! i.
Proof.
  intros Hn. revert s l i. induction dst as [|y dst IH]; intros s [|x l] i Hl;
    simplify_eq/=; [by case_decide|].
  destruct s as [|s], i as [|i]; cbn -[decide Nat.modulo Nat.sub].
  - rewrite decide_True; [done|]. split; [lia|]. by rewrite Nat.Div0.mod_0_l.
  - rewrite IH by done. destruct n as [|n]; [lia|]. cbn [pred].
    destruct (decide (n ≤ i ∧ (i - n) mod S n = 0)) as [[H1 H2]|H1].
    + rewrite decide_True; [done|]. split; [lia|].
      replace (S i - 0) with ((i - n) + 1 * S n) by lia. by rewrite Nat.Div0.mod_add.
    + rewrite decide_False; [done|]. intros [_ H2]. apply H1. clear H1.
      assert (n ≤ i) as Hle.
      { destruct (decide (n ≤ i)); [done|]. rewrite Nat.mod_small in H2; lia. }
      split; [done|].
      replace (S i - 0) with ((i - n) + 1 * S n) in H2 by lia.
      by rewrite Nat.Div0.mod_add in H2.
  - rewrite decide_False; [done|lia].
  - rewrite IH by done. apply decide_ext. rewrite Nat.sub_succ, <-Nat.succ_le_mono. done.
Qed.

Lemma gather_lookup {A} (n : nat) (l dst : list A) ids i :
  0 < n → length l = length dst →
  fold_left (λ d p, stride_put p.1 n p.2 d)
    (zip ids ((λ id, stride id n l) <$> ids)) dst !! i =
    if decide (Exists (λ id, id ≤ i ∧ (i - id) mod n = 0) ids) then l !! i else dst !! i.
Proof.
  intros Hn. revert dst. induction ids as [|id ids IH]; intros dst Hl; cbn -[decide].
  { rewrite decide_False; [done|]. by intros ?%Exists_nil. }
  rewrite IH by (by rewrite stride_put_length).
  rewrite stride_put_lookup by done.
  destruct (decide (Exists _ ids)) as [H1|H1].
  - rewrite decide_True; [done|]. by right.
  - destruct (decide (id ≤ i ∧ (i - id) mod n = 0)).
    + rewrite decide_True; [done|]. by left.
    + rewrite decide_False; [done|]. by intros [?|?]%Exists_cons.
Qed.

Lemma stride_fmap {A B} (f : A → B) s n (l : list A) :
  stride s n (f <$> l) = f <$> stride s n l.
Proof.
  revert s. induction l as [|x l IH]; intros [|s]; csimpl; by rewrite ?IH.
Qed.

Lemma scatter_fmap {A B} (f : A → B) n (l : list A) :
  scatter n (f <$> l : list B) = (λ s : list A, (f <$> s : list B)) <$> scatter n l.
Proof.
  unfold scatter. rewrite <-list_fmap_compose. apply list_fmap_ext.
  intros i id _. apply stride_fmap.
Qed.

(** Distributing a list, working on each element and writing back is working on
    the list: no element is lost, duplicated or moved. *)
Lemma gather_scatter {A} (n : nat) (l dst : list A) :
  0 < n → length dst = length l → gather n (scatter n l) dst = l.
Proof.
  intros Hn Hl. unfold gather, scatter. apply list_eq. intros i.
  rewrite gather_lookup by done.
  rewrite decide_True; [done|].
  apply Exists_exists. exists (i mod n).
  pose proof (Nat.mod_upper_bound i n). split_and!.
  - apply elem_of_seq. lia.
  - apply Nat.Div0.mod_le.
  - rewrite (Nat.div_mod_eq i n) at 1.
    replace (n * (i / n) + i mod n - i mod n) with ((i / n) * n) by lia.
    apply Nat.Div0.mod_mul.
Qed.

Lemma scatter_length {A} n (l : list A) : length (scatter n l) = n.
Proof. unfold scatter. by rewrite length_fmap, length_seq. Qed.

(** [shift n s id]: how far worker [id] is from its next element when the next
    element of the list goes to worker [s]. *)
Definition shift (n s id : nat) : nat := (id + n - s) mod n.

Lemma shift_self n s : s < n → shift n s s = 0.
Proof.
  intros Hs. unfold shift. replace (s + n - s) with n by lia. apply Nat.Div0.mod_same.
Qed.

Lemma shift_next_self n s : s < n → shift n ((s + 1) mod n) s = pred n.
Proof.
  intros Hs. unfold shift. destruct (decide (s + 1 = n)) as [E|E].
  - rewrite E, Nat.Div0.mod_same. replace (s + n - 0) with (s + 1 * n) by lia.
    rewrite Nat.Div0.mod_add, Nat.mod_small; lia.
  - rewrite (Nat.mod_small (s + 1)) by lia. rewrite Nat.mod_small; lia.
Qed.

Lemma shift_next n s id :
  s < n → id < n → id ≠ s → shift n s id = S (shift n ((s + 1) mod n) id).
Proof.
  intros Hs Hid Hne. unfold shift. destruct (decide (s + 1 = n)) as [E|E].
  - rewrite E, Nat.Div0.mod_same. replace (id + n - s) with (S id) by lia.
    replace (id + n - 0) with (id + 1 * n) by lia.
    by rewrite Nat.Div0.mod_add, !Nat.mod_small by lia.
  - rewrite (Nat.mod_small (s + 1)) by lia.
    destruct (decide (id < s)) as [Hlt|Hge].
    + rewrite !Nat.mod_small by lia. lia.
    + replace (id + n - s) with ((id - s) + 1 * n) by lia.
      replace (id + n - (s + 1)) with ((id - s - 1) + 1 * n) by lia.
      rewrite !Nat.Div0.mod_add, !Nat.mod_small by lia. lia.
Qed.

(** The slices together hold the elements of the list. *)
Lemma scatter_from_perm {A} (n s : nat) (l : list A) :
  s < n → concat ((λ id, stride (shift n s id) n l) <$> seq 0 n) ≡ₚ l.
Proof.
  revert s. induction l as [|x l IH]; intros s Hs.
  { induction (seq 0 n) as [|i ids IHs]; [done|]. simpl. by destruct (shift n s i). }
  assert ((s + 1) mod n < n) as Hs' by (apply Nat.mod_upper_bound; lia).
  etrans; [|constructor; apply (IH _ Hs')].
  rewrite (concat_take_head _ s x (stride (pred n) n l)).
  2: { rewrite list_lookup_fmap, lookup_seq_lt by lia. simpl. by rewrite shift_self. }
  f_equiv. apply reflexive_eq. f_equal. apply list_eq. intros i.
  destruct (decide (i < n)) as [Hi|Hi].
  - destruct (decide (i = s)) as [->|Hne].
    + rewrite list_lookup_insert_eq by (by rewrite length_fmap, length_seq).
      rewrite list_lookup_fmap, lookup_seq_lt by lia. simpl. by rewrite shift_next_self.
    + rewrite list_lookup_insert_ne by done.
      rewrite !list_lookup_fmap, !lookup_seq_lt by lia. simpl. by rewrite shift_next.
  - rewrite !lookup_ge_None_2; [done| |].
    + rewrite length_fmap, length_seq. lia.
    + rewrite length_insert, length_fmap, length_seq. lia.
Qed.

Lemma scatter_perm {A} n (l : list A) : 0 < n → concat (scatter n l) ≡ₚ l.
Proof.
  intros Hn. etrans; [|by apply (scatter_from_perm n 0 l)].
  unfold scatter, shift. apply reflexive_eq. f_equal. apply list_fmap_ext.
  intros i id [-> Hi]%lookup_seq.
  f_equal. replace (0 + i + n - 0) with (i + 1 * n) by lia.
  rewrite Nat.Div0.mod_add. symmetry. simpl. by apply Nat.mod_small.
Qed.

Lemma stride_put_fmap {A B} (f : A → B) s n (src dst : list A) :
  f <$> stride_put s n src dst = stride_put s n (f <$> src) (f <$> dst).
Proof.
  revert s src. induction dst as [|y dst IH]; intros s src; [done|].
  destruct s as [|s]; csimpl; [destruct src; csimpl; by rewrite ?IH|by rewrite IH].
Qed.

Lemma gather_fmap {A B} (f : A → B) n (slices : list (list A)) (dst : list A) :
  f <$> gather n slices dst =
  gather n ((λ s : list A, (f <$> s : list B)) <$> slices) (f <$> dst).
Proof.
  unfold gather. generalize (seq 0 n) as ids. revert dst.
  induction slices as [|s slices IH]; intros dst [|id ids]; csimpl; try done.
  by rewrite IH, stride_put_fmap.
Qed.

(** Workers that keep some attribute of every element of their slice keep it in
    the list. *)
Lemma gather_keeps {A B} (f : A → B) n (slices : list (list A)) (l : list A) :
  0 < n → ((λ s : list A, (f <$> s : list B)) <$> slices) = scatter n (f <$> l) →
  f <$> gather n slices l = f <$> l.
Proof. intros Hn H. rewrite gather_fmap, H. by apply gather_scatter. Qed.
