(* ===== verification/Deterministic.v ===== *)
(** * Deterministic: the Aria-style engine

    my_cc/deterministic/worker_fsm_impl.h and coordinator_impl.h (the engine
    behind the mixed coordinator), and the original deterministic/
    worker_fsm_impl.h and coordinator_impl.h.  All transactions of a batch
    execute against the same database snapshot and reserve their keys; after a
    barrier each one decides, from the reservations of smaller ids, whether it
    commits.  Both phases run on [n] workers under an arbitrary schedule. *)

From S2P Require Import Prelude Zpp Proto DB ORM ReserveTable Coordinator.
Import MyCC MyCCFacts.

Section engine.
(** [NewChaincodeByName]; [None] is the [nullptr] the callers [CHECK]. *)
Context (chaincodes : string → option Chaincode).

(** ** Execution *)

(** Look the chaincode up, invoke it ([None]: the process died), and move the read and write sets out of
    its ORM into the transaction: the return code and the transaction. *)
Definition invoke (db : database) (t : Transaction) : option (Z * Transaction) :=
  match chaincodes (ccName (userRequest t)) with
  | None => None
  | Some cc =>
      match run db (cc (funcName (userRequest t)) (args (userRequest t))) newORM with
      | None => None
      | Some (o, ret) =>
          let '((res, rs, ws), _) := orm_reset o in
          Some (ret, setRWSets res rs ws t)
      end
  end.

(** The loop body of [DeterministicFSM::OnExecuteTransaction] up to the
    reservation: the boolean says whether the reservation is made. *)
Definition exec_txn (db : database) (t : Transaction) : option (Transaction * bool) :=
  match invoke db t with
  | None => None
  | Some (ret, t1) =>
      if negb (ret =? 0)%Z then Some (setExecutionResult ABORT_NO_RETRY t1, false)
      else if decide (txn_writes t1 = []) then Some (setExecutionResult COMMIT t1, false)
      else Some (t1, true)
  end.

(** [DeterministicFSM::OnExecuteTransaction]; [None] elements are the null
    pointers it skips. *)
Fixpoint OnExecuteTransaction (db : database) (rt : ReserveTable)
    (l : list (option Transaction)) : option (ReserveTable * list (option Transaction)) :=
  match l with
  | [] => Some (rt, [])
  | None :: l =>
      match OnExecuteTransaction db rt l with
      | Some (rt', l') => Some (rt', None :: l')
      | None => None
      end
  | Some t :: l =>
      match exec_txn db t with
      | None => None
      | Some (t1, r) =>
          let rt1 := if r then updateTable rt (txn_reads t1) (txn_writes t1) (tid t1)
                     else rt in
          match OnExecuteTransaction db rt1 l with
          | Some (rt', l') => Some (rt', Some t1 :: l')
          | None => None
          end
      end
  end.

(** ** Commit *)

(** The decision of [DeterministicFSM::OnCommitTransaction] for one
    transaction: the transaction with its result, and the writes it adds to
    the batch. *)
Definition commit_txn (rt : ReserveTable) (t : Transaction) : Transaction * KVList :=
  if hasResult ABORT_NO_RETRY t then (t, [])
  else if hasResult COMMIT t then (t, [])
  else
    let dep := getDependence rt (txn_reads t) (txn_writes t) (tid t) in
    if waw dep then (setExecutionResult ABORT t, [])
    else if war dep && raw dep then (setExecutionResult ABORT t, [])
    else (setExecutionResult COMMIT t, txn_writes t).

(** The callback given to [syncWriteBatch]. *)
Fixpoint saveToDB (rt : ReserveTable) (l : list (option Transaction)) (b : WriteBatch)
    : list (option Transaction) * WriteBatch :=
  match l with
  | [] => ([], b)
  | None :: l => let '(l', b') := saveToDB rt l b in (None :: l', b')
  | Some t :: l =>
      let '(t', ws) := commit_txn rt t in
      let '(l', b') := saveToDB rt l (fold_left putOrDelete ws b) in
      (Some t' :: l', b')
  end.

Definition OnCommitTransaction (rt : ReserveTable) (db : database)
    (l : list (option Transaction)) : database * list (option Transaction) :=
  let '(db', _) := syncWriteBatch (λ b, ((saveToDB rt l b).2, true)) db in
  (db', (saveToDB rt l emptyBatch).1).

(** ** The original engine, deterministic/worker_fsm_impl.h *)

(** [WorkerFSMImpl::OnExecuteTransaction]. *)
Fixpoint aria_OnExecuteTransaction (db : database) (rt : Aria.ReserveTable)
    (l : list Transaction) : option (Aria.ReserveTable * list Transaction) :=
  match l with
  | [] => Some (rt, [])
  | t :: l =>
      match exec_txn db t with
      | None => None
      | Some (t1, r) =>
          let rt1 := if r then Aria.reserveRWSets rt (txn_reads t1) (txn_writes t1) (tid t1)
                     else rt in
          match aria_OnExecuteTransaction db rt1 l with
          | Some (rt', l') => Some (rt', t1 :: l')
          | None => None
          end
      end
  end.

Definition aria_commit_txn (rt : Aria.ReserveTable) (t : Transaction)
    : Transaction * KVList :=
  if hasResult ABORT_NO_RETRY t then (t, [])
  else if decide (txn_writes t = []) then (setExecutionResult COMMIT t, [])
  else
    let dep := Aria.analysisDependent rt (txn_reads t) (txn_writes t) (tid t) in
    if waw dep then (setExecutionResult ABORT t, [])
    else if negb (war dep) || negb (raw dep)
    then (setExecutionResult COMMIT t, txn_writes t)
    else (setExecutionResult ABORT t, []).

Fixpoint aria_saveToDB (rt : Aria.ReserveTable) (l : list Transaction) (b : WriteBatch)
    : list Transaction * WriteBatch :=
  match l with
  | [] => ([], b)
  | t :: l =>
      let '(t', ws) := aria_commit_txn rt t in
      let '(l', b') := aria_saveToDB rt l (fold_left putOrDelete ws b) in
      (t' :: l', b')
  end.

Definition aria_OnCommitTransaction (rt : Aria.ReserveTable) (db : database)
    (l : list Transaction) : database * list Transaction :=
  let '(db', _) := syncWriteBatch (λ b, ((aria_saveToDB rt l b).2, true)) db in
  (db', (aria_saveToDB rt l emptyBatch).1).

(** ** The coordinator, my_cc/deterministic/coordinator_impl.h *)

(** The state reported by the handlers; all of them succeed. *)
Definition fsm : WorkerFSM := mkFSM READY EXITED FINISH_EXEC FINISH_COMMIT.

(** [processValidatedRequests(transactions)] with its [processSync], running
    the workers of each phase one after the other.  [CHECK]: no null pointer
    is moved back. *)
Fixpoint exec_slices (db : database) (rt : ReserveTable)
    (slices : list (list (option Transaction)))
    : option (ReserveTable * list (list (option Transaction))) :=
  match slices with
  | [] => Some (rt, [])
  | s :: slices =>
      match OnExecuteTransaction db rt s with
      | None => None
      | Some (rt1, s1) =>
          match exec_slices db rt1 slices with
          | None => None
          | Some (rt2, slices2) => Some (rt2, s1 :: slices2)
          end
      end
  end.

Fixpoint commit_slices (rt : ReserveTable) (db : database)
    (slices : list (list (option Transaction)))
    : database * list (list (option Transaction)) :=
  match slices with
  | [] => (db, [])
  | s :: slices =>
      let '(db1, s1) := OnCommitTransaction rt db s in
      let '(db2, slices2) := commit_slices rt db1 slices in
      (db2, s1 :: slices2)
  end.

Definition processTransactions (n : nat) (db : database) (txns : list Transaction)
    : option (bool * database * list Transaction) :=
  let fsms := replicate n fsm in
  if negb (processParallel fsms START READY) then Some (false, db, txns)
  else
    match exec_slices db MyCC.reset (scatter n (Some <$> txns)) with
    | None => None
    | Some (rt, slices) =>
        if negb (processParallel fsms EXEC FINISH_EXEC) then Some (false, db, txns)
        else
          let '(db', slices') := commit_slices rt db slices in
          match mapM id (gather n slices' (replicate (length txns) None)) with
          | None => None
          | Some txns' => Some (processParallel fsms COMMIT_CMD FINISH_COMMIT, db', txns')
          end
    end.

(** [Coordinator::processValidatedRequests]: parse the envelopes (each is
    [CHECK]ed), run the transactions, and split each one into its envelope, its
    read-write set and the byte that says whether it committed. *)
Definition finish_txn (t : Transaction) : Envelop * TxReadWriteSet * bool :=
  (DestroyTransaction t, hasResult COMMIT t).

Definition processValidatedRequests `{!Zpp} (n : nat) (db : database)
    (requests : list Envelop)
    : option (bool * database * list (Envelop * TxReadWriteSet * bool)) :=
  match mapM NewTransactionFromEnvelop requests with
  | None => None
  | Some txns =>
      match processTransactions n db txns with
      | None => None
      | Some (ok, db', txns') => Some (ok, db', finish_txn <$> txns')
      end
  end.

(** ** The same coordinator under an arbitrary schedule *)

(** The table actions a worker performs for an executed transaction. *)
Definition txn_ops (p : Transaction * bool) : list reserve_op :=
  if p.2 then reserve_ops (txn_reads p.1) (txn_writes p.1) (tid p.1) else [].

(** The database actions of a worker's batch. *)
Definition slice_db_ops (rt : ReserveTable) (s : list (Transaction * bool)) : list db_op :=
  batch_ops (fold_left (λ b p, fold_left putOrDelete (commit_txn rt p.1).2 b) s emptyBatch).

(** Every worker [id] executes its slice against the snapshot [db] while the
    reservations of all workers interleave; after the barrier every worker
    decides against the final table while the database writes of all workers
    interleave. *)
Definition scheduled_run (n : nat) (db : database) (txns : list Transaction)
    (db' : database) (txns' : list Transaction) : Prop :=
  ∃ slices rt,
    mapM (mapM (exec_txn db)) (scatter n txns) = Some slices ∧
    par_run exec_reserve ((λ s, s ≫= txn_ops) <$> slices) MyCC.reset rt ∧
    par_run exec_db_op (slice_db_ops rt <$> slices) db db' ∧
    txns' = gather n
      ((λ s, (λ p : Transaction * bool, (commit_txn rt p.1).1) <$> s) <$> slices) txns.

(** ** The batch, without workers *)

Definition batch_table (l : list (Transaction * bool)) : ReserveTable :=
  fold_left exec_reserve (l ≫= txn_ops) MyCC.reset.

Definition committed_writes (rt : ReserveTable) (l : list (Transaction * bool)) : KVList :=
  l ≫= (λ p, (commit_txn rt p.1).2).

Definition batch_run (db : database) (txns : list Transaction)
    : option (database * list Transaction) :=
  match mapM (exec_txn db) txns with
  | None => None
  | Some l =>
      let rt := batch_table l in
      Some (applyWrites (committed_writes rt l) db, (λ p, (commit_txn rt p.1).1) <$> l)
  end.

End engine.

(** ** Facts about one transaction *)

Definition write_keys (t : Transaction) : list string := kv_key <$> txn_writes t.
Definition read_keys (t : Transaction) : list string := kv_key <$> txn_reads t.

Lemma hasResult_set er er' t :
  hasResult er (setExecutionResult er' t) = bool_decide (er = er').
Proof. by destruct er, er'. Qed.

Lemma invoke_tid chaincodes db t ret t1 : invoke chaincodes db t = Some (ret, t1) → tid t1 = tid t.
Proof.
  unfold invoke. destruct (chaincodes _); [|done].
  destruct (run _ _ _) as [[o r]|]; [|done]. simpl. by intros [= <- <-].
Qed.

Lemma exec_txn_tid chaincodes db t p : exec_txn chaincodes db t = Some p → tid p.1 = tid t.
Proof.
  unfold exec_txn. destruct (invoke chaincodes db t) as [[ret t1]|] eqn:E; [|done].
  apply invoke_tid in E. intros H. repeat case_match; by simplify_eq/=.
Qed.

(** The parts of a transaction no engine changes. *)
Definition txn_id (t : Transaction) : tid_type * Envelop * UserRequest :=
  (tid t, envelop t, userRequest t).

Lemma exec_txn_id chaincodes db t p :
  exec_txn chaincodes db t = Some p → txn_id p.1 = txn_id t.
Proof.
  unfold exec_txn, invoke. destruct (chaincodes _) as [cc|]; [|done].
  destruct (run _ _ _) as [[o ret]|]; [|done]. simpl.
  intros H. repeat case_match; by simplify_eq/=.
Qed.

Lemma commit_txn_id rt t : txn_id (commit_txn rt t).1 = txn_id t.
Proof. unfold commit_txn. repeat case_match; done. Qed.

Lemma batch_run_id chaincodes db txns db' txns' :
  batch_run chaincodes db txns = Some (db', txns') → txn_id <$> txns' = txn_id <$> txns.
Proof.
  unfold batch_run. destruct (mapM _ _) as [l|] eqn:Hl; [|done]. intros [= _ <-].
  generalize (batch_table l) as rt. intros rt. apply mapM_Some in Hl.
  induction Hl as [|t p txns l Htp _ IH]; csimpl; [done|].
  by rewrite IH, commit_txn_id, (exec_txn_id _ _ _ _ Htp).
Qed.

(** The three ways out of the execution phase. *)
Lemma exec_txn_cases chaincodes db t t1 r :
  exec_txn chaincodes db t = Some (t1, r) →
  (r = false ∧ hasResult ABORT_NO_RETRY t1 = true) ∨
  (r = false ∧ hasResult COMMIT t1 = true ∧ txn_writes t1 = []) ∨
  (r = true ∧ (∀ er, hasResult er t1 = hasResult er t) ∧ txn_writes t1 ≠ []).
Proof.
  unfold exec_txn, invoke. destruct (chaincodes _) as [cc|]; [|done].
  destruct (run _ _ _) as [[o ret]|]; [|done]. simpl. destruct (negb _).
  - intros [= <- <-]. by left.
  - case_decide; intros [= <- <-]; [right; left|right; right]; done.
Qed.

(** A transaction that made no reservation already has its result. *)
Lemma exec_txn_noreserve chaincodes db t t1 :
  exec_txn chaincodes db t = Some (t1, false) →
  hasResult ABORT_NO_RETRY t1 = true ∨ hasResult COMMIT t1 = true.
Proof.
  unfold exec_txn. intros H. repeat case_match; simplify_eq/=; eauto.
Qed.

Lemma commit_txn_writes rt t kv :
  kv ∈ (commit_txn rt t).2 →
  kv ∈ txn_writes t ∧ hasResult ABORT_NO_RETRY t = false ∧ hasResult COMMIT t = false ∧
  waw (getDependence rt (txn_reads t) (txn_writes t) (tid t)) = false ∧
  war (getDependence rt (txn_reads t) (txn_writes t) (tid t)) &&
    raw (getDependence rt (txn_reads t) (txn_writes t) (tid t)) = false.
Proof.
  unfold commit_txn. destruct (hasResult ABORT_NO_RETRY t); [by intros ?%elem_of_nil|].
  destruct (hasResult COMMIT t); [by intros ?%elem_of_nil|].
  destruct (waw _); [by intros ?%elem_of_nil|].
  destruct (_ && _); [by intros ?%elem_of_nil|]. by intros H.
Qed.

(** ** The reservation table of a batch *)

(** Some reserving transaction of [l] with a smaller id touches a key of [ks]
    through [keys]. *)
Definition earlier (l : list (Transaction * bool)) (keys : Transaction → list string)
    (ks : list string) (t : tid_type) : Prop :=
  ∃ p k, p ∈ l ∧ p.2 = true ∧ k ∈ ks ∧ k ∈ keys p.1 ∧ tid_lt (tid p.1) t.

Lemma elem_of_write_pairs l k t :
  (k, t) ∈ write_pairs (l ≫= txn_ops) ↔
  ∃ p, p ∈ l ∧ p.2 = true ∧ k ∈ write_keys p.1 ∧ t = tid p.1.
Proof.
  unfold write_pairs. rewrite list_elem_of_omap. unfold txn_ops, reserve_ops, write_keys.
  setoid_rewrite list_elem_of_bind. split.
  - intros ([|k' t'] & (p & Hp & Hl) & [= -> ->]). exists p.
    destruct p.2; [|set_solver]. set_solver.
  - intros (p & Hl & Hp & (kv & -> & Hkv)%list_elem_of_fmap & ->).
    exists (ReserveWrite (kv_key kv) (tid p.1)). split; [|done].
    exists p. rewrite Hp. set_solver.
Qed.

Lemma elem_of_read_pairs l k t :
  (k, t) ∈ read_pairs (l ≫= txn_ops) ↔
  ∃ p, p ∈ l ∧ p.2 = true ∧ k ∈ read_keys p.1 ∧ t = tid p.1.
Proof.
  unfold read_pairs. rewrite list_elem_of_omap. unfold txn_ops, reserve_ops, read_keys.
  setoid_rewrite list_elem_of_bind. split.
  - intros ([k' t'|] & (p & Hp & Hl) & [= -> ->]). exists p.
    destruct p.2; [|set_solver]. set_solver.
  - intros (p & Hl & Hp & (kv & -> & Hkv)%list_elem_of_fmap & ->).
    exists (ReserveRead (kv_key kv) (tid p.1)). split; [|done].
    exists p. rewrite Hp. set_solver.
Qed.

Lemma scan_write_earlier l kvs t :
  scan (writeTable (batch_table l)) kvs t = true ↔
  earlier l write_keys (kv_key <$> kvs) t.
Proof.
  unfold batch_table. rewrite fold_exec_reserve. simpl. rewrite scan_spec.
  setoid_rewrite elem_of_write_pairs. unfold earlier. split.
  - intros (kv & t' & Hkv & (p & ? & ? & ? & ->) & ?). exists p, (kv_key kv).
    split_and!; try done. by apply list_elem_of_fmap_2.
  - intros (p & k & ? & ? & (kv & -> & ?)%list_elem_of_fmap & ? & ?).
    exists kv, (tid p.1). naive_solver.
Qed.

Lemma scan_read_earlier l kvs t :
  scan (readTable (batch_table l)) kvs t = true ↔
  earlier l read_keys (kv_key <$> kvs) t.
Proof.
  unfold batch_table. rewrite fold_exec_reserve. simpl. rewrite scan_spec.
  setoid_rewrite elem_of_read_pairs. unfold earlier. split.
  - intros (kv & t' & Hkv & (p & ? & ? & ? & ->) & ?). exists p, (kv_key kv).
    split_and!; try done. by apply list_elem_of_fmap_2.
  - intros (p & k & ? & ? & (kv & -> & ?)%list_elem_of_fmap & ? & ?).
    exists kv, (tid p.1). naive_solver.
Qed.
