(* ===== verification/DeterministicProofs.v ===== *)
(** * DeterministicProofs: every schedule gives the batch

    The parallel engine of [Deterministic] is confluent: whatever the number of
    workers and however their atomic actions interleave, the database and the
    transaction results are those of [batch_run], a function of the database and
    the batch alone.  This is what lets replicas that execute the same block
    stay identical. *)

From S2P Require Import Prelude Proto DB ORM Samples ReserveTable Coordinator Deterministic.
Import MyCC MyCCFacts.

#[local] Set Default Proof Using "Type".

(** ** Distribution and [mapM] *)

Lemma Forall2_stride {A B} (R : A → B → Prop) s n l k :
  Forall2 R l k → Forall2 R (stride s n l) (stride s n k).
Proof.
  intros H. revert s. induction H as [|x y l k Hxy _ IH]; intros [|s]; simpl;
    try constructor; auto.
Qed.

Lemma mapM_scatter {A B} (f : A → option B) n l k :
  mapM f l = Some k → mapM (mapM f) (scatter n l) = Some (scatter n k).
Proof.
  rewrite !mapM_Some. intros H. unfold scatter.
  apply Forall2_fmap_2. apply Forall_Forall2_diag, Forall_forall.
  intros id _. by apply mapM_Some, Forall2_stride.
Qed.

Lemma mapM_scatter_inv {A B} (f : A → option B) n l slices :
  0 < n → mapM (mapM f) (scatter n l) = Some slices →
  ∃ k, mapM f l = Some k ∧ slices = scatter n k.
Proof.
  intros Hn H.
  assert (is_Some (mapM f l)) as [k Hk].
  { apply mapM_is_Some, Forall_forall. intros x Hx.
    rewrite <-(scatter_perm n l Hn) in Hx.
    apply list_elem_of_In, in_concat in Hx as (s & Hs & Hx).
    apply mapM_Some in H. apply list_elem_of_In in Hs, Hx.
    apply list_elem_of_lookup in Hs as [i Hi].
    destruct (Forall2_lookup_l _ _ _ _ _ H Hi) as (s' & _ & Hs').
    apply mapM_Some in Hs'. apply list_elem_of_lookup in Hx as [j Hj].
    destruct (Forall2_lookup_l _ _ _ _ _ Hs' Hj) as (y & _ & Hy). by exists y. }
  exists k. split; [done|]. apply (mapM_scatter f n) in Hk. congruence.
Qed.

Lemma concat_fmap_bind {A B} (f : A → list B) (ls : list (list A)) :
  concat ((λ s, s ≫= f) <$> ls) = concat ls ≫= f.
Proof.
  induction ls as [|s ls IH]; csimpl; [done|]. by rewrite IH, bind_app.
Qed.

(** ** Reservations do not depend on the schedule *)

Lemma par_reserve n l rt :
  0 < n →
  par_run exec_reserve ((λ s, s ≫= txn_ops) <$> scatter n l) MyCC.reset rt →
  rt = batch_table l.
Proof.
  intros Hn H. apply par_run_comm in H; [|intros; apply exec_reserve_comm].
  rewrite H. unfold batch_table.
  apply fold_left_perm_on; [intros; apply exec_reserve_comm|].
  rewrite concat_fmap_bind. by rewrite scatter_perm.
Qed.

(** ** Committed transactions write disjoint keys *)

(** What the execution phase leaves: distinct ids, no transaction writes a key
    twice, and the ones that did not reserve have their result. *)
Record executed_ok (l : list (Transaction * bool)) : Prop := {
  eo_tids : NoDup ((λ p, tid p.1) <$> l);
  eo_keys : ∀ p, p ∈ l → NoDup (write_keys p.1);
  eo_done : ∀ p, p ∈ l → p.2 = false →
    hasResult ABORT_NO_RETRY p.1 = true ∨ hasResult COMMIT p.1 = true
}.

Lemma executed_ok_tail p l : executed_ok (p :: l) → executed_ok l.
Proof.
  intros [H1 H2 H3]. split.
  - by apply NoDup_cons in H1 as [_ ?].
  - intros q Hq. apply H2. by right.
  - intros q Hq. apply H3. by right.
Qed.

Lemma commit_txn_keys rt (p : Transaction * bool) :
  NoDup (write_keys p.1) → NoDup (kv_key <$> (commit_txn rt p.1).2).
Proof.
  intros H. unfold commit_txn. repeat case_match; simpl; try constructor; done.
Qed.

(** A committed writer sees no earlier reservation of its keys. *)
Lemma committed_no_waw l p q kv k :
  executed_ok l → p ∈ l → q ∈ l →
  kv ∈ (commit_txn (batch_table l) p.1).2 → kv_key kv = k →
  k ∈ write_keys q.1 → q.2 = true → ¬ tid_lt (tid q.1) (tid p.1).
Proof.
  intros Hl Hp Hq Hkv <- Hk Hq2 Hlt.
  apply commit_txn_writes in Hkv as (Hkv & _ & _ & Hw & _).
  simpl in Hw. apply not_true_iff_false in Hw. apply Hw, (proj2 (scan_write_earlier _ _ _)).
  exists q, (kv_key kv). split_and!; try done. by apply list_elem_of_fmap_2.
Qed.

Lemma writer_reserved l p kv rt :
  executed_ok l → p ∈ l → kv ∈ (commit_txn rt p.1).2 → p.2 = true.
Proof.
  intros Hl Hp Hkv. destruct p.2 eqn:E; [done|].
  apply commit_txn_writes in Hkv as (_ & H1 & H2 & _).
  destruct (eo_done l Hl p Hp E); congruence.
Qed.

Lemma committed_disjoint l p q kv kv' :
  executed_ok l → p ∈ l → q ∈ l →
  kv ∈ (commit_txn (batch_table l) p.1).2 → kv' ∈ (commit_txn (batch_table l) q.1).2 →
  kv_key kv = kv_key kv' → p = q.
Proof.
  intros Hl Hp Hq Hkv Hkv' E.
  assert (kv_key kv' ∈ write_keys q.1) as Hq1
    by (apply commit_txn_writes in Hkv' as (? & _); by apply list_elem_of_fmap_2).
  assert (kv_key kv' ∈ write_keys p.1) as Hp1
    by (rewrite <-E; apply commit_txn_writes in Hkv as (? & _); by apply list_elem_of_fmap_2).
  apply (NoDup_fmap_ne (λ p, tid p.1) l); [apply Hl|done..|]. apply tid_nlt_anti.
  - eapply (committed_no_waw l q p kv'); eauto using writer_reserved.
  - eapply (committed_no_waw l p q kv); eauto using writer_reserved.
Qed.

Lemma committed_writes_NoDup l :
  executed_ok l → NoDup (kv_key <$> committed_writes (batch_table l) l).
Proof.
  intros Hl. unfold committed_writes.
  assert (NoDup l) as Hn by (eapply NoDup_fmap_1; apply Hl).
  assert (∀ p, p ∈ l → p ∈ l) as Hsub by done. revert Hn Hsub.
  generalize l at 1 2 5 as l0.
  induction l0 as [|p l0 IH]; intros Hn Hsub; csimpl; [constructor|].
  apply NoDup_cons in Hn as [Hp Hn].
  rewrite fmap_app. apply NoDup_app. split_and!.
  - apply commit_txn_keys, (eo_keys l Hl), Hsub. left.
  - intros k (kv & -> & Hkv)%list_elem_of_fmap
      (kv' & E & (q & Hkv' & Hq)%list_elem_of_bind)%list_elem_of_fmap.
    apply Hp. replace p with q; [done|].
    symmetry. eapply committed_disjoint; eauto; apply Hsub; [left|by right].
  - apply IH; [done|]. intros q Hq. apply Hsub. by right.
Qed.

(** ** Database writes do not depend on the schedule *)

Lemma slice_fold_bind (f : Transaction * bool → KVList) s b :
  fold_left (λ b p, fold_left putOrDelete (f p) b) s b = fold_left putOrDelete (s ≫= f) b.
Proof.
  revert b. induction s as [|p s IH]; intros b; csimpl; [done|].
  by rewrite IH, fold_left_app.
Qed.

Lemma slices_ops_perm rt (slices : list (list (Transaction * bool))) :
  concat (slice_db_ops rt <$> slices) ≡ₚ write_op <$> committed_writes rt (concat slices).
Proof.
  induction slices as [|s slices IH]; csimpl; [done|].
  unfold committed_writes. rewrite bind_app, fmap_app, IH.
  f_equiv; [|done]. unfold slice_db_ops.
  rewrite (slice_fold_bind (λ p, (commit_txn rt p.1).2)). by rewrite batch_ops_perm.
Qed.

Lemma par_commit n l db db' :
  0 < n → executed_ok l →
  par_run exec_db_op (slice_db_ops (batch_table l) <$> scatter n l) db db' →
  db' = applyWrites (committed_writes (batch_table l) l) db.
Proof.
  intros Hn Hl (ops & Hp & ->)%par_run_fold. rewrite <-fold_write_ops.
  symmetry. apply db_ops_perm.
  - by apply NoDup_write_ops, committed_writes_NoDup.
  - rewrite <-Hp, slices_ops_perm. unfold committed_writes. by rewrite scatter_perm.
Qed.

Lemma mapM_elem {A B} (f : A → option B) l k y :
  mapM f l = Some k → y ∈ k → ∃ x, x ∈ l ∧ f x = Some y.
Proof.
  intros H%mapM_Some Hy. apply list_elem_of_lookup in Hy as [i Hi].
  destruct (Forall2_lookup_r _ _ _ _ _ H Hi) as (x & Hx & Hf).
  exists x. split; [|done]. apply list_elem_of_lookup. eauto.
Qed.

Lemma mapM_id_Some {A B} (f : A → B) (l : list A) :
  mapM id ((λ x, Some (f x)) <$> l) = Some (f <$> l).
Proof.
  apply mapM_Some, Forall2_fmap_l, Forall2_fmap_r, Forall_Forall2_diag, Forall_true. done.
Qed.

Section proofs.
Context (chaincodes : string → option Chaincode).

(** Distinct ids and, per transaction, distinct written keys, in terms of the
    batch: the first because an id is the digest of a signed request, the
    second is what [ORM::put] asserts in debug builds. *)
Definition batch_ok (db : database) (txns : list Transaction) : Prop :=
  NoDup (tid <$> txns) ∧
  ∀ t p, t ∈ txns → exec_txn chaincodes db t = Some p → NoDup (write_keys p.1).

Lemma mapM_tids db txns l :
  mapM (exec_txn chaincodes db) txns = Some l → (λ p, tid p.1) <$> l = tid <$> txns.
Proof.
  rewrite mapM_Some. induction 1 as [|t p txns l Htp _ IH]; csimpl; [done|].
  by rewrite IH, (exec_txn_tid _ _ _ _ Htp).
Qed.

Lemma executed_batch db txns l :
  batch_ok db txns → mapM (exec_txn chaincodes db) txns = Some l → executed_ok l.
Proof.
  intros [Ht Hk] Hm. split.
  - by rewrite (mapM_tids _ _ _ Hm).
  - intros p Hp. destruct (mapM_elem _ _ _ _ Hm Hp) as (t & ? & ?). eauto.
  - intros [t1 r] Hp E. simpl in E. subst.
    destruct (mapM_elem _ _ _ _ Hm Hp) as (t & ? & ?). eapply exec_txn_noreserve; eauto.
Qed.

Lemma scheduled_run_batch n db txns db' txns' :
  0 < n → batch_ok db txns →
  scheduled_run chaincodes n db txns db' txns' →
  batch_run chaincodes db txns = Some (db', txns').
Proof.
  intros Hn Hok (slices & rt & Hex & Hrt & Hdb & ->).
  destruct (mapM_scatter_inv _ _ _ _ Hn Hex) as (l & Hl & ->).
  pose proof (executed_batch _ _ _ Hok Hl) as Hlo.
  apply par_reserve in Hrt as ->; [|done].
  apply par_commit in Hdb as ->; [|done..].
  unfold batch_run. rewrite Hl. do 2 f_equal.
  rewrite <-(scatter_fmap (λ p : Transaction * bool, (commit_txn (batch_table l) p.1).1)).
  rewrite gather_scatter; [done..|].
  rewrite length_fmap. symmetry. by apply length_mapM in Hl.
Qed.

(** ** The coordinator's own schedule: one worker after the other *)

Lemma OnExecuteTransaction_spec db l rt :
  OnExecuteTransaction chaincodes db rt (Some <$> l) =
  (λ k : list (Transaction * bool),
     (fold_left exec_reserve (k ≫= txn_ops) rt, (λ p, Some p.1) <$> k))
    <$> mapM (exec_txn chaincodes db) l.
Proof.
  revert rt. induction l as [|t l IH]; intros rt; [done|].
  csimpl. destruct (exec_txn chaincodes db t) as [[t1 r]|]; [|done]. simpl. rewrite IH.
  destruct (mapM _ l) as [k|]; [|done]. simpl. do 2 f_equal.
  unfold txn_ops at 2. rewrite fold_left_app. simpl.
  destruct r; [by rewrite updateTable_ops|done].
Qed.

Lemma exec_slices_spec db (slices : list (list Transaction)) rt :
  exec_slices chaincodes db rt ((λ s : list Transaction, Some <$> s) <$> slices) =
  (λ ks : list (list (Transaction * bool)),
     (fold_left exec_reserve (concat ((λ s : list (Transaction * bool), s ≫= txn_ops) <$> ks)) rt,
      (λ s : list (Transaction * bool), (λ p, Some p.1) <$> s) <$> ks))
    <$> mapM (M:=option) (mapM (M:=option) (exec_txn chaincodes db)) slices.
Proof.
  revert rt. induction slices as [|s slices IH]; intros rt; [done|].
  csimpl. rewrite OnExecuteTransaction_spec.
  destruct (mapM _ s) as [k|]; [|done]. simpl. rewrite IH.
  destruct (mapM _ slices) as [ks|]; [|done]. simpl. by rewrite fold_left_app.
Qed.

Lemma saveToDB_spec rt (k : list (Transaction * bool)) b :
  saveToDB rt ((λ p, Some p.1) <$> k) b =
  ((λ p, Some (commit_txn rt p.1).1) <$> k,
   fold_left (λ b p, fold_left putOrDelete (commit_txn rt p.1).2 b) k b).
Proof.
  revert b. induction k as [|[t r] k IH]; intros b; csimpl; [done|].
  destruct (commit_txn rt t) as [t' ws]. by rewrite IH.
Qed.

Lemma OnCommitTransaction_spec rt (k : list (Transaction * bool)) db :
  OnCommitTransaction rt db ((λ p, Some p.1) <$> k) =
  (fold_left exec_db_op (slice_db_ops rt k) db, (λ p, Some (commit_txn rt p.1).1) <$> k).
Proof.
  unfold OnCommitTransaction. rewrite syncWriteBatch_ops by done.
  by rewrite !saveToDB_spec.
Qed.

Lemma commit_slices_spec rt (ks : list (list (Transaction * bool))) db :
  commit_slices rt db ((λ s : list (Transaction * bool), (λ p, Some p.1) <$> s) <$> ks) =
  (fold_left exec_db_op (concat (slice_db_ops rt <$> ks)) db,
   (λ s : list (Transaction * bool), (λ p, Some (commit_txn rt p.1).1) <$> s) <$> ks).
Proof.
  revert db. induction ks as [|k ks IH]; intros db; [done|].
  rewrite !fmap_cons. cbn [commit_slices concat]. rewrite OnCommitTransaction_spec.
  by rewrite IH, fold_left_app.
Qed.

(** What the sequential coordinator returns is the outcome of a schedule. *)
Lemma processTransactions_schedule n db txns :
  0 < n →
  match processTransactions chaincodes n db txns with
  | Some (ok, db', txns') => ok = true ∧ scheduled_run chaincodes n db txns db' txns'
  | None => mapM (exec_txn chaincodes db) txns = None
  end.
Proof.
  intros Hn. unfold processTransactions.
  assert (∀ c e, dispatch fsm c = Some e → processParallel (replicate n fsm) c e = true) as Hpp.
  { intros c e Hd. unfold processParallel. apply forallb_forall.
    intros x ->%list_elem_of_In%elem_of_replicate_inv. rewrite Hd. by apply bool_decide_eq_true. }
  rewrite !Hpp by done. simpl.
  rewrite (scatter_fmap Some n txns), exec_slices_spec.
  destruct (mapM _ (scatter n txns)) as [ks|] eqn:Hks; simpl.
  2: { destruct (mapM _ txns) as [k|] eqn:Hk; [|done].
       apply (mapM_scatter _ n) in Hk. congruence. }
  destruct (mapM_scatter_inv _ _ _ _ Hn Hks) as (l & Hl & ->).
  rewrite commit_slices_spec.
  rewrite <-(scatter_fmap (λ p, Some (commit_txn _ p.1).1)).
  rewrite gather_scatter; [|done|by rewrite length_replicate, length_fmap, (length_mapM _ _ _ Hl)].
  set (rt := fold_left _ _ _).
  rewrite mapM_id_Some.
  split; [done|]. exists (scatter n l), rt. split_and!; [done|apply par_run_seq..|].
  rewrite <-(scatter_fmap (λ p : Transaction * bool, (commit_txn rt p.1).1)).
  by rewrite gather_scatter by (done || rewrite length_fmap; by apply length_mapM in Hl).
Qed.
End proofs.

(** ** An executable form of the side condition *)

Definition batch_okb chaincodes (db : database) (txns : list Transaction) : bool :=
  bool_decide (NoDup (tid <$> txns)) &&
  forallb (λ t, match exec_txn chaincodes db t with
                | Some p => bool_decide (NoDup (write_keys p.1))
                | None => true
                end) txns.

Lemma batch_okb_ok chaincodes db txns :
  batch_okb chaincodes db txns = true → batch_ok chaincodes db txns.
Proof.
  unfold batch_okb. intros [H1 H2]%andb_prop. split; [by apply bool_decide_eq_true in H1|].
  intros t p Ht Hp. rewrite forallb_forall in H2.
  apply list_elem_of_In in Ht. specialize (H2 t Ht). rewrite Hp in H2.
  by apply bool_decide_eq_true in H2.
Qed.

(** C4: determinism of the parallel engine.  Under every number of workers and
    every interleaving of their atomic table and database actions, the engine
    reaches exactly the outcome of [batch_run], a function of the database and
    the batch alone; and some schedule reaches it. *)
Theorem schedule_deterministic chaincodes n db txns db' txns' :
  0 < n → batch_ok chaincodes db txns →
  scheduled_run chaincodes n db txns db' txns' ↔
  batch_run chaincodes db txns = Some (db', txns').
Proof.
  intros Hn Hok. split; [by apply scheduled_run_batch|]. intros Hb.
  pose proof (processTransactions_schedule chaincodes n db txns Hn) as Hs.
  destruct (processTransactions _ _ _ _) as [[[ok db1] t1]|].
  - destruct Hs as [_ Hs]. pose proof (scheduled_run_batch _ _ _ _ _ _ Hn Hok Hs).
    by simplify_eq.
  - unfold batch_run in Hb. by rewrite Hs in Hb.
Qed.

Lemma processTransactions_outcome chaincodes n db txns :
  0 < n → batch_ok chaincodes db txns →
  processTransactions chaincodes n db txns =
  (λ r : database * list Transaction, (true, r.1, r.2)) <$> batch_run chaincodes db txns.
Proof.
  intros Hn Hok. pose proof (processTransactions_schedule chaincodes n db txns Hn) as Hs.
  destruct (processTransactions _ _ _ _) as [[[ok db1] t1]|].
  - destruct Hs as [-> Hs]. by rewrite (scheduled_run_batch _ _ _ _ _ _ Hn Hok Hs).
  - unfold batch_run. by rewrite Hs.
Qed.

(** C19: on a batch with distinct transaction ids in which no transaction writes
    a key twice, [DeterministicCoordinator::processValidatedRequests] returns
    [true] and leaves the batch outcome, with every transaction back at its own
    index, whatever the (positive) number of workers; it dies exactly when a
    chaincode is unknown or dies. *)
Theorem processTransactions_batch chaincodes n db txns :
  0 < n → batch_ok chaincodes db txns →
  processTransactions chaincodes n db txns =
  (λ r : database * list Transaction, (true, r.1, r.2)) <$> batch_run chaincodes db txns.
Proof. apply processTransactions_outcome. Qed.

Lemma sample_batch_ok : batch_ok sample_chaincodes sample_db sample_batch.
Proof. apply batch_okb_ok. by vm_compute. Qed.

Definition sample_outcome : database * list Transaction :=
  default (∅, []) (batch_run sample_chaincodes sample_db sample_batch).

(** The outcome of the sample batch: the smallest writer of "b" wins. *)
Example sample_outcome_results :
  ((λ t, retCode (executionResult t)) <$> sample_outcome.2) = [1; 0; 0; 2; 0]%Z ∧
  sample_outcome.1 !! "b"%string = Some "y+"%string.
Proof. split; by vm_compute. Qed.

Lemma schedule_deterministic_witness :
  scheduled_run sample_chaincodes 3 sample_db sample_batch sample_outcome.1 sample_outcome.2.
Proof.
  apply (schedule_deterministic sample_chaincodes 3 sample_db sample_batch);
    [lia|apply sample_batch_ok|]. by vm_compute.
Defined.

Lemma processTransactions_batch_witness :
  processTransactions sample_chaincodes 2 sample_db sample_batch =
  (λ r : database * list Transaction, (true, r.1, r.2))
    <$> batch_run sample_chaincodes sample_db sample_batch.
Proof. apply (processTransactions_batch sample_chaincodes 2); [lia|apply sample_batch_ok]. Defined.

(** Two requests under one id: neither sees the other's reservation, both commit,
    and which write stays depends on the number of workers. *)
Definition twin_batch : list Transaction :=
  [sample_txn 2 "read" "a" EmptyString; sample_txn 1 "copy" "a" "c"; sample_txn 1 "copy" "b" "c"].

Theorem equal_ids_diverge :
  (λ r, (r.1.2 : database) !! "c"%string) <$> processTransactions sample_chaincodes 1 sample_db twin_batch
    ≠ (λ r, (r.1.2 : database) !! "c"%string) <$> processTransactions sample_chaincodes 2 sample_db twin_batch.
Proof. vm_compute. discriminate. Qed.
