(* ===== verification/AriaEquiv.v ===== *)
(** * AriaEquiv: the commit rule, and the two copies of the engine

    The decision of the commit phase in terms of the batch, and the equivalence
    of deterministic/worker_fsm_impl.h with its rewrite in
    my_cc/deterministic/worker_fsm_impl.h. *)

From S2P Require Import Prelude Proto DB ORM Samples ReserveTable Coordinator Deterministic DeterministicProofs.

(** ** The commit rule *)

(** What the chaincode of a transaction does on the snapshot: its return code and
    the reads and writes its ORM holds when it returns. *)
Definition effect (chaincodes : string → option Chaincode) (db : database) (t : Transaction) : option (Z * ORM) :=
  cc ← chaincodes (ccName (userRequest t));
  x ← run db (cc (funcName (userRequest t)) (args (userRequest t))) newORM;
  Some (x.2, x.1).

(** Some transaction of the batch with a smaller id whose chaincode returned 0
    and wrote something touches a key of [ks] through [sel]. *)
Definition conflicts chaincodes (db : database) (txns : list Transaction) (sel : ORM → KVList) (ks : KVList)
    (id : tid_type) : Prop :=
  ∃ u o k, u ∈ txns ∧ effect chaincodes db u = Some (0%Z, o) ∧ orm_writes o ≠ [] ∧
    tid_lt (tid u) id ∧ k ∈ kv_key <$> sel o ∧ k ∈ kv_key <$> ks.

Section rule.
Context (chaincodes : string → option Chaincode) (db : database).

(** The execution phase in terms of the chaincode's run. *)
Lemma exec_txn_effect t p :
  exec_txn chaincodes db t = Some p →
  ∃ ret o, effect chaincodes db t = Some (ret, o) ∧ tid p.1 = tid t ∧
    txn_reads p.1 = orm_reads o ∧ txn_writes p.1 = orm_writes o ∧
    p.2 = bool_decide (ret = 0%Z ∧ orm_writes o ≠ []) ∧
    (ret ≠ 0%Z → hasResult ABORT_NO_RETRY p.1 = true) ∧
    (ret = 0%Z → orm_writes o = [] → hasResult COMMIT p.1 = true) ∧
    (p.2 = true → ∀ er, hasResult er p.1 = hasResult er t).
Proof.
  unfold exec_txn, invoke, effect. destruct (chaincodes _) as [cc|]; [|done]. cbn [mbind option_bind].
  destruct (run _ _ _) as [[o ret]|]; [|done]. cbn [mbind option_bind orm_reset]. intros H. exists ret, o.
  split; [done|]. destruct (ret =? 0)%Z eqn:Er; [apply Z.eqb_eq in Er; subst ret|apply Z.eqb_neq in Er]; cbn [negb] in H.
  - case_decide as Hw; injection H as <-; cbn in Hw |- *.
    + rewrite bool_decide_false by naive_solver. naive_solver.
    + rewrite bool_decide_true by done. naive_solver.
  - injection H as <-. rewrite bool_decide_false by naive_solver. naive_solver.
Qed.

Lemma effect_exec_txn txns l u ret o :
  mapM (exec_txn chaincodes db) txns = Some l → u ∈ txns → effect chaincodes db u = Some (ret, o) →
  ∃ p, p ∈ l ∧ exec_txn chaincodes db u = Some p.
Proof.
  intros Hm%mapM_Some [i Hi]%list_elem_of_lookup _.
  destruct (Forall2_lookup_l _ _ _ _ _ Hm Hi) as (p & Hp & He). exists p. split; [by eapply list_elem_of_lookup_2|done].
Qed.

Lemma earlier_conflicts txns l keys sel ks id :
  mapM (exec_txn chaincodes db) txns = Some l →
  (∀ u p o ret, exec_txn chaincodes db u = Some p → effect chaincodes db u = Some (ret, o) → keys p.1 = kv_key <$> sel o) →
  earlier l keys (kv_key <$> ks) id ↔ conflicts chaincodes db txns sel ks id.
Proof.
  intros Hm Hk. unfold earlier, conflicts. split.
  - intros (p & k & Hp & Hr & Hks & Hkp & Hid). destruct (mapM_elem _ _ _ _ Hm Hp) as (u & Hu & He).
    destruct (exec_txn_effect u p He) as (ret & o & Hef & Ht & _ & _ & Hr' & _).
    rewrite Hr in Hr'. symmetry in Hr'. apply bool_decide_eq_true in Hr' as [-> Hw].
    rewrite Ht in Hid. rewrite (Hk _ _ _ _ He Hef) in Hkp. by exists u, o, k.
  - intros (u & o & k & Hu & Hef & Hw & Hid & Hks & Hkp).
    destruct (effect_exec_txn txns l u _ o Hm Hu Hef) as (p & Hp & He).
    destruct (exec_txn_effect u p He) as (ret & o' & Hef' & Ht & _ & _ & Hr' & _). rewrite Hef in Hef'. simplify_eq.
    exists p, k. split_and!; [done| |done| |by rewrite Ht].
    + rewrite Hr'. by apply bool_decide_eq_true.
    + by rewrite (Hk _ _ _ _ He Hef).
Qed.

Lemma conflicts_scan txns l ks id :
  mapM (exec_txn chaincodes db) txns = Some l →
  (scan (MyCC.writeTable (batch_table l)) ks id = true ↔ conflicts chaincodes db txns orm_writes ks id) ∧
  (scan (MyCC.readTable (batch_table l)) ks id = true ↔ conflicts chaincodes db txns orm_reads ks id).
Proof.
  intros Hm. rewrite scan_write_earlier, scan_read_earlier.
  split; (apply earlier_conflicts; [done|]); intros u p o ret He Hef;
    destruct (exec_txn_effect u p He) as (? & ? & Hef' & _ & Hr & Hw & _); rewrite Hef in Hef'; simplify_eq.
  - unfold write_keys. by rewrite Hw.
  - unfold read_keys. by rewrite Hr.
Qed.
End rule.

(** C21: the commit rule.  In the outcome of a batch of fresh transactions, the
    transaction at index [i] commits exactly when its chaincode returned 0 on
    the snapshot and it wrote nothing or meets no conflict: no transaction with
    a smaller id that returned 0 and wrote writes one of its keys, and not both:
    one reads a key it writes, and one writes a key it reads.  It is marked as
    failed for good exactly when its chaincode returned another code, and it is
    never left pending. *)
Theorem commit_rule chaincodes db txns db' txns' i t :
  Forall (λ t, hasResult PENDING t = true) txns →
  batch_run chaincodes db txns = Some (db', txns') → txns !! i = Some t →
  ∃ ret o t', effect chaincodes db t = Some (ret, o) ∧ txns' !! i = Some t' ∧
    (hasResult COMMIT t' = true ↔
       ret = 0%Z ∧
       (orm_writes o = [] ∨
        ¬ conflicts chaincodes db txns orm_writes (orm_writes o) (tid t) ∧
        ¬ (conflicts chaincodes db txns orm_reads (orm_writes o) (tid t) ∧
           conflicts chaincodes db txns orm_writes (orm_reads o) (tid t)))) ∧
    (hasResult ABORT_NO_RETRY t' = true ↔ ret ≠ 0%Z) ∧
    hasResult PENDING t' = false.
Proof.
  intros Hf Hb Hi. unfold batch_run in Hb. destruct (mapM _ _) as [l|] eqn:Hm; [|done]. injection Hb as _ <-.
  pose proof Hm as HF. apply mapM_Some in HF. destruct (Forall2_lookup_l _ _ _ _ _ HF Hi) as ([t1 r] & Hp & He).
  destruct (exec_txn_effect chaincodes db t _ He) as (ret & o & Hef & Ht & Hrd & Hwr & Hr & Hno & Hro & Hkeep).
  exists ret, o, (commit_txn (batch_table l) t1).1. split; [done|].
  split; [by rewrite list_lookup_fmap, Hp|].
  destruct (conflicts_scan chaincodes db txns l (orm_writes o) (tid t) Hm) as [<- <-].
  destruct (conflicts_scan chaincodes db txns l (orm_reads o) (tid t) Hm) as [<- _].
  cbn [fst snd] in *. unfold commit_txn. rewrite Hrd, Hwr, Ht.
  destruct (decide (ret = 0%Z)) as [->|Hret].
  - destruct (decide (orm_writes o = [])) as [Hw|Hw].
    + specialize (Hro eq_refl Hw). unfold hasResult in *. apply Z.eqb_eq in Hro. rewrite Hro. simpl. rewrite Hro. naive_solver.
    + rewrite bool_decide_true in Hr by done. specialize (Hkeep Hr). rewrite Forall_lookup in Hf. specialize (Hf _ _ Hi).
      rewrite !Hkeep. unfold hasResult in Hf |- *. apply Z.eqb_eq in Hf. rewrite Hf. simpl.
      destruct (scan _ (orm_writes o) _), (scan _ (orm_writes o) _), (scan _ (orm_reads o) _); naive_solver.
  - specialize (Hno Hret). rewrite Hno. unfold hasResult in *. apply Z.eqb_eq in Hno. simpl. rewrite Hno. naive_solver.
Qed.

(** The conflicting writer of the sample batch does not commit, the failing
    transaction is aborted for good. *)
Lemma commit_rule_witness :
  ∃ db' txns' ret o t', batch_run sample_chaincodes sample_db sample_batch = Some (db', txns') ∧
    effect sample_chaincodes sample_db (sample_txn 9 "copy" "fail" "a") = Some (ret, o) ∧
    txns' !! 3 = Some t' ∧ (hasResult ABORT_NO_RETRY t' = true ↔ ret ≠ 0%Z) ∧ ret = 1%Z.
Proof.
  destruct (batch_run sample_chaincodes sample_db sample_batch) as [[db' txns']|] eqn:E; [|by vm_compute in E].
  destruct (commit_rule sample_chaincodes sample_db sample_batch db' txns' 3 (sample_txn 9 "copy" "fail" "a"))
    as (ret & o & t' & Hef & Ht & _ & Ha & _); [by repeat constructor|exact E|reflexivity|].
  exists db', txns', ret, o, t'. split; [reflexivity|]. split; [exact Hef|]. split; [exact Ht|]. split; [exact Ha|].
  vm_compute in Hef. by injection Hef as <-.
Defined.

(** ** The original engine *)

Definition aria_table (rt : Aria.ReserveTable) : MyCC.ReserveTable :=
  MyCC.mkTable (Aria.readTable rt) (Aria.writeTable rt).

Lemma aria_execute chaincodes db l rt :
  OnExecuteTransaction chaincodes db (aria_table rt) (Some <$> l) =
  (λ q : Aria.ReserveTable * list Transaction, (aria_table q.1, Some <$> q.2))
    <$> aria_OnExecuteTransaction chaincodes db rt l.
Proof.
  revert rt. induction l as [|t l IH]; intros rt; [done|]. csimpl.
  destruct (exec_txn chaincodes db t) as [[t1 r]|]; [|done].
  destruct r; simpl.
  - specialize (IH (Aria.reserveRWSets rt (txn_reads t1) (txn_writes t1) (tid t1))).
    unfold aria_table in IH at 1. simpl in IH. unfold MyCC.updateTable. simpl. rewrite IH.
    by destruct (aria_OnExecuteTransaction _ _ _ _) as [[]|].
  - rewrite IH. by destruct (aria_OnExecuteTransaction _ _ _ _) as [[]|].
Qed.

(** The two decisions differ only in how they recognise a read-only
    transaction. *)
Definition decided (t : Transaction) : Prop :=
  hasResult ABORT_NO_RETRY t = true ∨
  (hasResult COMMIT t = true ↔ txn_writes t = []).

Lemma setExecutionResult_same er t :
  hasResult er t = true → setExecutionResult er t = t.
Proof.
  destruct t as [td e u [d rv rc rs ws]]. unfold hasResult, setExecutionResult. simpl.
  by intros ->%Z.eqb_eq.
Qed.

Lemma aria_commit rt t :
  decided t → aria_commit_txn rt t = commit_txn (aria_table rt) t.
Proof.
  unfold aria_commit_txn, commit_txn. intros [H|H]; [by rewrite H|].
  destruct (hasResult ABORT_NO_RETRY t); [done|].
  case_decide as Hw.
  - apply H in Hw. rewrite Hw. by rewrite setExecutionResult_same.
  - destruct (hasResult COMMIT t); [by destruct Hw; apply H|].
    unfold Aria.analysisDependent, MyCC.getDependence, aria_table. simpl.
    by repeat match goal with |- context [scan ?m ?k ?i] => destruct (scan m k i) end.
Qed.

Lemma aria_save rt l b :
  Forall decided l →
  saveToDB (aria_table rt) (Some <$> l) b =
  (Some <$> (aria_saveToDB rt l b).1, (aria_saveToDB rt l b).2).
Proof.
  revert b. induction l as [|t l IH]; intros b; [done|]. intros [Ht Hl]%Forall_cons.
  csimpl. rewrite (aria_commit rt t Ht).
  destruct (commit_txn (aria_table rt) t) as [t' ws]. rewrite (IH _ Hl).
  by destruct (aria_saveToDB rt l _).
Qed.

Lemma aria_execute_decided chaincodes db l rt rt' l' :
  Forall (λ t, hasResult PENDING t = true) l →
  aria_OnExecuteTransaction chaincodes db rt l = Some (rt', l') → Forall decided l'.
Proof.
  intros Hf. revert rt l'. induction Hf as [|t l Ht _ IH]; intros rt l'; simpl.
  { intros [= <- <-]. constructor. }
  destruct (exec_txn chaincodes db t) as [[t1 r]|] eqn:He; [|done].
  destruct (aria_OnExecuteTransaction _ _ _ l) as [[rt1 l1]|] eqn:Hr; [|done].
  intros [= <- <-]. constructor; [|by eapply IH].
  apply exec_txn_cases in He as [[_ H]|[(_ & H & Hw)|(_ & H & Hw)]]; [by left|by right|right].
  rewrite H. split; [|done]. unfold hasResult in *. apply Z.eqb_eq in Ht. by rewrite Ht.
Qed.

(** the rewritten worker is equivalent to the original.  On fresh
    transactions and from the same reservations, the execution and the commit
    handlers of my_cc/deterministic and of deterministic/ leave the same
    reservations, the same transaction results and the same database. *)
Theorem mycc_worker_equivalent chaincodes db0 db rt l :
  Forall (λ t, hasResult PENDING t = true) l →
  match aria_OnExecuteTransaction chaincodes db0 rt l with
  | None => OnExecuteTransaction chaincodes db0 (aria_table rt) (Some <$> l) = None
  | Some (rt1, l1) =>
      OnExecuteTransaction chaincodes db0 (aria_table rt) (Some <$> l) =
        Some (aria_table rt1, Some <$> l1) ∧
      ∀ rt2, OnCommitTransaction (aria_table rt2) db (Some <$> l1) =
        ((aria_OnCommitTransaction rt2 db l1).1, Some <$> (aria_OnCommitTransaction rt2 db l1).2)
  end.
Proof.
  intros Hf. rewrite aria_execute.
  destruct (aria_OnExecuteTransaction chaincodes db0 rt l) as [[rt1 l1]|] eqn:E; [|done].
  split; [done|]. intros rt2. apply aria_execute_decided in E; [|done].
  unfold OnCommitTransaction, aria_OnCommitTransaction.
  rewrite !syncWriteBatch_ops by done. cbn [fst snd]. by rewrite !aria_save.
Qed.

Lemma mycc_worker_equivalent_witness :
  ∃ rt1 l1, aria_OnExecuteTransaction sample_chaincodes sample_db Aria.reset sample_batch
              = Some (rt1, l1) ∧
    OnCommitTransaction (aria_table rt1) sample_db (Some <$> l1) =
      ((aria_OnCommitTransaction rt1 sample_db l1).1,
       Some <$> (aria_OnCommitTransaction rt1 sample_db l1).2).
Proof.
  pose proof (mycc_worker_equivalent sample_chaincodes sample_db sample_db Aria.reset sample_batch
                ltac:(by repeat constructor)) as H.
  destruct (aria_OnExecuteTransaction _ _ _ _) as [[rt1 l1]|] eqn:E; [|by vm_compute in E].
  exists rt1, l1. split; [done|]. apply H.
Defined.
