(* ===== verification/Serial.v ===== *)
(** * Serial: the serial coordinators

    serial/serial_coordinator.h and my_cc/serial/serial_coordinator.h: one
    transaction after the other, each seeing the writes of all before it.  It is
    also the specification the deterministic engine is compared with. *)

From S2P Require Import Prelude Zpp Proto DB ORM Coordinator Deterministic.

Section serial.
Context (chaincodes : string → option Chaincode).

(** The loop body of [SerialCoordinator::processValidatedRequests]. *)
Definition serial_txn (db : database) (t : Transaction) : option (database * Transaction) :=
  match invoke chaincodes db t with
  | None => None
  | Some (ret, t1) =>
      if negb (ret =? 0)%Z then Some (db, setExecutionResult ABORT_NO_RETRY t1)
      else if decide (txn_writes t1 = []) then Some (db, setExecutionResult COMMIT t1)
      else
        let t2 := setExecutionResult COMMIT t1 in
        let '(db', _) :=
          syncWriteBatch (λ b, (fold_left putOrDelete (txn_writes t2) b, true)) db in
        Some (db', t2)
  end.

Fixpoint serial_run (db : database) (l : list Transaction)
    : option (database * list Transaction) :=
  match l with
  | [] => Some (db, [])
  | t :: l =>
      match serial_txn db t with
      | None => None
      | Some (db1, t1) =>
          match serial_run db1 l with
          | None => None
          | Some (db2, l2) => Some (db2, t1 :: l2)
          end
      end
  end.

(** [SerialCoordinator::processValidatedRequests]; the transactions are all
    created before the first one runs. *)
Definition serial_processValidatedRequests `{ZP : Zpp} (db : database)
    (requests : list Envelop)
    : option (bool * database * list (Envelop * TxReadWriteSet * bool)) :=
  match mapM NewTransactionFromEnvelop requests with
  | None => None
  | Some txns =>
      match serial_run db txns with
      | None => None
      | Some (db', txns') => Some (true, db', finish_txn <$> txns')
      end
  end.
End serial.

(** ** Facts *)

(** One serial step in terms of the execution phase of the parallel engine. *)
Lemma serial_txn_exec chaincodes db t :
  serial_txn chaincodes db t =
  (λ p : Transaction * bool,
     if p.2 then (fold_left exec_db_op (batch_ops (fold_left putOrDelete (txn_writes p.1) emptyBatch)) db,
                  setExecutionResult COMMIT p.1)
     else (db, p.1)) <$> exec_txn chaincodes db t.
Proof.
  unfold serial_txn, exec_txn. destruct (invoke chaincodes db t) as [[ret t1]|]; [|done].
  destruct (negb _); [done|]. case_decide; [done|].
  by rewrite syncWriteBatch_ops.
Qed.

Lemma serial_run_app chaincodes db l1 l2 :
  serial_run chaincodes db (l1 ++ l2) =
  match serial_run chaincodes db l1 with
  | None => None
  | Some (db1, l1') =>
      match serial_run chaincodes db1 l2 with
      | None => None
      | Some (db2, l2') => Some (db2, l1' ++ l2')
      end
  end.
Proof.
  revert db. induction l1 as [|t l1 IH]; intros db; simpl.
  - by destruct (serial_run _ _ l2) as [[]|].
  - destruct (serial_txn chaincodes db t) as [[db1 t1]|]; [|done]. rewrite IH.
    destruct (serial_run chaincodes db1 l1) as [[db2 l1']|]; [|done].
    by destruct (serial_run chaincodes db2 l2) as [[]|].
Qed.
