(* ===== verification/Serializability.v ===== *)
(** * Serializability: the deterministic engine refines the serial one

    The transactions a batch commits, their results and the final database are
    those of a serial execution of exactly the committed transactions: first the
    read-only ones, then those with a read-after-write dependency by descending
    id, then the others by ascending id (the reordering the commit rule
    "no WAW, and not both WAR and RAW" allows). *)

From stdpp Require Import sorting.
From S2P Require Import Prelude Proto DB ORM Samples ReserveTable Coordinator Deterministic DeterministicProofs Serial.

#[local] Set Default Proof Using "Type".

(** ** The order on ids *)

Definition tid_le (a b : tid_type) : Prop := ¬ tid_lt b a.

#[export] Instance tid_le_dec : RelDecision tid_le.
Proof. intros a b. unfold tid_le. apply _. Defined.

Lemma tid_le_trans a b c : tid_le a b → tid_le b c → tid_le a c.
Proof.
  unfold tid_le. intros H1 H2 H3.
  destruct (tid_lt_trichotomy a b) as [H|[->|H]]; [|by apply H2|done].
  apply H2. by transitivity a.
Qed.

Lemma tid_le_total a b : tid_le a b ∨ tid_le b a.
Proof.
  unfold tid_le. destruct (decide (tid_lt b a)) as [H|H]; [|by left].
  right. by apply tid_lt_asym.
Qed.

(** ** Independent sequences *)

Section order.
Context (chaincodes : string → option Chaincode) (db0 : database).

(** A transaction with what executing it on the snapshot gives. *)
Abbreviation item := (Transaction * (Transaction * bool))%type.
Implicit Types x y : item.

(** The keys a transaction asks for on the snapshot, found or not. *)
Definition asked (t : Transaction) : list string :=
  match chaincodes (ccName (userRequest t)) with
  | Some cc => gets db0 (cc (funcName (userRequest t)) (args (userRequest t)))
  | None => []
  end.

Definition item_writes x : KVList := if x.2.2 then txn_writes x.2.1 else [].
Definition item_result x : Transaction :=
  if x.2.2 then setExecutionResult COMMIT x.2.1 else x.2.1.

Definition item_ok x : Prop :=
  exec_txn chaincodes db0 x.1 = Some x.2 ∧ NoDup (kv_key <$> item_writes x).

(** [x] does not write what [y] asks for: [y] may run after [x]. *)
Definition may_follow x y : Prop :=
  ∀ k, k ∈ asked y.1 → k ∉ kv_key <$> item_writes x.

(** Executing on a database that agrees with the snapshot on the asked keys
    gives the snapshot's execution. *)
Lemma exec_txn_agree db t :
  (∀ k, k ∈ asked t → visible db k = visible db0 k) →
  exec_txn chaincodes db t = exec_txn chaincodes db0 t.
Proof.
  intros H. unfold exec_txn, invoke. unfold asked in H.
  destruct (chaincodes (ccName (userRequest t))) as [cc|]; [|done].
  by destruct (run_agree _ _ _ newORM H) as [-> _].
Qed.

Lemma serial_txn_item db x :
  item_ok x → (∀ k, k ∈ asked x.1 → visible db k = visible db0 k) →
  serial_txn chaincodes db x.1 = Some (applyWrites (item_writes x) db, item_result x).
Proof.
  intros [Hx Hn] Ha. rewrite serial_txn_exec, (exec_txn_agree _ _ Ha), Hx. simpl.
  unfold item_writes, item_result in *. destruct x.2.2; [|done].
  by rewrite batch_applyWrites.
Qed.

(** A sequence in which everybody may follow everybody before it runs serially
    as it ran on the snapshot. *)
Lemma serial_run_items (l : list item) (ws : KVList) :
  Forall item_ok l → StronglySorted may_follow l →
  (∀ x k, x ∈ l → k ∈ asked x.1 → k ∉ kv_key <$> ws) →
  serial_run chaincodes (applyWrites ws db0) (l.*1) =
    Some (applyWrites (ws ++ (l ≫= item_writes)) db0, item_result <$> l).
Proof.
  revert ws. induction l as [|x l IH]; intros ws Hok Hs Hws; csimpl.
  { by rewrite app_nil_r. }
  apply Forall_cons in Hok as [Hx Hok]. apply StronglySorted_inv in Hs as [Hs Hf].
  rewrite serial_txn_item; [|done|].
  2: { intros k Hk. apply visible_applyWrites_notin. eapply Hws; [left|done]. }
  rewrite <-applyWrites_app, IH; [|done..|].
  - by rewrite <-app_assoc.
  - intros y k Hy Hk. rewrite fmap_app, elem_of_app. intros [H|H].
    + eapply Hws; [by right|done..].
    + rewrite Forall_forall in Hf. by eapply Hf.
Qed.
End order.

(** Refining the relation a sequence is sorted by. *)
Lemma StronglySorted_refine {A B} (R S : A → A → Prop) (f : A → B) l :
  StronglySorted R l → NoDup (f <$> l) →
  (∀ x y, x ∈ l → y ∈ l → R x y → f x ≠ f y → S x y) → StronglySorted S l.
Proof.
  induction 1 as [|x l Hs IH Hf]; intros Hn H; [constructor|].
  csimpl in Hn. apply NoDup_cons in Hn as [Hx Hn]. constructor.
  - apply IH; [done|]. intros; apply H; by try right.
  - rewrite Forall_forall in Hf |- *. intros y Hy. apply H; [left|by right|by apply Hf|].
    intros E. apply Hx. rewrite E. by apply list_elem_of_fmap_2.
Qed.

Lemma StronglySorted_all {A} (R : A → A → Prop) l :
  (∀ x y, x ∈ l → R x y) → StronglySorted R l.
Proof.
  induction l as [|x l IH]; intros H; constructor.
  - apply IH. intros; apply H; by right.
  - apply Forall_forall. intros; apply H; left.
Qed.

Lemma elem_of_listfilter {A} (P : A → bool) l x : x ∈ List.filter P l ↔ x ∈ l ∧ P x = true.
Proof. rewrite !list_elem_of_In. apply filter_In. Qed.

Lemma filter3_perm {A} (P c d : A → bool) (l : list A) :
  List.filter (λ x, P x && negb (c x)) l ++
  List.filter (λ x, P x && (c x && d x)) l ++
  List.filter (λ x, P x && (c x && negb (d x))) l ≡ₚ List.filter P l.
Proof.
  induction l as [|x l IH]; [done|]. simpl.
  destruct (P x), (c x), (d x); simpl; rewrite <-IH; solve_Permutation.
Qed.

Lemma listfilter_fmap {A B} (P : B → bool) (f : A → B) l :
  List.filter P (f <$> l) = f <$> List.filter (λ x, P (f x)) l.
Proof. induction l as [|x l IH]; csimpl; [done|]. destruct (P (f x)); csimpl; by rewrite IH. Qed.

Lemma NoDup_fmap_listfilter {A B} (f : A → B) (P : A → bool) l :
  NoDup (f <$> l) → NoDup (f <$> List.filter P l).
Proof.
  induction l as [|x l IH]; csimpl; [done|]. rewrite NoDup_cons. intros [Hx Hn].
  destruct (P x); csimpl; [|by auto]. constructor; [|by auto].
  intros (y & E & [Hy _]%elem_of_listfilter)%list_elem_of_fmap. apply Hx. rewrite E.
  by apply list_elem_of_fmap_2.
Qed.

(** [ORM::get] records only the keys it finds.  A key that was asked for and is
    missing must not be written by another transaction of the batch, unless the
    asking transaction writes it itself. *)
Definition no_phantom chaincodes (db : database) (txns : list Transaction) : Prop :=
  ∀ t u pt pu k, t ∈ txns → u ∈ txns → tid t ≠ tid u →
    exec_txn chaincodes db t = Some pt → exec_txn chaincodes db u = Some pu →
    k ∈ asked chaincodes db u → visible db k = None →
    k ∉ write_keys pt.1 ∨ k ∈ write_keys pu.1.

(** ** The serial order of a batch *)

Section batch.
Context (chaincodes : string → option Chaincode) (db : database).
Context (txns : list Transaction) (l : list (Transaction * bool)).

Abbreviation item := (Transaction * (Transaction * bool))%type.
Implicit Types x y : item.

Definition items : list item := zip txns l.
Definition outcome x : Transaction := (commit_txn (batch_table l) x.2.1).1.
Definition committed x : bool := hasResult COMMIT (outcome x).
Definition has_raw x : bool :=
  scan (MyCC.writeTable (batch_table l)) (txn_reads x.2.1) (tid x.2.1).

Definition asc x y : Prop := tid_le (tid x.1) (tid y.1).
Definition desc x y : Prop := tid_le (tid y.1) (tid x.1).

#[local] Instance asc_dec : RelDecision asc.
Proof. intros x y. unfold asc. apply _. Defined.
#[local] Instance desc_dec : RelDecision desc.
Proof. intros x y. unfold desc. apply _. Defined.
#[local] Instance asc_trans : Transitive asc.
Proof. intros x y z. apply tid_le_trans. Qed.
#[local] Instance asc_total : Total asc.
Proof. intros x y. apply tid_le_total. Qed.
#[local] Instance desc_trans : Transitive desc.
Proof. intros x y z H1 H2. by eapply tid_le_trans. Qed.
#[local] Instance desc_total : Total desc.
Proof. intros x y. apply tid_le_total. Qed.

Definition serial_order : list item :=
  List.filter (λ x, committed x && negb x.2.2) items ++
  merge_sort desc (List.filter (λ x, committed x && (x.2.2 && has_raw x)) items) ++
  merge_sort asc (List.filter (λ x, committed x && (x.2.2 && negb (has_raw x))) items).

Lemma serial_order_perm : serial_order ≡ₚ List.filter committed items.
Proof.
  unfold serial_order. rewrite !merge_sort_Permutation.
  apply (filter3_perm committed (λ x, x.2.2) has_raw).
Qed.

Context (Hok : batch_ok chaincodes db txns).
Context (Hfresh : Forall (λ t, hasResult PENDING t = true) txns).
Context (Hl : mapM (exec_txn chaincodes db) txns = Some l).

Context (Hph : no_phantom chaincodes db txns).

Lemma items_exec x : x ∈ items → exec_txn chaincodes db x.1 = Some x.2 ∧ x.1 ∈ txns ∧ x.2 ∈ l.
Proof using Hl.
  intros Hx. destruct x as [t p]. split_and!; [|by eapply elem_of_zip_l|by eapply elem_of_zip_r].
  apply mapM_Some in Hl. unfold items in Hx. clear -Hl Hx.
  induction Hl as [|t' p' ts ps Htp _ IH]; simpl in *; [by apply elem_of_nil in Hx|].
  apply elem_of_cons in Hx as [[= -> ->]|Hx]; auto.
Qed.

Lemma items_tid x : x ∈ items → tid x.2.1 = tid x.1.
Proof using Hl. intros [H _]%items_exec. by apply exec_txn_tid in H. Qed.

Lemma items_NoDup : NoDup ((λ x, tid x.1) <$> items).
Proof using Hok Hl.
  replace ((λ x, tid x.1) <$> items) with (tid <$> txns); [apply Hok|].
  rewrite <-(fst_zip txns l) at 1 by (by rewrite (length_mapM _ _ _ Hl)).
  by rewrite <-list_fmap_compose.
Qed.

(** A committed transaction that did not reserve only reads. *)
Lemma committed_readonly x :
  x ∈ items → x.2.2 = false → committed x = true →
  txn_writes x.2.1 = [] ∧ outcome x = x.2.1.
Proof using Hl.
  intros (He & _)%items_exec Hr. unfold committed, outcome, commit_txn. destruct x as [t [t1 r]].
  simpl in *. subst. apply exec_txn_cases in He as [[_ H]|[(_ & H & Hw)|[[=] _]]].
  - rewrite H. simpl. unfold hasResult in *. apply Z.eqb_eq in H. by rewrite H.
  - rewrite H. by destruct (hasResult ABORT_NO_RETRY t1).
Qed.

(** A committed transaction that reserved passed the commit rule. *)
Lemma committed_reserved x :
  x ∈ items → x.2.2 = true → committed x = true →
  commit_txn (batch_table l) x.2.1 =
    (setExecutionResult COMMIT x.2.1, txn_writes x.2.1) ∧
  ¬ (earlier l read_keys (write_keys x.2.1) (tid x.1) ∧ has_raw x = true).
Proof using Hl Hfresh.
  intros Hx Hr. destruct (items_exec x Hx) as (He & Ht & _). pose proof (items_tid x Hx) as Etid.
  unfold committed, outcome, commit_txn, has_raw. destruct x as [t [t1 r]]. simpl in *. subst.
  apply exec_txn_cases in He as [[[=] _]|[[[=] _]|(_ & Hres & _)]].
  rewrite Forall_forall in Hfresh. specialize (Hfresh t Ht).
  rewrite !Hres. unfold hasResult in Hfresh |- *. apply Z.eqb_eq in Hfresh.
  rewrite Hfresh. simpl. destruct (scan _ (txn_writes t1) _) eqn:Ew; [done|].
  destruct (_ && _) eqn:Ewr; [done|]. intros _. split; [done|].
  intros [H1 H2]. rewrite H2 in Ewr.
  apply (proj2 (scan_read_earlier l _ _)) in H1. rewrite <-Etid in H1. by rewrite H1 in Ewr.
Qed.

Lemma committed_outcome x :
  x ∈ items → committed x = true →
  item_result x = outcome x ∧
  item_writes x = (commit_txn (batch_table l) x.2.1).2.
Proof using Hl Hfresh.
  intros Hx Hc. unfold item_result, item_writes. destruct x.2.2 eqn:Hr.
  - destruct (committed_reserved x Hx Hr Hc) as [E _]. unfold outcome. by rewrite E.
  - destruct (committed_readonly x Hx Hr Hc) as [E1 E2]. split; [done|].
    destruct (commit_txn (batch_table l) x.2.1).2 as [|kv ws] eqn:E; [done|].
    assert (kv ∈ (commit_txn (batch_table l) x.2.1).2) as H by (rewrite E; left).
    apply commit_txn_writes in H as (H & _). rewrite E1 in H. by apply elem_of_nil in H.
Qed.

(** A key that was asked for and found is in the read set. *)
Lemma asked_read t t1 r k :
  exec_txn chaincodes db t = Some (t1, r) → k ∈ asked chaincodes db t →
  is_Some (visible db k) → k ∈ read_keys t1.
Proof.
  unfold exec_txn, invoke, asked, read_keys, txn_reads.
  destruct (chaincodes _) as [cc|]; [|done]. intros He Hk Hv.
  destruct (run _ _ _) as [[o ret]|] eqn:Hr; [|done].
  pose proof (run_read_keys _ _ _ _ _ Hr Hk Hv) as H. simpl in *. repeat case_match; by simplify_eq/=.
Qed.

Lemma conflict_read x y k :
  x ∈ items → y ∈ items → x.2.2 = true → y.2.2 = true →
  committed x = true → committed y = true → tid x.1 ≠ tid y.1 →
  k ∈ asked chaincodes db y.1 → k ∈ write_keys x.2.1 → k ∈ read_keys y.2.1.
Proof using Hl Hfresh Hok Hph.
  intros Hx Hy Rx Ry Cx Cy Hne Hk Hw.
  destruct (items_exec x Hx) as (Ex & Hxt & Hxl), (items_exec y Hy) as (Ey & Hyt & Hyl).
  destruct (visible db k) as [v|] eqn:Ev.
  { destruct y as [t [t1 r]]. simpl in *. eapply asked_read; eauto. }
  destruct (Hph x.1 y.1 x.2 y.2 k) as [H|H]; [done..|].
  exfalso. apply Hne. rewrite <-(items_tid x Hx), <-(items_tid y Hy). do 2 f_equal.
  unfold write_keys in *. apply list_elem_of_fmap in Hw as (kv & -> & Hkv).
  apply list_elem_of_fmap in H as (kv' & E & Hkv').
  eapply (committed_disjoint l x.2 y.2 kv kv'); eauto using executed_batch.
  - by destruct (committed_reserved x Hx Rx Cx) as [-> _].
  - by destruct (committed_reserved y Hy Ry Cy) as [-> _].
Qed.

(** Why a committed transaction may not follow another: the reader has a
    read-after-write dependency, or the writer has none. *)
Lemma conflict_dependency x y k :
  x ∈ items → y ∈ items → x.2.2 = true → y.2.2 = true →
  committed x = true → committed y = true → tid x.1 ≠ tid y.1 →
  k ∈ asked chaincodes db y.1 → k ∈ write_keys x.2.1 →
  (tid_lt (tid x.1) (tid y.1) ∧ has_raw y = true) ∨
  (tid_lt (tid y.1) (tid x.1) ∧ has_raw x = false).
Proof using Hl Hfresh Hok Hph.
  intros Hx Hy Rx Ry Cx Cy Hne Hk Hw.
  pose proof (conflict_read x y k Hx Hy Rx Ry Cx Cy Hne Hk Hw) as Hr.
  destruct (items_exec x Hx) as (_ & _ & Hxl), (items_exec y Hy) as (_ & _ & Hyl).
  destruct (tid_lt_trichotomy (tid x.1) (tid y.1)) as [H|[|H]]; [left|done|right]; split; try done.
  - unfold has_raw. apply (proj2 (scan_write_earlier _ _ _)). exists x.2, k.
    rewrite !items_tid by done. done.
  - destruct (committed_reserved x Hx Rx Cx) as [_ Hn]. apply not_true_iff_false.
    intros Hraw. apply Hn. split; [|done]. exists y.2, k. rewrite (items_tid y Hy). done.
Qed.

(** ** The serial order is one in which everybody may follow *)

Abbreviation follow := (may_follow chaincodes db).

Lemma follow_intro x y :
  x ∈ items → y ∈ items → committed x = true → committed y = true →
  x.2.2 = true → y.2.2 = true → tid x.1 ≠ tid y.1 →
  ¬ (tid_lt (tid x.1) (tid y.1) ∧ has_raw y = true) →
  ¬ (tid_lt (tid y.1) (tid x.1) ∧ has_raw x = false) → follow x y.
Proof using Hl Hfresh Hok Hph.
  intros Hx Hy Cx Cy Rx Ry Hne H1 H2 k Hk Hw. unfold item_writes in Hw. rewrite Rx in Hw.
  by destruct (conflict_dependency x y k).
Qed.

Lemma elem_of_group (b : item → bool) x :
  x ∈ List.filter (λ x, committed x && (x.2.2 && b x)) items →
  x ∈ items ∧ committed x = true ∧ x.2.2 = true ∧ b x = true.
Proof. rewrite elem_of_listfilter. intros (? & [? [? ?]%andb_prop]%andb_prop). done. Qed.

Lemma group_NoDup R `{!RelDecision R} (b : item → bool) :
  NoDup ((λ x, tid x.1) <$> merge_sort R (List.filter b items)).
Proof using Hok Hl.
  rewrite merge_sort_Permutation. apply NoDup_fmap_listfilter, items_NoDup.
Qed.

Lemma serial_order_follow : StronglySorted follow serial_order.
Proof using Hl Hfresh Hok Hph.
  assert (∀ x y, x ∈ List.filter (λ x, committed x && negb x.2.2) items → follow x y) as Hro.
  { intros x y [_ [_ Hx%negb_true_iff]%andb_prop]%elem_of_listfilter k _.
    unfold item_writes. rewrite Hx. apply not_elem_of_nil. }
  unfold serial_order.
  apply StronglySorted_app_2; [by auto|apply StronglySorted_all; by auto|].
  apply StronglySorted_app_2.
  - intros x y. rewrite !merge_sort_Permutation.
    intros (? & ? & ? & Hx)%elem_of_group (? & ? & ? & Hy%negb_true_iff)%elem_of_group.
    apply follow_intro; try done; [intros E|naive_solver congruence..].
    assert (x = y) as -> by (eapply (NoDup_fmap_ne _ items); eauto using items_NoDup).
    congruence.
  - eapply StronglySorted_refine; [apply StronglySorted_merge_sort; apply _|apply group_NoDup|].
    intros x y. rewrite !merge_sort_Permutation. unfold desc, tid_le.
    intros (? & ? & ? & ?)%elem_of_group (? & ? & ? & ?)%elem_of_group Hle Hne.
    apply follow_intro; naive_solver congruence.
  - eapply StronglySorted_refine; [apply StronglySorted_merge_sort; apply _|apply group_NoDup|].
    intros x y. rewrite !merge_sort_Permutation. unfold asc, tid_le.
    intros (? & ? & ? & ?%negb_true_iff)%elem_of_group (? & ? & ? & ?%negb_true_iff)%elem_of_group Hle Hne.
    apply follow_intro; naive_solver congruence.
Qed.

(** ** Running it *)

Lemma serial_order_items x : x ∈ serial_order → x ∈ items ∧ committed x = true.
Proof. by rewrite serial_order_perm, elem_of_listfilter. Qed.

Lemma serial_order_writes :
  serial_order ≫= item_writes ≡ₚ committed_writes (batch_table l) l.
Proof using Hl Hfresh.
  rewrite serial_order_perm. transitivity (committed_writes (batch_table l) (items.*2)).
  2: { unfold items. by rewrite snd_zip by (by rewrite (length_mapM _ _ _ Hl)). }
  unfold committed_writes.
  assert (∀ x, x ∈ items → x ∈ items) as Hsub by done. revert Hsub.
  generalize items at 1 3 4 as its. induction its as [|x its IH]; intros Hsub; csimpl; [done|].
  assert (x ∈ items) as Hx by (apply Hsub; left).
  assert (∀ y, y ∈ its → y ∈ items) as Hsub' by (intros; apply Hsub; by right).
  destruct (committed x) eqn:Hc; csimpl.
  - rewrite (IH Hsub'). by destruct (committed_outcome x Hx Hc) as [_ ->].
  - rewrite (IH Hsub'). unfold committed, outcome, commit_txn in *.
    repeat case_match; simpl in *; done.
Qed.

Lemma serial_order_run :
  serial_run chaincodes db (serial_order.*1) =
    Some (applyWrites (committed_writes (batch_table l) l) db, outcome <$> serial_order).
Proof using Hl Hfresh Hok Hph.
  pose proof (serial_run_items chaincodes db serial_order []) as H. simpl in H. rewrite H.
  - do 2 f_equal.
    + symmetry. apply applyWrites_perm; [|symmetry; apply serial_order_writes].
      by eapply committed_writes_NoDup, executed_batch.
    + apply list_fmap_ext. intros i x Hx. apply list_elem_of_lookup_2, serial_order_items in Hx as [].
      by apply committed_outcome.
  - apply Forall_forall. intros x [Hx Hc]%serial_order_items. split; [by apply items_exec|].
    destruct (committed_outcome x Hx Hc) as [_ ->]. apply commit_txn_keys.
    eapply eo_keys; [by eapply executed_batch|]. by apply items_exec.
  - apply serial_order_follow.
  - intros x k _ _. apply not_elem_of_nil.
Qed.
End batch.

(** C5: serializability.  In a batch of fresh transactions with distinct ids, none
    of which writes a key twice or asks for a missing key that another one
    writes, the committed transactions, paired with the results the engine gave
    them, can be put in an order in which the serial coordinator produces exactly
    these results and exactly the engine's final database, starting from the same
    database.  ([repeated_request_once] and [missing_read_write_skew] show that
    the conditions are needed.) *)
Theorem batch_serializable chaincodes db txns db' txns' :
  batch_ok chaincodes db txns →
  Forall (λ t, hasResult PENDING t = true) txns →
  no_phantom chaincodes db txns →
  batch_run chaincodes db txns = Some (db', txns') →
  ∃ order : list (Transaction * Transaction),
    order ≡ₚ List.filter (λ q, hasResult COMMIT q.2) (zip txns txns') ∧
    serial_run chaincodes db (order.*1) = Some (db', order.*2).
Proof.
  intros Hok Hfresh Hph. unfold batch_run.
  destruct (mapM _ _) as [l|] eqn:Hl; [|done]. intros [= <- <-].
  exists ((λ x, (x.1, outcome l x)) <$> serial_order txns l). split.
  - rewrite serial_order_perm, zip_with_fmap_r.
    replace (zip_with _ txns l) with ((λ x, (x.1, outcome l x)) <$> items txns l).
    + by rewrite listfilter_fmap.
    + rewrite (zip_with_zip _ txns l). apply list_fmap_ext. by intros i [t p] _.
  - rewrite <-!list_fmap_compose. by apply serial_order_run.
Qed.

(** ** Witness *)

Definition no_phantomb chaincodes (db : database) (txns : list Transaction) : bool :=
  forallb (λ u, forallb (λ k, match visible db k, exec_txn chaincodes db u with
    | None, Some pu =>
        bool_decide (k ∈ write_keys pu.1) ||
        forallb (λ t, bool_decide (tid t = tid u) ||
                      match exec_txn chaincodes db t with
                      | Some pt => negb (bool_decide (k ∈ write_keys pt.1))
                      | None => true
                      end) txns
    | _, _ => true
    end) (asked chaincodes db u)) txns.

Lemma forallb_elem {A} (f : A → bool) l x : forallb f l = true → x ∈ l → f x = true.
Proof. rewrite forallb_forall, list_elem_of_In. auto. Qed.

Lemma no_phantomb_ok chaincodes db txns :
  no_phantomb chaincodes db txns = true → no_phantom chaincodes db txns.
Proof.
  intros H t u pt pu k Ht Hu Hne Et Eu Hk Hv.
  pose proof (forallb_elem _ _ _ (forallb_elem _ _ _ H Hu) Hk) as H1. simpl in H1.
  rewrite Hv, Eu in H1. apply orb_prop in H1 as [H1|H1].
  - right. by apply bool_decide_eq_true in H1.
  - left. pose proof (forallb_elem _ _ _ H1 Ht) as H2. simpl in H2. rewrite Et in H2.
    apply orb_prop in H2 as [H2|H2]; [by apply bool_decide_eq_true in H2|].
    by apply negb_true_iff, bool_decide_eq_false in H2.
Qed.

Lemma batch_serializable_witness :
  ∃ order : list (Transaction * Transaction),
    order ≡ₚ List.filter (λ q, hasResult COMMIT q.2) (zip sample_batch sample_outcome.2) ∧
    serial_run sample_chaincodes sample_db (order.*1) = Some (sample_outcome.1, order.*2).
Proof.
  apply (batch_serializable sample_chaincodes sample_db sample_batch).
  - apply sample_batch_ok.
  - by repeat constructor.
  - apply no_phantomb_ok. by vm_compute.
  - by vm_compute.
Defined.

(** ** Missing keys *)

(** Without the condition on missing keys the engine is not serializable: on
    the empty database each of two transactions reads a missing key and writes
    the key the other one missed; both commit, and no serial execution of the
    two gives the final database. *)
Theorem missing_read_write_skew :
  batch_ok sample_chaincodes ∅ sample_skew ∧
  ∃ db' txns', batch_run sample_chaincodes ∅ sample_skew = Some (db', txns') ∧
    forallb (hasResult COMMIT) txns' = true ∧
    ∀ order r, order ≡ₚ sample_skew → serial_run sample_chaincodes ∅ order = Some r → r.1 ≠ db'.
Proof.
  split; [apply batch_okb_ok; by vm_compute|].
  set (out := default (∅, []) (batch_run sample_chaincodes ∅ sample_skew)).
  exists out.1, out.2. split_and!; [by vm_compute..|]. intros order r Hp Hr Heq.
  set (ab (d : database) := (d !! "a"%string, d !! "b"%string)).
  assert (ab out.1 = (Some "0"%string, Some "0"%string)) as Ho by (by vm_compute).
  apply Permutation_sym, Permutation_length_2_inv in Hp as [->| ->];
    apply (f_equal (fmap (λ r, ab r.1))) in Hr; simpl in Hr; rewrite Heq, Ho in Hr;
    vm_compute in Hr; discriminate.
Qed.

(** ** Repeated requests *)

(** A request that is in a batch twice has one id: neither copy sees the other's
    reservation, both commit, and their effect is that of one. *)
Theorem repeated_request_once :
  let t := sample_txn 1 "copy" "b" "b" in
  ∃ db' txns' r, batch_run sample_chaincodes sample_db [t; t] = Some (db', txns') ∧
    forallb (hasResult COMMIT) txns' = true ∧ db' !! "b"%string = Some "y+"%string ∧
    serial_run sample_chaincodes sample_db [t; t] = Some r ∧ r.1 !! "b"%string = Some "y++"%string.
Proof.
  set (t := sample_txn 1 "copy" "b" "b"). cbn zeta.
  set (out := default (∅, []) (batch_run sample_chaincodes sample_db [t; t])).
  exists out.1, out.2, (default (∅, []) (serial_run sample_chaincodes sample_db [t; t])).
  split_and!; by vm_compute.
Qed.
