(* ===== verification/WriteBased.v ===== *)
(** * WriteBased: the write-based engine

    deterministic/write_based/wb_worker_fsm.h and wb_coordinator.h: only writes
    are reserved; a transaction aborts on a read-after-write dependency; a first
    commit round decides and a second one writes the database.  The tables are
    those of [ReserveTable.WB]. *)

From S2P Require Import Prelude Proto DB ORM Samples ReserveTable Coordinator Deterministic DeterministicProofs.
Import WB.

#[local] Set Default Proof Using "Type".

Section engine.
Context (chaincodes : string → option Chaincode).

(** The loop body of [WBWorkerFSM::OnExecuteTransaction]: the boolean says
    whether the writes are reserved. *)
Definition wb_exec_txn (db : database) (t : Transaction) : option (Transaction * bool) :=
  match invoke chaincodes db t with
  | None => None
  | Some (ret, t1) =>
      if negb (ret =? 0)%Z then Some (setExecutionResult ABORT_NO_RETRY t1, false)
      else if decide (txn_writes t1 = []) then Some (t1, false)
      else Some (t1, true)
  end.

Fixpoint wb_OnExecuteTransaction (db : database) (rt : WBReserveTable)
    (l : list Transaction) : option (WBReserveTable * list Transaction) :=
  match l with
  | [] => Some (rt, [])
  | t :: l =>
      match wb_exec_txn db t with
      | None => None
      | Some (t1, r) =>
          match wb_OnExecuteTransaction db
                  (if r then reserveWrites rt (txn_writes t1) (tid t1) else rt) l with
          | None => None
          | Some (rt', l') => Some (rt', t1 :: l')
          end
      end
  end.

(** The loop body of [onFirstCommit]: the boolean says whether the commit
    table is updated. *)
Definition wb_first_txn (rt : WBReserveTable) (t : Transaction) : Transaction * bool :=
  if hasResult ABORT_NO_RETRY t then (t, false)
  else if decide (txn_writes t = []) then (setExecutionResult COMMIT t, false)
  else if detectRAW rt (txn_reads t) (tid t) then (setExecutionResult ABORT t, false)
  else (setExecutionResult COMMIT t, true).

Fixpoint onFirstCommit (rt : WBReserveTable) (l : list Transaction)
    : WBReserveTable * list Transaction :=
  match l with
  | [] => (rt, [])
  | t :: l =>
      let '(t', r) := wb_first_txn rt t in
      let '(rt', l') :=
        onFirstCommit (if r then mvccReserveWrites rt (txn_writes t) (tid t) else rt) l in
      (rt', t' :: l')
  end.

(** The writes the second round hands to the batch. *)
Definition wb_second_txn (rt : WBReserveTable) (t : Transaction) : KVList :=
  if hasResult ABORT_NO_RETRY t || hasResult ABORT t then []
  else updateDB rt (txn_writes t) (tid t).

Definition onSecondCommit (rt : WBReserveTable) (db : database) (l : list Transaction)
    : database :=
  (syncWriteBatch (λ b, (fold_left (λ b t, fold_left putOrDelete (wb_second_txn rt t) b) l b,
                         true)) db).1.

(** [OnCommitTransaction]: the rounds alternate. *)
Definition wb_OnCommitTransaction (firstCommit : bool) (rt : WBReserveTable)
    (db : database) (l : list Transaction)
    : bool * WBReserveTable * database * list Transaction :=
  if firstCommit then
    let '(rt', l') := onFirstCommit rt l in (false, rt', db, l')
  else (true, rt, onSecondCommit rt db l, l).

(** ** [WBCoordinator::processSync], one worker after the other *)

Fixpoint wb_exec_slices (db : database) (rt : WBReserveTable)
    (slices : list (list Transaction))
    : option (WBReserveTable * list (list Transaction)) :=
  match slices with
  | [] => Some (rt, [])
  | s :: slices =>
      match wb_OnExecuteTransaction db rt s with
      | None => None
      | Some (rt1, s1) =>
          match wb_exec_slices db rt1 slices with
          | None => None
          | Some (rt2, slices2) => Some (rt2, s1 :: slices2)
          end
      end
  end.

(** One COMMIT command on every worker; all of them are in the same round. *)
Fixpoint wb_commit_slices (firstCommit : bool) (rt : WBReserveTable) (db : database)
    (slices : list (list Transaction))
    : WBReserveTable * database * list (list Transaction) :=
  match slices with
  | [] => (rt, db, [])
  | s :: slices =>
      let '(_, rt1, db1, s1) := wb_OnCommitTransaction firstCommit rt db s in
      let '(rt2, db2, slices2) := wb_commit_slices firstCommit rt1 db1 slices in
      (rt2, db2, s1 :: slices2)
  end.

Definition wb_processTransactions (n : nat) (db : database) (txns : list Transaction)
    : option (database * list Transaction) :=
  match wb_exec_slices db WB.reset (scatter n txns) with
  | None => None
  | Some (rt, slices) =>
      let '(rt1, db1, slices1) := wb_commit_slices true rt db slices in
      let '(_, db2, slices2) := wb_commit_slices false rt1 db1 slices1 in
      Some (db2, gather n slices2 txns)
  end.

(** ** Under an arbitrary schedule *)

Definition wb_ops (p : Transaction * bool) : list (string * tid_type) :=
  if p.2 then (λ kv, (kv_key kv, tid p.1)) <$> txn_writes p.1 else [].

(** What the second round writes for an executed transaction. *)
Definition wb_writes (rs : table) (p : Transaction * bool) : KVList :=
  wb_second_txn (mkTable rs ∅) (wb_first_txn (mkTable rs ∅) p.1).1.

Definition wb_slice_ops (rs : table) (s : list (Transaction * bool)) : list db_op :=
  batch_ops (fold_left (λ b p, fold_left putOrDelete (wb_writes rs p) b) s emptyBatch).

(** The reservations of all workers interleave, then the database writes do.
    The commit table takes no part: no step reads it. *)
Definition wb_scheduled_run (n : nat) (db : database) (txns : list Transaction)
    (db' : database) (txns' : list Transaction) : Prop :=
  ∃ slices rs,
    mapM (mapM (wb_exec_txn db)) (scatter n txns) = Some slices ∧
    par_run (λ m p, reserve m p.1 p.2) ((λ s, s ≫= wb_ops) <$> slices) ∅ rs ∧
    par_run exec_db_op (wb_slice_ops rs <$> slices) db db' ∧
    txns' = gather n
      ((λ s, (λ p : Transaction * bool, (wb_first_txn (mkTable rs ∅) p.1).1) <$> s) <$> slices)
      txns.

(** The batch without workers. *)
Definition wb_table (l : list (Transaction * bool)) : table := reserveList (l ≫= wb_ops) ∅.

Definition wb_batch_run (db : database) (txns : list Transaction)
    : option (database * list Transaction) :=
  match mapM (wb_exec_txn db) txns with
  | None => None
  | Some l =>
      Some (applyWrites (l ≫= wb_writes (wb_table l)) db,
            (λ p, (wb_first_txn (mkTable (wb_table l) ∅) p.1).1) <$> l)
  end.
End engine.

(** ** Lemmas *)

Lemma wb_exec_txn_tid chaincodes db t p :
  wb_exec_txn chaincodes db t = Some p → tid p.1 = tid t.
Proof.
  unfold wb_exec_txn. destruct (invoke chaincodes db t) as [[ret t1]|] eqn:E; [|done].
  apply invoke_tid in E. intros H. repeat case_match; by simplify_eq/=.
Qed.

Lemma wb_first_txn_same rt t :
  tid (wb_first_txn rt t).1 = tid t ∧ txn_writes (wb_first_txn rt t).1 = txn_writes t.
Proof. unfold wb_first_txn. repeat case_match; done. Qed.

(** The second round writes a key only for the transaction it is mapped to. *)
Lemma wb_writes_owner rs p kv :
  kv ∈ wb_writes rs p → kv ∈ txn_writes p.1 ∧ rs !! kv_key kv = Some (tid p.1).
Proof.
  unfold wb_writes, wb_second_txn, updateDB.
  destruct (wb_first_txn_same (mkTable rs ∅) p.1) as [-> ->].
  destruct (_ || _); [by intros ?%elem_of_nil|].
  rewrite list_elem_of_In, filter_In, <-list_elem_of_In. simpl. intros [H1 H2]. split; [done|].
  destruct (rs !! kv_key kv) as [old|]; [|done].
  apply Z.eqb_eq, CompareTID_eq in H2. by rewrite H2.
Qed.

Lemma NoDup_listfilter_keys (P : KV → bool) ws :
  NoDup (kv_key <$> ws) → NoDup (kv_key <$> List.filter P ws).
Proof.
  induction ws as [|kv ws IH]; csimpl; [done|]. rewrite NoDup_cons. intros [Hx Hn].
  destruct (P kv); csimpl; [|by auto]. constructor; [|by auto].
  intros (y & E & H)%list_elem_of_fmap. apply Hx. rewrite E. apply list_elem_of_fmap_2.
  rewrite list_elem_of_In, filter_In, <-list_elem_of_In in H. tauto.
Qed.

(** What the execution phase leaves. *)
Definition wb_executed_ok (l : list (Transaction * bool)) : Prop :=
  NoDup ((λ p, tid p.1) <$> l) ∧ ∀ p, p ∈ l → NoDup (write_keys p.1).

Lemma wb_writes_NoDup rs l :
  wb_executed_ok l → NoDup (kv_key <$> (l ≫= wb_writes rs)).
Proof.
  intros [Hn Hk]. induction l as [|p l IH]; csimpl in *; [constructor|].
  apply NoDup_cons in Hn as [Hp Hn]. rewrite fmap_app. apply NoDup_app. split_and!.
  - unfold wb_writes, wb_second_txn, updateDB.
    destruct (wb_first_txn_same (mkTable rs ∅) p.1) as [_ ->].
    destruct (_ || _); [constructor|]. apply NoDup_listfilter_keys, Hk. left.
  - intros k (kv & -> & [_ H]%wb_writes_owner)%list_elem_of_fmap
      (kv' & E & (q & Hkv' & Hq)%list_elem_of_bind)%list_elem_of_fmap.
    apply wb_writes_owner in Hkv' as [_ H']. rewrite <-E in H'. rewrite H in H'.
    injection H' as H'. apply Hp. rewrite H'. by apply (list_elem_of_fmap_2 (λ p, tid p.1)).
  - apply IH; [done|]. intros q Hq. apply Hk. by right.
Qed.

Lemma wb_slices_ops_perm rs (slices : list (list (Transaction * bool))) :
  concat (wb_slice_ops rs <$> slices) ≡ₚ write_op <$> (concat slices ≫= wb_writes rs).
Proof.
  induction slices as [|s slices IH]; csimpl; [done|].
  rewrite bind_app, fmap_app, IH. f_equiv. unfold wb_slice_ops.
  rewrite (slice_fold_bind (wb_writes rs)). by rewrite batch_ops_perm.
Qed.

Definition wb_batch_ok chaincodes (db : database) (txns : list Transaction) : Prop :=
  NoDup (tid <$> txns) ∧
  ∀ t p, t ∈ txns → wb_exec_txn chaincodes db t = Some p → NoDup (write_keys p.1).

Lemma wb_executed_batch chaincodes db txns l :
  wb_batch_ok chaincodes db txns → mapM (wb_exec_txn chaincodes db) txns = Some l →
  wb_executed_ok l.
Proof.
  intros [Ht Hk] Hm. split.
  - replace ((λ p, tid p.1) <$> l) with (tid <$> txns); [done|]. apply mapM_Some in Hm.
    clear -Hm. induction Hm as [|t p txns l Htp _ IH]; csimpl; [done|].
    by rewrite IH, (wb_exec_txn_tid _ _ _ _ Htp).
  - intros p Hp. destruct (mapM_elem _ _ _ _ Hm Hp) as (t & ? & ?). eauto.
Qed.

Lemma wb_par_reserve n l rs :
  0 < n →
  par_run (λ m p, reserve m p.1 p.2) ((λ s, s ≫= wb_ops) <$> scatter n l) ∅ rs → rs = wb_table l.
Proof.
  intros Hn H. apply par_run_comm in H; [|intros; apply reserve_comm].
  rewrite H. apply fold_left_perm_on; [intros; apply reserve_comm|].
  rewrite concat_fmap_bind. by rewrite scatter_perm.
Qed.

Lemma wb_par_commit n l rs db db' :
  0 < n → wb_executed_ok l →
  par_run exec_db_op (wb_slice_ops rs <$> scatter n l) db db' →
  db' = applyWrites (l ≫= wb_writes rs) db.
Proof.
  intros Hn Hl (ops & Hp & ->)%par_run_fold. rewrite <-fold_write_ops.
  symmetry. apply db_ops_perm.
  - by apply NoDup_write_ops, wb_writes_NoDup.
  - rewrite <-Hp, wb_slices_ops_perm. by rewrite scatter_perm.
Qed.

Lemma wb_scheduled_run_batch chaincodes n db txns db' txns' :
  0 < n → wb_batch_ok chaincodes db txns →
  wb_scheduled_run chaincodes n db txns db' txns' →
  wb_batch_run chaincodes db txns = Some (db', txns').
Proof.
  intros Hn Hok (slices & rs & Hex & Hrs & Hdb & ->).
  destruct (mapM_scatter_inv _ _ _ _ Hn Hex) as (l & Hl & ->).
  pose proof (wb_executed_batch _ _ _ _ Hok Hl) as Hlo.
  apply wb_par_reserve in Hrs as ->; [|done].
  apply wb_par_commit in Hdb as ->; [|done..].
  unfold wb_batch_run. rewrite Hl. do 2 f_equal.
  rewrite <-(scatter_fmap (λ p : Transaction * bool, (wb_first_txn _ p.1).1)).
  rewrite gather_scatter; [done..|].
  rewrite length_fmap. symmetry. by apply length_mapM in Hl.
Qed.

(** ** The coordinator's own schedule *)

Lemma wb_first_cmt rs cmt cmt' t :
  wb_first_txn (mkTable rs cmt) t = wb_first_txn (mkTable rs cmt') t.
Proof. done. Qed.

Lemma wb_exec_spec chaincodes db l rs cmt :
  wb_OnExecuteTransaction chaincodes db (mkTable rs cmt) l =
  (λ k : list (Transaction * bool),
     (mkTable (fold_left (λ m p, reserve m p.1 p.2) (k ≫= wb_ops) rs) cmt, k.*1))
    <$> mapM (wb_exec_txn chaincodes db) l.
Proof.
  revert rs. induction l as [|t l IH]; intros rs; [done|]. csimpl.
  destruct (wb_exec_txn chaincodes db t) as [[t1 r]|]; [|done].
  destruct r; simpl; unfold reserveWrites; simpl; rewrite ?reserveAll_list, IH;
    (destruct (mapM _ l) as [k|]; [|done]); simpl; [|done].
  unfold wb_ops at 2. simpl. by rewrite fold_left_app.
Qed.

Lemma wb_exec_slices_spec chaincodes db (slices : list (list Transaction)) rs cmt :
  wb_exec_slices chaincodes db (mkTable rs cmt) slices =
  (λ ks : list (list (Transaction * bool)),
     (mkTable (fold_left (λ m p, reserve m p.1 p.2)
                 (concat ((λ s : list (Transaction * bool), s ≫= wb_ops) <$> ks)) rs) cmt,
      (λ s : list (Transaction * bool), s.*1) <$> ks))
    <$> mapM (M:=option) (mapM (M:=option) (wb_exec_txn chaincodes db)) slices.
Proof.
  revert rs. induction slices as [|s slices IH]; intros rs; [done|]. csimpl.
  rewrite wb_exec_spec. destruct (mapM _ s) as [k|]; [|done]. simpl. rewrite IH.
  destruct (mapM _ slices) as [ks|]; [|done]. simpl. by rewrite fold_left_app.
Qed.

(** The first round leaves [rsTable] alone and decides by it. *)
Lemma onFirstCommit_spec l rs cmt :
  ∃ cmt', onFirstCommit (mkTable rs cmt) l =
    (mkTable rs cmt', (λ t, (wb_first_txn (mkTable rs ∅) t).1) <$> l).
Proof.
  revert cmt. induction l as [|t l IH]; intros cmt; [by exists cmt|]. csimpl.
  rewrite (wb_first_cmt rs cmt ∅). destruct (wb_first_txn (mkTable rs ∅) t) as [t' r].
  destruct r; simpl.
  - destruct (IH (cmtTable (mvccReserveWrites (mkTable rs cmt) (txn_writes t) (tid t))))
      as [cmt' E]. exists cmt'. unfold mvccReserveWrites in *. simpl in *. by rewrite E.
  - destruct (IH cmt) as [cmt' E]. exists cmt'. by rewrite E.
Qed.

Lemma wb_first_slices ks rs cmt db :
  ∃ cmt', wb_commit_slices true (mkTable rs cmt) db ks =
    (mkTable rs cmt', db,
     (λ s : list Transaction, (λ t, (wb_first_txn (mkTable rs ∅) t).1) <$> s) <$> ks).
Proof.
  revert cmt. induction ks as [|s ks IH]; intros cmt; [by exists cmt|].
  cbn [wb_commit_slices wb_OnCommitTransaction].
  destruct (onFirstCommit_spec s rs cmt) as [cmt1 ->].
  destruct (IH cmt1) as [cmt2 E]. exists cmt2. rewrite E. done.
Qed.

Lemma wb_second_slices (ks : list (list (Transaction * bool))) rs cmt db :
  wb_commit_slices false (mkTable rs cmt) db
    ((λ s : list (Transaction * bool),
       (λ p, (wb_first_txn (mkTable rs ∅) p.1).1) <$> s) <$> ks) =
  (mkTable rs cmt, fold_left exec_db_op (concat (wb_slice_ops rs <$> ks)) db,
   (λ s : list (Transaction * bool), (λ p, (wb_first_txn (mkTable rs ∅) p.1).1) <$> s) <$> ks).
Proof.
  revert db. induction ks as [|s ks IH]; intros db; [done|].
  rewrite !fmap_cons. cbn [wb_commit_slices wb_OnCommitTransaction concat].
  rewrite IH. unfold onSecondCommit. rewrite syncWriteBatch_ops by done. simpl.
  rewrite fold_left_app. repeat f_equal. unfold wb_slice_ops. f_equal.
  generalize emptyBatch as b. clear. induction s as [|p s IHs]; intros b; csimpl; [done|].
  by rewrite IHs.
Qed.

Lemma wb_process_schedule chaincodes n db txns :
  0 < n →
  match wb_processTransactions chaincodes n db txns with
  | Some (db', txns') => wb_scheduled_run chaincodes n db txns db' txns'
  | None => mapM (wb_exec_txn chaincodes db) txns = None
  end.
Proof.
  intros Hn. unfold wb_processTransactions, WB.reset. rewrite wb_exec_slices_spec.
  destruct (mapM _ (scatter n txns)) as [ks|] eqn:Hks; simpl.
  2: { destruct (mapM _ txns) as [k|] eqn:Hk; [|done].
       apply (mapM_scatter _ n) in Hk. congruence. }
  set (rs := fold_left _ _ _).
  destruct (wb_first_slices ((λ s : list (Transaction * bool), s.*1) <$> ks) rs ∅ db) as [cmt ->].
  replace ((λ s : list Transaction, _) <$> ((λ s : list (Transaction * bool), s.*1) <$> ks)) with
    ((λ s : list (Transaction * bool), (λ p, (wb_first_txn (mkTable rs ∅) p.1).1) <$> s) <$> ks).
  2: { rewrite <-list_fmap_compose. apply list_fmap_ext. intros i s _. simpl.
       by rewrite <-list_fmap_compose. }
  rewrite wb_second_slices. exists ks, rs. split_and!; [done|apply par_run_seq..|done].
Qed.

(** The write-based engine is deterministic: every schedule of every number
    of workers, and the coordinator's own, gives the outcome of [wb_batch_run]. *)
Theorem wb_schedule_deterministic chaincodes n db txns :
  0 < n → wb_batch_ok chaincodes db txns →
  wb_processTransactions chaincodes n db txns = wb_batch_run chaincodes db txns ∧
  ∀ db' txns', wb_scheduled_run chaincodes n db txns db' txns' →
    wb_processTransactions chaincodes n db txns = Some (db', txns').
Proof.
  intros Hn Hok. pose proof (wb_process_schedule chaincodes n db txns Hn) as Hs.
  assert (wb_processTransactions chaincodes n db txns = wb_batch_run chaincodes db txns) as E.
  { destruct (wb_processTransactions _ _ _ _) as [[db1 t1]|].
    - symmetry. by apply (wb_scheduled_run_batch chaincodes n).
    - unfold wb_batch_run. by rewrite Hs. }
  split; [done|]. intros db' txns' Hr. rewrite E. by apply (wb_scheduled_run_batch chaincodes n).
Qed.

(** ** Committed writes can be lost *)

Definition wb_sample : list Transaction :=
  [ sample_txn 1 "copy" "a" "b"; sample_txn 2 "copy" "b" "c"; sample_txn 3 "copy" "a" "c" ].

(** [updateDB] consults the reservations, not the commit table: transaction 3
    commits and is the only committed writer of "c", but its write is dropped
    because the aborted transaction 2 had reserved the key. *)
Theorem wb_committed_write_lost :
  ∃ db' t1 t2 t3, wb_processTransactions sample_chaincodes 2 sample_db wb_sample =
      Some (db', [t1; t2; t3]) ∧
    hasResult COMMIT t1 = true ∧ hasResult ABORT t2 = true ∧ hasResult COMMIT t3 = true ∧
    write_keys t1 = ["b"%string] ∧ txn_writes t3 = [mkKV "c" "x+"] ∧
    db' !! "c"%string = sample_db !! "c"%string ∧ sample_db !! "c"%string = None.
Proof.
  set (out := default (∅, []) (wb_processTransactions sample_chaincodes 2 sample_db wb_sample)).
  set (get i := default (sample_txn 0 EmptyString EmptyString EmptyString) (out.2 !! i)).
  exists out.1, (get 0), (get 1), (get 2). split_and!; by vm_compute.
Qed.

Lemma wb_schedule_deterministic_witness :
  wb_processTransactions sample_chaincodes 2 sample_db wb_sample =
  wb_batch_run sample_chaincodes sample_db wb_sample.
Proof.
  refine (proj1 (wb_schedule_deterministic sample_chaincodes 2 sample_db wb_sample _ _)); [lia|].
  split; [apply (bool_decide_unpack _); by vm_compute|].
  intros t p. unfold wb_sample. rewrite !elem_of_cons, elem_of_nil.
  intros [->|[->|[->|[]]]] E; vm_compute in E; injection E as <-; apply NoDup_singleton.
Defined.
