(* ===== verification/SmallBank.v ===== *)
(** * SmallBank: src/peer/chaincode/small_bank_chaincode.cpp

    The SmallBank chaincode as a program over the ORM, an abstract bank (a map
    from account ids to two balances), and the refinement between them. *)

From S2P Require Import Prelude Zpp Proto DB ORM.

(** ** The chaincode *)

(** client/small_bank/small_bank_helper.h *)
Definition ACCOUNTS : string := "a_".
Definition SAVINGS : string := "s_".
Definition CHECKING : string := "c_".
Definition BALANCE : string := "bal".
Definition DEPOSIT_CHECKING : string := "dc".
Definition TRANSACT_SAVING : string := "ts".
Definition AMALGAMATE : string := "amg".
Definition WRITE_CHECK : string := "wc".

(** [getValue]: the early return on a missing or unreadable row is the first
    alternative of both matches, the rest of the method is [k]. *)
Definition getValue {K V} (ck : codec K) (cv : codec V) (tablePrefix : string) (key : K)
    (k : V → prog bool) : prog bool :=
  Get (tablePrefix +:+ out ck key) (λ o,
    match o with
    | None => Ret false
    | Some raw => match read cv raw with None => Ret false | Some v => k v end
    end).

(** [insertIntoTable]; serializing to a string does not fail. *)
Definition insertIntoTable {K V} (ck : codec K) (cv : codec V) (tablePrefix : string)
    (key : K) (value : V) (p : prog bool) : prog bool :=
  Put (tablePrefix +:+ out ck key) (out cv value) p.

Section chaincode.
Context `{ZP : Zpp}.

(** Table rows by account id. *)
Abbreviation getName := (getValue c_i32 c_sv ACCOUNTS).
Abbreviation getBalance := (getValue c_i32 c_f64).
Abbreviation setBalance := (insertIntoTable c_i32 c_f64).

Definition c_acctAmount : codec (Z * double) := seq_codec c_i32 c_f64.

Definition balance (argSV : string) : prog bool :=
  match read c_i32 argSV with
  | None => Ret false
  | Some acctId =>
      getName acctId (λ _,
      getBalance SAVINGS acctId (λ savingsBalance,
      getBalance CHECKING acctId (λ checkingBalance,
      SetResult (out c_acctAmount (acctId, dadd savingsBalance checkingBalance))
        (Ret true))))
  end.

Definition depositChecking (argSV : string) : prog bool :=
  match read c_acctAmount argSV with
  | None => Ret false
  | Some (acctId, amount) =>
      if dltb amount dzero then Ret false
      else
        getName acctId (λ _,
        getBalance CHECKING acctId (λ bal,
        setBalance CHECKING acctId (dadd bal amount) (Ret true)))
  end.

Definition transactSavings (argSV : string) : prog bool :=
  match read c_acctAmount argSV with
  | None => Ret false
  | Some (acctId, amount) =>
      getName acctId (λ _,
      getBalance SAVINGS acctId (λ bal,
      let bal' := dadd bal amount in
      if dltb bal' dzero then Ret false
      else setBalance SAVINGS acctId bal' (Ret true)))
  end.

Definition amalgamate (argSV : string) : prog bool :=
  match read (seq_codec c_i32 c_i32) argSV with
  | None => Ret false
  | Some (accId0, accId1) =>
      getName accId0 (λ _,
      getName accId1 (λ _,
      getBalance SAVINGS accId0 (λ savings0,
      getBalance CHECKING accId0 (λ checking0,
      setBalance SAVINGS accId0 dzero
      (setBalance CHECKING accId0 dzero
      (getBalance CHECKING accId1 (λ checking1,
      setBalance CHECKING accId1 (dadd checking1 (dadd savings0 checking0)) (Ret true))))))))
  end.

Definition writeCheck (argSV : string) : prog bool :=
  match read c_acctAmount argSV with
  | None => Ret false
  | Some (acctId, amount) =>
      getName acctId (λ _,
      getBalance SAVINGS acctId (λ savings,
      getBalance CHECKING acctId (λ checking,
      let sum := dadd checking savings in
      let checking' := if dltb sum amount then dsub checking (dadd amount done1)
                       else dsub checking amount in
      setBalance CHECKING acctId checking' (Ret true))))
  end.

(** The function map of the constructor and [InvokeChaincode]. *)
Definition functionMap (funcName : string) : option (string → prog bool) :=
  if decide (funcName = BALANCE) then Some balance
  else if decide (funcName = DEPOSIT_CHECKING) then Some depositChecking
  else if decide (funcName = TRANSACT_SAVING) then Some transactSavings
  else if decide (funcName = AMALGAMATE) then Some amalgamate
  else if decide (funcName = WRITE_CHECK) then Some writeCheck
  else None.

Definition SmallBank_InvokeChaincode : Chaincode := λ funcName argSV,
  match functionMap funcName with
  | None => Ret (-1)%Z
  | Some f => prog_bind (λ ok : bool, Ret (if ok then 0 else -1)%Z) (f argSV)
  end.
End chaincode.

(** ** The abstract bank *)

Record account := mkAccount { checking : double; savings : double }.
Abbreviation bank := (gmap Z account).

Inductive request :=
| Balance (id : Z)
| DepositChecking (id : Z) (amount : double)
| TransactSavings (id : Z) (amount : double)
| Amalgamate (id0 id1 : Z)
| WriteCheck (id : Z) (amount : double).

(** What the comments of small_bank_helper.h say; [None]: roll back. *)
Definition bank_step (b : bank) (r : request) : option bank :=
  match r with
  | Balance id => a ← b !! id; Some b
  | DepositChecking id v =>
      if dltb v dzero then None
      else a ← b !! id; Some (<[id := mkAccount (dadd (checking a) v) (savings a)]> b)
  | TransactSavings id v =>
      a ← b !! id;
      if dltb (dadd (savings a) v) dzero then None
      else Some (<[id := mkAccount (checking a) (dadd (savings a) v)]> b)
  | Amalgamate id0 id1 =>
      a0 ← b !! id0; a1 ← b !! id1;
      Some (<[id1 := mkAccount (dadd (checking a1) (dadd (savings a0) (checking a0))) (savings a1)]>
              (<[id0 := mkAccount dzero dzero]> b))
  | WriteCheck id v =>
      a ← b !! id;
      Some (<[id := mkAccount
        (if dltb (dadd (checking a) (savings a)) v then dsub (checking a) (dadd v done1)
         else dsub (checking a) v) (savings a)]> b)
  end.

Section refinement.
Context `{ZP : Zpp} `{!ZppLaws ZP}.

Definition encode (r : request) : string * string :=
  match r with
  | Balance id => (BALANCE, out c_i32 id)
  | DepositChecking id v => (DEPOSIT_CHECKING, out c_acctAmount (id, v))
  | TransactSavings id v => (TRANSACT_SAVING, out c_acctAmount (id, v))
  | Amalgamate id0 id1 => (AMALGAMATE, out (seq_codec c_i32 c_i32) (id0, id1))
  | WriteCheck id v => (WRITE_CHECK, out c_acctAmount (id, v))
  end.

(** Representable arguments; amalgamating an account with itself is left out
    (see [amalgamate_self_creates_money]). *)
Definition request_ok (r : request) : Prop :=
  match r with
  | Balance id => in_int32 id
  | DepositChecking id v | TransactSavings id v | WriteCheck id v => in_int32 id ∧ f64_ok v
  | Amalgamate id0 id1 => in_int32 id0 ∧ in_int32 id1 ∧ id0 ≠ id1
  end.

Definition row {V} (cv : codec V) (db : database) (prefix : string) (id : Z) (v : V) : Prop :=
  ∃ raw, visible db (prefix +:+ out c_i32 id) = Some raw ∧ read cv raw = Some v.

(** The database holds the three rows of every account of the bank and no
    ACCOUNTS row for any other id. *)
Definition repr (b : bank) (db : database) : Prop :=
  ∀ id, in_int32 id →
    match b !! id with
    | Some a => (∃ name, row c_sv db ACCOUNTS id name) ∧
                row c_f64 db SAVINGS id (savings a) ∧ row c_f64 db CHECKING id (checking a)
    | None => visible db (ACCOUNTS +:+ out c_i32 id) = None
    end.

(** Balances are doubles. *)
Definition bank_ok (b : bank) : Prop :=
  ∀ id a, b !! id = Some a → f64_ok (checking a) ∧ f64_ok (savings a).

(** ** Rows *)

Lemma f64_nonempty v : f64_ok v → out c_f64 v ≠ EmptyString.
Proof.
  intros Hv. destruct (decide (v = dzero)) as [->|Hne].
  - by apply (out_nonempty f64_ok c_f64 dzero done1); [apply f64_law|..].
  - by apply (out_nonempty f64_ok c_f64 v dzero); [apply f64_law|..].
Qed.

(** Rows of different tables or accounts have different keys. *)
Lemma key_ne p1 p2 id1 id2 :
  p1 ∈ [ACCOUNTS; SAVINGS; CHECKING] → p2 ∈ [ACCOUNTS; SAVINGS; CHECKING] →
  in_int32 id1 → in_int32 id2 → p1 ≠ p2 ∨ id1 ≠ id2 →
  p1 +:+ out c_i32 id1 ≠ p2 +:+ out c_i32 id2.
Proof.
  rewrite !elem_of_cons, !elem_of_nil. intros H1 H2 Ho1 Ho2 Hne E.
  destruct H1 as [->|[->|[->|[]]]], H2 as [->|[->|[->|[]]]]; try discriminate E;
    (destruct Hne as [?|Hne]; [done|]); apply Hne; injection E;
    apply (out_inj in_int32); auto using i32_law.
Qed.

Definition write_row (db : database) (prefix : string) (id : Z) (v : double) : database :=
  applyWrite db (mkKV (prefix +:+ out c_i32 id) (out c_f64 v)).

Lemma row_written db prefix id v : f64_ok v → row c_f64 (write_row db prefix id v) prefix id v.
Proof.
  intros Hv. exists (out c_f64 v). unfold write_row. rewrite visible_applyWrite. simpl.
  rewrite decide_True, decide_False by auto using f64_nonempty.
  split; [done|]. apply (read_out f64_ok); auto using f64_law.
Qed.

Lemma visible_other db p1 p2 id1 id2 v :
  p1 ∈ [ACCOUNTS; SAVINGS; CHECKING] → p2 ∈ [ACCOUNTS; SAVINGS; CHECKING] →
  in_int32 id1 → in_int32 id2 → p1 ≠ p2 ∨ id1 ≠ id2 →
  visible (write_row db p1 id1 v) (p2 +:+ out c_i32 id2) = visible db (p2 +:+ out c_i32 id2).
Proof.
  intros. unfold write_row. rewrite visible_applyWrite. simpl. rewrite decide_False; [done|]. by apply key_ne.
Qed.

Lemma row_other {V} (cv : codec V) db p1 p2 id1 id2 v w :
  p1 ∈ [ACCOUNTS; SAVINGS; CHECKING] → p2 ∈ [ACCOUNTS; SAVINGS; CHECKING] →
  in_int32 id1 → in_int32 id2 → p1 ≠ p2 ∨ id1 ≠ id2 →
  row cv db p2 id2 w → row cv (write_row db p1 id1 v) p2 id2 w.
Proof. intros ????? (raw & H1 & H2). exists raw. by rewrite visible_other. Qed.

Lemma repr_set_checking b db id a v :
  repr b db → in_int32 id → b !! id = Some a → f64_ok v →
  repr (<[id := mkAccount v (savings a)]> b) (write_row db CHECKING id v).
Proof.
  intros Hb Hid Ha Hv id' Hid'. specialize (Hb id' Hid').
  destruct (decide (id = id')) as [->|Hne].
  - rewrite lookup_insert_eq. rewrite Ha in Hb. destruct Hb as ([name Hn] & Hs & _). split_and!.
    + exists name. apply row_other; auto; set_solver.
    + apply row_other; auto; set_solver.
    + by apply row_written.
  - rewrite lookup_insert_ne by done. destruct (b !! id') as [a'|].
    + destruct Hb as ([name Hn] & Hs & Hc).
      split_and!; [exists name|..]; apply row_other; auto; set_solver.
    + rewrite visible_other; auto; set_solver.
Qed.

Lemma repr_set_savings b db id a v :
  repr b db → in_int32 id → b !! id = Some a → f64_ok v →
  repr (<[id := mkAccount (checking a) v]> b) (write_row db SAVINGS id v).
Proof.
  intros Hb Hid Ha Hv id' Hid'. specialize (Hb id' Hid').
  destruct (decide (id = id')) as [->|Hne].
  - rewrite lookup_insert_eq. rewrite Ha in Hb. destruct Hb as ([name Hn] & _ & Hc). split_and!.
    + exists name. apply row_other; auto; set_solver.
    + by apply row_written.
    + apply row_other; auto; set_solver.
  - rewrite lookup_insert_ne by done. destruct (b !! id') as [a'|].
    + destruct Hb as ([name Hn] & Hs & Hc).
      split_and!; [exists name|..]; apply row_other; auto; set_solver.
    + rewrite visible_other; auto; set_solver.
Qed.

(** ** Running the row accesses *)

(** [f] is what a run does to the write set and returns, whatever it reads. *)
Definition result_of (db : database) (p : prog bool) (ws ws' : KVList) (ok : bool) : Prop :=
  ∀ o, orm_writes o = ws → ∃ o', run db p o = Some (o', ok) ∧ orm_writes o' = ws'.

Lemma result_get {V} (cv : codec V) db prefix id v k ws ws' ok :
  row cv db prefix id v → result_of db (k v) ws ws' ok →
  result_of db (getValue c_i32 cv prefix id k) ws ws' ok.
Proof.
  intros (raw & H1 & H2) Hk o Ho. unfold getValue. simpl. unfold orm_get. rewrite H1, H2.
  by apply Hk.
Qed.

Lemma result_get_none {V} (cv : codec V) db prefix id k ws :
  visible db (prefix +:+ out c_i32 id) = None →
  result_of db (getValue c_i32 cv prefix id k) ws ws false.
Proof.
  intros H o Ho. unfold getValue. simpl. unfold orm_get. rewrite H. simpl. eauto.
Qed.

Lemma result_put db prefix id v p ws ws' ok :
  result_of db p (ws ++ [mkKV (prefix +:+ out c_i32 id) (out c_f64 v)]) ws' ok →
  result_of db (insertIntoTable c_i32 c_f64 prefix id v p) ws ws' ok.
Proof. intros H o Ho. unfold insertIntoTable. simpl. apply H. by rewrite <-Ho. Qed.

Lemma result_ret db b ws : result_of db (Ret b) ws ws b.
Proof. intros o Ho. simpl. eauto. Qed.

Lemma result_setResult db r p ws ws' ok :
  result_of db p ws ws' ok → result_of db (SetResult r p) ws ws' ok.
Proof. intros H o Ho. simpl. by apply H. Qed.

Lemma repr_some b db id a :
  repr b db → in_int32 id → b !! id = Some a →
  (∃ name, row c_sv db ACCOUNTS id name) ∧
  row c_f64 db SAVINGS id (savings a) ∧ row c_f64 db CHECKING id (checking a).
Proof. intros H Hid Ha. specialize (H id Hid). by rewrite Ha in H. Qed.

Lemma repr_none b db id :
  repr b db → in_int32 id → b !! id = None → visible db (ACCOUNTS +:+ out c_i32 id) = None.
Proof. intros H Hid Ha. specialize (H id Hid). by rewrite Ha in H. Qed.

Lemma acctAmount_law : codec_ok (λ p, in_int32 p.1 ∧ f64_ok p.2) c_acctAmount.
Proof. apply seq_codec_ok; auto using i32_law, f64_law. Qed.

(** What a method does, against the abstract step. *)
Definition refines (b : bank) (db : database) (r : request) (p : prog bool) : Prop :=
  ∃ ws, NoDup (kv_key <$> ws) ∧
  match bank_step b r with
  | Some b' => (bank_ok b' → repr b' (applyWrites ws db)) ∧ result_of db p [] ws true
  | None => result_of db p [] ws false
  end.

Ltac run_rows :=
  repeat first
    [ apply result_ret | apply result_put | apply result_setResult
    | eapply result_get; [eassumption|] ].

Lemma refines_balance b db id :
  repr b db → in_int32 id → refines b db (Balance id) (balance (out c_i32 id)).
Proof.
  intros Hb Hid. exists []. split; [constructor|].
  unfold balance. rewrite (read_out in_int32) by auto using i32_law. simpl.
  destruct (b !! id) as [a|] eqn:Ha; simpl.
  - destruct (repr_some _ _ _ _ Hb Hid Ha) as ([name Hn] & Hs & Hc).
    split; [done|]. run_rows.
  - apply result_get_none. by eapply repr_none.
Qed.

Lemma refines_deposit b db id v :
  repr b db → in_int32 id → f64_ok v →
  refines b db (DepositChecking id v) (depositChecking (out c_acctAmount (id, v))).
Proof.
  intros Hb Hid Hv. unfold refines, depositChecking.
  rewrite (read_out _ _ _ acctAmount_law) by done. simpl. destruct (dltb v dzero).
  { exists []. split; [constructor|apply result_ret]. }
  destruct (b !! id) as [a|] eqn:Ha; simpl.
  - destruct (repr_some _ _ _ _ Hb Hid Ha) as ([name Hn] & Hs & Hc).
    eexists. split; [|split; [|run_rows]]; [apply NoDup_singleton|].
    intros Hok. apply repr_set_checking; try done.
    destruct (Hok id _ (lookup_insert_eq _ _ _)) as [? _]. done.
  - exists []. split; [constructor|]. apply result_get_none. by eapply repr_none.
Qed.

Lemma refines_savings b db id v :
  repr b db → in_int32 id → f64_ok v →
  refines b db (TransactSavings id v) (transactSavings (out c_acctAmount (id, v))).
Proof.
  intros Hb Hid Hv. unfold refines, transactSavings.
  rewrite (read_out _ _ _ acctAmount_law) by done. simpl.
  destruct (b !! id) as [a|] eqn:Ha; simpl.
  - destruct (repr_some _ _ _ _ Hb Hid Ha) as ([name Hn] & Hs & Hc).
    destruct (dltb (dadd (savings a) v) dzero) eqn:Hneg.
    + exists []. split; [constructor|]. run_rows. rewrite Hneg. run_rows.
    + exists [mkKV (SAVINGS +:+ out c_i32 id) (out c_f64 (dadd (savings a) v))].
      split; [apply NoDup_singleton|]. split.
      * intros Hok. apply repr_set_savings; try done.
        destruct (Hok id _ (lookup_insert_eq _ _ _)) as [_ ?]. done.
      * run_rows. rewrite Hneg. run_rows.
  - exists []. split; [constructor|]. apply result_get_none. by eapply repr_none.
Qed.

Lemma refines_check b db id v :
  repr b db → in_int32 id → f64_ok v →
  refines b db (WriteCheck id v) (writeCheck (out c_acctAmount (id, v))).
Proof.
  intros Hb Hid Hv. unfold refines, writeCheck.
  rewrite (read_out _ _ _ acctAmount_law) by done. simpl.
  destruct (b !! id) as [a|] eqn:Ha; simpl.
  - destruct (repr_some _ _ _ _ Hb Hid Ha) as ([name Hn] & Hs & Hc).
    eexists. split; [|split; [|run_rows]]; [apply NoDup_singleton|].
    intros Hok. apply repr_set_checking; try done.
    destruct (Hok id _ (lookup_insert_eq _ _ _)) as [? _]. done.
  - exists []. split; [constructor|]. apply result_get_none. by eapply repr_none.
Qed.

Lemma amalgamate_keys id0 id1 v0 v1 v2 :
  in_int32 id0 → in_int32 id1 → id0 ≠ id1 →
  NoDup (kv_key <$> [mkKV (SAVINGS +:+ out c_i32 id0) v0; mkKV (CHECKING +:+ out c_i32 id0) v1;
                     mkKV (CHECKING +:+ out c_i32 id1) v2]).
Proof.
  intros H0 H1 Hne. csimpl.
  assert (SAVINGS ∈ [ACCOUNTS; SAVINGS; CHECKING]) by set_solver.
  assert (CHECKING ∈ [ACCOUNTS; SAVINGS; CHECKING]) by set_solver.
  repeat (apply NoDup_cons; split); try apply NoDup_nil_2; rewrite ?elem_of_cons, ?elem_of_nil.
  - intros [E|[E|[]]]; revert E; apply key_ne; auto; by left.
  - intros [E|[]]; revert E; apply key_ne; auto.
  - by intros [].
Qed.

Lemma refines_amalgamate b db id0 id1 :
  repr b db → in_int32 id0 → in_int32 id1 → id0 ≠ id1 →
  refines b db (Amalgamate id0 id1) (amalgamate (out (seq_codec c_i32 c_i32) (id0, id1))).
Proof.
  intros Hb H0 H1 Hne. unfold refines, amalgamate.
  rewrite (read_out _ _ _ (seq_codec_ok _ _ _ _ i32_law i32_law)) by done. simpl.
  destruct (b !! id0) as [a0|] eqn:Ha0; simpl.
  2: { exists []. split; [constructor|]. apply result_get_none. by eapply repr_none. }
  destruct (repr_some _ _ _ _ Hb H0 Ha0) as ([name0 Hn0] & Hs0 & Hc0).
  destruct (b !! id1) as [a1|] eqn:Ha1; simpl.
  2: { exists []. split; [constructor|]. eapply result_get; [eassumption|].
       apply result_get_none. by eapply repr_none. }
  destruct (repr_some _ _ _ _ Hb H1 Ha1) as ([name1 Hn1] & Hs1 & Hc1).
  eexists. split; [|split; [|run_rows]]; [by apply amalgamate_keys|].
  intros Hok. destruct (Hok id1 _ (lookup_insert_eq _ _ _)) as [Hv _].
  pose proof (repr_set_savings b db id0 a0 dzero Hb H0 Ha0 eq_refl) as R1.
  pose proof (repr_set_checking _ _ id0 _ dzero R1 H0 (lookup_insert_eq _ _ _) eq_refl) as R2.
  rewrite insert_insert_eq in R2.
  apply (repr_set_checking _ _ id1 a1 _ R2 H1); [by rewrite lookup_insert_ne|done].
Qed.

Lemma invoke_refines b db r :
  repr b db → request_ok r →
  ∃ p, functionMap (encode r).1 = Some p ∧ refines b db r (p (encode r).2).
Proof.
  intros Hb Hr. destruct r; simpl in *; eexists; (split; [reflexivity|]).
  - by apply refines_balance.
  - destruct Hr. by apply refines_deposit.
  - destruct Hr. by apply refines_savings.
  - destruct Hr as (? & ? & ?). by apply refines_amalgamate.
  - destruct Hr. by apply refines_check.
Qed.

(** C25: the SmallBank chaincode refines the bank of its documentation.  On a
    database that represents a bank, a request returns 0 exactly when the bank
    accepts it, its write set then takes the database to one that represents
    the new bank, and a refused request returns -1.  No request writes a key
    twice, which is what the parallel engine requires. *)
Theorem smallbank_refines b db r :
  repr b db → request_ok r →
  ∃ o ret, run db (SmallBank_InvokeChaincode (encode r).1 (encode r).2) newORM = Some (o, ret) ∧
    NoDup (kv_key <$> orm_writes o) ∧
    match bank_step b r with
    | Some b' => ret = 0%Z ∧ (bank_ok b' → repr b' (applyWrites (orm_writes o) db))
    | None => ret = (-1)%Z
    end.
Proof.
  intros Hb Hr. destruct (invoke_refines b db r Hb Hr) as (p & Hp & ws & Hn & Hres).
  unfold SmallBank_InvokeChaincode. rewrite Hp. rewrite run_bind.
  destruct (bank_step b r) as [b'|].
  - destruct Hres as [Hrep Hres]. destruct (Hres newORM eq_refl) as (o & -> & <-). eauto 10.
  - destruct (Hres newORM eq_refl) as (o & -> & <-). eauto 10.
Qed.

(** What [InitDatabase] writes for one account. *)
Definition create (db : database) (id : Z) (name : string) (a : account) : database :=
  write_row (write_row (applyWrite db (mkKV (ACCOUNTS +:+ out c_i32 id) (out c_sv name)))
               CHECKING id (checking a)) SAVINGS id (savings a).

Lemma repr_create b db id name a :
  repr b db → in_int32 id → b !! id = None → sv_ok name → name ≠ EmptyString →
  f64_ok (checking a) → f64_ok (savings a) →
  repr (<[id := a]> b) (create db id name a).
Proof.
  intros Hb Hid Ha Hn Hne Hc Hs id' Hid'. unfold create. specialize (Hb id' Hid').
  assert (∀ p, p ∈ [ACCOUNTS; SAVINGS; CHECKING] → id ≠ id' →
    visible (create db id name a) (p +:+ out c_i32 id') = visible db (p +:+ out c_i32 id')) as Ho.
  { intros p Hp Hdiff. unfold create. rewrite !visible_other by (auto; set_solver).
    rewrite visible_applyWrite. simpl. rewrite decide_False; [done|]. apply key_ne; auto. set_solver. }
  destruct (decide (id = id')) as [<-|Hdiff].
  - rewrite lookup_insert_eq. split_and!; [exists name|by apply row_written|].
    + do 2 (apply row_other; auto; [set_solver..|]). exists (out c_sv name).
      rewrite visible_applyWrite. simpl. rewrite decide_True by done. rewrite decide_False.
      * split; [done|]. apply (read_out sv_ok); auto using sv_law.
      * by apply (out_nonempty sv_ok c_sv name EmptyString); [apply sv_law|..].
    + apply row_other; auto; [set_solver..|]. by apply row_written.
  - rewrite lookup_insert_ne by done. fold (create db id name a). unfold row.
    rewrite !Ho by set_solver. done.
Qed.
End refinement.

(** ** Concrete accounts *)

#[local] Existing Instance LE.zpp.
#[local] Existing Instance LE.zpp_laws.

Definition dtwo : double := dadd done1 done1.

(** Two accounts: (checking, savings) = (1, 1) and (2, 1). *)
Definition sb_db : database :=
  create (create ∅ 2 "n" (mkAccount dtwo done1)) 1 "n" (mkAccount done1 done1).
Definition sb_bank : bank := <[1%Z := mkAccount done1 done1]> (<[2%Z := mkAccount dtwo done1]> ∅).

Lemma sb_repr : repr sb_bank sb_db.
Proof.
  assert (repr ∅ ∅) as H0 by (intros id _; by rewrite lookup_empty).
  do 2 (apply repr_create; try done).
Qed.

Definition balance_of (db : database) (prefix : string) (id : Z) : option double :=
  visible db (prefix +:+ out c_i32 id) ≫= read c_f64.

(** Amalgamating an account with itself creates money.  The method writes
    the checking row twice (which a debug build refuses), the second time adding
    the old balances to the checking balance read before: an account with one in
    checking and one in savings ends with three. *)
Theorem amalgamate_self_creates_money :
  debug_run sb_db (amalgamate (out (seq_codec c_i32 c_i32) (1, 1)%Z)) newORM = None ∧
  ∃ o, run sb_db (amalgamate (out (seq_codec c_i32 c_i32) (1, 1)%Z)) newORM = Some (o, true) ∧
    let db' := applyWrites (orm_writes o) sb_db in
    balance_of sb_db CHECKING 1 = Some done1 ∧ balance_of sb_db SAVINGS 1 = Some done1 ∧
    balance_of db' CHECKING 1 = Some (dadd done1 dtwo) ∧ balance_of db' SAVINGS 1 = Some dzero.
Proof.
  split; [by vm_compute|]. eexists. split; [by vm_compute|]. split_and!; by vm_compute.
Qed.

Lemma smallbank_refines_witness :
  ∃ o ret, run sb_db (SmallBank_InvokeChaincode AMALGAMATE
                        (out (seq_codec c_i32 c_i32) (1, 2)%Z)) newORM = Some (o, ret) ∧
    ret = 0%Z ∧ NoDup (kv_key <$> orm_writes o).
Proof.
  destruct (smallbank_refines sb_bank sb_db (Amalgamate 1 2) sb_repr) as (o & ret & H1 & H2 & H3).
  - by split_and!.
  - exists o, ret. split; [done|]. split; [|done].
    destruct (bank_step sb_bank (Amalgamate 1 2)) eqn:E; [by destruct H3|by vm_compute in E].
Defined.
