(* ===== verification/TpccSchema.v ===== *)
(** * TpccSchema: the TPC-C rows

    include/client/tpcc/tpcc_types.h, tpcc_schema.h and tpcc_proto.h: the fixed
    capacity strings, the rows and keys of the tables and the request messages,
    each with its serialization (the fields in order). *)

From S2P Require Import Prelude Zpp.

Module Tpcc.

Abbreviation Integer := Z.
Abbreviation Timestamp := Z.
Abbreviation Numeric := double.

(** [Varchar<maxLength>]: a length and an array of [maxLength] bytes, of which
    the first [length] count. *)
Record Varchar (maxLength : nat) := mkVarchar { length : Z; data : vec Z maxLength }.
Arguments mkVarchar {maxLength} _ _.
Arguments length {maxLength} _.
Arguments data {maxLength} _.

(** [std::string] and the bytes of an array. *)
Fixpoint bytes_of (s : string) : list Z :=
  match s with
  | EmptyString => []
  | String c s => Z.of_N (Ascii.N_of_ascii c) :: bytes_of s
  end.
Fixpoint string_of (l : list Z) : string :=
  match l with
  | [] => EmptyString
  | z :: l => String (Ascii.ascii_of_N (Z.to_N z)) (string_of l)
  end.

(** [std::copy] into the front of an array. *)
Fixpoint copy_bytes {n} (l : list Z) (v : vec Z n) : vec Z n :=
  match v in vec _ n return vec Z n with
  | [#] => [#]
  | x ::: v => match l with [] => x ::: v | z :: l => z ::: copy_bytes l v end
  end.

(** [Varchar(str)]: copies the characters; the bytes behind them keep what the
    uninitialised array [garbage] happens to hold. *)
Definition Varchar_of {n} (garbage : vec Z n) (str : string) : Varchar n :=
  mkVarchar (Z.of_nat (String.length str)) (copy_bytes (bytes_of str) garbage).

Definition toString {n} (v : Varchar n) : string :=
  string_of (take (Z.to_nat (length v)) (vec_to_list (data v))).

(** [operator[]] without the debug check. *)
Definition char_at {n} (v : Varchar n) (i : nat) : option Z := vec_to_list (data v) !! i.

(** ** Schema *)

Record warehouse_key := mk_warehouse_key { w_id : Integer }.

Record warehouse_t := mk_warehouse_t {
  w_name : Varchar 10; w_street_1 : Varchar 20; w_street_2 : Varchar 20; w_city : Varchar 20;
  w_state : Varchar 2; w_zip : Varchar 9; w_tax : Numeric; w_ytd : Numeric
}.

Record district_key := mk_district_key { d_w_id : Integer; d_id : Integer }.

Record district_t := mk_district_t {
  d_name : Varchar 10; d_street_1 : Varchar 20; d_street_2 : Varchar 20; d_city : Varchar 20;
  d_state : Varchar 2; d_zip : Varchar 9; d_tax : Numeric; d_ytd : Numeric;
  d_next_o_id : Integer
}.

Record customer_key := mk_customer_key { c_w_id : Integer; c_d_id : Integer; c_id : Integer }.

Record customer_t := mk_customer_t {
  c_first : Varchar 16; c_middle : Varchar 2; c_last : Varchar 16; c_street_1 : Varchar 20;
  c_street_2 : Varchar 20; c_city : Varchar 20; c_state : Varchar 2; c_zip : Varchar 9;
  c_phone : Varchar 16; c_since : Timestamp; c_credit : Varchar 2; c_credit_lim : Numeric;
  c_discount : Numeric; c_balance : Numeric; c_ytd_payment : Numeric; c_payment_cnt : Numeric;
  c_delivery_cnt : Numeric; c_data : Varchar 500
}.

Record customer_wdl_key := mk_customer_wdl_key {
  wdl_w_id : Integer; wdl_d_id : Integer; wdl_last : Varchar 16
}.

Record customer_wdl_t := mk_customer_wdl_t { wdl_c_id : Integer }.

Record history_key := mk_history_key {
  h_c_id : Integer; h_c_d_id : Integer; h_c_w_id : Integer; h_d_id : Integer;
  h_w_id : Integer; h_date : Timestamp
}.

Record history_t := mk_history_t { h_amount : Numeric; h_data : Varchar 24 }.

Record new_order_key := mk_new_order_key {
  no_w_id : Integer; no_d_id : Integer; no_o_id : Integer
}.

Record new_order_t := mk_new_order_t { no_dummy : Integer }.

Record order_key := mk_order_key { o_w_id : Integer; o_d_id : Integer; o_id : Integer }.

Record order_t := mk_order_t {
  o_c_id : Integer; o_entry_d : Timestamp; o_carrier_id : Integer; o_ol_cnt : Numeric;
  o_all_local : Numeric
}.

Record order_wdc_key := mk_order_wdc_key {
  owdc_w_id : Integer; owdc_d_id : Integer; owdc_c_id : Integer; owdc_id : Integer
}.

Record order_line_key := mk_order_line_key {
  ol_w_id : Integer; ol_d_id : Integer; ol_o_id : Integer; ol_number : Integer
}.

Record order_line_t := mk_order_line_t {
  ol_i_id : Integer; ol_supply_w_id : Integer; ol_delivery_d : Timestamp;
  ol_quantity : Numeric; ol_amount : Numeric; ol_dist_info : Varchar 24
}.

Record item_key := mk_item_key { i_id : Integer }.

Record item_t := mk_item_t {
  i_im_id : Integer; i_name : Varchar 24; i_price : Numeric; i_data : Varchar 50
}.

Record stock_key := mk_stock_key { s_w_id : Integer; s_i_id : Integer }.

Record stock_t := mk_stock_t {
  s_quantity : Numeric; s_dist_01 : Varchar 24; s_dist_02 : Varchar 24;
  s_dist_03 : Varchar 24; s_dist_04 : Varchar 24; s_dist_05 : Varchar 24;
  s_dist_06 : Varchar 24; s_dist_07 : Varchar 24; s_dist_08 : Varchar 24;
  s_dist_09 : Varchar 24; s_dist_10 : Varchar 24; s_ytd : Numeric; s_order_cnt : Numeric;
  s_remote_cnt : Numeric; s_data : Varchar 50
}.

Record NewOrder := mk_NewOrder {
  warehouseId : Integer; districtId : Integer; customerId : Integer; orderLineCount : Integer;
  orderLineNumbers : list Integer; supplierWarehouse : list Integer; itemIds : list Integer;
  quantities : list Integer; timestamp : Timestamp
}.

Record Payment := mk_Payment {
  p_warehouseId : Integer; p_districtId : Integer; customerWarehouseId : Integer;
  customerDistrictId : Integer; homeOrderTotalAmount : Numeric;
  homeOrderTotalDate : Timestamp; p_timestamp : Timestamp; isPaymentById : bool;
  customerLastName : Varchar 16; p_customerId : Integer
}.

(** ** Serialization *)

Section codecs.
Context {ZP : Zpp}.

Definition c_varchar (n : nat) : codec (Varchar n) :=
  iso_codec (λ p, mkVarchar p.1 p.2) (λ v, (length v, data v)) (seq_codec c_u32 (c_arr n)).

(** An empty struct has no bytes. *)
Definition c_unit : codec unit := Codec (λ _, EmptyString) (λ s, Some ((), s)).

Definition c_bool : codec bool :=
  iso_codec (λ z, negb (z =? 0)%Z) (λ b : bool, if b then 1 else 0)%Z c_byte.

Definition c_warehouse_key : codec warehouse_key := iso_codec mk_warehouse_key w_id c_i32.

Definition c_warehouse_t : codec warehouse_t :=
  iso_codec
    (λ p, mk_warehouse_t
       p.1.1.1.1.1.1.1 p.1.1.1.1.1.1.2 p.1.1.1.1.1.2 p.1.1.1.1.2 p.1.1.1.2 p.1.1.2 p.1.2 p.2)
    (λ r,
       (w_name r, w_street_1 r, w_street_2 r, w_city r, w_state r, w_zip r, w_tax r, w_ytd r))
    (seq_codec (seq_codec (seq_codec (seq_codec (seq_codec (seq_codec (seq_codec (c_varchar
    10) (c_varchar 20)) (c_varchar 20)) (c_varchar 20)) (c_varchar 2)) (c_varchar 9)) c_f64)
    c_f64).

Definition c_district_key : codec district_key :=
  iso_codec
    (λ p, mk_district_key
       p.1 p.2)
    (λ r,
       (d_w_id r, d_id r))
    (seq_codec c_i32 c_i32).

Definition c_district_t : codec district_t :=
  iso_codec
    (λ p, mk_district_t
       p.1.1.1.1.1.1.1.1 p.1.1.1.1.1.1.1.2 p.1.1.1.1.1.1.2 p.1.1.1.1.1.2 p.1.1.1.1.2
       p.1.1.1.2 p.1.1.2 p.1.2 p.2)
    (λ r,
       (d_name r, d_street_1 r, d_street_2 r, d_city r, d_state r, d_zip r, d_tax r, d_ytd r,
       d_next_o_id r))
    (seq_codec (seq_codec (seq_codec (seq_codec (seq_codec (seq_codec (seq_codec (seq_codec
    (c_varchar 10) (c_varchar 20)) (c_varchar 20)) (c_varchar 20)) (c_varchar 2)) (c_varchar
    9)) c_f64) c_f64) c_i32).

Definition c_customer_key : codec customer_key :=
  iso_codec
    (λ p, mk_customer_key
       p.1.1 p.1.2 p.2)
    (λ r,
       (c_w_id r, c_d_id r, c_id r))
    (seq_codec (seq_codec c_i32 c_i32) c_i32).

Definition c_customer_t : codec customer_t :=
  iso_codec
    (λ p, mk_customer_t
       p.1.1.1.1.1.1.1.1.1.1.1.1.1.1.1.1.1 p.1.1.1.1.1.1.1.1.1.1.1.1.1.1.1.1.2
       p.1.1.1.1.1.1.1.1.1.1.1.1.1.1.1.2 p.1.1.1.1.1.1.1.1.1.1.1.1.1.1.2
       p.1.1.1.1.1.1.1.1.1.1.1.1.1.2 p.1.1.1.1.1.1.1.1.1.1.1.1.2 p.1.1.1.1.1.1.1.1.1.1.1.2
       p.1.1.1.1.1.1.1.1.1.1.2 p.1.1.1.1.1.1.1.1.1.2 p.1.1.1.1.1.1.1.1.2 p.1.1.1.1.1.1.1.2
       p.1.1.1.1.1.1.2 p.1.1.1.1.1.2 p.1.1.1.1.2 p.1.1.1.2 p.1.1.2 p.1.2 p.2)
    (λ r,
       (c_first r, c_middle r, c_last r, c_street_1 r, c_street_2 r, c_city r, c_state r,
       c_zip r, c_phone r, c_since r, c_credit r, c_credit_lim r, c_discount r, c_balance r,
       c_ytd_payment r, c_payment_cnt r, c_delivery_cnt r, c_data r))
    (seq_codec (seq_codec (seq_codec (seq_codec (seq_codec (seq_codec (seq_codec (seq_codec
    (seq_codec (seq_codec (seq_codec (seq_codec (seq_codec (seq_codec (seq_codec (seq_codec
    (seq_codec (c_varchar 16) (c_varchar 2)) (c_varchar 16)) (c_varchar 20)) (c_varchar 20))
    (c_varchar 20)) (c_varchar 2)) (c_varchar 9)) (c_varchar 16)) c_u64) (c_varchar 2))
    c_f64) c_f64) c_f64) c_f64) c_f64) c_f64) (c_varchar 500)).

Definition c_customer_wdl_key : codec customer_wdl_key :=
  iso_codec
    (λ p, mk_customer_wdl_key
       p.1.1 p.1.2 p.2)
    (λ r,
       (wdl_w_id r, wdl_d_id r, wdl_last r))
    (seq_codec (seq_codec c_i32 c_i32) (c_varchar 16)).

Definition c_customer_wdl_t : codec customer_wdl_t := iso_codec mk_customer_wdl_t wdl_c_id c_i32.

Definition c_history_key : codec history_key :=
  iso_codec
    (λ p, mk_history_key
       p.1.1.1.1.1 p.1.1.1.1.2 p.1.1.1.2 p.1.1.2 p.1.2 p.2)
    (λ r,
       (h_c_id r, h_c_d_id r, h_c_w_id r, h_d_id r, h_w_id r, h_date r))
    (seq_codec (seq_codec (seq_codec (seq_codec (seq_codec c_i32 c_i32) c_i32) c_i32) c_i32)
    c_u64).

Definition c_history_t : codec history_t :=
  iso_codec
    (λ p, mk_history_t
       p.1 p.2)
    (λ r,
       (h_amount r, h_data r))
    (seq_codec c_f64 (c_varchar 24)).

Definition c_new_order_key : codec new_order_key :=
  iso_codec
    (λ p, mk_new_order_key
       p.1.1 p.1.2 p.2)
    (λ r,
       (no_w_id r, no_d_id r, no_o_id r))
    (seq_codec (seq_codec c_i32 c_i32) c_i32).

Definition c_new_order_t : codec new_order_t := iso_codec mk_new_order_t no_dummy c_i32.

Definition c_order_key : codec order_key :=
  iso_codec
    (λ p, mk_order_key
       p.1.1 p.1.2 p.2)
    (λ r,
       (o_w_id r, o_d_id r, o_id r))
    (seq_codec (seq_codec c_i32 c_i32) c_i32).

Definition c_order_t : codec order_t :=
  iso_codec
    (λ p, mk_order_t
       p.1.1.1.1 p.1.1.1.2 p.1.1.2 p.1.2 p.2)
    (λ r,
       (o_c_id r, o_entry_d r, o_carrier_id r, o_ol_cnt r, o_all_local r))
    (seq_codec (seq_codec (seq_codec (seq_codec c_i32 c_u64) c_i32) c_f64) c_f64).

Definition c_order_wdc_key : codec order_wdc_key :=
  iso_codec
    (λ p, mk_order_wdc_key
       p.1.1.1 p.1.1.2 p.1.2 p.2)
    (λ r,
       (owdc_w_id r, owdc_d_id r, owdc_c_id r, owdc_id r))
    (seq_codec (seq_codec (seq_codec c_i32 c_i32) c_i32) c_i32).

Definition c_order_line_key : codec order_line_key :=
  iso_codec
    (λ p, mk_order_line_key
       p.1.1.1 p.1.1.2 p.1.2 p.2)
    (λ r,
       (ol_w_id r, ol_d_id r, ol_o_id r, ol_number r))
    (seq_codec (seq_codec (seq_codec c_i32 c_i32) c_i32) c_i32).

Definition c_order_line_t : codec order_line_t :=
  iso_codec
    (λ p, mk_order_line_t
       p.1.1.1.1.1 p.1.1.1.1.2 p.1.1.1.2 p.1.1.2 p.1.2 p.2)
    (λ r,
       (ol_i_id r, ol_supply_w_id r, ol_delivery_d r, ol_quantity r, ol_amount r,
       ol_dist_info r))
    (seq_codec (seq_codec (seq_codec (seq_codec (seq_codec c_i32 c_i32) c_u64) c_f64) c_f64)
    (c_varchar 24)).

Definition c_item_key : codec item_key := iso_codec mk_item_key i_id c_i32.

Definition c_item_t : codec item_t :=
  iso_codec
    (λ p, mk_item_t
       p.1.1.1 p.1.1.2 p.1.2 p.2)
    (λ r,
       (i_im_id r, i_name r, i_price r, i_data r))
    (seq_codec (seq_codec (seq_codec c_i32 (c_varchar 24)) c_f64) (c_varchar 50)).

Definition c_stock_key : codec stock_key :=
  iso_codec
    (λ p, mk_stock_key
       p.1 p.2)
    (λ r,
       (s_w_id r, s_i_id r))
    (seq_codec c_i32 c_i32).

Definition c_stock_t : codec stock_t :=
  iso_codec
    (λ p, mk_stock_t
       p.1.1.1.1.1.1.1.1.1.1.1.1.1.1 p.1.1.1.1.1.1.1.1.1.1.1.1.1.2
       p.1.1.1.1.1.1.1.1.1.1.1.1.2 p.1.1.1.1.1.1.1.1.1.1.1.2 p.1.1.1.1.1.1.1.1.1.1.2
       p.1.1.1.1.1.1.1.1.1.2 p.1.1.1.1.1.1.1.1.2 p.1.1.1.1.1.1.1.2 p.1.1.1.1.1.1.2
       p.1.1.1.1.1.2 p.1.1.1.1.2 p.1.1.1.2 p.1.1.2 p.1.2 p.2)
    (λ r,
       (s_quantity r, s_dist_01 r, s_dist_02 r, s_dist_03 r, s_dist_04 r, s_dist_05 r,
       s_dist_06 r, s_dist_07 r, s_dist_08 r, s_dist_09 r, s_dist_10 r, s_ytd r,
       s_order_cnt r, s_remote_cnt r, s_data r))
    (seq_codec (seq_codec (seq_codec (seq_codec (seq_codec (seq_codec (seq_codec (seq_codec
    (seq_codec (seq_codec (seq_codec (seq_codec (seq_codec (seq_codec c_f64 (c_varchar 24))
    (c_varchar 24)) (c_varchar 24)) (c_varchar 24)) (c_varchar 24)) (c_varchar 24))
    (c_varchar 24)) (c_varchar 24)) (c_varchar 24)) (c_varchar 24)) c_f64) c_f64) c_f64)
    (c_varchar 50)).

Definition c_NewOrder : codec NewOrder :=
  iso_codec
    (λ p, mk_NewOrder
       p.1.1.1.1.1.1.1.1 p.1.1.1.1.1.1.1.2 p.1.1.1.1.1.1.2 p.1.1.1.1.1.2 p.1.1.1.1.2
       p.1.1.1.2 p.1.1.2 p.1.2 p.2)
    (λ r,
       (warehouseId r, districtId r, customerId r, orderLineCount r, orderLineNumbers r,
       supplierWarehouse r, itemIds r, quantities r, timestamp r))
    (seq_codec (seq_codec (seq_codec (seq_codec (seq_codec (seq_codec (seq_codec (seq_codec
    c_i32 c_i32) c_i32) c_i32) (c_vec c_i32)) (c_vec c_i32)) (c_vec c_i32)) (c_vec c_i32))
    c_u64).

Definition c_Payment : codec Payment :=
  iso_codec
    (λ p, mk_Payment
       p.1.1.1.1.1.1.1.1.1 p.1.1.1.1.1.1.1.1.2 p.1.1.1.1.1.1.1.2 p.1.1.1.1.1.1.2
       p.1.1.1.1.1.2 p.1.1.1.1.2 p.1.1.1.2 p.1.1.2 p.1.2 p.2)
    (λ r,
       (p_warehouseId r, p_districtId r, customerWarehouseId r, customerDistrictId r,
       homeOrderTotalAmount r, homeOrderTotalDate r, p_timestamp r, isPaymentById r,
       customerLastName r, p_customerId r))
    (seq_codec (seq_codec (seq_codec (seq_codec (seq_codec (seq_codec (seq_codec (seq_codec
    (seq_codec c_i32 c_i32) c_i32) c_i32) c_f64) c_u64) c_u64) c_bool) (c_varchar 16)) c_i32).

End codecs.

End Tpcc.
