(* ===== verification/Tpcc.v ===== *)
(** * Tpcc: src/peer/chaincode/tpcc_chaincode.cpp

    The two TPC-C transactions the chaincode executes, as programs over the ORM. *)

From S2P Require Import Prelude Zpp Proto DB ORM TpccSchema.

Module TpccCC.
Import Tpcc.

(** client/tpcc/tpcc_helper.h *)
Definition WAREHOUSE : string := "w_".
Definition DISTRICT : string := "d_".
Definition CUSTOMER : string := "c_".
Definition CUSTOMER_WDL : string := "c-wdl_".
Definition HISTORY : string := "h_".
Definition NEW_ORDER : string := "n_".
Definition ORDER : string := "o_".
Definition ORDER_WDC : string := "o-wdc_".
Definition ORDER_LINE : string := "ol_".
Definition ITEM : string := "i_".
Definition STOCK : string := "s_".

Definition getValue {K V} (ck : codec K) (cv : codec V) (tablePrefix : string) (key : K)
    (k : V → prog bool) : prog bool :=
  Get (tablePrefix +:+ out ck key) (λ o,
    match o with
    | None => Ret false
    | Some raw => match read cv raw with None => Ret false | Some v => k v end
    end).

Definition insertIntoTable {K V} (ck : codec K) (cv : codec V) (tablePrefix : string)
    (key : K) (value : V) (p : prog bool) : prog bool :=
  Put (tablePrefix +:+ out ck key) (out cv value) p.

Section chaincode.
Context `{ZP : Zpp}.

(** ** New order *)

(** The switch on the district; any other id fails a [CHECK]. *)
Definition s_dist (d : Integer) (st : stock_t) : option (Varchar 24) :=
  match d with
  | 1 => Some (s_dist_01 st) | 2 => Some (s_dist_02 st) | 3 => Some (s_dist_03 st)
  | 4 => Some (s_dist_04 st) | 5 => Some (s_dist_05 st) | 6 => Some (s_dist_06 st)
  | 7 => Some (s_dist_07 st) | 8 => Some (s_dist_08 st) | 9 => Some (s_dist_09 st)
  | 10 => Some (s_dist_10 st)
  | _ => None
  end%Z.

(** The update of a stock row by an order line; [remote]: the supplier is
    another warehouse. *)
Definition update_stock (q : Integer) (remote : bool) (st : stock_t) : stock_t :=
  let quantity :=
    if dleb (dofZ (wrap32 (q + 10))) (s_quantity st) then dsub (s_quantity st) (dofZ q)
    else dadd (s_quantity st) (dofZ (wrap32 (91 - q))) in
  mk_stock_t quantity (s_dist_01 st) (s_dist_02 st) (s_dist_03 st) (s_dist_04 st)
    (s_dist_05 st) (s_dist_06 st) (s_dist_07 st) (s_dist_08 st) (s_dist_09 st)
    (s_dist_10 st) (dadd (s_ytd st) (dofZ q)) (dadd (s_order_cnt st) done1)
    (if remote then dadd (s_remote_cnt st) done1 else s_remote_cnt st) (s_data st).

Definition amount (q : Integer) (i_price w_tax d_tax c_discount : Numeric) : Numeric :=
  dmul (dmul (dmul (dofZ q) i_price) (dadd (dadd done1 w_tax) d_tax))
    (dsub done1 c_discount).

(** The last block of an order line: the ORDER-LINE row. *)
Definition insert_line (no : NewOrder) (ol_i_id ol_supply_w_id line_number q : Integer)
    (ol_amount : Numeric) (dist : Varchar 24) (k : prog bool) : prog bool :=
  insertIntoTable c_order_line_key c_order_line_t ORDER_LINE
    (mk_order_line_key (warehouseId no) (districtId no) (districtId no) line_number)
    (mk_order_line_t ol_i_id ol_supply_w_id 0 (dofZ q) ol_amount dist) k.

(** The body of the loop over the order lines; an index beyond one of the
    vectors is undefined behaviour. *)
Definition order_line (no : NewOrder) (w_tax d_tax c_discount : Numeric) (i : nat)
    (k : prog bool) : prog bool :=
  match itemIds no !! i, quantities no !! i, supplierWarehouse no !! i,
        orderLineNumbers no !! i with
  | Some ol_i_id, Some ol_quantity, Some ol_supply_w_id, Some line_number =>
      getValue c_item_key c_item_t ITEM (mk_item_key ol_i_id) (λ item,
      getValue c_stock_key c_stock_t STOCK (mk_stock_key ol_supply_w_id ol_i_id) (λ st,
      let remote := negb (ol_supply_w_id =? warehouseId no)%Z in
      let st' := update_stock ol_quantity remote st in
      insertIntoTable c_stock_key c_stock_t STOCK (mk_stock_key ol_supply_w_id ol_i_id) st'
      (let finish st2 :=
         match s_dist (districtId no) st2 with
         | None => Die
         | Some dist =>
             insert_line no ol_i_id ol_supply_w_id line_number ol_quantity
               (amount ol_quantity (i_price item) w_tax d_tax c_discount) dist k
         end in
       if remote
       then getValue c_stock_key c_stock_t STOCK (mk_stock_key (warehouseId no) ol_i_id) finish
       else finish st')))
  | _, _, _, _ => Die
  end.

(** [for (auto i = 0; i < orderLineCount; i++)]. *)
Fixpoint order_lines (no : NewOrder) (w_tax d_tax c_discount : Numeric) (i n : nat)
    : prog bool :=
  match n with
  | O => Ret true
  | S n =>
      order_line no w_tax d_tax c_discount i
        (order_lines no w_tax d_tax c_discount (S i) n)
  end.

(** The row with the next order id taken. *)
Definition next_order (d : district_t) : district_t :=
  mk_district_t (d_name d) (d_street_1 d) (d_street_2 d) (d_city d) (d_state d) (d_zip d)
    (d_tax d) (d_ytd d) (wrap32 (d_next_o_id d + 1)).

Definition all_local (no : NewOrder) : Numeric :=
  if forallb (λ sw, sw =? warehouseId no)%Z (supplierWarehouse no) then done1 else dzero.

Definition executeNewOrder (argSV : string) : prog bool :=
  match read c_NewOrder argSV with
  | None => Ret false
  | Some no =>
      let w := warehouseId no in
      let d := districtId no in
      getValue c_warehouse_key c_warehouse_t WAREHOUSE (mk_warehouse_key w) (λ wValue,
      getValue c_district_key c_district_t DISTRICT (mk_district_key w d) (λ dValue,
      let o_id := d_next_o_id dValue in
      insertIntoTable c_district_key c_district_t DISTRICT (mk_district_key w d)
        (next_order dValue)
      (getValue c_customer_key c_customer_t CUSTOMER
        (mk_customer_key w d (customerId no)) (λ cValue,
      insertIntoTable c_order_key c_order_t ORDER (mk_order_key w d o_id)
        (mk_order_t (customerId no) (timestamp no) 0 (dofZ (orderLineCount no)) (all_local no))
      (insertIntoTable c_order_wdc_key c_unit ORDER_WDC
        (mk_order_wdc_key w d (customerId no) o_id) ()
      (insertIntoTable c_new_order_key c_new_order_t NEW_ORDER
        (mk_new_order_key w d o_id) (mk_new_order_t 0)
      (order_lines no (w_tax wValue) (d_tax dValue) (c_discount cValue) 0
        (Z.to_nat (orderLineCount no)))))))))
  end.

(** ** Payment *)

Definition add_w_ytd (v : Numeric) (w : warehouse_t) : warehouse_t :=
  mk_warehouse_t (w_name w) (w_street_1 w) (w_street_2 w) (w_city w) (w_state w) (w_zip w)
    (w_tax w) (dadd (w_ytd w) v).

Definition add_d_ytd (v : Numeric) (d : district_t) : district_t :=
  mk_district_t (d_name d) (d_street_1 d) (d_street_2 d) (d_city d) (d_state d) (d_zip d)
    (d_tax d) (dadd (d_ytd d) v) (d_next_o_id d).

(** The balance update; [cd] is the new [c_data]. *)
Definition pay_customer (v : Numeric) (cd : Varchar 500) (c : customer_t) : customer_t :=
  mk_customer_t (c_first c) (c_middle c) (c_last c) (c_street_1 c) (c_street_2 c) (c_city c)
    (c_state c) (c_zip c) (c_phone c) (c_since c) (c_credit c) (c_credit_lim c)
    (c_discount c) (dsub (c_balance c) v) (dadd (c_ytd_payment c) v)
    (dadd (c_payment_cnt c) done1) (c_delivery_cnt c) cd.

(** [resize(n)] of a string: cut, or pad with zero bytes. *)
Definition resize (n : nat) (s : string) : string :=
  string_of (list.resize n 0%Z (bytes_of s)).

(** Bad credit: the first 500 bytes of the payment data become [c_data]. *)
Definition c_payment_data : codec (Z * Payment * Varchar 10 * Varchar 10 * Varchar 500) :=
  seq_codec (seq_codec (seq_codec (seq_codec c_i32 c_Payment) (c_varchar 10)) (c_varchar 10))
    (c_varchar 500).

Definition bad_credit (c : customer_t) : bool :=
  match char_at (c_credit c) 0, char_at (c_credit c) 1 with
  | Some a, Some b => (a =? 66)%Z && (b =? 67)%Z
  | _, _ => false
  end.

(** [h_new_data]. *)
Definition history_data (w : warehouse_t) (d : district_t) : string :=
  let s := toString (w_name w) +:+ ("    " +:+ toString (d_name d)) in
  if decide (24 < String.length s)%nat then resize 24 s else s.

(** The customer and history blocks, once the customer id is known.  [g24] is
    what the uninitialised tail of the history string happens to hold. *)
Definition pay (g24 : vec Z 24) (p : Payment) (wValue : warehouse_t) (dValue : district_t)
    (c_id : Integer) : prog bool :=
  let cKey := mk_customer_key (customerWarehouseId p) (customerDistrictId p) c_id in
  getValue c_customer_key c_customer_t CUSTOMER cKey (λ cValue,
  let cd := if bad_credit cValue
            then Varchar_of (vreplicate 500 0%Z)
                   (resize 500 (out c_payment_data
                      (c_id, p, w_name wValue, d_name dValue, c_data cValue)))
            else c_data cValue in
  insertIntoTable c_customer_key c_customer_t CUSTOMER cKey
    (pay_customer (homeOrderTotalAmount p) cd cValue)
  (insertIntoTable c_history_key c_history_t HISTORY
    (mk_history_key c_id (customerDistrictId p) (customerWarehouseId p) (p_districtId p)
       (p_warehouseId p) (p_timestamp p))
    (mk_history_t (homeOrderTotalAmount p) (Varchar_of g24 (history_data wValue dValue)))
    (Ret true))).

Definition executePayment (g24 : vec Z 24) (argSV : string) : prog bool :=
  match read c_Payment argSV with
  | None => Ret false
  | Some p =>
      let wKey := mk_warehouse_key (p_warehouseId p) in
      let dKey := mk_district_key (p_warehouseId p) (p_districtId p) in
      getValue c_warehouse_key c_warehouse_t WAREHOUSE wKey (λ wValue,
      insertIntoTable c_warehouse_key c_warehouse_t WAREHOUSE wKey
        (add_w_ytd (homeOrderTotalAmount p) wValue)
      (getValue c_district_key c_district_t DISTRICT dKey (λ dValue,
      insertIntoTable c_district_key c_district_t DISTRICT dKey
        (add_d_ytd (homeOrderTotalAmount p) dValue)
      (if isPaymentById p then pay g24 p wValue dValue (p_customerId p)
       else
         getValue c_customer_wdl_key c_customer_wdl_t CUSTOMER_WDL
           (mk_customer_wdl_key (customerWarehouseId p) (customerDistrictId p)
              (customerLastName p))
           (λ wdl, pay g24 p wValue dValue (wdl_c_id wdl))))))
  end.

Definition TPCC_InvokeChaincode (g24 : vec Z 24) : Chaincode := λ funcName argSV,
  if decide (funcName = "n"%string)
  then prog_bind (λ ok : bool, Ret (if ok then 0 else -1)%Z) (executeNewOrder argSV)
  else if decide (funcName = "p"%string)
  then prog_bind (λ ok : bool, Ret (if ok then 0 else -1)%Z) (executePayment g24 argSV)
  else Ret (-1)%Z.
End chaincode.

(** ** Lemmas *)

Section lemmas.
Context `{ZP : Zpp}.

Lemma getValue_inv {K V} (ck : codec K) (cv : codec V) prefix key k db o o' :
  run db (getValue ck cv prefix key k) o = Some (o', true) →
  ∃ v o1, visible db (prefix +:+ out ck key) ≫= read cv = Some v ∧
    orm_writes o1 = orm_writes o ∧ run db (k v) o1 = Some (o', true).
Proof.
  unfold getValue. simpl. unfold orm_get.
  destruct (visible db _) as [raw|]; simpl; [|by intros [=]].
  destruct (read cv raw) as [v|]; simpl; [|by intros [=]].
  intros H. eexists _, _. split; [done|]. by split; [|exact H].
Qed.

Lemma insert_inv {K V} (ck : codec K) (cv : codec V) prefix key v p db o o' :
  run db (insertIntoTable ck cv prefix key v p) o = Some (o', true) →
  ∃ o1, orm_writes o1 = orm_writes o ++ [mkKV (prefix +:+ out ck key) (out cv v)] ∧
    run db p o1 = Some (o', true) ∧ mkKV (prefix +:+ out ck key) (out cv v) ∈ orm_writes o'.
Proof.
  unfold insertIntoTable. simpl. intros H. eexists. split; [|split; [exact H|]]; [done|].
  eapply run_writes_elem; [exact H|]. simpl. set_solver.
Qed.

Definition line_key (no : NewOrder) (ln : Integer) : string :=
  ORDER_LINE +:+ out c_order_line_key
    (mk_order_line_key (warehouseId no) (districtId no) (districtId no) ln).

Lemma order_line_inv no wt dt cd i k db o o' :
  run db (order_line no wt dt cd i k) o = Some (o', true) →
  ∃ ln o1, orderLineNumbers no !! i = Some ln ∧ run db k o1 = Some (o', true) ∧
    line_key no ln ∈ kv_key <$> orm_writes o'.
Proof.
  unfold order_line, insert_line. destruct (itemIds no !! i) as [it|]; [|done].
  destruct (quantities no !! i) as [q|]; [|done].
  destruct (supplierWarehouse no !! i) as [sw|]; [|done].
  destruct (orderLineNumbers no !! i) as [ln|]; [|done].
  intros (item & o1 & _ & _ & H)%getValue_inv.
  apply getValue_inv in H as (st & o2 & _ & _ & H).
  apply insert_inv in H as (o3 & _ & H & _). exists ln.
  assert (∀ st2 o4, run db match s_dist (districtId no) st2 with
    | None => Die
    | Some dist => insertIntoTable c_order_line_key c_order_line_t ORDER_LINE
        (mk_order_line_key (warehouseId no) (districtId no) (districtId no) ln)
        (mk_order_line_t it sw 0 (dofZ q) (amount q (i_price item) wt dt cd) dist) k
    end o4 = Some (o', true) →
    ∃ o5, Some ln = Some ln ∧ run db k o5 = Some (o', true) ∧
      line_key no ln ∈ kv_key <$> orm_writes o') as Hfin.
  { intros st2 o4. destruct (s_dist (districtId no) st2); [|intros Hx; discriminate Hx].
    intros (o5 & _ & H1 & H2)%insert_inv. exists o5. split_and!; [done..|].
    by apply (list_elem_of_fmap_2 kv_key) in H2. }
  destruct (negb _); [apply getValue_inv in H as (st2 & o4 & _ & _ & H)|]; eauto.
Qed.

Lemma order_lines_inv no wt dt cd n i db o o' :
  run db (order_lines no wt dt cd i n) o = Some (o', true) →
  ∀ j, i ≤ j < i + n → ∃ ln, orderLineNumbers no !! j = Some ln ∧
    line_key no ln ∈ kv_key <$> orm_writes o'.
Proof.
  revert i o. induction n as [|n IH]; intros i o H j Hj; [lia|]. simpl in H.
  apply order_line_inv in H as (ln & o1 & Hl & H & Hk).
  destruct (decide (j = i)) as [->|]; [eauto|]. eapply IH; [exact H|lia].
Qed.

(** What a successful new-order transaction leaves in its write set. *)
Lemma new_order_writes db arg o :
  run db (executeNewOrder arg) newORM = Some (o, true) →
  ∃ no dv, read c_NewOrder arg = Some no ∧
    let w := warehouseId no in let d := districtId no in let oid := d_next_o_id dv in
    visible db (DISTRICT +:+ out c_district_key (mk_district_key w d)) ≫= read c_district_t
      = Some dv ∧
    mkKV (DISTRICT +:+ out c_district_key (mk_district_key w d))
      (out c_district_t (next_order dv)) ∈ orm_writes o ∧
    mkKV (ORDER +:+ out c_order_key (mk_order_key w d oid))
      (out c_order_t (mk_order_t (customerId no) (timestamp no) 0 (dofZ (orderLineCount no))
                        (all_local no))) ∈ orm_writes o ∧
    mkKV (ORDER_WDC +:+ out c_order_wdc_key (mk_order_wdc_key w d (customerId no) oid))
      EmptyString ∈ orm_writes o ∧
    mkKV (NEW_ORDER +:+ out c_new_order_key (mk_new_order_key w d oid))
      (out c_new_order_t (mk_new_order_t 0)) ∈ orm_writes o ∧
    ∀ j, j < Z.to_nat (orderLineCount no) → ∃ ln, orderLineNumbers no !! j = Some ln ∧
      line_key no ln ∈ kv_key <$> orm_writes o.
Proof.
  unfold executeNewOrder. destruct (read c_NewOrder arg) as [no|]; [|by intros [=]].
  intros (wv & o1 & _ & _ & H)%getValue_inv.
  apply getValue_inv in H as (dv & o2 & Hd & _ & H).
  apply insert_inv in H as (o3 & _ & H & H1). apply getValue_inv in H as (cv & o4 & _ & _ & H).
  apply insert_inv in H as (o5 & _ & H & H2). apply insert_inv in H as (o6 & _ & H & H3).
  apply insert_inv in H as (o7 & _ & H & H4).
  exists no, dv. split_and!; try done.
  intros j Hj. eapply order_lines_inv; [exact H|lia].
Qed.
End lemmas.

Section theorems.
Context `{ZP : Zpp}.








(** ** What a new order has to do *)











(** Order lines of different orders share their row.  Any two successful
    new orders of one district that both have a line [ln] write the same
    ORDER-LINE key, whatever their order ids: the key carries the district id
    where the order id belongs. *)
Theorem order_lines_collide db1 arg1 o1 no1 db2 arg2 o2 no2 i j ln :
  run db1 (executeNewOrder arg1) newORM = Some (o1, true) → read c_NewOrder arg1 = Some no1 →
  run db2 (executeNewOrder arg2) newORM = Some (o2, true) → read c_NewOrder arg2 = Some no2 →
  warehouseId no1 = warehouseId no2 → districtId no1 = districtId no2 →
  i < Z.to_nat (orderLineCount no1) → orderLineNumbers no1 !! i = Some ln →
  j < Z.to_nat (orderLineCount no2) → orderLineNumbers no2 !! j = Some ln →
  ∃ k, k ∈ kv_key <$> orm_writes o1 ∧ k ∈ kv_key <$> orm_writes o2 ∧
    k = ORDER_LINE +:+ out c_order_line_key
          (mk_order_line_key (warehouseId no1) (districtId no1) (districtId no1) ln).
Proof.
  intros R1 N1 R2 N2 Ew Ed Hi Hln Hj Hln'.
  apply new_order_writes in R1 as (no & dv & E1 & _ & _ & _ & _ & _ & H1).
  apply new_order_writes in R2 as (no' & dv' & E2 & _ & _ & _ & _ & _ & H2).
  assert (no = no1) as -> by congruence. assert (no' = no2) as -> by congruence.
  destruct (H1 i Hi) as (l1 & L1 & K1), (H2 j Hj) as (l2 & L2 & K2).
  assert (l1 = ln) as -> by congruence. assert (l2 = ln) as -> by congruence.
  exists (line_key no1 ln). split; [done|]. split; [|done].
  unfold line_key in *. by rewrite Ew, Ed.
Qed.

(** Only the ORDER-WDC rows have that prefix, and they are empty. *)
Lemma new_order_puts arg k :
  puts (λ kv, kv_key kv = ORDER_WDC +:+ k → kv_value kv = EmptyString) (executeNewOrder arg).
Proof.
  unfold executeNewOrder. destruct (read c_NewOrder arg) as [no|]; [|done].
  assert (∀ wt dt cd n i, puts (λ kv, kv_key kv = ORDER_WDC +:+ k → kv_value kv = EmptyString)
    (order_lines no wt dt cd i n)) as Hl.
  { intros wt dt cd n. induction n as [|n IH]; intros i; [done|].
    simpl. unfold order_line, insert_line, getValue, insertIntoTable.
    repeat first [ done | progress simpl | case_match | split | intros ? | apply IH ]. }
  unfold getValue, insertIntoTable.
  repeat first [ done | progress simpl | case_match | split | intros ? | apply Hl ].
Qed.

(** The ORDER-WDC index is never stored.  Its row type is an empty struct,
    so the value written is the empty string, which the database treats as a
    deletion: after a successful new order commits, its ORDER-WDC row is
    missing. *)
Theorem order_wdc_not_stored db arg o :
  run db (executeNewOrder arg) newORM = Some (o, true) →
  ∃ no dv, read c_NewOrder arg = Some no ∧
    let key := ORDER_WDC +:+ out c_order_wdc_key
      (mk_order_wdc_key (warehouseId no) (districtId no) (customerId no) (d_next_o_id dv)) in
    mkKV key EmptyString ∈ orm_writes o ∧ visible (applyWrites (orm_writes o) db) key = None.
Proof.
  intros H. pose proof H as (no & dv & E & _ & _ & _ & Hw & _)%new_order_writes.
  exists no, dv. split; [done|]. split; [done|].
  eapply visible_deleted; [exact Hw|done|].
  eapply run_puts; [apply new_order_puts| |exact H]. constructor.
Qed.
End theorems.

(** ** A concrete district *)

#[local] Existing Instance LE.zpp.
#[local] Existing Instance LE.zpp_laws.

Definition vc (n : nat) : Varchar n := mkVarchar 0 (vreplicate n 0%Z).
Definition vcs (n : nat) (s : string) : Varchar n := Varchar_of (vreplicate n 0%Z) s.

Definition t_warehouse : warehouse_t :=
  mk_warehouse_t (vcs 10 "w") (vc 20) (vc 20) (vc 20) (vc 2) (vc 9) dzero dzero.
Definition t_district : district_t :=
  mk_district_t (vcs 10 "d") (vc 20) (vc 20) (vc 20) (vc 2) (vc 9) dzero dzero 3001.
Definition t_customer : customer_t :=
  mk_customer_t (vc 16) (vc 2) (vc 16) (vc 20) (vc 20) (vc 20) (vc 2) (vc 9) (vc 16) 0
    (vcs 2 "GC") dzero dzero dzero dzero dzero dzero (vc 500).
Definition t_item : item_t := mk_item_t 1 (vc 24) done1 (vc 50).
Definition t_stock : stock_t :=
  mk_stock_t (dofZ 50) (vc 24) (vc 24) (vc 24) (vc 24) (vc 24) (vc 24) (vc 24) (vc 24) (vc 24)
    (vc 24) dzero dzero dzero (vc 50).

Definition t_db : database :=
  <[WAREHOUSE +:+ out c_warehouse_key (mk_warehouse_key 1) := out c_warehouse_t t_warehouse]>
  (<[DISTRICT +:+ out c_district_key (mk_district_key 1 2) := out c_district_t t_district]>
  (<[CUSTOMER +:+ out c_customer_key (mk_customer_key 1 2 7) := out c_customer_t t_customer]>
  (<[ITEM +:+ out c_item_key (mk_item_key 5) := out c_item_t t_item]>
  (<[STOCK +:+ out c_stock_key (mk_stock_key 1 5) := out c_stock_t t_stock]> ∅)))).

Definition t_order : string := out c_NewOrder (mk_NewOrder 1 2 7 1 [1] [1] [5] [3] 99)%Z.
Definition t_run : option (ORM * bool) := run t_db (executeNewOrder t_order) newORM.
Definition t_orm : ORM := default newORM (fst <$> t_run).

Lemma t_run_ok : run t_db (executeNewOrder t_order) newORM = Some (t_orm, true).
Proof. by vm_compute. Qed.


Lemma order_lines_collide_witness :
  ∃ k, k ∈ kv_key <$> orm_writes t_orm ∧
    k = ORDER_LINE +:+ out c_order_line_key (mk_order_line_key 1 2 2 1).
Proof.
  destruct (order_lines_collide t_db t_order t_orm (mk_NewOrder 1 2 7 1 [1] [1] [5] [3] 99)%Z
    t_db t_order t_orm (mk_NewOrder 1 2 7 1 [1] [1] [5] [3] 99)%Z 0 0 1%Z) as (k & H1 & _ & H2);
    [exact t_run_ok|by vm_compute|exact t_run_ok|by vm_compute|done|done|simpl; lia|done|simpl; lia
    |done|].
  exists k. exact (conj H1 H2).
Defined.

Lemma order_wdc_not_stored_witness :
  ∃ no dv, read c_NewOrder t_order = Some no ∧
    visible (applyWrites (orm_writes t_orm) t_db) (ORDER_WDC +:+ out c_order_wdc_key
      (mk_order_wdc_key (warehouseId no) (districtId no) (customerId no) (d_next_o_id dv))) = None.
Proof.
  destruct (order_wdc_not_stored t_db t_order t_orm t_run_ok) as (no & dv & H1 & _ & H2).
  exists no, dv. exact (conj H1 H2).
Defined.

Definition t_payment : string :=
  out c_Payment (mk_Payment 1 2 1 2 done1 0 5 true (vc 16) 7).

(** A payment is not a function of its input.  The bytes of the history
    string behind its characters are whatever memory held, and the whole array
    is serialized: on one database, one request, two contents of uninitialised
    memory give different write sets, so replicas diverge. *)
Theorem payment_writes_garbage :
  ∃ o1 o2, run t_db (executePayment (vreplicate 24 0%Z) t_payment) newORM = Some (o1, true) ∧
    run t_db (executePayment (vreplicate 24 1%Z) t_payment) newORM = Some (o2, true) ∧
    kv_key <$> orm_writes o1 = kv_key <$> orm_writes o2 ∧ orm_writes o1 ≠ orm_writes o2.
Proof.
  set (r g := default newORM (fst <$> run t_db (executePayment g t_payment) newORM)).
  exists (r (vreplicate 24 0%Z)), (r (vreplicate 24 1%Z)). split_and!; [by vm_compute..|].
  intros E%(f_equal (fmap kv_value)). vm_compute in E. discriminate.
Qed.
End TpccCC.
