(* ===== verification/Crdt.v ===== *)
(** * Crdt: the commutative chaincodes and their engine

    include/peer/chaincode/crdt/ (crdt_orm.h, crdt_vote_chaincode.h),
    src/peer/chaincode/crdt_chaincode.cpp, and the engine
    my_cc/crdt/worker_fsm_impl.h, coordinator_impl.h (with crdt/crdt_worker_fsm.h
    and crdt/crdt_coordinator.h, of which it is a copy).  A CRDT chaincode writes
    the database while it executes, under a lock per key, so one invocation is
    one atomic action. *)

From S2P Require Import Prelude Zpp Proto DB ORM Coordinator Deterministic DeterministicProofs.


(** ** DBShim and CrdtORM *)

(** [DBShim::get] under the shared lock. *)
Definition shim_get (db : database) (key : string) : option string :=
  match db_get key db with
  | Some v => if decide (v = EmptyString) then None else Some v
  | None => None
  end.

(** [DBShim::put] under the unique lock: the callback sees the current value, or
    the empty string, and gives the new one. *)
Definition shim_put (db : database) (key : string) (callback : string → option string)
    : database * bool :=
  match callback (default EmptyString (db_get key db)) with
  | None => (db, false)
  | Some v => (syncPut key v db, true)
  end.

Definition VOTING_CHAINCODE_NAME : string := "vote".
Definition VOTING_VOTE : string := "vote".
Definition VOTING_GET : string := "get".

Section vote.
Context `{ZP : Zpp}.

(** ** VoteChaincode *)

(** The callback of [Vote]; [oldCount + count] is an [int]. *)
Definition vote_callback (count : Z) (rawValue : string) : option string :=
  match read c_i32 rawValue with
  | None => None
  | Some oldCount => Some (out c_i32 (wrap32 (oldCount + count)))
  end.

Definition Vote (db : database) (candidate : string) (count : Z) : database * Z :=
  let '(db', ok) := shim_put db candidate (vote_callback count) in
  (db', if ok then 0%Z else (-1)%Z).

(** [Get]: the result string and the return code. *)
Definition Get_votes (db : database) (candidate : string) : string * Z :=
  match shim_get db candidate with
  | Some v => (v, 0%Z)
  | None => (EmptyString, (-1)%Z)
  end.

(** A parsed invocation. *)
Inductive call := CGet (candidate : string) | CVote (candidate : string) (count : Z) | CBad.

Definition parse_call (funcName argSV : string) : call :=
  if decide (funcName = VOTING_GET) then CGet argSV
  else if decide (funcName = VOTING_VOTE) then
    match read (seq_codec c_sv c_i32) argSV with
    | None => CBad
    | Some (key, count) => CVote key count
    end
  else CBad.

(** [VoteChaincode::InvokeChaincode]: database, result string, return code. *)
Definition Vote_InvokeChaincode (db : database) (funcName argSV : string)
    : database * string * Z :=
  match parse_call funcName argSV with
  | CGet candidate => let '(r, ret) := Get_votes db candidate in (db, r, ret)
  | CVote candidate count => let '(db', ret) := Vote db candidate count in (db', EmptyString, ret)
  | CBad => (db, EmptyString, (-1)%Z)
  end.

(** ** crdtFSM *)

Definition isCrdtChainCode (ccName : string) : bool := bool_decide (VOTING_CHAINCODE_NAME = ccName).

(** The loop body of [OnExecuteTransaction]; an unknown chaincode fails a
    [CHECK]. *)
Definition crdt_txn (db : database) (t : Transaction) : option (database * Transaction) :=
  if isCrdtChainCode (ccName (userRequest t)) then
    let '(db', res, ret) :=
      Vote_InvokeChaincode db (funcName (userRequest t)) (args (userRequest t)) in
    let t1 := setRetValue res t in
    Some (db', if negb (ret =? 0)%Z then setExecutionResult ABORT_NO_RETRY t1
               else setExecutionResult COMMIT t1)
  else None.

Fixpoint crdt_OnExecuteTransaction (db : database) (l : list Transaction)
    : option (database * list Transaction) :=
  match l with
  | [] => Some (db, [])
  | t :: l =>
      match crdt_txn db t with
      | None => None
      | Some (db1, t1) =>
          match crdt_OnExecuteTransaction db1 l with
          | None => None
          | Some (db2, l2) => Some (db2, t1 :: l2)
          end
      end
  end.

(** ** CrdtCoordinator, one worker after the other *)

Fixpoint crdt_exec_slices (db : database) (slices : list (list Transaction))
    : option (database * list (list Transaction)) :=
  match slices with
  | [] => Some (db, [])
  | s :: slices =>
      match crdt_OnExecuteTransaction db s with
      | None => None
      | Some (db1, s1) =>
          match crdt_exec_slices db1 slices with
          | None => None
          | Some (db2, slices2) => Some (db2, s1 :: slices2)
          end
      end
  end.

Definition crdt_processTransactions (n : nat) (db : database) (txns : list Transaction)
    : option (bool * database * list Transaction) :=
  match crdt_exec_slices db (scatter n txns) with
  | None => None
  | Some (db', slices) => Some (true, db', gather n slices txns)
  end.

(** ** Under an arbitrary schedule *)

(** One transaction of the batch at its index: the database and the finished
    transactions; [None] when the process died. *)
Definition crdt_state : Type := option (database * gmap nat Transaction).

Definition crdt_exec (s : crdt_state) (a : nat * Transaction) : crdt_state :=
  match s with
  | None => None
  | Some (db, m) =>
      match crdt_txn db a.2 with
      | None => None
      | Some (db', t') => Some (db', <[a.1 := t']> m)
      end
  end.

Definition crdt_scheduled_run (n : nat) (db : database) (txns : list Transaction)
    (s : crdt_state) : Prop :=
  par_run crdt_exec (scatter n (imap pair txns)) (Some (db, ∅)) s.
End vote.

(** ** Votes commute *)

Section commute.
Context `{ZP : Zpp} `{!ZppLaws ZP}.

Definition count_of (db : database) (k : string) : option Z := db !! k ≫= read c_i32.

(** The effect of a call on the database, and whether it succeeds. *)
Definition eff (db : database) (c : call) : database :=
  match c with
  | CVote k n =>
      match count_of db k with
      | Some x => <[k := out c_i32 (wrap32 (x + n))]> db
      | None => db
      end
  | _ => db
  end.

Definition succeeds (db : database) (c : call) : bool :=
  match c with
  | CGet k => bool_decide (is_Some (shim_get db k))
  | CVote k _ => bool_decide (is_Some (count_of db k))
  | CBad => false
  end.

Lemma read_i32_nonempty : read c_i32 EmptyString = None.
Proof. unfold read. rewrite i32_short; [done|simpl; lia]. Qed.

Lemma invoke_eff db f a :
  let '(db', _, ret) := Vote_InvokeChaincode db f a in
  db' = eff db (parse_call f a) ∧ (ret =? 0)%Z = succeeds db (parse_call f a).
Proof.
  unfold Vote_InvokeChaincode. destruct (parse_call f a) as [k|k n|]; simpl; [| |done].
  - unfold Get_votes. by destruct (shim_get db k).
  - unfold Vote, shim_put, vote_callback, count_of, db_get, syncPut.
    destruct (db !! k) as [v|]; simpl; [by destruct (read c_i32 v)|].
    by rewrite read_i32_nonempty.
Qed.

Lemma count_eff db c k :
  count_of (eff db c) k =
  match c with
  | CVote k' n => if decide (k' = k) then (λ x, wrap32 (x + n)) <$> count_of db k
                  else count_of db k
  | _ => count_of db k
  end.
Proof.
  destruct c as [k'|k' n|]; simpl; [done| |done].
  destruct (count_of db k') as [x|] eqn:E.
  - unfold count_of at 1. case_decide as Hk; [subst|by rewrite lookup_insert_ne].
    rewrite lookup_insert_eq, E. simpl.
    apply (read_out in_int32); [apply i32_law|apply wrap32_range].
  - case_decide; [subst; by rewrite E|done].
Qed.

Lemma i32_nonempty z : in_int32 z → out c_i32 z ≠ EmptyString.
Proof.
  intros Hz E. pose proof (read_out in_int32 c_i32 z i32_law Hz) as H.
  by rewrite E, read_i32_nonempty in H.
Qed.

(** A readable counter is a visible value. *)
Lemma count_visible db k : is_Some (count_of db k) → is_Some (shim_get db k).
Proof.
  unfold count_of, shim_get, db_get. intros [x Hx]. destruct (db !! k) as [v|]; [|done].
  simpl in Hx. case_decide; [|eauto]. subst. by rewrite read_i32_nonempty in Hx.
Qed.

Lemma shim_eff db c k : is_Some (shim_get (eff db c) k) ↔ is_Some (shim_get db k).
Proof.
  destruct c as [k'|k' n|]; simpl; [done| |done].
  destruct (count_of db k') as [x|] eqn:E; [|done].
  destruct (decide (k' = k)) as [->|Hne].
  - split; intros _; [apply count_visible; by rewrite E|]. unfold shim_get, db_get.
    rewrite lookup_insert_eq. rewrite decide_False; [by eexists|].
    apply i32_nonempty, wrap32_range.
  - unfold shim_get, db_get. by rewrite lookup_insert_ne.
Qed.

Lemma succeeds_eff db a b : succeeds (eff db a) b = succeeds db b.
Proof.
  destruct b as [k|k n|]; simpl; [| |done].
  - apply bool_decide_ext, shim_eff.
  - apply bool_decide_ext. rewrite count_eff. destruct a as [|k' m|]; [done| |done].
    case_decide; [|done]. by rewrite fmap_is_Some.
Qed.

Lemma eff_vote db k n :
  eff db (CVote k n) =
  match count_of db k with Some x => <[k := out c_i32 (wrap32 (x + n))]> db | None => db end.
Proof. done. Qed.

Lemma eff_comm db a b : eff (eff db a) b = eff (eff db b) a.
Proof.
  destruct a as [|k m|], b as [|k' n|]; try done.
  rewrite (eff_vote (eff db (CVote k m))), (eff_vote (eff db (CVote k' n))), !count_eff.
  destruct (decide (k = k')) as [->|Hne].
  - rewrite decide_True by done. rewrite !eff_vote.
    destruct (count_of db k') as [x|]; [|done]. simpl.
    rewrite !insert_insert_eq. by rewrite wrap32_add_comm.
  - rewrite decide_False by done. rewrite !eff_vote.
    destruct (count_of db k) as [x|], (count_of db k') as [y|]; try done.
    by apply insert_insert_ne.
Qed.

(** ** Schedules *)

(** Forget the returned strings: which transactions committed. *)
Definition outcome_state : Type := option (database * gmap nat bool).

Definition forget (s : crdt_state) : outcome_state :=
  match s with
  | None => None
  | Some (db, m) => Some (db, hasResult COMMIT <$> m)
  end.

Definition exec_outcome (s : outcome_state) (a : nat * Transaction) : outcome_state :=
  match s with
  | None => None
  | Some (db, m) =>
      if isCrdtChainCode (ccName (userRequest a.2)) then
        let c := parse_call (funcName (userRequest a.2)) (args (userRequest a.2)) in
        Some (eff db c, <[a.1 := succeeds db c]> m)
      else None
  end.

Lemma forget_exec s a : forget (crdt_exec s a) = exec_outcome (forget s) a.
Proof.
  destruct s as [[db m]|]; [|done]. simpl. unfold crdt_txn.
  destruct (isCrdtChainCode _); [|done].
  pose proof (invoke_eff db (funcName (userRequest a.2)) (args (userRequest a.2))) as H.
  destruct (Vote_InvokeChaincode db _ _) as [[db' r] ret]. destruct H as [-> H].
  simpl. rewrite fmap_insert, H. do 3 f_equal.
  destruct (succeeds db _); simpl; by rewrite hasResult_set.
Qed.

Lemma forget_fold l s : forget (fold_left crdt_exec l s) = fold_left exec_outcome l (forget s).
Proof.
  revert s. induction l as [|a l IH]; intros s; [done|]. simpl. by rewrite IH, forget_exec.
Qed.

Lemma exec_outcome_comm s a b :
  a.1 ≠ b.1 → exec_outcome (exec_outcome s a) b = exec_outcome (exec_outcome s b) a.
Proof.
  intros Hne. destruct s as [[db m]|]; [|done]. simpl.
  destruct (isCrdtChainCode (ccName (userRequest a.2))) eqn:Ea,
    (isCrdtChainCode (ccName (userRequest b.2))) eqn:Eb; simpl; rewrite ?Ea, ?Eb; try done.
  rewrite !succeeds_eff, eff_comm. by rewrite insert_insert_ne.
Qed.
End commute.

Lemma imap_pair_fst {A} (l : list A) : (imap pair l).*1 = seq 0 (length l).
Proof.
  apply list_eq. intros i. rewrite list_lookup_fmap, list_lookup_imap.
  destruct (decide (i < length l)) as [Hi|Hi].
  - rewrite lookup_seq_lt by done. destruct (lookup_lt_is_Some_2 l i Hi) as [x ->]. done.
  - rewrite (lookup_ge_None_2 l), (lookup_ge_None_2 (seq _ _)); rewrite ?length_seq; (done || lia).
Qed.

Lemma imap_pair_snd {A} (l : list A) : (imap pair l).*2 = l.
Proof.
  apply list_eq. intros i. rewrite list_lookup_fmap, list_lookup_imap. by destruct (l !! i).
Qed.

Section determinism.
Context `{ZP : Zpp} `{!ZppLaws ZP}.

Lemma crdt_scheduled_outcome n db txns s :
  0 < n → crdt_scheduled_run n db txns s →
  forget s = fold_left exec_outcome (imap pair txns) (Some (db, ∅)).
Proof.
  intros Hn (l & Hp & ->)%par_run_fold. rewrite forget_fold.
  replace (forget (Some (db, ∅))) with (Some (db, ∅) : outcome_state)
    by (simpl; by rewrite fmap_empty).
  assert (l ≡ₚ imap pair txns) as Hl by (by rewrite <-Hp, scatter_perm).
  assert (NoDup ((imap pair txns).*1)) as Hnd by (rewrite imap_pair_fst; apply NoDup_seq).
  symmetry. apply fold_left_perm_distinct; [by eapply NoDup_fmap_1| |by symmetry].
  intros a b s' Ha Hb Hne. apply exec_outcome_comm. intros E. apply Hne.
  by apply (NoDup_fmap_ne fst (imap pair txns)).
Qed.

(** the CRDT engine is deterministic up to the returned strings.  Whatever
    the numbers of workers and the interleavings, two complete runs of a batch
    end with the same database and with the same transactions committed. *)
Theorem crdt_schedule_deterministic n1 n2 db txns s1 s2 :
  0 < n1 → 0 < n2 →
  crdt_scheduled_run n1 db txns s1 → crdt_scheduled_run n2 db txns s2 →
  forget s1 = forget s2.
Proof.
  intros H1 H2 R1 R2. by rewrite (crdt_scheduled_outcome _ _ _ _ H1 R1),
    (crdt_scheduled_outcome _ _ _ _ H2 R2).
Qed.

(** ** Vote counts *)

Definition call_of (t : Transaction) : call :=
  parse_call (funcName (userRequest t)) (args (userRequest t)).

(** The votes a batch casts for a candidate. *)
Definition votes (k : string) (txns : list Transaction) : Z :=
  foldr (λ t acc, match call_of t with
                  | CVote k' n => if decide (k' = k) then n + acc else acc
                  | _ => acc
                  end)%Z 0%Z txns.

Lemma exec_outcome_dead l : fold_left exec_outcome l None = None.
Proof. by induction l. Qed.

Lemma exec_outcome_counts k l db m db' m' x :
  fold_left exec_outcome l (Some (db, m)) = Some (db', m') →
  count_of db k = Some x → in_int32 x →
  count_of db' k = Some (wrap32 (x + votes k (l.*2))).
Proof.
  revert db m x. induction l as [|a l IH]; intros db m x H Hc Hx; csimpl in *.
  - simplify_eq. by rewrite Z.add_0_r, wrap32_id.
  - destruct (isCrdtChainCode _).
    2: { by rewrite exec_outcome_dead in H. }
    fold (call_of a.2) in H. destruct (call_of a.2) as [k'|k' n|] eqn:Ec.
    + eapply IH; [exact H|done|done].
    + eapply IH in H; [| |apply wrap32_range].
      * rewrite H. f_equal. instantiate (1 := if decide (k' = k) then (x + n)%Z else x).
        case_decide; rewrite wrap32_add_wrap; f_equal; lia.
      * rewrite count_eff, Hc. case_decide; [done|]. by rewrite wrap32_id.
    + eapply IH; [exact H|done|done].
Qed.

(** Every vote counts exactly once.  After any complete run, the counter
    of a candidate is its old value plus the sum of the votes cast for it in
    the batch, as a 32-bit integer. *)
Theorem crdt_vote_counts n db txns db' m k x :
  0 < n → crdt_scheduled_run n db txns (Some (db', m)) →
  count_of db k = Some x → in_int32 x →
  count_of db' k = Some (wrap32 (x + votes k txns)).
Proof.
  intros Hn Hr Hc Hx. apply crdt_scheduled_outcome in Hr; [|done]. simpl in Hr. symmetry in Hr.
  pose proof (exec_outcome_counts k _ _ _ _ _ x Hr Hc Hx) as H. by rewrite imap_pair_snd in H.
Qed.
End determinism.

(** ** Concrete votes *)

#[local] Existing Instance LE.zpp.
#[local] Existing Instance LE.zpp_laws.

Definition vote_txn (n : Z) (func arg : string) : Transaction :=
  mkTxn (vreplicate 64 n)
    (mkEnvelop EmptyString (mkSignature EmptyString (vreplicate 64 n)))
    (mkUserRequest VOTING_CHAINCODE_NAME func arg n) (newRWSet (vreplicate 64 n)).

Definition vote_db : database := <["a"%string := out c_i32 5%Z]> ∅.
Definition vote_batch : list Transaction :=
  [ vote_txn 1 VOTING_VOTE (out (seq_codec c_sv c_i32) ("a"%string, 3%Z));
    vote_txn 2 VOTING_GET "a" ].

Definition vote_first : crdt_state :=
  fold_left crdt_exec (imap pair vote_batch) (Some (vote_db, ∅)).
Definition get_first : crdt_state :=
  fold_left crdt_exec (reverse (imap pair vote_batch)) (Some (vote_db, ∅)).

Lemma run_vote_first : crdt_scheduled_run 2 vote_db vote_batch vote_first.
Proof. apply (par_run_seq crdt_exec (scatter 2 (imap pair vote_batch))). Qed.

Lemma run_get_first : crdt_scheduled_run 2 vote_db vote_batch get_first.
Proof.
  eexists. split.
  - eapply rtc_l; [apply (par_step_intro crdt_exec _ _ 1); reflexivity|].
    eapply rtc_l; [apply (par_step_intro crdt_exec _ _ 0); reflexivity|]. reflexivity.
  - by repeat constructor.
Qed.

Lemma crdt_schedule_deterministic_witness : forget vote_first = forget get_first.
Proof.
  apply (crdt_schedule_deterministic 2 2 vote_db vote_batch);
    [lia|lia|apply run_vote_first|apply run_get_first].
Defined.

Lemma crdt_vote_counts_witness :
  ∃ db' m, vote_first = Some (db', m) ∧ count_of db' "a" = Some 8%Z.
Proof.
  pose proof run_vote_first as Hr.
  destruct vote_first as [[db' m]|] eqn:E; [|by vm_compute in E].
  exists db', m. split; [done|].
  rewrite (crdt_vote_counts 2 vote_db vote_batch db' m "a" 5); [by vm_compute|lia|done|by vm_compute|].
  split; lia.
Defined.

(** The string a CRDT transaction returns does depend on the schedule: with
    a vote and a get for the same candidate in one batch, two schedules leave
    different return values in the read-write set of the get. *)
Theorem crdt_get_depends_on_schedule :
  ∃ db1 m1 db2 m2, crdt_scheduled_run 2 vote_db vote_batch (Some (db1, m1)) ∧
    crdt_scheduled_run 2 vote_db vote_batch (Some (db2, m2)) ∧
    (retValue ∘ executionResult <$> m1 !! 1) = Some (out c_i32 8%Z) ∧
    (retValue ∘ executionResult <$> m2 !! 1) = Some (out c_i32 5%Z).
Proof.
  pose proof run_vote_first as H1. pose proof run_get_first as H2.
  set (s1 := default (∅, ∅) vote_first). set (s2 := default (∅, ∅) get_first).
  exists s1.1, s1.2, s2.1, s2.2. split_and!; [exact H1|exact H2|by vm_compute..].
Qed.
