(* ===== verification/Mix.v ===== *)
(** * Mix: the mixed coordinator

    my_cc/mix/coordinator_impl.h: the requests of a block are classified by
    chaincode; the CRDT transactions run first, then the deterministic engine
    runs the others on the resulting database; the results go back to the places
    of their requests. *)

From S2P Require Import Prelude Zpp Proto DB ORM Samples Coordinator Deterministic DeterministicProofs Crdt.

Section mix.
Context `{ZP : Zpp} (chaincodes : string → option Chaincode).

(** The classification loop: the two lists and the flags. *)
Fixpoint classify (txns : list Transaction)
    : list Transaction * list Transaction * list bool :=
  match txns with
  | [] => ([], [], [])
  | t :: txns =>
      let '(c, d, flags) := classify txns in
      if isCrdtChainCode (ccName (userRequest t)) then (t :: c, d, true :: flags)
      else (c, t :: d, false :: flags)
  end.

(** The loop that moves the results back; running off the end of a list is
    undefined behaviour. *)
Fixpoint merge (flags : list bool) (c d : list Transaction) : option (list Transaction) :=
  match flags with
  | [] => Some []
  | true :: flags =>
      match c with
      | t :: c => match merge flags c d with Some l => Some (t :: l) | None => None end
      | [] => None
      end
  | false :: flags =>
      match d with
      | t :: d => match merge flags c d with Some l => Some (t :: l) | None => None end
      | [] => None
      end
  end.

(** The two engines, then the merge. *)
Definition mix_transactions (n : nat) (db : database) (txns : list Transaction)
    : option (bool * database * list Transaction) :=
  let '(c, d, flags) := classify txns in
  match crdt_processTransactions n db c with
  | None => None
  | Some (false, db1, _) => Some (false, db1, txns)
  | Some (true, db1, c') =>
      match processTransactions chaincodes n db1 d with
      | None => None
      | Some (false, db2, _) => Some (false, db2, txns)
      | Some (true, db2, d') =>
          match merge flags c' d' with
          | None => None
          | Some txns' => Some (true, db2, txns')
          end
      end
  end.

(** [MixCoordinator::processValidatedRequests]. *)
Definition mix_processValidatedRequests (enableMix : bool) (n : nat) (db : database)
    (requests : list Envelop)
    : option (bool * database * list (Envelop * TxReadWriteSet * bool)) :=
  if negb enableMix then processValidatedRequests chaincodes n db requests
  else
    match mapM NewTransactionFromEnvelop requests with
    | None => None
    | Some txns =>
        match mix_transactions n db txns with
        | None => None
        | Some (ok, db', txns') => Some (ok, db', finish_txn <$> txns')
        end
    end.
End mix.

(** ** Lemmas *)

Section lemmas.
Context `{ZP : Zpp}.

Definition is_crdt (t : Transaction) : bool := isCrdtChainCode (ccName (userRequest t)).

Lemma classify_spec txns :
  classify txns =
  (List.filter is_crdt txns, List.filter (λ t, negb (is_crdt t)) txns, is_crdt <$> txns).
Proof.
  induction txns as [|t txns IH]; [done|]. csimpl. rewrite IH.
  change (isCrdtChainCode (ccName (userRequest t))) with (is_crdt t).
  by destruct (is_crdt t).
Qed.

Lemma crdt_txn_total db t :
  is_crdt t = true → ∃ db' t', crdt_txn db t = Some (db', t') ∧ txn_id t' = txn_id t.
Proof.
  unfold is_crdt, crdt_txn. intros ->.
  destruct (Vote_InvokeChaincode db _ _) as [[db' r] ret]. eexists _, _. split; [done|].
  by destruct (negb _).
Qed.

Lemma crdt_slice_total db l :
  Forall (λ t, is_crdt t = true) l →
  ∃ db' l', crdt_OnExecuteTransaction db l = Some (db', l') ∧ txn_id <$> l' = txn_id <$> l.
Proof.
  intros H. revert db. induction H as [|t l Ht _ IH]; intros db; [by exists db, []|].
  destruct (crdt_txn_total db t Ht) as (db1 & t1 & E1 & I1).
  destruct (IH db1) as (db2 & l2 & E2 & I2). exists db2, (t1 :: l2).
  cbn [crdt_OnExecuteTransaction].
  rewrite E1, E2. split; [done|]. by rewrite !fmap_cons, I1, I2.
Qed.

Lemma crdt_slices_total db slices :
  Forall (Forall (λ t, is_crdt t = true)) slices →
  ∃ db' slices', crdt_exec_slices db slices = Some (db', slices') ∧
    (λ s : list Transaction, txn_id <$> s) <$> slices' =
    (λ s : list Transaction, txn_id <$> s) <$> slices.
Proof.
  intros H. revert db. induction H as [|s slices Hs _ IH]; intros db; [by exists db, []|].
  destruct (crdt_slice_total db s Hs) as (db1 & s1 & E1 & I1).
  destruct (IH db1) as (db2 & l2 & E2 & I2). exists db2, (s1 :: l2).
  cbn [crdt_exec_slices].
  rewrite E1, E2. split; [done|]. by rewrite !fmap_cons, I1, I2.
Qed.

(** The CRDT engine never dies on the transactions classified as such, and
    returns each at its place. *)
Lemma crdt_process_total n db txns :
  0 < n → Forall (λ t, is_crdt t = true) txns →
  ∃ db' txns', crdt_processTransactions n db txns = Some (true, db', txns') ∧
    txn_id <$> txns' = txn_id <$> txns.
Proof.
  intros Hn H. unfold crdt_processTransactions.
  destruct (crdt_slices_total db (scatter n txns)) as (db' & slices & E & I).
  { apply Forall_forall. intros s Hs. apply Forall_forall. intros t Ht.
    rewrite Forall_forall in H. apply H. rewrite <-(scatter_perm n txns Hn).
    apply list_elem_of_In, in_concat. exists s. by rewrite <-!list_elem_of_In. }
  exists db', (gather n slices txns). rewrite E. split; [done|].
  apply gather_keeps; [done|]. by rewrite I, <-scatter_fmap.
Qed.

(** The merge is the inverse of the classification. *)
Lemma merge_spec {txns c d} :
  txn_id <$> c = txn_id <$> List.filter is_crdt txns →
  txn_id <$> d = txn_id <$> List.filter (λ t, negb (is_crdt t)) txns →
  ∃ txns', merge (is_crdt <$> txns) c d = Some txns' ∧
    txn_id <$> txns' = txn_id <$> txns ∧
    List.filter is_crdt txns' = c ∧ List.filter (λ t, negb (is_crdt t)) txns' = d.
Proof.
  revert c d. induction txns as [|t txns IH]; intros c d Hc Hd.
  { csimpl in *. destruct c, d; try done. by exists []. }
  csimpl in *. destruct (is_crdt t) eqn:Et; csimpl in *.
  - destruct c as [|t' c]; [done|]. csimpl in Hc. injection Hc as H1 H2 H3 Hc.
    destruct (IH c d Hc Hd) as (txns' & -> & I & F1 & F2).
    assert (is_crdt t' = true) as Et' by (unfold is_crdt in *; by rewrite H3).
    exists (t' :: txns'). split; [done|]. csimpl. rewrite I, Et'. csimpl.
    unfold txn_id. rewrite H1, H2, H3. by rewrite F1, F2.
  - destruct d as [|t' d]; [done|]. csimpl in Hd. injection Hd as H1 H2 H3 Hd.
    destruct (IH c d Hc Hd) as (txns' & -> & I & F1 & F2).
    assert (is_crdt t' = false) as Et' by (unfold is_crdt in *; by rewrite H3).
    exists (t' :: txns'). split; [done|]. csimpl. rewrite I, Et'. csimpl.
    unfold txn_id. rewrite H1, H2, H3. by rewrite F1, F2.
Qed.
End lemmas.

Section theorem.
Context `{ZP : Zpp} (chaincodes : string → option Chaincode).

(** C20: the mixed coordinator.  The CRDT transactions of a batch run first
    and always complete.  When the others have distinct ids and none writes a
    key twice on the database that leaves, the coordinator does with them what
    the deterministic engine does: where the reference outcome of the engine on
    that database exists, the batch ends with its database, every transaction
    comes back at the index of its request, and with the result its own engine
    gave it; where it does not, because a chaincode is unknown or dies, the
    process dies. *)
Theorem mix_correct n db txns :
  0 < n →
  ∃ db1 c, crdt_processTransactions n db (List.filter is_crdt txns) = Some (true, db1, c) ∧
    (batch_ok chaincodes db1 (List.filter (λ t, negb (is_crdt t)) txns) →
     match batch_run chaincodes db1 (List.filter (λ t, negb (is_crdt t)) txns) with
     | Some (db2, d) =>
         ∃ txns', mix_transactions chaincodes n db txns = Some (true, db2, txns') ∧
           txn_id <$> txns' = txn_id <$> txns ∧
           List.filter is_crdt txns' = c ∧ List.filter (λ t, negb (is_crdt t)) txns' = d
     | None => mix_transactions chaincodes n db txns = None
     end).
Proof.
  intros Hn. destruct (crdt_process_total n db (List.filter is_crdt txns) Hn)
    as (db1 & c & Ec & Ic).
  { apply Forall_forall. intros t Ht. apply list_elem_of_In, filter_In in Ht. tauto. }
  exists db1, c. split; [done|]. intros Hok.
  unfold mix_transactions. rewrite classify_spec, Ec, processTransactions_outcome by done.
  destruct (batch_run chaincodes db1 _) as [[db2 d]|] eqn:Hb; [|done]. cbn [fmap option_fmap option_map fst snd].
  destruct (merge_spec Ic (batch_run_id _ _ _ _ _ Hb)) as (txns' & Hm & Hrest).
  exists txns'. by rewrite Hm.
Qed.
End theorem.

#[local] Existing Instance LE.zpp.

Definition mix_batch : list Transaction := sample_batch ++ vote_batch.
Definition mix_crdt : bool * database * list Transaction :=
  default (false, ∅, []) (crdt_processTransactions 2 vote_db (List.filter is_crdt mix_batch)).

Lemma mix_correct_witness :
  ∃ db2 txns', mix_transactions sample_chaincodes 2 vote_db mix_batch = Some (true, db2, txns') ∧
    txn_id <$> txns' = txn_id <$> mix_batch.
Proof.
  destruct (mix_correct sample_chaincodes 2 vote_db mix_batch) as (db1 & c & E & H); [lia|].
  assert (db1 = mix_crdt.1.2) as -> by (unfold mix_crdt; by rewrite E).
  specialize (H ltac:(apply batch_okb_ok; by vm_compute)).
  destruct (batch_run sample_chaincodes mix_crdt.1.2
    (List.filter (λ t, negb (is_crdt t)) mix_batch)) as [[db2 d]|] eqn:Eb; [|by vm_compute in Eb].
  destruct H as (txns' & H1 & H2 & _). by exists db2, txns'.
Defined.
