(* ===== verification/Engine.v ===== *)
(** * Engine: what the peer relies on

    The peer runs whichever coordinator [ModuleCoordinator::ChaincodeType] names
    (include/peer/core/module_coordinator.h) through one virtual method,
    [processValidatedRequests].  [Engine] is that method, [EngineLaws] what the
    peer needs of it: the number of workers has no influence on the database and
    on which requests commit, and the requests come back in place.  The mixed,
    the deterministic and the serial coordinators are instances. *)

From S2P Require Import Prelude Zpp Proto DB ORM Samples Coordinator.
From S2P Require Import Deterministic DeterministicProofs Serial Crdt Mix.

Abbreviation batch_result := (option (bool * database * list (Envelop * TxReadWriteSet * bool))).

(** [processValidatedRequests] with a number of workers. *)
Class Engine := run_batch : nat → database → list Envelop → batch_result.

(** What of a result reaches the state of the system: whether the call
    succeeded, the database, and for every request whether it committed. *)
Definition verdict (r : batch_result) : option (bool * database * list (Envelop * bool)) :=
  match r with
  | None => None
  | Some (b, db, res) => Some (b, db, (λ y, (y.1.1, y.2)) <$> res)
  end.

Class EngineLaws (E : Engine) (ok : database → list Envelop → Prop) : Prop := {
  workers_irrelevant n1 n2 db reqs :
    0 < n1 → 0 < n2 → ok db reqs → verdict (run_batch n1 db reqs) = verdict (run_batch n2 db reqs);
  requests_kept n db reqs b db' res :
    0 < n → ok db reqs → run_batch n db reqs = Some (b, db', res) →
    b = true ∧ (λ x : Envelop * TxReadWriteSet * bool, x.1.1) <$> res = reqs
}.

Lemma parsed_envelops `{!Zpp} (reqs : list Envelop) (txns : list Transaction) :
  mapM NewTransactionFromEnvelop reqs = Some txns → envelop <$> txns = reqs.
Proof.
  rewrite mapM_Some. induction 1 as [|e t reqs txns He _ IH]; [done|]. csimpl. rewrite IH. f_equal.
  unfold NewTransactionFromEnvelop in He. by destruct (read _ _); simplify_eq.
Qed.

Lemma finished_envelops (txns txns' : list Transaction) :
  txn_id <$> txns' = txn_id <$> txns →
  (λ x : Envelop * TxReadWriteSet * bool, x.1.1) <$> (finish_txn <$> txns') = envelop <$> txns.
Proof.
  revert txns'. induction txns as [|t txns IH]; intros [|t' txns']; try done. csimpl.
  intros [= H1 H2 H3 Hi]. by rewrite H2, (IH txns' Hi).
Qed.

(** The verdict of finished transactions depends on which committed only. *)
Lemma finished_verdict (l1 l2 : list Transaction) :
  txn_id <$> l1 = txn_id <$> l2 → hasResult COMMIT <$> l1 = hasResult COMMIT <$> l2 →
  (λ y : Envelop * TxReadWriteSet * bool, (y.1.1, y.2)) <$> (finish_txn <$> l1) =
  (λ y : Envelop * TxReadWriteSet * bool, (y.1.1, y.2)) <$> (finish_txn <$> l2).
Proof.
  revert l2. induction l1 as [|t l1 IH]; intros [|t2 l2]; try done. csimpl.
  intros [= H1 H2 H3 Hi] [= Hc Hs]. by rewrite H2, Hc, (IH l2).
Qed.

(** ** The serial coordinators *)

Section serial.
Context `{ZP : Zpp} (chaincodes : string → option Chaincode).

Definition serial_engine : Engine := λ _ db reqs, serial_processValidatedRequests chaincodes db reqs.

Lemma serial_run_id db l db' l' :
  serial_run chaincodes db l = Some (db', l') → txn_id <$> l' = txn_id <$> l.
Proof.
  revert db l'. induction l as [|t l IH]; intros db l'; [by intros [= <- <-]|]. cbn [serial_run].
  rewrite serial_txn_exec.
  destruct (exec_txn chaincodes db t) as [p|] eqn:E; [|done]. apply exec_txn_id in E. simpl.
  destruct p as [t1 [|]]; simpl in *;
    (destruct (serial_run _ _ l) as [[db2 l2]|] eqn:Er; [|done]; intros [= <- <-]; csimpl;
     rewrite (IH _ _ Er), <-E; done).
Qed.

#[export] Instance serial_engine_laws : EngineLaws serial_engine (λ _ _, True).
Proof.
  split; [done|]. intros n db reqs b db' res _ _. unfold run_batch, serial_engine, serial_processValidatedRequests.
  destruct (mapM _ reqs) as [txns|] eqn:E; [|done].
  destruct (serial_run _ _ _) as [[db1 l]|] eqn:Er; [|done]. intros [= <- <- <-].
  split; [done|]. by rewrite (finished_envelops txns), (parsed_envelops _ _ E) by by eapply serial_run_id.
Qed.
End serial.

(** ** The deterministic coordinator *)

Section deterministic.
Context `{ZP : Zpp} (chaincodes : string → option Chaincode).

#[local] Instance deterministic_engine : Engine := processValidatedRequests chaincodes.

Definition deterministic_ok (db : database) (reqs : list Envelop) : Prop :=
  ∀ txns, mapM NewTransactionFromEnvelop reqs = Some txns → batch_ok chaincodes db txns.

(** With any number of workers the call is the batch. *)
Lemma deterministic_batch n db reqs txns :
  0 < n → deterministic_ok db reqs → mapM NewTransactionFromEnvelop reqs = Some txns →
  run_batch n db reqs =
  (λ r : database * list Transaction, (true, r.1, finish_txn <$> r.2)) <$> batch_run chaincodes db txns.
Proof.
  intros Hn Hok E. unfold run_batch, deterministic_engine, processValidatedRequests. rewrite E.
  rewrite processTransactions_outcome by auto. by destruct (batch_run _ _ _) as [[db' l]|].
Qed.

#[export] Instance deterministic_engine_laws : EngineLaws deterministic_engine deterministic_ok.
Proof.
  split.
  - intros n1 n2 db reqs H1 H2 Hok.
    destruct (mapM NewTransactionFromEnvelop reqs) as [txns|] eqn:E.
    + by rewrite !(deterministic_batch _ _ _ txns) by done.
    + unfold run_batch, deterministic_engine, processValidatedRequests. by rewrite E.
  - intros n db reqs b db' res Hn Hok.
    destruct (mapM NewTransactionFromEnvelop reqs) as [txns|] eqn:E.
    + rewrite (deterministic_batch _ _ _ txns) by done.
      destruct (batch_run _ _ _) as [[db1 l]|] eqn:Eb; [|done]. intros [= <- <- <-].
      split; [done|]. by rewrite (finished_envelops txns), (parsed_envelops _ _ E) by by eapply batch_run_id.
    + unfold run_batch, deterministic_engine, processValidatedRequests. by rewrite E.
Qed.
End deterministic.

(** ** The mixed coordinator *)

Section crdt.
Context `{ZP : Zpp} `{HZ : !ZppLaws ZP}.

(** The database after the CRDT transactions of a batch, in whatever order. *)
Definition crdt_db (db : database) (l : list Transaction) : database :=
  fold_left (λ db t, eff db (call_of t)) l db.

Lemma succeeds_crdt_db db l c : succeeds (crdt_db db l) c = succeeds db c.
Proof using HZ.
  revert db. induction l as [|t l IH]; intros db; [done|]. simpl.
  unfold crdt_db in *. simpl. by rewrite IH, succeeds_eff.
Qed.

Lemma crdt_db_app db l1 l2 : crdt_db db (l1 ++ l2) = crdt_db (crdt_db db l1) l2.
Proof. apply fold_left_app. Qed.

Lemma crdt_db_perm db l1 l2 : l1 ≡ₚ l2 → crdt_db db l1 = crdt_db db l2.
Proof using HZ. intros. apply fold_left_perm_on; [|done]. intros. apply eff_comm. Qed.

Lemma crdt_txn_spec db t :
  is_crdt t = true →
  ∃ t', crdt_txn db t = Some (eff db (call_of t), t') ∧ txn_id t' = txn_id t ∧
    hasResult COMMIT t' = succeeds db (call_of t).
Proof using HZ.
  unfold is_crdt, crdt_txn. intros ->.
  pose proof (invoke_eff db (funcName (userRequest t)) (args (userRequest t))) as H.
  destruct (Vote_InvokeChaincode db _ _) as [[db' r] ret]. destruct H as [-> H].
  eexists. split; [done|]. unfold call_of. rewrite <-H.
  destruct (ret =? 0)%Z; simpl; by rewrite hasResult_set.
Qed.

Lemma crdt_slice_spec db l :
  Forall (λ t, is_crdt t = true) l →
  ∃ l', crdt_OnExecuteTransaction db l = Some (crdt_db db l, l') ∧ txn_id <$> l' = txn_id <$> l ∧
    hasResult COMMIT <$> l' = (λ t, succeeds db (call_of t)) <$> l.
Proof using HZ.
  intros H. revert db. induction H as [|t l Ht _ IH]; intros db; [by exists []|].
  destruct (crdt_txn_spec db t Ht) as (t1 & E1 & I1 & C1).
  destruct (IH (eff db (call_of t))) as (l2 & E2 & I2 & C2). exists (t1 :: l2).
  cbn [crdt_OnExecuteTransaction]. rewrite E1, E2. split; [done|]. csimpl. rewrite I1, I2, C1, C2.
  split; [done|]. f_equal. apply list_fmap_ext. intros. by rewrite succeeds_eff.
Qed.

Lemma crdt_slices_spec db slices :
  Forall (Forall (λ t, is_crdt t = true)) slices →
  ∃ slices', crdt_exec_slices db slices = Some (crdt_db db (concat slices), slices') ∧
    (λ s : list Transaction, txn_id <$> s) <$> slices' =
    (λ s : list Transaction, txn_id <$> s) <$> slices ∧
    (λ s : list Transaction, hasResult COMMIT <$> s) <$> slices' =
    (λ s : list Transaction, (λ t, succeeds db (call_of t)) <$> s) <$> slices.
Proof using HZ.
  intros H. revert db. induction H as [|s slices Hs _ IH]; intros db; [by exists []|].
  destruct (crdt_slice_spec db s Hs) as (s1 & E1 & I1 & C1).
  destruct (IH (crdt_db db s)) as (l2 & E2 & I2 & C2). exists (s1 :: l2).
  cbn [crdt_exec_slices concat]. rewrite E1, E2, crdt_db_app. split; [done|].
  rewrite !fmap_cons, I1, I2, C1, C2. split; [done|]. f_equal. apply list_fmap_ext. intros.
  apply list_fmap_ext. intros. by rewrite succeeds_crdt_db.
Qed.

(** The CRDT engine: the number of workers shows in the returned strings only. *)
Lemma crdt_process_spec n db txns :
  0 < n → Forall (λ t, is_crdt t = true) txns →
  ∃ txns', crdt_processTransactions n db txns = Some (true, crdt_db db txns, txns') ∧
    txn_id <$> txns' = txn_id <$> txns ∧
    hasResult COMMIT <$> txns' = (λ t, succeeds db (call_of t)) <$> txns.
Proof using HZ.
  intros Hn H. unfold crdt_processTransactions.
  destruct (crdt_slices_spec db (scatter n txns)) as (slices & E & I & C).
  { apply Forall_forall. intros s Hs. apply Forall_forall. intros t Ht.
    rewrite Forall_forall in H. apply H. rewrite <-(scatter_perm n txns Hn).
    apply list_elem_of_In, in_concat. exists s. by rewrite <-!list_elem_of_In. }
  exists (gather n slices txns). rewrite E, (crdt_db_perm _ _ txns) by by apply scatter_perm.
  split; [done|]. split; [apply gather_keeps; [done|]; by rewrite I, <-scatter_fmap|].
  rewrite gather_fmap, C, <-scatter_fmap. apply gather_scatter; [done|]. by rewrite !length_fmap.
Qed.
End crdt.

(** What the merge produces of an attribute depends on that attribute only. *)
Lemma merge_attribute {B} (f : Transaction → B) flags (c1 d1 c2 d2 : list Transaction) :
  f <$> c1 = f <$> c2 → f <$> d1 = f <$> d2 →
  (λ l : list Transaction, f <$> l) <$> merge flags c1 d1 =
  (λ l : list Transaction, f <$> l) <$> merge flags c2 d2.
Proof.
  revert c1 d1 c2 d2. induction flags as [|[] flags IH]; intros c1 d1 c2 d2 Hc Hd; [done|..]; simpl.
  - destruct c1 as [|t1 c1], c2 as [|t2 c2]; try done. csimpl in Hc. injection Hc as Ht Hc.
    specialize (IH c1 d1 c2 d2 Hc Hd).
    destruct (merge flags c1 d1), (merge flags c2 d2); simplify_eq/=; [|done]. by rewrite Ht, IH.
  - destruct d1 as [|t1 d1], d2 as [|t2 d2]; try done. csimpl in Hd. injection Hd as Ht Hd.
    specialize (IH c1 d1 c2 d2 Hc Hd).
    destruct (merge flags c1 d1), (merge flags c2 d2); simplify_eq/=; [|done]. by rewrite Ht, IH.
Qed.

Section mix.
Context `{ZP : Zpp} `{HZ : !ZppLaws ZP} (chaincodes : string → option Chaincode) (enableMix : bool).

#[local] Instance mix_engine : Engine := mix_processValidatedRequests chaincodes enableMix.

Definition crdt_part (txns : list Transaction) : list Transaction := List.filter is_crdt txns.
Definition other_part (txns : list Transaction) : list Transaction :=
  List.filter (λ t, negb (is_crdt t)) txns.

Definition mix_ok (db : database) (reqs : list Envelop) : Prop :=
  ∀ txns, mapM NewTransactionFromEnvelop reqs = Some txns →
    if enableMix then batch_ok chaincodes (crdt_db db (crdt_part txns)) (other_part txns)
    else batch_ok chaincodes db txns.

(** The mixed run: the batch of the deterministic engine on the database the
    CRDT transactions leave, merged with their results. *)
Lemma mix_transactions_spec n db txns :
  0 < n → batch_ok chaincodes (crdt_db db (crdt_part txns)) (other_part txns) →
  ∃ c, txn_id <$> c = txn_id <$> crdt_part txns ∧
    hasResult COMMIT <$> c = (λ t, succeeds db (call_of t)) <$> crdt_part txns ∧
    mix_transactions chaincodes n db txns =
    match batch_run chaincodes (crdt_db db (crdt_part txns)) (other_part txns) with
    | None => None
    | Some (db2, d) =>
        match merge (is_crdt <$> txns) c d with
        | None => None
        | Some txns' => Some (true, db2, txns')
        end
    end.
Proof using HZ.
  intros Hn Hok. destruct (crdt_process_spec n db (crdt_part txns) Hn) as (c & Ec & Ic & Cc).
  { apply Forall_forall. intros t Ht. apply list_elem_of_In, filter_In in Ht. tauto. }
  exists c. split; [done|]. split; [done|]. unfold mix_transactions. rewrite classify_spec.
  change (List.filter is_crdt txns) with (crdt_part txns).
  change (List.filter (λ t, negb (is_crdt t)) txns) with (other_part txns). rewrite Ec.
  rewrite processTransactions_outcome by done. by destruct (batch_run _ _ _) as [[db2 d]|].
Qed.

Lemma mix_verdict n1 n2 db reqs :
  enableMix = true → 0 < n1 → 0 < n2 → mix_ok db reqs →
  verdict (run_batch n1 db reqs) = verdict (run_batch n2 db reqs).
Proof using HZ.
  intros Hm H1 H2 Hok. unfold run_batch, mix_engine, mix_processValidatedRequests. rewrite Hm. simpl.
  unfold mix_ok in Hok. rewrite Hm in Hok.
  destruct (mapM _ reqs) as [txns|] eqn:E; [|done]. specialize (Hok txns eq_refl).
  destruct (mix_transactions_spec n1 db txns H1 Hok) as (c1 & I1 & C1 & ->).
  destruct (mix_transactions_spec n2 db txns H2 Hok) as (c2 & I2 & C2 & ->).
  destruct (batch_run _ _ _) as [[db2 d]|]; [|done].
  pose proof (merge_attribute txn_id (is_crdt <$> txns) c1 d c2 d) as Hid.
  pose proof (merge_attribute (hasResult COMMIT) (is_crdt <$> txns) c1 d c2 d) as Hc.
  destruct (merge _ c1 d) as [l1|], (merge _ c2 d) as [l2|]; simpl in *; try done.
  - do 2 f_equal. apply finished_verdict; [|rewrite C1, C2 in Hc]; [rewrite I1, I2 in Hid|];
      [specialize (Hid eq_refl eq_refl)|specialize (Hc eq_refl eq_refl)]; by simplify_eq.
  - rewrite I1, I2 in Hid. by specialize (Hid eq_refl eq_refl).
  - rewrite I1, I2 in Hid. by specialize (Hid eq_refl eq_refl).
Qed.

#[export] Instance mix_engine_laws : EngineLaws mix_engine mix_ok.
Proof using HZ.
  split.
  - intros n1 n2 db reqs H1 H2 Hok. destruct enableMix eqn:Hm; [by apply mix_verdict|].
    unfold run_batch, mix_engine, mix_processValidatedRequests. rewrite Hm.
    apply (workers_irrelevant (EngineLaws := deterministic_engine_laws chaincodes) n1 n2 db reqs); [done..|].
    intros txns E. specialize (Hok txns E). by rewrite Hm in Hok.
  - intros n db reqs b db' res Hn Hok. destruct enableMix eqn:Hm.
    + unfold run_batch, mix_engine, mix_processValidatedRequests. rewrite Hm. simpl.
      unfold mix_ok in Hok. rewrite Hm in Hok. destruct (mapM _ reqs) as [txns|] eqn:E; [|done].
      destruct (mix_transactions_spec n db txns Hn (Hok txns eq_refl)) as (c & I & _ & ->).
      destruct (batch_run _ _ _) as [[db2 d]|] eqn:Eb; [|done].
      destruct (merge_spec I (batch_run_id _ _ _ _ _ Eb)) as (txns' & -> & Hid & _).
      intros [= <- <- <-]. split; [done|]. by rewrite (finished_envelops txns), (parsed_envelops _ _ E).
    + unfold run_batch, mix_engine, mix_processValidatedRequests. rewrite Hm.
      apply (requests_kept (EngineLaws := deterministic_engine_laws chaincodes)); [done|].
      intros txns E. specialize (Hok txns E). by rewrite Hm in Hok.
Qed.
End mix.

(** ** Executable forms of the conditions *)

Definition mix_okb `{!Zpp} chaincodes (enableMix : bool) (db : database) (reqs : list Envelop) : bool :=
  match mapM NewTransactionFromEnvelop reqs with
  | None => true
  | Some txns =>
      if enableMix then batch_okb chaincodes (crdt_db db (crdt_part txns)) (other_part txns)
      else batch_okb chaincodes db txns
  end.

Lemma mix_okb_ok `{!Zpp} chaincodes enableMix db reqs :
  mix_okb chaincodes enableMix db reqs = true → mix_ok chaincodes enableMix db reqs.
Proof.
  unfold mix_okb. intros Hb txns E. rewrite E in Hb. destruct enableMix; by apply batch_okb_ok.
Qed.
