(* ===== verification/VectorOrder.v ===== *)
(** * The global order of blocks

    The specification the inter-chain order manager implements: an assignment
    of watermarks to blocks ([VoteLaws]) orders all blocks of all chains by
    their vectors, then by block number, then by group.  Generic facts on the
    lexicographic comparison and on downward-closed sorted sequences. *)

From S2P Require Import Prelude.
From Stdlib Require Import Sorting.Sorted.

(** ** Lexicographic comparison *)

Fixpoint lexcmp (l r : list Z) : comparison :=
  match l, r with
  | a :: l, b :: r => match (a ?= b)%Z with Eq => lexcmp l r | c => c end
  | _, _ => Eq
  end.

Ltac zcmp :=
  repeat match goal with
  | H : context [(?a ?= ?b)%Z] |- _ => destruct (Z.compare_spec a b)
  | |- context [(?a ?= ?b)%Z] => destruct (Z.compare_spec a b)
  end; simplify_eq; try lia; try done.

Lemma lexcmp_refl l : lexcmp l l = Eq.
Proof. induction l as [|a l IH]; [done|]. simpl. by rewrite Z.compare_refl. Qed.

Lemma lexcmp_eq l r : length l = length r → lexcmp l r = Eq → l = r.
Proof.
  revert r. induction l as [|a l IH]; intros [|b r] ? Hc; simplify_eq/=; [done|].
  destruct (Z.compare_spec a b); simplify_eq. f_equal. by apply IH.
Qed.

Lemma lexcmp_antisym l r : length l = length r → lexcmp r l = CompOpp (lexcmp l r).
Proof.
  revert r. induction l as [|a l IH]; intros [|b r] ?; simplify_eq/=; [done|].
  rewrite (Z.compare_antisym a b), IH by done. by destruct (a ?= b)%Z.
Qed.

Lemma lexcmp_trans l m r :
  length l = length m → length m = length r →
  lexcmp l m = Lt → lexcmp m r = Lt → lexcmp l r = Lt.
Proof.
  revert m r. induction l as [|a l IH]; intros [|b m] [|c r] ????; simplify_eq/=.
  zcmp; eauto.
Qed.

Lemma lexcmp_app l r a b :
  length l = length r →
  lexcmp (l ++ a) (r ++ b) = match lexcmp l r with Eq => lexcmp a b | c => c end.
Proof.
  revert r. induction l as [|x l IH]; intros [|y r] ?; simplify_eq/=; [done|].
  rewrite IH by done. by destruct (x ?= y)%Z.
Qed.

Lemma lexcmp_pointwise l r : Forall2 Z.le l r → lexcmp l r ≠ Gt.
Proof. induction 1; simpl; zcmp. Qed.

Lemma Forall3_lookup_2 {A B C} (P : A → B → C → Prop) l k m :
  length l = length k → length l = length m →
  (∀ i x y z, l !! i = Some x → k !! i = Some y → m !! i = Some z → P x y z) →
  Forall3 P l k m.
Proof.
  revert k m. induction l as [|x l IH]; intros [|y k] [|z m] ?? HP;
    simplify_eq/=; constructor; [by apply (HP 0)|].
  apply IH; [done..|]. intros i. apply (HP (S i)).
Qed.

(** ** Watermark assignments *)

(** [V g b v]: the watermark group [v] gives to block [b] of group [g].  What
    the order assigners of the groups promise to the order managers: a group's
    own block carries its number, a group's clock never decreases along a
    chain, and no watermark is below [-1]. *)
Class VoteLaws (V : nat → nat → nat → Z) : Prop := {
  vote_own g b : V g b g = Z.of_nat b;
  vote_mono g b v : (V g b v ≤ V g (S b) v)%Z;
  vote_low g b v : (-1 ≤ V g b v)%Z
}.

Section order.
Context (n : nat) (V : nat → nat → nat → Z).

Definition tsvec (x : nat * nat) : list Z := V x.1 x.2 <$> seq 0 n.

Definition key (x : nat * nat) : list Z := tsvec x ++ [Z.of_nat x.2; Z.of_nat x.1].

(** The order of the deployment: vectors, then block number, then group. *)
Definition before (x y : nat * nat) : Prop := lexcmp (key x) (key y) = Lt.

Lemma tsvec_length x : length (tsvec x) = n.
Proof. unfold tsvec. by rewrite length_fmap, length_seq. Qed.

Lemma key_length x y : length (key x) = length (key y).
Proof. unfold key. by rewrite !length_app, !tsvec_length. Qed.

Lemma key_inj x y : key x = key y → x = y.
Proof.
  unfold key. intros H. apply app_inj_1 in H; [|by rewrite !tsvec_length].
  destruct H as [_ H], x, y. simplify_eq/=. f_equal; lia.
Qed.

Lemma before_irrefl x : ¬ before x x.
Proof. unfold before. by rewrite lexcmp_refl. Qed.

Lemma before_trans x y z : before x y → before y z → before x z.
Proof. unfold before. apply lexcmp_trans; apply key_length. Qed.

Lemma before_total x y : x = y ∨ before x y ∨ before y x.
Proof.
  unfold before. rewrite (lexcmp_antisym (key x) (key y)) by apply key_length.
  destruct (lexcmp (key x) (key y)) eqn:E; simpl; auto.
  left. apply key_inj, lexcmp_eq; [apply key_length|done].
Qed.

Lemma before_intro x y :
  lexcmp (tsvec x) (tsvec y) = Lt ∨
  (tsvec x = tsvec y ∧ (x.2 < y.2 ∨ (x.2 = y.2 ∧ x.1 < y.1))) →
  before x y.
Proof.
  unfold before, key. rewrite lexcmp_app by by rewrite !tsvec_length.
  intros [->|[-> H]]; [done|]. rewrite lexcmp_refl. simpl. zcmp.
Qed.

(** Blocks of one chain are ordered by their number. *)
Lemma chain_before `{!VoteLaws V} g b b' : b < b' → before (g, b) (g, b').
Proof.
  intros Hb. apply before_intro.
  assert (Hle : ∀ v, (V g b v ≤ V g b' v)%Z).
  { intros v. induction Hb; [apply vote_mono|].
    etrans; [apply IHHb|apply vote_mono]. }
  assert (Hp : Forall2 Z.le (tsvec (g, b)) (tsvec (g, b'))).
  { unfold tsvec. apply Forall2_fmap, Forall_Forall2_diag, Forall_forall. auto. }
  apply lexcmp_pointwise in Hp.
  destruct (lexcmp _ _) eqn:E; [right|auto|done].
  split; [|simpl; lia]. apply lexcmp_eq; [by rewrite !tsvec_length|done].
Qed.

End order.

(** ** Downward-closed sorted sequences *)

Lemma StronglySorted_snoc {A} (R : A → A → Prop) l x :
  StronglySorted R l → (∀ y, y ∈ l → R y x) → StronglySorted R (l ++ [x]).
Proof.
  induction 1 as [|y l Hs IH Hf]; intros Hx; simpl; [by repeat constructor|].
  constructor; [apply IH; set_solver|]. apply Forall_app. split; [done|].
  constructor; [apply Hx; set_solver|done].
Qed.

(** A finite non-empty list has a smallest element when [R] is total. *)
Lemma minimum_exists {A} (R : A → A → Prop) (l : list A) :
  (∀ x y z, R x y → R y z → R x z) → (∀ x y, x = y ∨ R x y ∨ R y x) → l ≠ [] →
  ∃ m, m ∈ l ∧ ∀ x, x ∈ l → x = m ∨ R m x.
Proof.
  intros Ht Htot. induction l as [|a l IH]; [done|]. intros _.
  destruct l as [|b l]; [exists a; set_solver|].
  destruct IH as (m & Hm & Hmin); [done|].
  destruct (Htot a m) as [->|[?|?]].
  - exists m. set_solver.
  - exists a. split; [set_solver|]. intros x Hx.
    apply elem_of_cons in Hx as [->|Hx]; [by left|].
    destruct (Hmin x Hx) as [->|?]; eauto.
  - exists m. split; [by right|]. intros x Hx.
    apply elem_of_cons in Hx as [->|Hx]; auto.
Qed.

Section prefix.
Context {A : Type} (R : A → A → Prop).
Hypothesis (R_asym : ∀ x y, R x y → R y x → False).

(** [l] lists, in order, elements below everything else that satisfies [P]. *)
Definition initial_segment (P : A → Prop) (l : list A) : Prop :=
  StronglySorted R l ∧ Forall P l ∧
  ∀ x y, x ∈ l → P y → y ∉ l → R x y.

Lemma head_le P x l y l' :
  initial_segment P (x :: l) → initial_segment P (y :: l') → (∀ z : A, z ∈ y :: l' ∨ z ∉ y :: l') →
  x = y ∨ R y x.
Proof.
  intros (_ & HP & _) (Hs & _ & Hc) Hdec.
  destruct (Hdec x) as [Hin|Hin].
  - apply elem_of_cons in Hin as [->|Hin]; [by left|right].
    apply StronglySorted_inv in Hs as [_ Hf]. rewrite Forall_forall in Hf. auto.
  - right. apply Hc; [set_solver| |done]. by inversion HP.
Qed.

Lemma segment_tail P x l :
  initial_segment P (x :: l) → initial_segment (λ y, P y ∧ y ≠ x) l.
Proof.
  intros (Hs & HP & Hc). apply StronglySorted_inv in Hs as [Hs Hf].
  inversion HP as [|?? Hx HP']; subst. split_and!; [done| |].
  - rewrite Forall_forall in *. intros y Hy. split; [auto|].
    intros ->. eapply R_asym; apply Hf, Hy.
  - intros a y Ha [Hy Hne] Hnin. apply Hc; set_solver.
Qed.

(** Two initial segments of one order: one is a prefix of the other. *)
Lemma segments_prefix `{!EqDecision A} P l1 l2 :
  initial_segment P l1 → initial_segment P l2 →
  l1 `prefix_of` l2 ∨ l2 `prefix_of` l1.
Proof.
  revert P l2. induction l1 as [|x l1 IH]; intros P l2 H1 H2;
    [left; apply prefix_nil|].
  destruct l2 as [|y l2]; [right; apply prefix_nil|].
  assert (x = y) as <-.
  { destruct (head_le P x l1 y l2) as [?|?]; [done..|intros z; destruct (decide (z ∈ y :: l2)); auto|done|].
    destruct (head_le P y l2 x l1) as [?|?]; [done..|intros z; destruct (decide (z ∈ x :: l1)); auto|done|].
    exfalso. eauto. }
  destruct (IH _ l2 (segment_tail _ _ _ H1) (segment_tail _ _ _ H2));
    [left|right]; by apply prefix_cons.
Qed.

Lemma StronglySorted_NoDup l : StronglySorted R l → NoDup l.
Proof.
  induction 1 as [|x l Hs IH Hf]; constructor; [|done].
  intros Hx. rewrite Forall_forall in Hf. eapply R_asym; apply Hf, Hx.
Qed.

End prefix.
