(* ===== verification/OrderAssigner.v ===== *)
(** * Assigning watermarks

    [peer::consensus::v2::OrderAssigner]
    (include/peer/consensus/block_order/interchain_order_manager.h): the leader
    of a group votes for every block it learns of with its local clock, the
    number of the last block of its own chain; each block gets one vote.  The
    votes of a block are kept in a ring of [MAX_BLOCK_QUEUE_SIZE] slots per
    chain.  The debug-only assertions are not part of the model; that a call is
    not stale ([windowed]) is a hypothesis where it matters. *)

From S2P Require Import Prelude.
From Stdlib Require Import Sorting.Sorted.

Definition MAX_GROUP_SIZE : nat := 100.
Definition MAX_BLOCK_QUEUE_SIZE : nat := 256.

Record Slot := mkSlot { slotBlock : nat; slotVotes : gset nat; finished : bool }.

(** The array of vectors [_blockVotesCount]: a slot nobody touched is
    value-initialised. *)
Notation Slots := (gmap (nat * nat) Slot).
Definition slot0 : Slot := mkSlot 0 ∅ false.
Definition slot (m : Slots) (k : nat * nat) : Slot := default slot0 (m !! k).

Record OA := mkOA { myClock : Z; localChain : nat; blockVotes : Slots }.

(** A new assigner after [setLocalChainId]. *)
Definition newAssigner (c : nat) : OA := mkOA (-1) c ∅.

Definition ring (chain block : nat) : nat * nat := (chain, block mod MAX_BLOCK_QUEUE_SIZE).

(** [BlockVotes::getRef]: the slot, cleared when it belongs to an older block;
    a chain id beyond the array is out of bounds. *)
Definition getRef (m : Slots) (chain block : nat) : option (Slots * Slot) :=
  CHECK bool_decide (chain < MAX_GROUP_SIZE) ;;
  let res := slot m (ring chain block) in
  let res := if bool_decide (slotBlock res < block) then mkSlot block ∅ false else res in
  Some (<[ring chain block := res]> m, res).

(** [getBlockOrder]: [None] in the result is the pair (-1, -1). *)
Definition getBlockOrder (oa : OA) (chain block : nat) : option (OA * option (nat * Z)) :=
  x ← getRef (blockVotes oa) chain block;
  let '(m, res) := x in
  if finished res then Some (mkOA (myClock oa) (localChain oa) m, None) else
  let m := <[ring chain block := mkSlot (slotBlock res) (slotVotes res) true]> m in
  let ret := if bool_decide (localChain oa = chain)
             then (localChain oa, Z.of_nat block) else (localChain oa, myClock oa) in
  Some (mkOA (myClock oa) (localChain oa) m, Some ret).

(** [addVoteForBlock]: [None] in the result is -1. *)
Definition addVoteForBlock (oa : OA) (chain block voter : nat) : option (OA * option nat) :=
  if bool_decide (localChain oa = chain) then Some (oa, None) else
  x ← getRef (blockVotes oa) chain block;
  let '(m, res) := x in
  if finished res then Some (mkOA (myClock oa) (localChain oa) m, None) else
  let vs := {[voter]} ∪ slotVotes res in
  Some (mkOA (myClock oa) (localChain oa)
          (<[ring chain block := mkSlot (slotBlock res) vs false]> m), Some (size vs)).

Definition getVoteForBlock (oa : OA) (chain block : nat) : option (OA * option nat) :=
  if bool_decide (localChain oa = chain) then Some (oa, None) else
  x ← getRef (blockVotes oa) chain block;
  let '(m, res) := x in
  let oa := mkOA (myClock oa) (localChain oa) m in
  Some (oa, if finished res then None else Some (size (slotVotes res))).

Definition increaseLocalClock (oa : OA) (chain block : nat) : option (OA * bool) :=
  if bool_decide (localChain oa = chain) then
    if (Z.of_nat block - 1 <? myClock oa)%Z then Some (oa, false) else
    CHECK (Z.of_nat block - 1 =? myClock oa)%Z ;;
    Some (mkOA (Z.of_nat block) (localChain oa) (blockVotes oa), true)
  else Some (oa, false).

(** ** Runs of an assigner *)

Inductive call :=
| GetBlockOrder (chain block : nat)
| AddVote (chain block voter : nat)
| GetVotes (chain block : nat)
| IncreaseClock (chain block : nat).

(** A vote as [voteNewBlock] hands it to the group's raft instance: the block
    and the watermark (the voter is the local group). *)
Notation vote := (nat * nat * Z)%type.

Definition perform (oa : OA) (c : call) : option (OA * option vote) :=
  match c with
  | GetBlockOrder g b =>
      (λ x : OA * option (nat * Z), (x.1, (λ r : nat * Z, (g, b, r.2)) <$> x.2)) <$> getBlockOrder oa g b
  | AddVote g b v => (λ x : OA * option nat, (x.1, None)) <$> addVoteForBlock oa g b v
  | GetVotes g b => (λ x : OA * option nat, (x.1, None)) <$> getVoteForBlock oa g b
  | IncreaseClock g b => (λ x : OA * bool, (x.1, None)) <$> increaseLocalClock oa g b
  end.

Fixpoint assign (oa : OA) (cs : list call) : option (OA * list vote) :=
  match cs with
  | [] => Some (oa, [])
  | c :: cs =>
      x ← perform oa c;
      y ← assign x.1 cs;
      Some (y.1, option_list x.2 ++ y.2)
  end.

(** The slot a call looks at. *)
Definition touched (l : nat) (c : call) : option (nat * nat) :=
  match c with
  | GetBlockOrder g b => Some (g, b)
  | AddVote g b _ | GetVotes g b => if decide (l = g) then None else Some (g, b)
  | IncreaseClock _ _ => None
  end.

(** No call is stale: it looks at most a ring behind the newest block of its
    chain ([hi] is the newest block looked at so far). *)
Fixpoint windowed (l : nat) (hi : nat → nat) (cs : list call) : Prop :=
  match cs with
  | [] => True
  | c :: cs =>
      match touched l c with
      | Some (g, b) =>
          hi g < b + MAX_BLOCK_QUEUE_SIZE ∧
          windowed l (λ x, if decide (x = g) then hi g `max` b else hi x) cs
      | None => windowed l hi cs
      end
  end.

(** The leader asks for the blocks of a chain one after the other ([asked]
    blocks so far), learns of its own blocks in order ([clk] is the newest one),
    and the chain ids are in range. *)
Fixpoint sequential (l : nat) (asked : nat → nat) (clk : Z) (cs : list call) : Prop :=
  match cs with
  | [] => True
  | GetBlockOrder g b :: cs =>
      g < MAX_GROUP_SIZE ∧ b ≤ asked g ∧
      sequential l (λ x, if decide (x = g) then asked g `max` S b else asked x) clk cs
  | (AddVote g _ _ | GetVotes g _) :: cs => g < MAX_GROUP_SIZE ∧ sequential l asked clk cs
  | IncreaseClock g b :: cs =>
      if decide (l = g) then
        (Z.of_nat b - 1 ≤ clk)%Z ∧ sequential l asked (clk `max` Z.of_nat b)%Z cs
      else sequential l asked clk cs
  end.

(** ** What the votes of an assigner satisfy *)

(** The order of the votes of one group: watermarks given to blocks of other
    groups never decrease. *)
Definition vote_le (l : nat) (x y : vote) : Prop := x.1.1 ≠ l → y.1.1 ≠ l → (x.2 ≤ y.2)%Z.

Record log_ok (l : nat) (log : list vote) : Prop := {
  log_sorted : StronglySorted (vote_le l) log;
  log_once : NoDup (log.*1);
  log_own b w : (l, b, w) ∈ log → w = Z.of_nat b;
  log_low x : x ∈ log → (-1 ≤ x.2)%Z;
  log_order l1 g b w l2 : log = l1 ++ (g, S b, w) :: l2 → (g, b) ∈ l1.*1
}.

Section assigner.
Context (l : nat).

(** The slots against the blocks looked at ([hi]) and asked for ([asked]). *)
Record slots_ok (hi asked : nat → nat) (m : Slots) : Prop := {
  slots_hi g r : slotBlock (slot m (g, r)) ≤ hi g;
  slots_ring g r : slotBlock (slot m (g, r)) = 0 ∨ slotBlock (slot m (g, r)) mod MAX_BLOCK_QUEUE_SIZE = r;
  slots_fin g b : slotBlock (slot m (ring g b)) = b → finished (slot m (ring g b)) = true → b < asked g;
  slots_asked g b : b < asked g →
    b < slotBlock (slot m (ring g b)) ∨
    (slotBlock (slot m (ring g b)) = b ∧ finished (slot m (ring g b)) = true)
}.

Record oa_ok (hi asked : nat → nat) (past : list vote) (oa : OA) : Prop := {
  oa_local : localChain oa = l;
  oa_clock : (-1 ≤ myClock oa)%Z;
  oa_slots : slots_ok hi asked (blockVotes oa);
  oa_past g b : (g, b) ∈ past.*1 ↔ b < asked g;
  oa_below x : x ∈ past → x.1.1 ≠ l → (x.2 ≤ myClock oa)%Z;
  oa_log : log_ok l past
}.

Lemma slot_insert m k k' s : slot (<[k := s]> m) k' = if decide (k = k') then s else slot m k'.
Proof.
  unfold slot. destruct (decide (k = k')) as [->|]; [by rewrite lookup_insert_eq|by rewrite lookup_insert_ne].
Qed.

Lemma ring_inj g b g' b' : ring g b = ring g' b' → g = g' ∧ b mod MAX_BLOCK_QUEUE_SIZE = b' mod MAX_BLOCK_QUEUE_SIZE.
Proof. unfold ring. naive_solver. Qed.

(** A call inside the window never meets a newer block in its slot. *)
Lemma not_stale hi asked m g b :
  slots_ok hi asked m → hi g < b + MAX_BLOCK_QUEUE_SIZE → slotBlock (slot m (ring g b)) ≤ b.
Proof.
  intros Hm Hhi. unfold ring. pose proof (slots_hi _ _ _ Hm g (b mod MAX_BLOCK_QUEUE_SIZE)) as Hle.
  destruct (slots_ring _ _ _ Hm g (b mod MAX_BLOCK_QUEUE_SIZE)) as [->|Hr]; [lia|].
  set (s := slotBlock _) in *. unfold MAX_BLOCK_QUEUE_SIZE in *.
  pose proof (Nat.div_mod_eq s 256). pose proof (Nat.div_mod_eq b 256). lia.
Qed.

(** Writing the slot of block [b] with number [b]. *)
Lemma slots_write hi asked asked' m g b vs f :
  slots_ok hi asked m → hi g < b + MAX_BLOCK_QUEUE_SIZE →
  (∀ g', g' ≠ g → asked' g' = asked g') →
  (asked' g = asked g ∧ (f = true ↔ b < asked g) ∨ asked' g = S b ∧ asked g = b ∧ f = true) →
  slots_ok (λ x, if decide (x = g) then hi g `max` b else hi x) asked'
    (<[ring g b := mkSlot b vs f]> m).
Proof.
  intros Hm Hw Hother Hg. pose proof (not_stale _ _ _ _ _ Hm Hw) as Hst.
  split; intros g' b'; rewrite slot_insert.
  - case_decide as E; simpl.
    + unfold ring in E. simplify_eq. rewrite decide_True by done. lia.
    + pose proof (slots_hi _ _ _ Hm g' b'). case_decide; subst; lia.
  - case_decide as E; simpl.
    + unfold ring in E. simplify_eq. by right.
    + apply Hm.
  - case_decide as E; simpl.
    + apply ring_inj in E as [<- _]. intros <- ->.
      destruct Hg as [[-> Hf]|(-> & _ & _)]; [by apply Hf|lia].
    + intros Hs Hf. pose proof (slots_fin _ _ _ Hm g' b' Hs Hf).
      destruct (decide (g' = g)) as [->|Hne]; [|by rewrite Hother].
      destruct Hg as [[-> _]|(-> & ? & _)]; lia.
  - case_decide as E; simpl; intros Hb'.
    + apply ring_inj in E as [<- Hmod].
      destruct (decide (b' = b)) as [->|Hne]; [right; split; [done|]|].
      { destruct Hg as [[Ha Hf]|(_ & _ & ->)]; [|done]. apply Hf. lia. }
      left. assert (b' < asked g) as Hlt by (destruct Hg as [[Ha _]|(Ha & Hb & _)]; lia).
      destruct (slots_asked _ _ _ Hm g b' Hlt) as [Hs|[Hs _]]; unfold ring in *; rewrite <-Hmod in Hs; lia.
    + destruct (decide (g' = g)) as [->|Hne]; [|rewrite Hother in Hb' by done; by apply Hm].
      assert (b' ≠ b) by (by intros ->). apply Hm. destruct Hg as [[Ha _]|(Ha & Hb & _)]; lia.
Qed.

Lemma getRef_ok hi asked m g b :
  slots_ok hi asked m → hi g < b + MAX_BLOCK_QUEUE_SIZE → g < MAX_GROUP_SIZE →
  ∃ vs f, getRef m g b = Some (<[ring g b := mkSlot b vs f]> m, mkSlot b vs f) ∧
    (f = true ↔ b < asked g).
Proof.
  intros Hm Hw Hg. unfold getRef. rewrite bool_decide_true by done.
  pose proof (not_stale _ _ _ _ _ Hm Hw) as Hst.
  pose proof (slots_asked _ _ _ Hm g b) as Ha. pose proof (slots_fin _ _ _ Hm g b) as Hf.
  destruct (slot m (ring g b)) as [sb vs f]; simpl in *. case_bool_decide.
  - exists ∅, false. split; [done|]. split; [done|]. intros Hlt. destruct (Ha Hlt) as [?|[? _]]; lia.
  - assert (sb = b) as -> by lia. exists vs, f. split; [done|]. split; [by apply Hf|].
    intros Hlt. destruct (Ha Hlt) as [?|[_ ?]]; [lia|done].
Qed.

Lemma log_ok_snoc past g b w :
  log_ok l past → (g, b) ∉ past.*1 → (g = l → w = Z.of_nat b) → (-1 ≤ w)%Z →
  (g ≠ l → ∀ x, x ∈ past → x.1.1 ≠ l → (x.2 ≤ w)%Z) →
  (∀ b', b = S b' → (g, b') ∈ past.*1) → log_ok l (past ++ [(g, b, w)]).
Proof.
  intros [Hs Hn Ho Hl Hor] Hnin Hown Hlow Hle Hprev. split.
  - clear -Hs Hle. induction Hs as [|x past Hs IH Hf]; simpl; [by repeat constructor|].
    constructor; [apply IH; set_solver|]. apply Forall_app. split; [done|].
    constructor; [|done]. intros ??. apply Hle; set_solver.
  - rewrite fmap_app. apply NoDup_app. split_and!; [done| |by apply NoDup_singleton].
    intros x Hx Hx'. apply list_elem_of_singleton in Hx' as ->. done.
  - intros b' w'. rewrite elem_of_app, list_elem_of_singleton. intros [?|[= -> -> ->]]; auto.
  - intros x. rewrite elem_of_app, list_elem_of_singleton. intros [?| ->]; auto.
  - intros l1 g' b' w' l2 E. destruct l2 as [|y l2 _] using rev_ind.
    + apply app_inj_2 in E as [<- [= <- Hb <-]]; [auto|done].
    + rewrite app_comm_cons, app_assoc in E. apply app_inj_2 in E as [-> _]; [|done]. eauto.
Qed.

(** One call: the assigner moves from (hi, asked, past) to the trackers of the
    rest of the run, and votes exactly when a new block is asked for. *)
Lemma touch_ok hi asked past oa g b vs f :
  oa_ok hi asked past oa → hi g < b + MAX_BLOCK_QUEUE_SIZE → (f = true ↔ b < asked g) →
  oa_ok (λ x, if decide (x = g) then hi g `max` b else hi x) asked past
    (mkOA (myClock oa) (localChain oa) (<[ring g b := mkSlot b vs f]> (blockVotes oa))).
Proof.
  intros [Hl Hc Hm Hp Hb Hlog] Hw Hf. split; simpl; try done.
  eapply slots_write; [done..|]. auto.
Qed.

Lemma ask_ok hi asked past oa g vs :
  oa_ok hi asked past oa → hi g < asked g + MAX_BLOCK_QUEUE_SIZE →
  oa_ok (λ x, if decide (x = g) then hi g `max` asked g else hi x)
    (λ x, if decide (x = g) then S (asked g) else asked x)
    (past ++ [(g, asked g, if decide (g = l) then Z.of_nat (asked g) else myClock oa)])
    (mkOA (myClock oa) (localChain oa) (<[ring g (asked g) := mkSlot (asked g) vs true]> (blockVotes oa))).
Proof.
  intros [Hl Hc Hm Hp Hb Hlog] Hw. split; simpl; try done.
  - eapply slots_write; [done..| |].
    + intros g' Hne. by rewrite decide_False.
    + right. by rewrite decide_True.
  - intros g' b'. rewrite fmap_app, elem_of_app, Hp. simpl. rewrite list_elem_of_singleton.
    case_decide as E; [subst g'|]; split; [intros [?|[= ->]]; lia|..|intros [?|[= ??]]; done|by left].
    intros ?. destruct (decide (b' = asked g)) as [->|]; [by right|left; lia].
  - intros x. rewrite elem_of_app, list_elem_of_singleton. intros [?| ->] ?; [auto|].
    simpl in *. by rewrite decide_False.
  - apply log_ok_snoc; [done|..].
    + rewrite Hp. lia.
    + intros ->. by rewrite decide_True.
    + case_decide; [lia|done].
    + intros Hne x Hx Hxl. rewrite decide_False by done. auto.
    + intros b' Hb'. apply Hp. lia.
Qed.

Lemma oa_ok_ext hi hi' asked asked' past oa :
  (∀ x, hi x = hi' x) → (∀ x, asked x = asked' x) → oa_ok hi asked past oa → oa_ok hi' asked' past oa.
Proof.
  intros Hh Ha [? ? [????] ? ? ?]. split; [done..| | |done|done].
  - split; intros; rewrite <-?Hh, <-?Ha in *; auto.
  - intros. by rewrite <-Ha.
Qed.

Lemma getBlockOrder_ok hi asked past oa g b :
  oa_ok hi asked past oa → hi g < b + MAX_BLOCK_QUEUE_SIZE → g < MAX_GROUP_SIZE → b ≤ asked g →
  ∃ oa' r, getBlockOrder oa g b = Some (oa', r) ∧ myClock oa' = myClock oa ∧
    oa_ok (λ x, if decide (x = g) then hi g `max` b else hi x)
      (λ x, if decide (x = g) then asked g `max` S b else asked x)
      (past ++ option_list ((λ r : nat * Z, (g, b, r.2)) <$> r)) oa'.
Proof.
  intros Hoa Hw Hg Hle. unfold getBlockOrder.
  destruct (getRef_ok hi asked (blockVotes oa) g b) as (vs & f & -> & Hf); [apply Hoa|done..|].
  cbn [mbind option_bind finished slotBlock slotVotes]. destruct f.
  - eexists _, None. split_and!; [done..|]. simpl. rewrite app_nil_r.
    eapply oa_ok_ext; [done| |by apply touch_ok]. intros x. cbv beta. case_decide as E; [subst x|done]. assert (b < asked g) by (by apply Hf). lia.
  - assert (b = asked g) as -> by (destruct Hf as [_ Hf]; destruct (decide (b < asked g)); [naive_solver|lia]).
    eexists _, _. split_and!; [done..|]. rewrite insert_insert_eq.
    assert (E : (if bool_decide (localChain oa = g) then (localChain oa, Z.of_nat (asked g))
      else (localChain oa, myClock oa)).2 = if decide (g = l) then Z.of_nat (asked g) else myClock oa).
    { rewrite (oa_local _ _ _ _ Hoa). repeat case_bool_decide; repeat case_decide; naive_solver. }
    simpl. rewrite E.
    eapply oa_ok_ext; [done| |by apply ask_ok]. clear E. intros x. cbv beta. case_decide; [lia|done].
Qed.

Lemma addVote_ok hi asked past oa g b v :
  oa_ok hi asked past oa → g ≠ l → hi g < b + MAX_BLOCK_QUEUE_SIZE → g < MAX_GROUP_SIZE →
  ∃ oa' r, addVoteForBlock oa g b v = Some (oa', r) ∧ myClock oa' = myClock oa ∧
    oa_ok (λ x, if decide (x = g) then hi g `max` b else hi x) asked past oa'.
Proof.
  intros Hoa Hne Hw Hg. unfold addVoteForBlock.
  rewrite bool_decide_false by (rewrite (oa_local _ _ _ _ Hoa); done).
  destruct (getRef_ok hi asked (blockVotes oa) g b) as (vs & f & -> & Hf); [apply Hoa|done..|].
  cbn [mbind option_bind finished slotBlock slotVotes].
  destruct f; eexists _, _; (split_and!; [done..|]); rewrite ?insert_insert_eq; by apply touch_ok.
Qed.

Lemma getVote_ok hi asked past oa g b :
  oa_ok hi asked past oa → g ≠ l → hi g < b + MAX_BLOCK_QUEUE_SIZE → g < MAX_GROUP_SIZE →
  ∃ oa' r, getVoteForBlock oa g b = Some (oa', r) ∧ myClock oa' = myClock oa ∧
    oa_ok (λ x, if decide (x = g) then hi g `max` b else hi x) asked past oa'.
Proof.
  intros Hoa Hne Hw Hg. unfold getVoteForBlock.
  rewrite bool_decide_false by (rewrite (oa_local _ _ _ _ Hoa); done).
  destruct (getRef_ok hi asked (blockVotes oa) g b) as (vs & f & -> & Hf); [apply Hoa|done..|].
  eexists _, _. split_and!; [done..|]. by apply touch_ok.
Qed.

Lemma local_calls_ok oa b v :
  localChain oa = l →
  addVoteForBlock oa l b v = Some (oa, None) ∧ getVoteForBlock oa l b = Some (oa, None).
Proof.
  intros Hl. unfold addVoteForBlock, getVoteForBlock. by rewrite !bool_decide_true.
Qed.

Lemma increase_ok hi asked past oa b :
  oa_ok hi asked past oa → (Z.of_nat b - 1 ≤ myClock oa)%Z →
  ∃ oa' r, increaseLocalClock oa l b = Some (oa', r) ∧
    myClock oa' = (myClock oa `max` Z.of_nat b)%Z ∧ oa_ok hi asked past oa'.
Proof.
  intros Hoa Hb. unfold increaseLocalClock.
  rewrite bool_decide_true by (by rewrite (oa_local _ _ _ _ Hoa)).
  destruct (Z.ltb_spec (Z.of_nat b - 1) (myClock oa)).
  - exists oa, false. split_and!; [done|lia|done].
  - destruct (Z.eqb_spec (Z.of_nat b - 1) (myClock oa)); [|lia].
    eexists _, true. split_and!; [done|simpl; lia|]. destruct Hoa as [? ? ? ? Hbelow ?].
    split; simpl; [done|lia|done|done| |done]. intros x Hx Hne. specialize (Hbelow x Hx Hne). lia.
Qed.

Lemma assign_ok cs hi asked past oa :
  oa_ok hi asked past oa → windowed l hi cs → sequential l asked (myClock oa) cs →
  ∃ oa' log, assign oa cs = Some (oa', log) ∧ log_ok l (past ++ log).
Proof.
  revert hi asked past oa. induction cs as [|c cs IH]; intros hi asked past oa Hoa Hw Hs.
  { exists oa, []. rewrite app_nil_r. split; [done|apply Hoa]. }
  destruct c as [g b|g b v|g b|g b]; cbn [windowed touched sequential assign perform] in *.
  - destruct Hw as [Hw Hws], Hs as (Hg & Hb & Hs).
    destruct (getBlockOrder_ok hi asked past oa g b) as (oa1 & r & -> & Hc & H1); [done..|].
    rewrite <-Hc in Hs. destruct (IH _ _ _ _ H1 Hws Hs) as (oa' & log & E & Hlog).
    cbn. rewrite E. cbn. eexists _, _. split; [done|]. by rewrite app_assoc.
  - destruct Hs as [Hg Hs], (decide (l = g)) as [<-|Hne].
    + destruct (local_calls_ok oa b v) as [-> _]; [apply Hoa|]. cbn.
      destruct (IH _ _ _ _ Hoa Hw Hs) as (oa' & log & -> & Hlog). by eexists _, _.
    + destruct Hw as [Hw Hws].
      destruct (addVote_ok hi asked past oa g b v) as (oa1 & r & -> & Hc & H1); [done..|].
      rewrite <-Hc in Hs. destruct (IH _ _ _ _ H1 Hws Hs) as (oa' & log & E & Hlog).
      cbn. rewrite E. by eexists _, _.
  - destruct Hs as [Hg Hs], (decide (l = g)) as [<-|Hne].
    + destruct (local_calls_ok oa b 0) as [_ ->]; [apply Hoa|]. cbn.
      destruct (IH _ _ _ _ Hoa Hw Hs) as (oa' & log & -> & Hlog). by eexists _, _.
    + destruct Hw as [Hw Hws].
      destruct (getVote_ok hi asked past oa g b) as (oa1 & r & -> & Hc & H1); [done..|].
      rewrite <-Hc in Hs. destruct (IH _ _ _ _ H1 Hws Hs) as (oa' & log & E & Hlog).
      cbn. rewrite E. by eexists _, _.
  - destruct (decide (l = g)) as [<-|Hne].
    + destruct Hs as [Hb Hs].
      destruct (increase_ok hi asked past oa b) as (oa1 & r & -> & Hc & H1); [done..|].
      rewrite <-Hc in Hs. destruct (IH _ _ _ _ H1 Hw Hs) as (oa' & log & E & Hlog).
      cbn. rewrite E. by eexists _, _.
    + unfold increaseLocalClock. rewrite bool_decide_false by (by rewrite (oa_local _ _ _ _ Hoa)).
      cbn. destruct (IH _ _ _ _ Hoa Hw Hs) as (oa' & log & -> & Hlog). by eexists _, _.
Qed.

Lemma newAssigner_ok : oa_ok (λ _, 0) (λ _, 0) [] (newAssigner l).
Proof.
  split; simpl; [done|lia| | |set_solver|].
  - split; intros; unfold slot in *; rewrite lookup_empty in *; simpl in *; [lia|by left|done|lia].
  - intros. split; [by intros ?%elem_of_nil|lia].
  - split; [constructor|apply NoDup_nil_2|set_solver..|].
    intros [|??]; intros; simplify_eq.
Qed.

End assigner.

(** The calls of a run of group [l] that meet the assumptions of the code. *)
Definition calls_ok (l : nat) (cs : list call) : Prop :=
  windowed l (λ _, 0) cs ∧ sequential l (λ _, 0) (-1)%Z cs.

Lemma votes_of_assigner l cs :
  calls_ok l cs → ∃ oa log, assign (newAssigner l) cs = Some (oa, log) ∧ log_ok l log.
Proof.
  intros [Hw Hs]. destruct (assign_ok l cs _ _ _ _ (newAssigner_ok l) Hw Hs) as (oa & log & E & H).
  eauto.
Qed.

(** C15: an order assigner whose calls are not stale and come block by block
    votes at most once for a block, gives its own blocks their number, never
    lowers the watermarks it gives to other groups' blocks, and votes for the
    blocks of a chain in order; no call fails its [CHECK]. *)
Theorem assigner_votes l cs :
  calls_ok l cs → ∃ oa log, assign (newAssigner l) cs = Some (oa, log) ∧ log_ok l log.
Proof. apply votes_of_assigner. Qed.

(** A leader of group 0 that learns of its own blocks and of those of group 1. *)
Definition sample_calls : list call :=
  [GetBlockOrder 1 0; AddVote 1 0 2; GetBlockOrder 0 0; IncreaseClock 0 0;
   AddVote 1 1 2; GetVotes 1 1; GetBlockOrder 1 1; GetBlockOrder 1 1; IncreaseClock 0 0].

Example sample_votes :
  option_map snd (assign (newAssigner 0) sample_calls) = Some [(1, 0, (-1)%Z); (0, 0, 0%Z); (1, 1, 0%Z)].
Proof. vm_compute. reflexivity. Qed.

Lemma sample_calls_ok : calls_ok 0 sample_calls.
Proof. split; vm_compute; repeat split; first [lia|done]. Qed.

Lemma assigner_votes_witness :
  ∃ oa log, assign (newAssigner 0) sample_calls = Some (oa, log) ∧ log_ok 0 log.
Proof. apply (assigner_votes 0 sample_calls). apply sample_calls_ok. Defined.
