(* ===== verification/InterChainOrder.v ===== *)
(** * Inter-chain block ordering

    [peer::consensus::v2::InterChainOrderManager]
    (include/peer/consensus/block_order/interchain_order_manager.h): the
    component that merges the chains of all groups into one global order.
    Every block carries a vector of watermarks, one per voting group; a block
    is delivered when it must be smaller than the next block of every chain.

    The cells of all chains form the shared store; a [Cell*] is the position of
    the cell in it (its chain and its index in the chain), so the commit buffer
    and the chains see the same cells.  Group and block numbers index vectors
    and are natural numbers; watermarks are integers ([-1] is "unknown").  An
    access out of a vector's range is undefined in C++ and is [None] here, as is
    a failed [CHECK]; the theorems that a run returns therefore exclude both.
    [deliverCallback] appends to the trace [delivered]. *)

From S2P Require Import Prelude.

(** ** Data *)

Definition INVALID_WATERMARK : Z := -1.

Record Cell := mkCell {
  groupId : nat;
  blockId : nat;
  watermarks : list Z;
  real : list bool
}.

Record Chain := mkChain { height : Z; cells : list Cell }.

Notation ptr := (nat * nat)%type.

(** The manager: [chains], the members of [heads : CommitBuffer] ([buffer] and
    the groups whose [invalidateMap] slot is set), and the delivered blocks. *)
Record OM := mkOM {
  chains : list Chain;
  buffer : list ptr;
  invalidateMap : gset nat;
  delivered : list (nat * nat)
}.

Definition set_chains (om : OM) cs :=
  mkOM cs (buffer om) (invalidateMap om) (delivered om).

(** *** The store of cells *)

Definition deref (cs : list Chain) (p : ptr) : option Cell :=
  ch ← cs !! p.1; cells ch !! p.2.

Definition store (cs : list Chain) (p : ptr) (c : Cell) : list Chain :=
  alter (λ ch, mkChain (height ch) (<[p.2 := c]> (cells ch))) p.1 cs.

(** ** Cell *)

Definition setIthWaterMark (c : Cell) (i : nat) (value : Z) : option (Cell * bool) :=
  r ← real c !! i;
  if (r : bool) then Some (c, false) else
  w ← watermarks c !! i;
  CHECK (w <=? value)%Z ;;
  Some (mkCell (groupId c) (blockId c) (<[i := value]> (watermarks c))
               (<[i := true]> (real c)), true).

Definition newCell (groupCount g b : nat) : option Cell :=
  fst <$> setIthWaterMark
    (mkCell g b (replicate groupCount INVALID_WATERMARK) (replicate groupCount false))
    g (Z.of_nat b).

(** The loop of [mustLessThan] over the four vectors; [None] when it falls
    through.  All vectors have the length of the group count. *)
Fixpoint less_loop (lw : list Z) (lr : list bool) (rw : list Z) (rr : list bool)
    : option bool :=
  match lw, lr, rw, rr with
  | w :: lw, true :: lr, w' :: rw, r' :: rr =>
      if (w <? w')%Z then Some true
      else if r' && (w =? w')%Z then less_loop lw lr rw rr
      else Some false
  | [], _, _, _ => None
  | _, _, _, _ => Some false
  end.

Definition mustLessThan (cs : list Chain) (this rhs : ptr) : option bool :=
  l ← deref cs this;
  r ← deref cs rhs;
  if bool_decide (groupId l = groupId r ∧ blockId l = blockId r) then
    CHECK bool_decide (this = rhs) ;; Some true
  else
    match less_loop (watermarks l) (real l) (watermarks r) (real r) with
    | Some b => Some b
    | None =>
        if bool_decide (blockId l ≠ blockId r)
        then Some (bool_decide (blockId l < blockId r))
        else Some (bool_decide (groupId l < groupId r))
    end.

(** ** CommitBuffer *)

Definition push (om : OM) (p : ptr) : option OM :=
  c ← deref (chains om) p;
  CHECK bool_decide (groupId c = length (buffer om)) ;;
  Some (mkOM (chains om) (buffer om ++ [p]) (invalidateMap om) (delivered om)).

Fixpoint canPop (cs : list Chain) (lft : ptr) (buf : list ptr) : option bool :=
  match buf with
  | [] => Some true
  | rgt :: buf =>
      b ← mustLessThan cs lft rgt;
      if (b : bool) then canPop cs lft buf else Some false
  end.

Fixpoint findMinimum (cs : list Chain) (all buf : list ptr) : option (option ptr) :=
  match buf with
  | [] => Some None
  | lft :: buf =>
      b ← canPop cs lft all;
      if (b : bool) then Some (Some lft) else findMinimum cs all buf
  end.

Definition globalMinimum (om : OM) : option (option ptr) :=
  CHECK bool_decide (buffer om ≠ []) ;;
  findMinimum (chains om) (buffer om) (buffer om).

(** The estimates a new head inherits: entry by entry, the loop over [i]. *)
Fixpoint inherit (pw nw : list Z) (nr : list bool) : option (list Z) :=
  match pw, nw, nr with
  | p :: pw, w :: nw, r :: nr =>
      rest ← inherit pw nw nr;
      if (r : bool) then CHECK (p <=? w)%Z ;; Some (w :: rest) else Some (p :: rest)
  | [], _, _ => Some []
  | _, _, _ => None
  end.

(** The loop over [invalidateMap]: distinct keys touch distinct entries. *)
Definition mark_invalid (inv : gset nat) (pw nw : list Z) (nr : list bool)
    : list Z * list bool :=
  (imap (λ i w, if bool_decide (i ∈ inv) then pw !!! i else w) nw,
   imap (λ i r, if bool_decide (i ∈ inv) then true else r) nr).

Definition exchange (om : OM) (prev next : ptr) : option OM :=
  pc ← deref (chains om) prev;
  nc ← deref (chains om) next;
  h ← buffer om !! groupId pc;
  CHECK bool_decide (h = prev) ;;
  CHECK bool_decide (S (blockId pc) = blockId nc) ;;
  CHECK bool_decide (groupId pc = groupId nc) ;;
  CHECK bool_decide (length (watermarks pc) = length (watermarks nc)) ;;
  ws ← inherit (watermarks pc) (watermarks nc) (real nc);
  let '(ws', rs') := mark_invalid (invalidateMap om) (watermarks pc) ws (real nc) in
  Some (mkOM (store (chains om) next (mkCell (groupId nc) (blockId nc) ws' rs'))
             (<[groupId nc := next]> (buffer om)) (invalidateMap om) (delivered om)).

Fixpoint updateEstimate (cs : list Chain) (buf : list ptr) (g : nat) (watermark : Z)
    : option (list Chain) :=
  match buf with
  | [] => Some cs
  | it :: buf =>
      c ← deref cs it;
      r ← real c !! g;
      if (r : bool) then updateEstimate cs buf g watermark else
      CHECK bool_decide (groupId c ≠ g) ;;
      e ← watermarks c !! g;
      CHECK (e <=? watermark)%Z ;;
      updateEstimate
        (store cs it (mkCell (groupId c) (blockId c) (<[g := watermark]> (watermarks c)) (real c)))
        buf g watermark
  end.

Fixpoint invalidateHeads (cs : list Chain) (buf : list ptr) (g : nat) (ht : Z)
    : option (list Chain) :=
  match buf with
  | [] => Some cs
  | it :: buf =>
      c ← deref cs it;
      e ← watermarks c !! g;
      CHECK (e <=? ht)%Z ;;
      invalidateHeads
        (store cs it (mkCell (groupId c) (blockId c) (watermarks c) (<[g := true]> (real c))))
        buf g ht
  end.

Definition heads_invalidateChain (om : OM) (g : nat) (ht : Z) : option OM :=
  if bool_decide (g ∈ invalidateMap om) then Some om else
  cs ← invalidateHeads (chains om) (buffer om) g ht;
  Some (mkOM cs (buffer om) ({[g]} ∪ invalidateMap om) (delivered om)).

(** ** InterChainOrderManager *)

(** The [while] of [createBlockIfNotExist]: [k] more cells are missing.  Every
    cell it creates carries the block number asked for. *)
Fixpoint expand (n g b k : nat) (l : list Cell) : option (list Cell) :=
  match k with
  | 0 => Some l
  | S k => c ← newCell n g b; expand n g b k (l ++ [c])
  end.

Definition createBlockIfNotExist (om : OM) (g b : nat) : option (OM * ptr) :=
  ch ← chains om !! g;
  l ← expand (length (chains om)) g b (S b - length (cells ch)) (cells ch);
  Some (set_chains om (<[g := mkChain (height ch) l]> (chains om)), (g, b)).

Definition deliver (om : OM) (p : ptr) : option OM :=
  c ← deref (chains om) p;
  Some (mkOM (chains om) (buffer om) (invalidateMap om)
             (delivered om ++ [(groupId c, blockId c)])).

(** The [while] of [popBlocks] for at most [fuel] iterations; the flag tells
    whether the loop ended. *)
Fixpoint popBlocks (fuel : nat) (om : OM) : option (bool * OM) :=
  match fuel with
  | 0 => Some (false, om)
  | S fuel =>
      m ← globalMinimum om;
      match m with
      | None => Some (true, om)
      | Some prev =>
          om1 ← deliver om prev;
          c ← deref (chains om1) prev;
          x ← createBlockIfNotExist om1 (groupId c) (S (blockId c));
          om3 ← exchange x.1 prev x.2;
          popBlocks fuel om3
      end
  end.

Fixpoint init_heads (om : OM) (i k : nat) : option OM :=
  match k with
  | 0 => Some om
  | S k => x ← createBlockIfNotExist om i 0; om' ← push x.1 x.2; init_heads om' (S i) k
  end.

(** [setGroupCount] on a new manager. *)
Definition setGroupCount (count : nat) : option OM :=
  init_heads (mkOM (replicate count (mkChain (-1) [])) [] ∅ []) 0 count.

Definition raise_height (cs : list Chain) (g : nat) (h : Z) : list Chain :=
  alter (λ ch, mkChain (Z.max (height ch) h) (cells ch)) g cs.

Definition pushDecision (fuel : nat) (om : OM) (g b voteGroupId : nat) (w : Z)
    : option (bool * OM) :=
  if bool_decide (length (chains om) = 1) then
    x ← createBlockIfNotExist om g b; om' ← deliver x.1 x.2; Some (true, om')
  else if bool_decide (voteGroupId = g) then Some (true, om)
  else
    x ← createBlockIfNotExist om g b;
    let '(om1, p) := x in
    c ← deref (chains om1) p;
    s ← setIthWaterMark c voteGroupId w;
    let '(c', fresh) := s in
    let cs := store (chains om1) p c' in
    if negb fresh then Some (true, set_chains om1 cs) else
    CHECK bool_decide (is_Some (cs !! voteGroupId)) ;;
    let cs := raise_height cs voteGroupId w in
    let cs := raise_height cs g (Z.of_nat b) in
    cs ← updateEstimate cs (buffer om1) voteGroupId w;
    popBlocks fuel (set_chains om1 cs).

Definition invalidateChain (fuel : nat) (om : OM) (g : nat) : option (bool * OM) :=
  ch ← chains om !! g;
  om' ← heads_invalidateChain om g (height ch);
  popBlocks fuel om'.

(** ** Runs *)

(** What a replica applies, in order: a vote of a group for a block, or the
    invalidation of a chain. *)
Inductive decision :=
| Vote (g b v : nat) (w : Z)
| Invalidate (g : nat).

Definition apply_decision (fuel : nat) (om : OM) (d : decision) : option (bool * OM) :=
  match d with
  | Vote g b v w => pushDecision fuel om g b v w
  | Invalidate g => invalidateChain fuel om g
  end.

(** A run ends early when a call never returns. *)
Fixpoint apply_all (fuel : nat) (om : OM) (ds : list decision) : option (bool * OM) :=
  match ds with
  | [] => Some (true, om)
  | d :: ds =>
      r ← apply_decision fuel om d;
      if (r.1 : bool) then apply_all fuel r.2 ds else Some r
  end.

Definition replica (fuel count : nat) (ds : list decision) : option (bool * OM) :=
  om ← setGroupCount count; apply_all fuel om ds.

(** The unit tests of the repository (BasicTest1 to BasicTest4). *)
Definition order_of (r : option (bool * OM)) : option (bool * list (nat * nat)) :=
  (λ x, (x.1, delivered x.2)) <$> r.

Example BasicTest1 :
  order_of (replica 20 3 [Vote 0 0 1 (-1); Vote 1 0 0 0; Vote 2 0 0 0; Vote 2 0 1 0])
  = Some (true, [(0, 0)]).
Proof. reflexivity. Qed.

Example BasicTest3 :
  order_of (replica 20 3 [Vote 0 0 1 (-1); Vote 1 0 0 (-1); Vote 1 1 0 0; Vote 1 2 0 0; Vote 1 3 0 1])
  = Some (true, [(1, 0); (0, 0); (1, 1); (1, 2)]).
Proof. vm_compute. reflexivity. Qed.

Example BasicTest4 :
  order_of (replica 20 3 [Vote 1 0 0 (-1); Vote 1 1 0 0; Vote 1 2 0 0; Vote 0 0 1 (-1);
                          Vote 0 1 1 2; Vote 1 3 0 1])
  = Some (true, [(1, 0); (0, 0); (1, 1); (1, 2)]).
Proof. vm_compute. reflexivity. Qed.
