(* ===== verification/InterChainProofs.v ===== *)
(** * Correctness of the inter-chain order manager

    The invariant that ties the cells of a replica to the watermark assignment
    [V], its preservation by every step of [pushDecision], termination of
    [popBlocks], and the theorems about runs: replicas agree, a run never fails
    a [CHECK], fully voted blocks are delivered.  [fifo] is what the manager
    assumes of the votes it is given. *)

From S2P Require Import Prelude VectorOrder InterChainOrder.
From Stdlib Require Import Sorting.Sorted.

(** ** The store of cells *)

Lemma deref_store cs p c q :
  deref (store cs p c) q =
  if decide (q = p) then (if deref cs p is Some _ then Some c else None) else deref cs q.
Proof.
  unfold deref, store. case_decide as E; [subst|].
  - rewrite list_lookup_alter_eq. destruct (cs !! p.1) as [ch|]; cbn; [|done].
    destruct (cells ch !! p.2) eqn:E'.
    + apply list_lookup_insert_eq. by eapply lookup_lt_Some.
    + rewrite lookup_ge_None in E' |- *. by rewrite length_insert.
  - destruct (decide (q.1 = p.1)) as [Hg|Hg]; [|by rewrite list_lookup_alter_ne].
    rewrite Hg, list_lookup_alter_eq. destruct (cs !! p.1) as [ch|]; cbn; [|done].
    apply list_lookup_insert_ne. destruct p, q; naive_solver.
Qed.

Lemma store_length cs p c : length (store cs p c) = length cs.
Proof. apply length_alter. Qed.

Lemma deref_store_is_Some cs p c q :
  is_Some (deref (store cs p c) q) ↔ is_Some (deref cs q).
Proof.
  rewrite deref_store. case_decide as E; [|done]. subst.
  destruct (deref cs p); split; intros [??]; eauto.
Qed.

Lemma deref_raise_height cs g h p : deref (raise_height cs g h) p = deref cs p.
Proof.
  unfold deref, raise_height. destruct (decide (p.1 = g)) as [->|].
  - rewrite list_lookup_alter_eq. by destruct (cs !! g).
  - by rewrite list_lookup_alter_ne.
Qed.

Lemma raise_height_length cs g h : length (raise_height cs g h) = length cs.
Proof. apply length_alter. Qed.

Lemma store_same cs p c : deref cs p = Some c → store cs p c = cs.
Proof.
  unfold deref, store. intros Hd. apply list_eq. intros i.
  destruct (decide (i = p.1)) as [->|]; [|by rewrite list_lookup_alter_ne].
  rewrite list_lookup_alter_eq. destruct (cs !! p.1) as [[h l]|] eqn:E; [|done].
  simpl in *. do 2 f_equal. by apply list_insert_id.
Qed.

Lemma deref_down cs g b b' : is_Some (deref cs (g, b)) → b' ≤ b → is_Some (deref cs (g, b')).
Proof.
  unfold deref; simpl. destruct (cs !! g) as [ch|]; simpl; [|intros [??]; done].
  rewrite !lookup_lt_is_Some. lia.
Qed.

Section manager.
Context (n : nat) (V : nat → nat → nat → Z) `{!VoteLaws V}.

(** ** The invariant *)

(** The votes applied so far, as (block, voter). *)
Definition votes : Type := list (nat * nat * nat).

(** [w] is below every watermark group [v] has still to send. *)
Definition lowb (S : votes) (v : nat) (w : Z) : Prop :=
  ∀ g b, g < n → g ≠ v → ((g, b), v) ∉ S → (w ≤ V g b v)%Z.

(** [w] is [-1] or a watermark already received from [v]. *)
Definition known (S : votes) (v : nat) (w : Z) : Prop :=
  w = (-1)%Z ∨ ∃ p : nat * nat, (p, v) ∈ S ∧ w = V p.1 p.2 v.

Definition entry_ok (S : votes) (p : ptr) (v : nat) (w : Z) (r : bool) : Prop :=
  (r = true ↔ v = p.1 ∨ (p, v) ∈ S) ∧
  (if r then w = V p.1 p.2 v else lowb S v w ∧ known S v w).

Record cell_ok (S : votes) (p : ptr) (c : Cell) : Prop := {
  ok_group : groupId c = p.1;
  ok_block : blockId c = p.2;
  ok_lenw : length (watermarks c) = n;
  ok_lenr : length (real c) = n;
  ok_entry v w r : watermarks c !! v = Some w → real c !! v = Some r → entry_ok S p v w r
}.

Record store_ok (S : votes) (cs : list Chain) : Prop := {
  ok_chains : length cs = n;
  ok_cells p c : deref cs p = Some c → cell_ok S p c;
  ok_room p v : (p, v) ∈ S → is_Some (deref cs p)
}.

Record votes_ok (S : votes) : Prop := {
  ok_voter p v : (p, v) ∈ S → p.1 ≠ v;
  ok_seen p v : (p, v) ∈ S → lowb S v (V p.1 p.2 v)
}.

(** The next block of chain [g] to deliver is block [k]. *)
Definition head_at (om : OM) (g k : nat) : Prop :=
  buffer om !! g = Some (g, k) ∧ is_Some (deref (chains om) (g, k)) ∧
  ∀ b, (g, b) ∈ delivered om ↔ b < k.

(** What makes a block deliverable, for the termination bound. *)
Definition justified (S : votes) (x : nat * nat) : Prop :=
  if decide (x.1 = 0) then ∃ p, (p, 0) ∈ S ∧ (Z.of_nat x.2 ≤ V p.1 p.2 0)%Z
  else (x, 0) ∈ S.

Record om_ok (S : votes) (om : OM) : Prop := {
  ok_votes : votes_ok S;
  ok_store : store_ok S (chains om);
  ok_buffer : length (buffer om) = n;
  ok_heads g : g < n → ∃ k, head_at om g k;
  ok_noinv : invalidateMap om = ∅;
  ok_segment : initial_segment (before n V) (λ x, x.1 < n) (delivered om);
  ok_justified : Forall (justified S) (delivered om)
}.

Lemma before_asym x y : before n V x y → before n V y x → False.
Proof. intros. eapply before_irrefl, before_trans; done. Qed.

Lemma lowb_mono S x v w : lowb S v w → lowb (x :: S) v w.
Proof. intros Hl g b ???. apply Hl; set_solver. Qed.

Lemma known_mono S x v w : known S v w → known (x :: S) v w.
Proof. intros [?|(p & ? & ?)]; [by left|right; exists p; set_solver]. Qed.

Lemma known_self S v p : (p, v) ∈ S → known S v (V p.1 p.2 v).
Proof. intros. right. eauto. Qed.

Hint Resolve lowb_mono known_mono known_self : mass.

(** ** Comparing two cells *)

Definition entry_sound (w : Z) (r : bool) (t : Z) : Prop := if r then w = t else (w ≤ t)%Z.

Lemma less_loop_sound lw lr lt rw rr rt :
  Forall3 entry_sound lw lr lt → Forall3 entry_sound rw rr rt → length lw = length rw →
  match less_loop lw lr rw rr with
  | Some true => lexcmp lt rt = Lt
  | Some false => True
  | None => lt = rt
  end.
Proof.
  intros Hl. revert rw rr rt.
  induction Hl as [|w r t lw lr lt Hw Hl IH]; intros rw rr rt Hr Hlen;
    inversion Hr as [|w' r' t' rw' rr' rt' Hw' Hr']; simplify_eq/=; [done|].
  destruct r; [|done]. simpl in Hw. subst w.
  destruct (Z.ltb_spec t w') as [Hlt|].
  - assert (t < t')%Z by (destruct r'; simpl in Hw'; lia). by zcmp.
  - destruct (r' && (t =? w')%Z) eqn:E; [|done]. bool_cases. subst r' w'.
    simpl in Hw'. subst t'.
    specialize (IH _ _ _ Hr' ltac:(lia)). rewrite Z.compare_refl.
    destruct (less_loop _ _ _ _) as [[]|]; [done..|by subst].
Qed.

(** Without estimates the loop decides the order. *)
Lemma less_loop_real m lt rt :
  length lt = m → length rt = m →
  less_loop lt (replicate m true) rt (replicate m true) =
  match lexcmp lt rt with Lt => Some true | Eq => None | Gt => Some false end.
Proof.
  revert lt rt. induction m as [|m IH]; intros [|a lt] [|b rt] ??; simplify_eq/=; [done|].
  destruct (Z.compare_spec a b), (Z.ltb_spec a b), (Z.eqb_spec a b); try lia; auto.
Qed.

Lemma cell_sound S p c :
  p.1 < n → cell_ok S p c → Forall3 entry_sound (watermarks c) (real c) (tsvec n V p).
Proof.
  intros Hp [Hg Hb Hw Hr He]. apply Forall3_lookup_2; unfold tsvec.
  - congruence.
  - rewrite length_fmap, length_seq. congruence.
  - intros v w r t Hlw Hlr Ht. apply list_lookup_fmap_Some in Ht as (v' & -> & Hv').
    apply lookup_seq in Hv' as [-> ?]. simpl.
    destruct (He v w r Hlw Hlr) as [Hiff Hv]. destruct r; simpl; [done|].
    destruct Hv as [Hl _]. destruct p. apply Hl; [done|naive_solver..].
Qed.

Lemma mustLessThan_sound S cs p q :
  store_ok S cs → p.1 < n → q.1 < n →
  is_Some (deref cs p) → is_Some (deref cs q) →
  ∃ b, mustLessThan cs p q = Some b ∧ (b = true → p = q ∨ before n V p q).
Proof.
  intros Hs Hp Hq [c Hc] [d Hd]. unfold mustLessThan. rewrite Hc, Hd. simpl.
  pose proof (ok_cells _ _ Hs _ _ Hc) as Okc. pose proof (ok_cells _ _ Hs _ _ Hd) as Okd.
  rewrite (ok_group _ _ _ Okc), (ok_group _ _ _ Okd), (ok_block _ _ _ Okc), (ok_block _ _ _ Okd).
  case_bool_decide as Heq.
  { assert (p = q) as -> by (destruct p, q; naive_solver).
    rewrite bool_decide_true by done. eauto. }
  pose proof (less_loop_sound _ _ _ _ _ _ (cell_sound _ _ _ Hp Okc) (cell_sound _ _ _ Hq Okd)) as Hl.
  rewrite (ok_lenw _ _ _ Okc), (ok_lenw _ _ _ Okd) in Hl. specialize (Hl eq_refl).
  destruct (less_loop _ _ _ _) as [[]|]; [eexists; split; [done|]..|].
  - intros _. right. apply before_intro. auto.
  - done.
  - case_bool_decide; eexists; (split; [done|]); rewrite bool_decide_eq_true;
      intros ?; right; apply before_intro; right; (split; [done|]); naive_solver lia.
Qed.

Lemma less_loop_head lw lr rw rr :
  lw ≠ [] → less_loop lw lr rw rr ≠ Some false →
  ∃ w w', lw !! 0 = Some w ∧ lr !! 0 = Some true ∧ rw !! 0 = Some w' ∧ (w ≤ w')%Z.
Proof.
  destruct lw as [|w lw], lr as [|[] lr], rw as [|w' rw], rr as [|r' rr]; simpl; try done.
  intros _ H. exists w, w'. split_and!; try done.
  destruct (Z.ltb_spec w w'); [lia|]. destruct r', (Z.eqb_spec w w'); simpl in *; try done; lia.
Qed.

(** A cell that must be less than a cell of another chain has been voted by
    group 0, or is a block of group 0 below a watermark received from it. *)
Lemma mustLessThan_justified S cs p q :
  store_ok S cs → 0 < n → (p.1 = 0 → q.1 ≠ 0) → p.1 ≠ q.1 →
  mustLessThan cs p q = Some true → justified S p.
Proof.
  intros Hs Hn H0 Hne. unfold mustLessThan.
  destruct (deref cs p) as [c|] eqn:Hc; [|done].
  destruct (deref cs q) as [d|] eqn:Hd; [|done]. simpl.
  pose proof (ok_cells _ _ Hs _ _ Hc) as Okc. pose proof (ok_cells _ _ Hs _ _ Hd) as Okd.
  rewrite bool_decide_false.
  2:{ rewrite (ok_group _ _ _ Okc), (ok_group _ _ _ Okd). naive_solver. }
  intros Hm. destruct (less_loop_head (watermarks c) (real c) (watermarks d) (real d))
    as (w & w' & Hw & Hr & Hw' & Hle).
  { intros E. pose proof (ok_lenw _ _ _ Okc) as Hl. rewrite E in Hl. simpl in Hl. lia. }
  { by intros E; rewrite E in Hm. }
  destruct (ok_entry _ _ _ Okc 0 w true Hw Hr) as [Hiff ->].
  clear Hm. unfold justified. case_decide as Hp.
  - destruct (lookup_lt_is_Some_2 (real d) 0) as [r Hr']; [rewrite (ok_lenr _ _ _ Okd); lia|].
    destruct (ok_entry _ _ _ Okd 0 w' r Hw' Hr') as [Hiff' Hv].
    destruct p as [g b]. simpl in *. subst g. rewrite vote_own in Hle.
    destruct r; simpl in Hv; [subst w'; exists q; split; [naive_solver|done]|].
    destruct Hv as [_ [->|(x & Hx & ->)]]; [lia|eauto].
  - destruct Hiff as [Hiff _]. destruct Hiff; [done|naive_solver|done].
Qed.

(** ** The minimum of the heads *)

Lemma canPop_sound S cs p buf :
  store_ok S cs → p.1 < n → is_Some (deref cs p) →
  Forall (λ q : ptr, q.1 < n ∧ is_Some (deref cs q)) buf →
  ∃ b, canPop cs p buf = Some b ∧
    (b = true → ∀ q, q ∈ buf → (p = q ∨ before n V p q) ∧ mustLessThan cs p q = Some true).
Proof.
  intros Hs Hp Hd. induction 1 as [|q buf [Hq Hdq] Hb IH]; simpl.
  { exists true. split; [done|]. intros _ q Hq. by apply elem_of_nil in Hq. }
  destruct (mustLessThan_sound S cs p q) as ([] & Hm & Hbf); [done..| |]; rewrite Hm; simpl.
  - destruct IH as (b & -> & HIH). exists b. split; [done|].
    intros ? x Hx. apply elem_of_cons in Hx as [->|Hx]; auto.
  - by exists false.
Qed.

Lemma findMinimum_sound S cs all buf :
  store_ok S cs →
  Forall (λ q : ptr, q.1 < n ∧ is_Some (deref cs q)) all →
  Forall (λ q : ptr, q.1 < n ∧ is_Some (deref cs q)) buf →
  ∃ m, findMinimum cs all buf = Some m ∧
    (∀ p, m = Some p → p ∈ buf ∧ ∀ q, q ∈ all →
       (p = q ∨ before n V p q) ∧ mustLessThan cs p q = Some true) ∧
    (m = None → ∀ p, p ∈ buf → canPop cs p all = Some false).
Proof.
  intros Hs Ha. induction 1 as [|q buf [Hq Hdq] Hb IH]; simpl.
  { exists None. split_and!; [done..|]. intros _ p Hp. by apply elem_of_nil in Hp. }
  destruct (canPop_sound S cs q all) as (b & E & Hm); [done..|]. rewrite E; simpl.
  destruct b.
  - exists (Some q). split_and!; [done| |done]. intros p [= <-]. split; [by left|auto].
  - destruct IH as (m & -> & Hs1 & Hs2). exists m. split_and!; [done| |].
    + intros p ->. destruct (Hs1 p) as [??]; [done|]. split; [by right|done].
    + intros -> p Hp. apply elem_of_cons in Hp as [->|Hp]; auto.
Qed.

Lemma buffer_ok S om :
  om_ok S om → Forall (λ q : ptr, q.1 < n ∧ is_Some (deref (chains om) q)) (buffer om).
Proof.
  intros Hom. apply Forall_lookup. intros g q Hq.
  assert (g < n) by (rewrite <-(ok_buffer _ _ Hom); by eapply lookup_lt_Some).
  destruct (ok_heads _ _ Hom g) as (k & Hb & ? & _); [done|]. by simplify_eq.
Qed.

Lemma head_in_buffer om g k : head_at om g k → (g, k) ∈ buffer om.
Proof. intros [Hb _]. by eapply list_elem_of_lookup_2. Qed.

(** The minimum of the heads, when there is one, is the smallest block not yet
    delivered. *)
Lemma globalMinimum_sound S om :
  2 ≤ n → om_ok S om →
  ∃ m, globalMinimum om = Some m ∧
    ∀ p, m = Some p →
      p.1 < n ∧ head_at om p.1 p.2 ∧ justified S p ∧
      ∀ y : nat * nat, y.1 < n → y ∉ delivered om → y = p ∨ before n V p y.
Proof.
  intros Hn Hom. unfold globalMinimum. rewrite bool_decide_true.
  2:{ intros E. pose proof (ok_buffer _ _ Hom) as Hl. rewrite E in Hl. simpl in Hl. lia. }
  destruct (findMinimum_sound S (chains om) (buffer om) (buffer om)) as (m & -> & Hm & _);
    [apply Hom|by eapply buffer_ok..|].
  exists m. split; [done|]. intros p ->. destruct (Hm p eq_refl) as [Hp Hall].
  pose proof (buffer_ok _ _ Hom) as Hbuf. rewrite Forall_forall in Hbuf.
  destruct (Hbuf p Hp) as [Hpn _].
  apply list_elem_of_lookup in Hp as [g Hg].
  assert (g < n) as Hgn by (rewrite <-(ok_buffer _ _ Hom); by eapply lookup_lt_Some).
  destruct (ok_heads _ _ Hom g Hgn) as (k & Hh). pose proof (proj1 Hh) as Hb. simplify_eq/=.
  split_and!; [done..| |].
  - destruct (ok_heads _ _ Hom (if decide (g = 0) then 1 else 0)) as (k' & Hh').
    { case_decide; lia. }
    destruct (Hall _ (head_in_buffer _ _ _ Hh')) as [_ Hmust].
    eapply mustLessThan_justified; [apply Hom|lia|..|done]; simpl; case_decide; lia.
  - intros [g' b'] Hg' Hnd. simpl in *. destruct (ok_heads _ _ Hom g' Hg') as (k' & Hh').
    destruct (Hall _ (head_in_buffer _ _ _ Hh')) as [Hle _].
    assert (k' ≤ b') as Hk. { destruct Hh' as (_ & _ & Hd). rewrite Hd in Hnd. lia. }
    destruct (decide (k' = b')) as [->|]; [naive_solver|].
    pose proof (chain_before n V g' k' b' ltac:(lia)) as Hcb. right.
    destruct Hle as [->|Hle]; [done|]. by eapply before_trans.
Qed.

(** ** Creating cells *)

Lemma newCell_ok S g b :
  g < n → (∀ v, ((g, b), v) ∉ S) → ∃ c, newCell n g b = Some c ∧ cell_ok S (g, b) c.
Proof.
  intros Hg Hns. unfold newCell, setIthWaterMark. simpl.
  rewrite !lookup_replicate_2 by done. simpl. unfold INVALID_WATERMARK.
  destruct (Z.leb_spec (-1) (Z.of_nat b)); [|lia]. simpl. eexists. split; [done|].
  split; simpl; try done; [by rewrite length_insert, length_replicate..|].
  intros v w r. destruct (decide (v = g)) as [->|Hv].
  - rewrite !list_lookup_insert_eq by by rewrite length_replicate.
    intros [= <-] [= <-]. unfold entry_ok; simpl. rewrite vote_own. naive_solver.
  - rewrite !list_lookup_insert_ne by done.
    rewrite !lookup_replicate. intros [-> _] [-> _].
    unfold entry_ok; simpl. split; [naive_solver|].
    split; [|by left]. intros ?????. apply vote_low.
Qed.

Lemma deref_grow cs g ch c q :
  cs !! g = Some ch →
  deref (<[g := mkChain (height ch) (cells ch ++ [c])]> cs) q =
  if decide (q = (g, length (cells ch))) then Some c else deref cs q.
Proof.
  intros Hch. destruct q as [g' k]. unfold deref; cbn [fst snd].
  destruct (decide (g' = g)) as [->|Hg].
  - rewrite list_lookup_insert_eq by by eapply lookup_lt_Some.
    rewrite Hch. cbn. case_decide as E.
    + injection E as ->. by rewrite list_lookup_middle.
    + destruct (decide (k < length (cells ch))).
      * by rewrite lookup_app_l.
      * rewrite !(proj2 (lookup_ge_None _ _)); [done|lia|].
        rewrite length_app; simpl. assert (k ≠ length (cells ch)) by congruence. lia.
  - rewrite list_lookup_insert_ne by done. rewrite decide_False by congruence. done.
Qed.

Lemma create_ok S om g b :
  store_ok S (chains om) → g < n → (b = 0 ∨ is_Some (deref (chains om) (g, b - 1))) →
  ∃ cs, createBlockIfNotExist om g b = Some (set_chains om cs, (g, b)) ∧
    store_ok S cs ∧ is_Some (deref cs (g, b)) ∧
    (∀ q, is_Some (deref (chains om) q) → deref cs q = deref (chains om) q) ∧
    (is_Some (deref (chains om) (g, b)) → cs = chains om).
Proof.
  intros Hs Hg Hprev. unfold createBlockIfNotExist.
  destruct (lookup_lt_is_Some_2 (chains om) g) as [ch Hch]; [by rewrite (ok_chains _ _ Hs)|].
  rewrite Hch, (ok_chains _ _ Hs). simpl.
  assert (Hlen : b ≤ length (cells ch)).
  { destruct Hprev as [->|Hp]; [lia|]. unfold deref in Hp; simpl in Hp.
    rewrite Hch in Hp. simpl in Hp. apply lookup_lt_is_Some in Hp. lia. }
  assert (Hd : is_Some (deref (chains om) (g, b)) ↔ b < length (cells ch)).
  { unfold deref; simpl. rewrite Hch. simpl. apply lookup_lt_is_Some. }
  destruct (decide (b < length (cells ch))) as [Hb|Hb].
  - replace (Datatypes.S b - length (cells ch)) with 0 by lia. simpl. exists (chains om).
    rewrite list_insert_id by (destruct ch; done). naive_solver.
  - replace (Datatypes.S b - length (cells ch)) with 1 by lia. simpl.
    assert (b = length (cells ch)) as -> by lia.
    destruct (newCell_ok S g (length (cells ch))) as (c & -> & Hc); [done| |].
    { intros v Hv. apply (ok_room _ _ Hs) in Hv. apply Hd in Hv. lia. }
    simpl. eexists. split; [done|].
    pose proof (λ q, deref_grow (chains om) g ch c q Hch) as Hdg.
    split_and!.
    + split; [by rewrite length_insert, (ok_chains _ _ Hs)| |].
      * intros q d. rewrite Hdg. case_decide; [intros [= <-]; by subst|by apply Hs].
      * intros q v Hv. rewrite Hdg. case_decide; [done|by eapply Hs].
    + rewrite Hdg, decide_True by done. done.
    + intros q Hq. rewrite Hdg, decide_False; [done|]. intros ->. apply Hd in Hq. lia.
    + intros ?. naive_solver lia.
Qed.

(** ** Exchanging a head for the next block of its chain *)

Lemma inherit_ok pw nw nr :
  Forall3 (λ p w r, r = true → (p ≤ w)%Z) pw nw nr →
  ∃ ws, inherit pw nw nr = Some ws ∧ length ws = length pw ∧
    ∀ v w, ws !! v = Some w →
      (nr !! v = Some true ∧ nw !! v = Some w) ∨ (nr !! v = Some false ∧ pw !! v = Some w).
Proof.
  induction 1 as [|p w r pw nw nr Hr H IH]; simpl.
  { exists []. done. }
  destruct IH as (ws & -> & Hl & Hws). simpl. destruct r.
  - destruct (Z.leb_spec p w); [|naive_solver lia].
    exists (w :: ws). split_and!; [done|simpl; congruence|].
    intros [|v] x Hx; simpl in *; [naive_solver|auto].
  - exists (p :: ws). split_and!; [done|simpl; congruence|].
    intros [|v] x Hx; simpl in *; [naive_solver|auto].
Qed.

Lemma imap_none_invalid {A} (f : nat → A) (l : list A) :
  imap (λ i x, if bool_decide (i ∈ (∅ : gset nat)) then f i else x) l = l.
Proof. apply list_eq. intros i. rewrite list_lookup_imap. by destruct (l !! i). Qed.

(** The entries of consecutive blocks of a chain. *)
Lemma entry_next S g k v w r w' r' :
  votes_ok S → g < n → entry_ok S (g, k) v w r → entry_ok S (g, Datatypes.S k) v w' r' →
  (r' = true → (w ≤ w')%Z) ∧ (r' = false → entry_ok S (g, Datatypes.S k) v w false).
Proof.
  intros HS Hg [Hi Hw] [Hi' Hw']. simpl in *. split; intros ->.
  - subst w'. destruct r; [subst w; apply vote_mono|].
    destruct Hw as [Hl _]. etrans; [apply (Hl g k); [done|naive_solver..]|apply vote_mono].
  - split; [done|]. destruct r; [|done]. subst w.
    destruct Hi as [Hi _]. destruct (Hi eq_refl) as [->|Hin]; [naive_solver|].
    split; [by apply (ok_seen _ HS (g, k))|by apply (known_self _ _ (g, k))].
Qed.

Lemma store_cell_ok S cs p c :
  store_ok S cs → cell_ok S p c → store_ok S (store cs p c).
Proof.
  intros Hs Hc. split; [by rewrite store_length, (ok_chains _ _ Hs)| |].
  - intros q d. rewrite deref_store. case_decide; [subst|by apply Hs].
    destruct (deref cs p); [by intros [= <-]|done].
  - intros q v Hv. apply deref_store_is_Some. by eapply Hs.
Qed.

Lemma exchange_ok S om g k :
  votes_ok S → store_ok S (chains om) → g < n → invalidateMap om = ∅ →
  buffer om !! g = Some (g, k) →
  is_Some (deref (chains om) (g, k)) → is_Some (deref (chains om) (g, Datatypes.S k)) →
  ∃ cs, exchange om (g, k) (g, Datatypes.S k) =
      Some (mkOM cs (<[g := (g, Datatypes.S k)]> (buffer om)) ∅ (delivered om)) ∧
    store_ok S cs ∧ (∀ q, is_Some (deref (chains om) q) → is_Some (deref cs q)).
Proof.
  intros HS Hs Hg Hinv Hbuf [pc Hpc] [nc Hnc]. unfold exchange. rewrite Hpc, Hnc. simpl.
  pose proof (ok_cells _ _ Hs _ _ Hpc) as Okp. pose proof (ok_cells _ _ Hs _ _ Hnc) as Okn.
  rewrite (ok_group _ _ _ Okp), (ok_group _ _ _ Okn), (ok_block _ _ _ Okp), (ok_block _ _ _ Okn),
    (ok_lenw _ _ _ Okp), (ok_lenw _ _ _ Okn). simpl.
  rewrite Hbuf. simpl. rewrite !bool_decide_true by done.
  assert (Hrow : ∀ v w w' r', watermarks pc !! v = Some w → watermarks nc !! v = Some w' →
    real nc !! v = Some r' →
    (r' = true → (w ≤ w')%Z) ∧ (r' = false → entry_ok S (g, Datatypes.S k) v w false)).
  { intros v w w' r' Hw Hw' Hr'.
    destruct (lookup_lt_is_Some_2 (real pc) v) as [r Hr].
    { rewrite (ok_lenr _ _ _ Okp), <-(ok_lenw _ _ _ Okp). by eapply lookup_lt_Some. }
    eapply entry_next; [done..|by eapply Okp|by eapply Okn]. }
  destruct (inherit_ok (watermarks pc) (watermarks nc) (real nc)) as (ws & -> & Hlen & Hws).
  { apply Forall3_lookup_2.
    - by rewrite (ok_lenw _ _ _ Okp), (ok_lenw _ _ _ Okn).
    - by rewrite (ok_lenw _ _ _ Okp), (ok_lenr _ _ _ Okn).
    - intros v p w r Hp Hw Hr. by destruct (Hrow v p w r). }
  cbn [mbind option_bind mark_invalid]. rewrite Hinv.
  rewrite (imap_none_invalid (λ i, watermarks pc !!! i)), (imap_none_invalid (λ _, true)). eexists. split; [done|].
  split; [|intros q Hq; by apply deref_store_is_Some].
  apply store_cell_ok; [done|]. split; simpl; [done..| |by apply Okn|].
  - by rewrite Hlen, (ok_lenw _ _ _ Okp).
  - intros v w r Hw Hr. destruct (Hws v w Hw) as [[Hr' Hw']|[Hr' Hw']]; simplify_eq.
    + by eapply Okn.
    + destruct (lookup_lt_is_Some_2 (watermarks nc) v) as [w' Hw2].
      { rewrite (ok_lenw _ _ _ Okn), <-(ok_lenr _ _ _ Okn). by eapply lookup_lt_Some. }
      by apply (Hrow v w w' false).
Qed.

(** The body of the loop of [popBlocks]. *)
Definition pop_one (om : OM) (prev : ptr) : option OM :=
  om1 ← deliver om prev;
  c ← deref (chains om1) prev;
  x ← createBlockIfNotExist om1 (groupId c) (Datatypes.S (blockId c));
  exchange x.1 prev x.2.

Lemma popBlocks_S fuel om :
  popBlocks (S fuel) om =
  m ← globalMinimum om;
  match m with
  | None => Some (true, om)
  | Some prev => om' ← pop_one om prev; popBlocks fuel om'
  end.
Proof.
  simpl. destruct (globalMinimum om) as [[p|]|]; simpl; [|done..]. unfold pop_one.
  destruct (deliver om p) as [om1|]; simpl; [|done].
  destruct (deref _ p) as [c|]; simpl; [|done].
  by destruct (createBlockIfNotExist _ _ _) as [[??]|]; simpl.
Qed.

Lemma segment_snoc l p :
  initial_segment (before n V) (λ x, x.1 < n) l → p.1 < n → p ∉ l →
  (∀ y : nat * nat, y.1 < n → y ∉ l → y = p ∨ before n V p y) →
  initial_segment (before n V) (λ x, x.1 < n) (l ++ [p]).
Proof.
  intros (Hs & HP & Hc) Hp Hnin Hmin. split_and!.
  - apply StronglySorted_snoc; [done|]. intros y Hy. by apply Hc.
  - apply Forall_app. auto.
  - intros x y Hx Hy Hny. apply elem_of_app in Hx as [Hx|Hx].
    + apply Hc; set_solver.
    + apply list_elem_of_singleton in Hx as ->. destruct (Hmin y); set_solver.
Qed.

Lemma pop_one_ok S om p :
  om_ok S om → p.1 < n → head_at om p.1 p.2 → justified S p →
  (∀ y : nat * nat, y.1 < n → y ∉ delivered om → y = p ∨ before n V p y) →
  ∃ om', pop_one om p = Some om' ∧ om_ok S om' ∧ delivered om' = delivered om ++ [p].
Proof.
  intros Hom Hp Hh Hj Hmin. destruct p as [g k]. simpl in *.
  destruct Hh as (Hbuf & [c Hc] & Hdel). unfold pop_one, deliver. rewrite Hc. simpl.
  rewrite Hc. simpl. pose proof (ok_cells _ _ (ok_store _ _ Hom) _ _ Hc) as Okc.
  rewrite (ok_group _ _ _ Okc), (ok_block _ _ _ Okc). simpl.
  match goal with |- context [createBlockIfNotExist ?o _ _] => set (om1 := o) end.
  destruct (create_ok S om1 g (Datatypes.S k)) as (cs & -> & Hcs & Hn & Hkeep & _);
    [apply Hom|done|right; simpl; rewrite Nat.sub_0_r; eauto|]. simpl.
  destruct (exchange_ok S (set_chains om1 cs) g k) as (cs' & -> & Hcs' & Hkeep');
    [apply Hom|done|done|apply Hom|done|simpl; rewrite Hkeep; eauto|done|].
  eexists. split; [done|]. split; [|done].
  assert (Hnin : (g, k) ∉ delivered om) by (rewrite Hdel; lia).
  split; simpl; [apply Hom|done| | |done| |].
  - rewrite length_insert. apply Hom.
  - intros g' Hg'. destruct (decide (g' = g)) as [->|Hne].
    + exists (Datatypes.S k). unfold head_at; simpl.
      rewrite list_lookup_insert_eq by by eapply lookup_lt_Some.
      split_and!; [done|by apply Hkeep'|]. intros b.
      rewrite elem_of_app, Hdel, list_elem_of_singleton.
      split; [intros [?|[= ->]]; lia|]. intros ?.
      destruct (decide (b = k)) as [->|]; [by right|left; lia].
    + destruct (ok_heads _ _ Hom g' Hg') as (k' & Hb' & Hd' & Hdel').
      exists k'. unfold head_at; simpl. rewrite list_lookup_insert_ne by done.
      split_and!; [done|apply Hkeep'; simpl; by rewrite Hkeep|]. intros b.
      rewrite elem_of_app, Hdel', list_elem_of_singleton.
      split; [intros [?|[= ??]]; done|by left].
  - apply segment_snoc; [apply Hom|done..].
  - apply Forall_app. split; [apply Hom|by constructor].
Qed.

(** ** Termination of the loop *)

(** No block beyond these can be delivered from votes in [S]. *)
Definition votes_bounded (S : votes) (L : nat) (W : Z) : Prop :=
  length S ≤ L ∧ ∀ p v, (p, v) ∈ S → (V p.1 p.2 v ≤ W)%Z.

Lemma delivered_bound S om L W :
  om_ok S om → votes_bounded S L W → length (delivered om) ≤ L + Z.to_nat (W + 1).
Proof.
  intros Hom [HL HW].
  assert (Hnd : NoDup (delivered om)).
  { eapply (StronglySorted_NoDup (before n V)); [apply before_asym|apply Hom]. }
  transitivity (length (S.*1 ++ ((λ b, (0, b)) <$> seq 0 (Z.to_nat (W + 1))))).
  - apply submseteq_length, NoDup_submseteq; [done|]. intros x Hx.
    pose proof (ok_justified _ _ Hom) as Hj. rewrite Forall_forall in Hj.
    specialize (Hj x Hx). unfold justified in Hj. apply elem_of_app. case_decide as H0.
    + right. destruct Hj as (p & Hp & Hle). specialize (HW p 0 Hp).
      destruct x as [g b]; simpl in *; subst. apply list_elem_of_fmap.
      exists b. split; [done|]. apply elem_of_seq. lia.
    + left. apply list_elem_of_fmap. by exists (x, 0).
  - rewrite length_app, !length_fmap, length_seq. lia.
Qed.

(** The loop never dies; it ends or delivers one more block per iteration. *)
Lemma popBlocks_ok S fuel om :
  2 ≤ n → om_ok S om →
  ∃ fin om', popBlocks fuel om = Some (fin, om') ∧ om_ok S om' ∧
    (fin = true → globalMinimum om' = Some None) ∧
    (fin = false → length (delivered om') = fuel + length (delivered om)).
Proof.
  intros Hn. revert om. induction fuel as [|fuel IH]; intros om Hom.
  { exists false, om. done. }
  rewrite popBlocks_S. destruct (globalMinimum_sound S om) as (m & Hm & Hmin); [done..|].
  rewrite Hm. simpl. destruct m as [p|]; [|by exists true, om].
  destruct (Hmin p) as (Hp & Hh & Hj & Hy); [done|].
  destruct (pop_one_ok S om p) as (om1 & -> & Hom1 & Hd); [done..|]. simpl.
  destruct (IH om1 Hom1) as (fin & om' & -> & Hom' & Hf & Hl).
  exists fin, om'. split_and!; [done..|]. intros ->. rewrite Hl, Hd, length_app by done. simpl. lia.
Qed.

Lemma popBlocks_returns S L W fuel om :
  2 ≤ n → om_ok S om → votes_bounded S L W → L + Z.to_nat (W + 1) < fuel →
  ∃ om', popBlocks fuel om = Some (true, om') ∧ om_ok S om' ∧ globalMinimum om' = Some None.
Proof.
  intros Hn Hom HS Hfuel. destruct (popBlocks_ok S fuel om) as ([] & om' & Hp & Hom' & Hf & Hl);
    [done..|by exists om'; auto|].
  specialize (Hl eq_refl). pose proof (delivered_bound _ _ _ _ Hom' HS). lia.
Qed.

(** ** Applying a vote *)

Lemma votes_ok_cons S g b v :
  votes_ok S → g ≠ v → lowb S v (V g b v) → votes_ok (((g, b), v) :: S).
Proof.
  intros [H1 H2] Hne Hl. split; intros p v' Hin; apply elem_of_cons in Hin as [[= -> ->]|Hin];
    auto with mass.
Qed.

Lemma entry_ok_cons S x p v w r :
  x ≠ (p, v) → entry_ok S p v w r → entry_ok (x :: S) p v w r.
Proof.
  intros Hx [Hi Hw]. split.
  - rewrite Hi, elem_of_cons. naive_solver.
  - destruct r; [done|]. naive_solver eauto with mass.
Qed.

Lemma cell_vote_ok S c g b v :
  cell_ok S (g, b) c → v < n → v ≠ g → ((g, b), v) ∉ S → g < n →
  ∃ c', setIthWaterMark c v (V g b v) = Some (c', true) ∧ cell_ok (((g, b), v) :: S) (g, b) c'.
Proof.
  intros Hc Hv Hne Hns Hg. unfold setIthWaterMark.
  destruct (lookup_lt_is_Some_2 (real c) v) as [r Hr]; [by rewrite (ok_lenr _ _ _ Hc)|].
  destruct (lookup_lt_is_Some_2 (watermarks c) v) as [w Hw]; [by rewrite (ok_lenw _ _ _ Hc)|].
  rewrite Hr. simpl. destruct (ok_entry _ _ _ Hc _ _ _ Hw Hr) as [Hi He].
  destruct r; [naive_solver|]. rewrite Hw. simpl. destruct He as [Hl _].
  specialize (Hl g b Hg (not_eq_sym Hne) Hns).
  destruct (Z.leb_spec w (V g b v)); [|lia].
  eexists. split; [done|]. split; simpl; [apply Hc..| | |].
  - rewrite length_insert. apply Hc.
  - rewrite length_insert. apply Hc.
  - intros v' w' r'. destruct (decide (v' = v)) as [->|Hv'].
    + rewrite !list_lookup_insert_eq by by eapply lookup_lt_Some.
      intros [= <-] [= <-]. split; [|done]. set_solver.
    + rewrite !list_lookup_insert_ne by done. intros ??.
      apply entry_ok_cons; [congruence|]. by eapply Hc.
Qed.

Lemma store_vote_ok S cs c g b v :
  store_ok S cs → is_Some (deref cs (g, b)) → cell_ok (((g, b), v) :: S) (g, b) c →
  store_ok (((g, b), v) :: S) (store cs (g, b) c).
Proof.
  intros Hs Hd Hc. split; [by rewrite store_length, (ok_chains _ _ Hs)| |].
  - intros q d. rewrite deref_store. case_decide as E.
    + subst q. destruct Hd as [? ->]. by intros [= <-].
    + intros Hq. destruct (ok_cells _ _ Hs _ _ Hq) as [????He].
      split; [done..|]. intros v' w r ??. apply entry_ok_cons; [congruence|auto].
  - intros q v' Hin. apply deref_store_is_Some.
    apply elem_of_cons in Hin as [[= -> ->]|Hin]; [done|by eapply Hs].
Qed.

Lemma raise_height_ok S cs g h : store_ok S cs → store_ok S (raise_height cs g h).
Proof.
  intros [Hl Hc Hr]. split; [by rewrite raise_height_length|..];
    intros *; rewrite deref_raise_height; eauto.
Qed.

(** Every estimate of voter [v] is at most [w]. *)
Definition est_le (cs : list Chain) (v : nat) (w : Z) : Prop :=
  ∀ p c e, deref cs p = Some c → real c !! v = Some false → watermarks c !! v = Some e → (e ≤ w)%Z.

Lemma updateEstimate_ok S cs buf v w :
  store_ok S cs → Forall (λ q, is_Some (deref cs q)) buf → v < n →
  est_le cs v w → lowb S v w → known S v w →
  ∃ cs', updateEstimate cs buf v w = Some cs' ∧ store_ok S cs' ∧
    ∀ q, is_Some (deref cs' q) ↔ is_Some (deref cs q).
Proof.
  intros Hs Hb Hv He Hl Hk. revert cs Hs Hb He.
  induction buf as [|p buf IH]; intros cs Hs Hb He; simpl; [by exists cs|].
  inversion Hb as [|?? [c Hc] Hb']; subst. rewrite Hc. simpl.
  pose proof (ok_cells _ _ Hs _ _ Hc) as Okc.
  destruct (lookup_lt_is_Some_2 (real c) v) as [r Hr]; [by rewrite (ok_lenr _ _ _ Okc)|].
  destruct (lookup_lt_is_Some_2 (watermarks c) v) as [e Hw]; [by rewrite (ok_lenw _ _ _ Okc)|].
  rewrite Hr. simpl. destruct r; [by apply IH|].
  destruct (ok_entry _ _ _ Okc _ _ _ Hw Hr) as [Hi _].
  rewrite bool_decide_true by (rewrite (ok_group _ _ _ Okc); naive_solver).
  rewrite Hw. simpl. destruct (Z.leb_spec e w); [|specialize (He _ _ _ Hc Hr Hw); lia].
  match goal with |- context [store cs p ?d] => set (c' := d) end.
  destruct (IH (store cs p c')) as (cs' & -> & Hs' & Hd).
  - apply store_cell_ok; [done|]. split; simpl; [apply Okc..| | |].
    + rewrite length_insert. apply Okc.
    + apply Okc.
    + intros v' w' r'. destruct (decide (v' = v)) as [->|].
      * rewrite list_lookup_insert_eq by by eapply lookup_lt_Some.
        intros [= <-] ?. simplify_eq. by split.
      * rewrite list_lookup_insert_ne by done. apply Okc.
  - eapply Forall_impl; [done|]. intros q Hq. by apply deref_store_is_Some.
  - intros q d e'. rewrite deref_store. case_decide; [|by apply He]. rewrite Hc.
    intros [= <-]; subst c'; simpl. rewrite list_lookup_insert_eq by by eapply lookup_lt_Some.
    intros ? [= ->]. done.
  - exists cs'. split_and!; [done..|]. intros q. by rewrite Hd, deref_store_is_Some.
Qed.

Lemma justified_cons S x p : justified S p → justified (x :: S) p.
Proof.
  unfold justified. case_decide; [|set_solver]. intros (q & ? & ?). exists q. set_solver.
Qed.

(** Replacing the store by a larger one keeps the rest of the invariant. *)
Lemma om_ok_store S S' om cs :
  om_ok S om → votes_ok S' → (∀ p, justified S p → justified S' p) → store_ok S' cs →
  (∀ q, is_Some (deref (chains om) q) → is_Some (deref cs q)) →
  om_ok S' (set_chains om cs).
Proof.
  intros Hom HS Hj Hs Hd. split; simpl; [done..|apply Hom| |apply Hom|apply Hom|].
  - intros g Hg. destruct (ok_heads _ _ Hom g Hg) as (k & ? & ? & ?).
    exists k. split_and!; [done|by apply Hd|done].
  - eapply Forall_impl; [apply (ok_justified _ _ Hom)|done].
Qed.

Lemma pushDecision_vote_ok S L W fuel om g b v :
  2 ≤ n → om_ok S om → g < n → v < n → v ≠ g → ((g, b), v) ∉ S →
  (b = 0 ∨ ((g, b - 1), v) ∈ S) → lowb S v (V g b v) →
  votes_bounded (((g, b), v) :: S) L W → L + Z.to_nat (W + 1) < fuel →
  ∃ om', pushDecision fuel om g b v (V g b v) = Some (true, om') ∧
    om_ok (((g, b), v) :: S) om' ∧ globalMinimum om' = Some None.
Proof.
  intros Hn Hom Hg Hv Hne Hns Hprev Hl Hbound Hfuel. pose proof (ok_store _ _ Hom) as Hs.
  unfold pushDecision. rewrite bool_decide_false by (rewrite (ok_chains _ _ Hs); lia).
  rewrite bool_decide_false by done.
  destruct (create_ok S om g b) as (cs & -> & Hcs & [c Hc] & Hkeep & _); [done..| |].
  { destruct Hprev as [?|Hin]; [by left|right]. by eapply Hs. }
  simpl. rewrite Hc. simpl.
  pose proof (ok_cells _ _ Hcs _ _ Hc) as Okc.
  destruct (cell_vote_ok S c g b v) as (c' & -> & Hc'); [done..|]. simpl.
  pose proof (store_vote_ok S cs c' g b v Hcs ltac:(eauto) Hc') as Hs'.
  rewrite bool_decide_true by (apply lookup_lt_is_Some; by rewrite (ok_chains _ _ Hs')).
  match goal with |- context [updateEstimate ?x _ _ _] => set (cs2 := x) end.
  assert (Hs2 : store_ok (((g, b), v) :: S) cs2) by by do 2 apply raise_height_ok.
  assert (Hd2 : ∀ q, deref cs2 q = deref (store cs (g, b) c') q).
  { intros q. subst cs2. by rewrite !deref_raise_height. }
  assert (Hk2 : ∀ q, is_Some (deref (chains om) q) → is_Some (deref cs2 q)).
  { intros q Hq. rewrite Hd2. apply deref_store_is_Some. by rewrite Hkeep. }
  destruct (updateEstimate_ok (((g, b), v) :: S) cs2 (buffer om) v (V g b v))
    as (cs3 & -> & Hs3 & Hd3); [done| |done| |by apply lowb_mono|apply (known_self _ _ (g, b)); set_solver|].
  { eapply Forall_impl; [by eapply buffer_ok|]. intros q [_ Hq]. auto. }
  { intros q d e. rewrite Hd2, deref_store. case_decide as E.
    - subst. rewrite Hc. intros [= <-] Hr Hw. destruct (ok_entry _ _ _ Hc' _ _ _ Hw Hr) as [Hi _].
      destruct Hi as [_ Hi]. discriminate Hi. set_solver.
    - intros Hq Hr Hw. destruct (ok_entry _ _ _ (ok_cells _ _ Hcs _ _ Hq) _ _ _ Hw Hr) as [_ [Hl' _]].
      apply Hl'; [done..|done]. }
  simpl. eapply popBlocks_returns; [done| |done..].
  change (set_chains (set_chains om cs) cs3) with (set_chains om cs3).
  eapply om_ok_store; [apply Hom|by apply votes_ok_cons; [apply Hom|..]|intros; by apply justified_cons|done|].
  intros q Hq. apply Hd3. auto.
Qed.

(** A vote of a group for its own block and a repeated vote change nothing. *)
Lemma pushDecision_own fuel om S g b w :
  2 ≤ n → om_ok S om → pushDecision fuel om g b g w = Some (true, om).
Proof.
  intros Hn Hom. unfold pushDecision.
  rewrite bool_decide_false by (rewrite (ok_chains _ _ (ok_store _ _ Hom)); lia).
  by rewrite bool_decide_true.
Qed.

Lemma pushDecision_dup fuel om S g b v w :
  2 ≤ n → om_ok S om → g < n → v < n → ((g, b), v) ∈ S →
  pushDecision fuel om g b v w = Some (true, om).
Proof.
  intros Hn Hom Hg Hv Hin. pose proof (ok_store _ _ Hom) as Hs. unfold pushDecision.
  rewrite bool_decide_false by (rewrite (ok_chains _ _ Hs); lia).
  rewrite bool_decide_false by (intros ->; by apply (ok_voter _ (ok_votes _ _ Hom)) in Hin).
  pose proof (ok_room _ _ Hs _ _ Hin) as Hd.
  destruct (create_ok S om g b) as (cs & -> & Hcs & _ & _ & Hsame); [done..| |].
  { right. eapply deref_down; [done|lia]. }
  rewrite (Hsame Hd). destruct Hd as [c Hc]. simpl. rewrite Hc. simpl.
  pose proof (ok_cells _ _ Hs _ _ Hc) as Okc. unfold setIthWaterMark.
  destruct (lookup_lt_is_Some_2 (real c) v) as [r Hr]; [by rewrite (ok_lenr _ _ _ Okc)|].
  destruct (lookup_lt_is_Some_2 (watermarks c) v) as [e Hw]; [by rewrite (ok_lenw _ _ _ Okc)|].
  rewrite Hr. destruct (ok_entry _ _ _ Okc _ _ _ Hw Hr) as [Hi _].
  destruct r; [|naive_solver]. simpl. rewrite (store_same _ _ _ Hc). by destruct om.
Qed.

(** ** The initial state *)

Record init_ok (i : nat) (om : OM) : Prop := {
  init_store : store_ok [] (chains om);
  init_buffer : buffer om = (λ g, (g, 0)) <$> seq 0 i;
  init_cells g : g < i → is_Some (deref (chains om) (g, 0));
  init_noinv : invalidateMap om = ∅;
  init_delivered : delivered om = []
}.

Lemma init_heads_ok k i om :
  i + k = n → init_ok i om → ∃ om', init_heads om i k = Some om' ∧ init_ok n om'.
Proof.
  revert i om. induction k as [|k IH]; intros i om Hik Hom; simpl.
  { exists om. split; [done|]. by replace n with i by lia. }
  destruct (create_ok [] om i 0) as (cs & -> & Hcs & [c Hc] & Hkeep & _);
    [apply Hom|lia|by left|]. simpl. unfold push. simpl. rewrite Hc. simpl.
  rewrite bool_decide_true.
  2:{ rewrite (ok_group _ _ _ (ok_cells _ _ Hcs _ _ Hc)), (init_buffer _ _ Hom).
      by rewrite length_fmap, length_seq. }
  simpl. apply IH; [lia|].
  split; cbn [chains buffer invalidateMap delivered set_chains]; [done| | |apply Hom..].
  - by rewrite (init_buffer _ _ Hom), seq_S, fmap_app.
  - intros g Hg. destruct (decide (g = i)) as [->|]; [eauto|].
    assert (is_Some (deref (chains om) (g, 0))) by (apply Hom; lia). by rewrite Hkeep.
Qed.

Lemma setGroupCount_ok :
  2 ≤ n → ∃ om, setGroupCount n = Some om ∧ om_ok [] om ∧ globalMinimum om = Some None ∧ delivered om = [].
Proof.
  intros Hn. unfold setGroupCount.
  destruct (init_heads_ok n 0 (mkOM (replicate n (mkChain (-1) [])) [] ∅ [])) as (om & -> & Hi);
    [done| |].
  { split; simpl; [|done|lia|done..]. split; [by rewrite length_replicate|..].
    - intros [g k] c. unfold deref. simpl. destruct (replicate _ _ !! g) as [ch|] eqn:E; [|done]. simpl.
      apply lookup_replicate in E as [-> _]. done.
    - intros p v Hin. by apply elem_of_nil in Hin. }
  exists om. assert (Hom : om_ok [] om).
  { split; [split; intros ?? Hin; by apply elem_of_nil in Hin|apply Hi| | |apply Hi|..].
    - by rewrite (init_buffer _ _ Hi), length_fmap, length_seq.
    - intros g Hg. exists 0. split_and!; [|by apply Hi|].
      + rewrite (init_buffer _ _ Hi), list_lookup_fmap, lookup_seq_lt by done. done.
      + rewrite (init_delivered _ _ Hi). intros b. split; [by intros ?%elem_of_nil|lia].
    - rewrite (init_delivered _ _ Hi). split_and!; [constructor..|].
      intros x y Hx. by apply elem_of_nil in Hx.
    - rewrite (init_delivered _ _ Hi). constructor. }
  split_and!; [done..| |apply Hi].
  destruct (globalMinimum_sound [] om) as ([p|] & Hm & Hmin); [done..| |done].
  destruct (Hmin p eq_refl) as (_ & _ & Hj & _). unfold justified in Hj.
  case_decide; [destruct Hj as (? & Hin & _)|rename Hj into Hin]; by apply elem_of_nil in Hin.
Qed.

(** ** Runs *)

(** What a replica may be given: each voter's watermarks in the order the voter
    assigned them and block by block along every chain, in any interleaving of
    the voters, with repetitions and with the groups' votes for themselves. *)
Inductive fifo : votes → list decision → Prop :=
| fifo_nil S : fifo S []
| fifo_own S g b w ds : fifo S ds → fifo S (Vote g b g w :: ds)
| fifo_dup S g b v w ds :
    g < n → v < n → ((g, b), v) ∈ S → fifo S ds → fifo S (Vote g b v w :: ds)
| fifo_vote S g b v ds :
    g < n → v < n → v ≠ g → ((g, b), v) ∉ S →
    (b = 0 ∨ ((g, b - 1), v) ∈ S) → lowb S v (V g b v) →
    fifo (((g, b), v) :: S) ds → fifo S (Vote g b v (V g b v) :: ds).

Definition top_watermark (ds : list decision) : Z :=
  foldr (λ d m, match d with Vote _ _ _ w => Z.max w m | Invalidate _ => m end) (-1)%Z ds.

(** Enough iterations of [popBlocks] for every call of the run. *)
Definition fuel_for (ds : list decision) : nat :=
  S (length ds + Z.to_nat (top_watermark ds + 1)).

Lemma apply_all_ok L W fuel ds S om :
  2 ≤ n → fifo S ds → om_ok S om → globalMinimum om = Some None →
  votes_bounded S (L - length ds) W → length ds ≤ L → (top_watermark ds ≤ W)%Z →
  L + Z.to_nat (W + 1) < fuel →
  ∃ S' om', apply_all fuel om ds = Some (true, om') ∧ om_ok S' om' ∧
    globalMinimum om' = Some None ∧ S ⊆ S' ∧
    ∀ g b v w, Vote g b v w ∈ ds → v ≠ g → ((g, b), v) ∈ S'.
Proof.
  intros Hn Hf. revert om.
  induction Hf as [S|S g b w ds Hf IH|S g b v w ds Hg Hv Hin Hf IH|S g b v ds Hg Hv Hne Hns Hp Hl Hf IH];
    intros om Hom Hq [HSL HSW] HL HW Hfuel.
  - exists S, om. split_and!; [done..|]. intros ???? Hx. by apply elem_of_nil in Hx.
  - simpl. erewrite pushDecision_own by done. simpl.
    destruct (IH om) as (S' & om' & -> & ? & ? & ? & Hall); [done|done|split; [simpl in *; lia|done]|simpl in *; lia|simpl in *; lia|lia|].
    exists S', om'. split_and!; [done..|]. intros g' b' v' w' Hx.
    apply elem_of_cons in Hx as [[= -> -> -> ->]|Hx]; [done|eauto].
  - simpl. erewrite pushDecision_dup by done. simpl.
    destruct (IH om) as (S' & om' & -> & ? & ? & Hsub & Hall); [done|done|split; [simpl in *; lia|done]|simpl in *; lia|simpl in *; lia|lia|].
    exists S', om'. split_and!; [done..|]. intros g' b' v' w' Hx.
    apply elem_of_cons in Hx as [[= -> -> -> ->]|Hx]; [auto|eauto].
  - assert (HB : votes_bounded (((g, b), v) :: S) (L - length ds) W).
    { split; [simpl in *; lia|]. intros p v' Hx.
      apply elem_of_cons in Hx as [[= -> ->]|Hx]; [simpl in *; lia|auto]. }
    destruct (pushDecision_vote_ok S (L - length ds) W fuel om g b v)
      as (om1 & E & Hom1 & Hq1); [done..|simpl in *; lia|].
    simpl. rewrite E. simpl.
    destruct (IH om1) as (S' & om' & -> & ? & ? & Hsub & Hall); [done|done|done|simpl in *; lia|simpl in *; lia|lia|].
    exists S', om'. split_and!; [done..|set_solver|]. intros g' b' v' w' Hx.
    apply elem_of_cons in Hx as [[= -> -> -> ->]|Hx]; [set_solver|eauto].
Qed.

Lemma replica_ok ds fuel :
  2 ≤ n → fifo [] ds → fuel_for ds ≤ fuel →
  ∃ S om, replica fuel n ds = Some (true, om) ∧ om_ok S om ∧ globalMinimum om = Some None ∧
    ∀ g b v w, Vote g b v w ∈ ds → v ≠ g → ((g, b), v) ∈ S.
Proof.
  intros Hn Hf Hfuel. unfold replica.
  destruct setGroupCount_ok as (om & -> & Hom & Hq & _); [done|]. simpl.
  destruct (apply_all_ok (length ds) (top_watermark ds) fuel ds [] om)
    as (S & om' & E & ? & ? & _ & ?); [done..| |done|done|unfold fuel_for in *; lia|].
  { split; [simpl; lia|]. intros ?? Hx. by apply elem_of_nil in Hx. }
  exists S, om'. auto.
Qed.

(** ** Progress *)

(** A cell with every vote carries the vector of its block. *)
Lemma cell_all_real S p c :
  cell_ok S p c → (∀ v, v < n → v = p.1 ∨ (p, v) ∈ S) →
  watermarks c = tsvec n V p ∧ real c = replicate n true.
Proof.
  intros Hc Hall.
  assert (He : ∀ v, v < n → ∃ w, watermarks c !! v = Some w ∧ real c !! v = Some true ∧ w = V p.1 p.2 v).
  { intros v Hv.
    destruct (lookup_lt_is_Some_2 (real c) v) as [r Hr]; [by rewrite (ok_lenr _ _ _ Hc)|].
    destruct (lookup_lt_is_Some_2 (watermarks c) v) as [w Hw]; [by rewrite (ok_lenw _ _ _ Hc)|].
    destruct (ok_entry _ _ _ Hc _ _ _ Hw Hr) as [Hi Hv'].
    assert (r = true) as -> by (apply Hi; auto). eauto. }
  split; apply list_eq; intros v; (destruct (decide (v < n)) as [Hv|Hv];
    [destruct (He v Hv) as (w & Hw & Hr & ->)|]).
  - unfold tsvec. by rewrite Hw, list_lookup_fmap, lookup_seq_lt.
  - rewrite !(proj2 (lookup_ge_None _ _)); [done|rewrite tsvec_length; lia|rewrite (ok_lenw _ _ _ Hc); lia].
  - by rewrite Hr, lookup_replicate_2.
  - rewrite !(proj2 (lookup_ge_None _ _)); [done|rewrite length_replicate; lia|rewrite (ok_lenr _ _ _ Hc); lia].
Qed.

(** Between two such cells the comparison is the global order. *)
Lemma mustLessThan_real S cs p q c d :
  cell_ok S p c → cell_ok S q d → deref cs p = Some c → deref cs q = Some d →
  watermarks c = tsvec n V p → real c = replicate n true →
  watermarks d = tsvec n V q → real d = replicate n true →
  p = q ∨ before n V p q → mustLessThan cs p q = Some true.
Proof.
  intros Okc Okd Hc Hd Hw Hr Hw' Hr' Hpq. unfold mustLessThan. rewrite Hc, Hd. simpl.
  rewrite (ok_group _ _ _ Okc), (ok_group _ _ _ Okd), (ok_block _ _ _ Okc), (ok_block _ _ _ Okd).
  case_bool_decide as E.
  { rewrite bool_decide_true; [done|]. destruct p, q; naive_solver. }
  destruct Hpq as [->|Hb]; [naive_solver|]. rewrite Hw, Hr, Hw', Hr'.
  rewrite less_loop_real by apply tsvec_length.
  unfold before, key in Hb. rewrite lexcmp_app in Hb by by rewrite !tsvec_length.
  destruct (lexcmp _ _); [|done..]. simpl in Hb.
  destruct p, q; simpl in *. repeat case_bool_decide; try done; exfalso; zcmp.
Qed.

(** When every head carries only votes, one of them is the minimum. *)
Lemma heads_real_progress S om :
  2 ≤ n → om_ok S om →
  (∀ p, p ∈ buffer om → ∀ v, v < n → v = p.1 ∨ (p, v) ∈ S) →
  globalMinimum om ≠ Some None.
Proof.
  intros Hn Hom Hall Hm. pose proof (buffer_ok _ _ Hom) as Hbuf. pose proof (ok_store _ _ Hom) as Hs.
  rewrite Forall_forall in Hbuf.
  destruct (minimum_exists (before n V) (buffer om)) as (m & Hin & Hmin);
    [apply before_trans|apply before_total|intros E; pose proof (ok_buffer _ _ Hom); rewrite E in *; simpl in *; lia|].
  unfold globalMinimum in Hm.
  rewrite bool_decide_true in Hm by (intros E; rewrite E in Hin; by apply elem_of_nil in Hin).
  destruct (findMinimum_sound S (chains om) (buffer om) (buffer om)) as (x & Hx & _ & Hnone);
    [done|by eapply buffer_ok..|].
  rewrite Hx in Hm. injection Hm as ->. specialize (Hnone eq_refl m Hin).
  assert (Hvec : ∀ p c, p ∈ buffer om → deref (chains om) p = Some c →
    watermarks c = tsvec n V p ∧ real c = replicate n true).
  { intros p c Hp Hc. pose proof (ok_cells _ _ Hs _ _ Hc) as Okc.
    by apply cell_all_real with S; [|apply Hall]. }
  assert (Htrue : ∀ q, q ∈ buffer om → mustLessThan (chains om) m q = Some true).
  { intros q Hq. destruct (Hbuf m Hin) as [_ [c Hc]], (Hbuf q Hq) as [_ [d Hd]].
    destruct (Hvec m c) as [Hw Hr], (Hvec q d) as [Hw' Hr']; [done..|].
    eapply mustLessThan_real; [apply (ok_cells _ _ Hs _ _ Hc)|apply (ok_cells _ _ Hs _ _ Hd)|..]; try done.
    destruct (Hmin q Hq); auto. }
  clear -Hnone Htrue. induction (buffer om) as [|q buf IH]; simpl in *; [done|].
  rewrite Htrue in Hnone by set_solver. simpl in Hnone. apply IH; [done|set_solver].
Qed.

(** A block is delivered once every chain is fully voted up to a block that is
    not before it. *)
Lemma replica_delivers ds fuel x :
  2 ≤ n → x.1 < n → fifo [] ds → fuel_for ds ≤ fuel →
  (∀ g, g < n → ∃ b, (x = (g, b) ∨ before n V x (g, b)) ∧
     ∀ b' v, b' ≤ b → v < n → v ≠ g → ∃ w, Vote g b' v w ∈ ds) →
  ∃ om, replica fuel n ds = Some (true, om) ∧ x ∈ delivered om.
Proof.
  intros Hn Hx Hf Hfuel Hall. destruct (replica_ok ds fuel) as (S & om & E & Hom & Hq & Hin); [done..|].
  exists om. split; [done|]. destruct (decide (x ∈ delivered om)) as [|Hnx]; [done|exfalso].
  eapply heads_real_progress; [done..| |done]. intros p Hp v Hv.
  apply list_elem_of_lookup in Hp as [g Hg].
  assert (Hgn : g < n) by (rewrite <-(ok_buffer _ _ Hom); by eapply lookup_lt_Some).
  destruct (ok_heads _ _ Hom g Hgn) as (k & Hb & _ & Hd). simplify_eq. simpl.
  destruct (decide (v = g)) as [|Hne]; [by left|right].
  destruct (Hall g Hgn) as (b & Hxb & Hvotes).
  assert (k ≤ b).
  { destruct (decide (k ≤ b)) as [|Hlt]; [done|exfalso].
    assert (Hbd : (g, b) ∈ delivered om) by (apply Hd; lia).
    destruct Hxb as [->|Hxb]; [done|]. destruct (ok_segment _ _ Hom) as (_ & _ & Hc).
    eapply before_asym; [apply Hxb|]. by apply Hc. }
  destruct (Hvotes k v) as [w Hw]; [done..|]. eauto.
Qed.

End manager.

(** Two replicas in states of one assignment have delivered comparable
    sequences. *)
Lemma segments_agree n V S1 S2 om1 om2 :
  om_ok n V S1 om1 → om_ok n V S2 om2 →
  delivered om1 `prefix_of` delivered om2 ∨ delivered om2 `prefix_of` delivered om1.
Proof.
  intros H1 H2.
  apply (segments_prefix (before n V) (before_asym n V) (λ x, x.1 < n)); [apply H1|apply H2].
Qed.

(** ** Theorems about replicas *)

(** C6: every replica that receives the watermarks of an assignment, each
    voter's in the order assigned, returns from every call without failing a
    [CHECK], and delivers an initial segment of the order the assignment
    defines: in order, without gaps, without duplicates. *)
Theorem replica_delivers_in_order n V ds fuel :
  VoteLaws V → 2 ≤ n → fifo n V [] ds → fuel_for ds ≤ fuel →
  ∃ om, replica fuel n ds = Some (true, om) ∧
    initial_segment (before n V) (λ x, x.1 < n) (delivered om).
Proof.
  intros HV Hn Hf Hfuel. destruct (replica_ok n V ds fuel) as (S & om & E & Hom & _); [done..|].
  exists om. split; [done|]. apply Hom.
Qed.

(** Replicas agree: of two replicas that receive the votes of one assignment
    in different interleavings, and different amounts of them, one has delivered
    a prefix of what the other has delivered. *)
Theorem replicas_agree n V ds1 ds2 fuel :
  VoteLaws V → 2 ≤ n → fifo n V [] ds1 → fifo n V [] ds2 →
  fuel_for ds1 ≤ fuel → fuel_for ds2 ≤ fuel →
  ∃ om1 om2, replica fuel n ds1 = Some (true, om1) ∧ replica fuel n ds2 = Some (true, om2) ∧
    (delivered om1 `prefix_of` delivered om2 ∨ delivered om2 `prefix_of` delivered om1).
Proof.
  intros HV Hn H1 H2 Hf1 Hf2.
  destruct (replica_ok n V ds1 fuel) as (S1 & om1 & E1 & Hom1 & _); [done..|].
  destruct (replica_ok n V ds2 fuel) as (S2 & om2 & E2 & Hom2 & _); [done..|].
  exists om1, om2. split_and!; [done..|].
  by eapply segments_agree.
Qed.

(** C7: a block is delivered as soon as every chain is fully voted up to a block
    that is not before it in the order. *)
Theorem replica_live n V ds fuel x :
  VoteLaws V → 2 ≤ n → x.1 < n → fifo n V [] ds → fuel_for ds ≤ fuel →
  (∀ g, g < n → ∃ b, (x = (g, b) ∨ before n V x (g, b)) ∧
     ∀ b' v, b' ≤ b → v < n → v ≠ g → ∃ w, Vote g b' v w ∈ ds) →
  ∃ om, replica fuel n ds = Some (true, om) ∧ x ∈ delivered om.
Proof. intros. by apply (replica_delivers n V). Qed.

(** ** A concrete deployment *)

(** Two groups in lockstep: the other group's block [b] arrives when the local
    clock is [b - 1]. *)
Definition lockstep (g b v : nat) : Z := if decide (v = g) then Z.of_nat b else (Z.of_nat b - 1)%Z.

#[export] Instance lockstep_laws : VoteLaws lockstep.
Proof. split; intros; unfold lockstep; repeat case_decide; lia. Qed.

Definition run_a : list decision :=
  [Vote 1 0 0 (-1); Vote 0 0 1 (-1); Vote 1 1 0 0; Vote 0 1 1 0].
Definition run_b : list decision :=
  [Vote 0 0 0 0; Vote 0 0 1 (-1); Vote 0 1 1 0; Vote 0 0 1 (-1); Vote 1 0 0 (-1)].

Lemma lockstep_next g b v S :
  g < 2 → v < 2 → v ≠ g → (∀ k, k < b → ((g, k), v) ∈ S) →
  lowb 2 lockstep S v (lockstep g b v).
Proof.
  intros Hg Hv Hne Hall g' b' Hg' Hne' Hnin. assert (g' = g) as -> by lia.
  destruct (decide (b' < b)); [by destruct Hnin; apply Hall|].
  unfold lockstep. rewrite !decide_False by done. lia.
Qed.

Ltac fifo_step :=
  first
    [ exact (fifo_nil _ _ _)
    | apply fifo_own
    | apply fifo_dup; [lia|lia|set_solver|]
    | match goal with |- fifo _ _ _ (Vote ?g ?b ?v _ :: _) =>
        refine (fifo_vote 2 lockstep _ g b v _ _ _ _ _ _ _ _);
        [lia|lia|lia|set_solver|set_solver|
         apply lockstep_next; [lia..|]; intros [|[|k]] ?; try lia; set_solver|] end ].

Lemma run_a_fifo : fifo 2 lockstep [] run_a.
Proof. unfold run_a. repeat fifo_step. Qed.

Lemma run_b_fifo : fifo 2 lockstep [] run_b.
Proof. unfold run_b. repeat fifo_step. Qed.

Lemma replica_delivers_in_order_witness :
  ∃ om, replica (fuel_for run_a) 2 run_a = Some (true, om) ∧
    initial_segment (before 2 lockstep) (λ x, x.1 < 2) (delivered om).
Proof.
  apply (replica_delivers_in_order 2 lockstep run_a (fuel_for run_a));
    [apply lockstep_laws|lia|apply run_a_fifo|lia].
Defined.

Lemma replicas_agree_witness :
  ∃ om1 om2, replica 20 2 run_a = Some (true, om1) ∧ replica 20 2 run_b = Some (true, om2) ∧
    (delivered om1 `prefix_of` delivered om2 ∨ delivered om2 `prefix_of` delivered om1).
Proof.
  apply (replicas_agree 2 lockstep run_a run_b 20);
    [apply lockstep_laws|lia|apply run_a_fifo|apply run_b_fifo|by vm_compute; lia|by vm_compute; lia].
Defined.

Example run_a_order : order_of (replica 20 2 run_a) = Some (true, [(1, 0); (0, 0); (1, 1)]).
Proof. vm_compute. reflexivity. Qed.

Lemma replica_live_witness :
  ∃ om, replica 20 2 run_a = Some (true, om) ∧ (0, 0) ∈ delivered om.
Proof.
  apply (replica_live 2 lockstep run_a 20 (0, 0));
    [apply lockstep_laws|lia|simpl; lia|apply run_a_fifo|by vm_compute; lia|].
  intros g Hg. exists (if decide (g = 0) then 0 else 1).
  assert (g = 0 ∨ g = 1) as [-> | ->] by lia; simpl.
  - split; [by left|]. intros b' v ???. assert (b' = 0 ∧ v = 1) as [-> ->] by lia.
    exists (-1)%Z. unfold run_a. set_solver.
  - split; [right; by vm_compute|]. intros b' v ???. assert (v = 0) as -> by lia.
    exists (Z.of_nat b' - 1)%Z. destruct b' as [|[|b']]; [..|lia]; simpl; unfold run_a; set_solver.
Defined.
