(* ===== verification/InterChainFaults.v ===== *)
(** * Inter-chain ordering outside its assumptions

    Two behaviours of the order manager that the votes of a healthy deployment
    do not reach: the invalidation of a chain, which [OrderACB] requests when a
    group is reported down, and a vote that skips a block of a chain. *)

From S2P Require Import Prelude VectorOrder InterChainOrder InterChainProofs.

(** ** Invalidating a chain of two *)

(** The states of the loop of [popBlocks] after group 1 has voted for block 0 of
    group 0 and chain 0 was invalidated: that block is the head of its chain,
    block [k] of group 1 is the head of the other one. *)
Definition head0 : Cell := mkCell 0 0 [0; -1]%Z [true; true].
Definition head1 (k : nat) : Cell := mkCell 1 k [-1; Z.of_nat k]%Z [true; true].

Record looping (k : nat) (om : OM) : Prop := {
  loop_buffer : buffer om = [(0, 0); (1, k)];
  loop_inv : invalidateMap om = {[0]};
  loop_chains : ∃ h0 h1 l, chains om = [mkChain h0 [head0]; mkChain h1 (l ++ [head1 k])] ∧ length l = k;
  loop_delivered : delivered om = (λ b, (1, b)) <$> seq 0 k
}.

Lemma looping_heads k om :
  looping k om → deref (chains om) (0, 0) = Some head0 ∧ deref (chains om) (1, k) = Some (head1 k).
Proof.
  intros [_ _ (h0 & h1 & l & -> & <-) _]. split; [done|]. by apply list_lookup_middle.
Qed.

Lemma looping_minimum k om : looping k om → globalMinimum om = Some (Some (1, k)).
Proof.
  intros Hom. destruct (looping_heads k om Hom) as [H0 H1].
  assert (mustLessThan (chains om) (0, 0) (0, 0) = Some true) as E00.
  { unfold mustLessThan. by rewrite H0. }
  assert (mustLessThan (chains om) (0, 0) (1, k) = Some false) as E01.
  { unfold mustLessThan. by rewrite H0, H1. }
  assert (mustLessThan (chains om) (1, k) (0, 0) = Some true) as E10.
  { unfold mustLessThan. by rewrite H0, H1. }
  assert (mustLessThan (chains om) (1, k) (1, k) = Some true) as E11.
  { unfold mustLessThan. rewrite H1. cbn. by rewrite !bool_decide_true. }
  unfold globalMinimum. rewrite (loop_buffer _ _ Hom). simpl.
  by rewrite E00, E01, E10, E11.
Qed.

Lemma newCell_two k : newCell 2 1 k = Some (mkCell 1 k [-1; Z.of_nat k]%Z [false; true]).
Proof.
  unfold newCell, setIthWaterMark, INVALID_WATERMARK. cbn.
  destruct (Z.leb_spec (-1) (Z.of_nat k)); [done|lia].
Qed.

Lemma store_last h0 h1 l c c' k :
  length l = k → store [h0; mkChain h1 (l ++ [c])] (1, k) c' = [h0; mkChain h1 (l ++ [c'])].
Proof.
  intros <-. unfold store. cbn. by rewrite insert_app_r_alt, Nat.sub_diag by done.
Qed.

Lemma looping_step k om : looping k om → ∃ om', pop_one om (1, k) = Some om' ∧ looping (S k) om'.
Proof.
  intros Hom. destruct (looping_heads k om Hom) as [_ H1].
  destruct Hom as [Hb Hi (h0 & h1 & l & Hc & Hl) Hd]. destruct om as [cs buf inv dl]. simpl in *. subst.
  unfold pop_one, deliver. cbn [chains buffer invalidateMap delivered]. rewrite H1.
  cbn [mbind option_bind chains]. rewrite H1. cbn [mbind option_bind head1 groupId blockId].
  unfold createBlockIfNotExist. cbn [chains length].
  change ([mkChain h0 [head0]; ?c] !! 1) with (Some c). cbn [mbind option_bind cells height].
  rewrite length_app. replace (S (S (length l)) - (length l + length [head1 (length l)])) with 1 by (simpl; lia).
  cbn [expand]. rewrite newCell_two. cbn [mbind option_bind fst snd set_chains buffer invalidateMap delivered].
  change (<[1 := ?x]> [mkChain h0 [head0]; _]) with [mkChain h0 [head0]; x].
  set (l' := l ++ [head1 (length l)]). assert (Hl' : length l' = S (length l)) by (subst l'; rewrite length_app; simpl; lia).
  unfold exchange, set_chains. cbn [chains buffer].
  assert (deref [mkChain h0 [head0]; mkChain h1 (l' ++ [mkCell 1 (S (length l)) [-1; Z.of_nat (S (length l))]%Z [false; true]])] (1, length l)
    = Some (head1 (length l))) as ->.
  { unfold deref. cbn. rewrite lookup_app_l by lia. by apply list_lookup_middle. }
  assert (deref [mkChain h0 [head0]; mkChain h1 (l' ++ [mkCell 1 (S (length l)) [-1; Z.of_nat (S (length l))]%Z [false; true]])] (1, S (length l))
    = Some (mkCell 1 (S (length l)) [-1; Z.of_nat (S (length l))]%Z [false; true])) as ->.
  { unfold deref. cbn. by apply list_lookup_middle. }
  cbn [mbind option_bind head1 groupId blockId watermarks real length].
  change ([(0, 0); ?p] !! 1) with (Some p). cbn [mbind option_bind].
  rewrite !bool_decide_true by done. cbn [inherit mbind option_bind].
  destruct (Z.leb_spec (Z.of_nat (length l)) (Z.of_nat (S (length l)))); [|lia].
  cbn [mbind option_bind invalidateMap delivered].
  eexists. split; [done|]. split; cbn [buffer invalidateMap delivered chains]; [done..| |].
  - exists h0, h1, l'. split; [|done]. by rewrite store_last.
  - by rewrite seq_S, fmap_app.
Qed.

Lemma looping_forever fuel k om :
  looping k om → ∃ om', popBlocks fuel om = Some (false, om') ∧ looping (fuel + k) om'.
Proof.
  revert k om. induction fuel as [|fuel IH]; intros k om Hom; [by exists om|].
  rewrite popBlocks_S, (looping_minimum k) by done. cbn [mbind option_bind].
  destruct (looping_step k om Hom) as (om1 & -> & Hom1). cbn [mbind option_bind].
  destruct (IH (S k) om1 Hom1) as (om' & -> & Hom'). exists om'. split; [done|].
  by replace (S fuel + k) with (fuel + S k) by lia.
Qed.

(** The state before the loop that the invalidation starts. *)
Definition invalidated : OM :=
  mkOM [mkChain 0 [head0]; mkChain (-1) [head1 0]] [(0, 0); (1, 0)] {[0]} [].

Lemma invalidated_looping : looping 0 invalidated.
Proof. split; [done..| |done]. by exists 0%Z, (-1)%Z, []. Qed.

(** When group 0 is reported down after group 1 has voted for its first
    block, the invalidation of its chain never returns: however many iterations
    the loop of [popBlocks] is given, it is still running and has delivered
    that many blocks of group 1, although no block of group 1 exists. *)
Theorem invalidate_never_returns fuel :
  ∃ om, replica fuel 2 [Vote 0 0 1 (-1); Invalidate 0] = Some (false, om) ∧
    delivered om = (λ b, (1, b)) <$> seq 0 fuel.
Proof.
  destruct fuel as [|fuel]; [eexists; split; vm_compute; reflexivity|].
  destruct (looping_forever (S fuel) 0 invalidated invalidated_looping) as (om & E & Hom).
  exists om. split; [|rewrite (loop_delivered _ _ Hom); by rewrite Nat.add_0_r].
  transitivity (r ← popBlocks (S fuel) invalidated;
    if (r.1 : bool) then apply_all (S fuel) r.2 [] else Some r); [reflexivity|by rewrite E].
Qed.

(** ** Invalidating a chain with nothing pending *)

(** The [CHECK] of [CommitBuffer::invalidateChain] compares the own watermark of
    the chain's head, the number of the block expected next, with the height
    of the chain. *)
Lemma invalidateHeads_dies cs buf g ht p c w :
  p ∈ buf → deref cs p = Some c → watermarks c !! g = Some w → (ht < w)%Z →
  invalidateHeads cs buf g ht = None.
Proof.
  revert cs c. induction buf as [|it buf IH]; intros cs c Hp Hc Hw Hlt; [by apply elem_of_nil in Hp|].
  simpl. destruct (deref cs it) as [d|] eqn:Hd; [|done]. simpl.
  destruct (watermarks d !! g) as [e|] eqn:He; [|done]. simpl.
  destruct (Z.leb_spec e ht); [|done].
  apply elem_of_cons in Hp as [->|Hp]; [simplify_eq; lia|].
  destruct (decide (p = it)) as [->|Hne]; [simplify_eq; lia|].
  eapply IH; [done| |done..]. by rewrite deref_store, decide_False.
Qed.

(** A group reported down when all its known blocks are delivered kills the
    replica: the [CHECK] compares the head of its chain, the block expected
    next, with the height of the chain, and fails. *)
Theorem invalidate_drained_dies n V ds fuel :
  VoteLaws V → 2 ≤ n → fifo n V [] ds → fuel_for ds ≤ fuel →
  ∃ om, replica fuel n ds = Some (true, om) ∧
    ∀ g k ch, g < n → buffer om !! g = Some (g, k) → chains om !! g = Some ch →
      (height ch < Z.of_nat k)%Z → ∀ fuel', invalidateChain fuel' om g = None.
Proof.
  intros HV Hn Hf Hfuel. destruct (replica_ok n V ds fuel) as (S & om & E & Hom & _); [done..|].
  exists om. split; [done|]. intros g k ch Hg Hb Hch Hlt fuel'.
  destruct (ok_heads _ _ _ _ Hom g Hg) as (k' & Hb' & [c Hc] & _). simplify_eq.
  pose proof (ok_cells _ _ _ _ (ok_store _ _ _ _ Hom) _ _ Hc) as Okc.
  destruct (lookup_lt_is_Some_2 (real c) g) as [r Hr]; [by rewrite (ok_lenr _ _ _ _ _ Okc)|].
  destruct (lookup_lt_is_Some_2 (watermarks c) g) as [w Hw]; [by rewrite (ok_lenw _ _ _ _ _ Okc)|].
  destruct (ok_entry _ _ _ _ _ Okc _ _ _ Hw Hr) as [Hi Hv].
  assert (r = true) as -> by (apply Hi; by left). simpl in Hv. rewrite vote_own in Hv. subst w.
  unfold invalidateChain, heads_invalidateChain. rewrite Hch. simpl.
  rewrite (ok_noinv _ _ _ _ Hom), bool_decide_false by set_solver.
  erewrite invalidateHeads_dies; [done|by eapply list_elem_of_lookup_2|done..].
Qed.

Lemma invalidate_drained_dies_witness :
  ∃ om, replica 20 2 run_a = Some (true, om) ∧ invalidateChain 20 om 1 = None.
Proof.
  destruct (invalidate_drained_dies 2 lockstep run_a 20) as (om & E & Hdie);
    [apply lockstep_laws|lia|apply run_a_fifo|by vm_compute; lia|].
  exists om. split; [done|].
  apply (Hdie 1 2 (default (mkChain 0 []) (chains om !! 1))); [lia|..];
    assert (om = default om (snd <$> replica 20 2 run_a)) as -> by (by rewrite E); by vm_compute.
Defined.

(** ** A vote that skips a block *)

(** When a group votes for block 2 of a chain without having voted for its
    block 1, the cell created for block 1 carries number 2, and the replica dies
    when block 0 of the chain is delivered. *)
Theorem vote_gap_dies :
  (∃ om c, replica 10 3 [Vote 1 2 2 0] = Some (true, om) ∧
     deref (chains om) (1, 1) = Some c ∧ blockId c = 2) ∧
  replica 10 3 [Vote 1 2 2 0; Vote 1 0 0 (-1); Vote 2 0 0 0] = None.
Proof.
  split; [|by vm_compute].
  eexists (default (mkOM [] [] ∅ []) (snd <$> replica 10 3 [Vote 1 2 2 0])), _. by vm_compute.
Qed.
