(* ===== verification/GlobalOrder.v ===== *)
(** * The ordering service end to end

    The order assigners of all groups feed the order managers of all replicas:
    what the assigners promise ([log_ok]) is what the managers assume
    ([VoteLaws] and [fifo]).  Each group's votes travel through that group's
    raft instance, which keeps their order (vendored braft; here the
    hypothesis [arrives]): a replica sees a prefix of every group's votes, in
    any interleaving of the groups. *)

From S2P Require Import Prelude VectorOrder OrderAssigner InterChainOrder InterChainProofs.
From Stdlib Require Import Sorting.Sorted.

(** ** The assignment the logs define *)

Fixpoint watermark_in (log : list vote) (p : nat * nat) : option Z :=
  match log with
  | [] => None
  | x :: log => if decide (x.1 = p) then Some x.2 else watermark_in log p
  end.

Definition top (log : list vote) : Z := foldr (λ x m, Z.max x.2 m) (-1)%Z log.

(** A block a group has not voted for is above everything it has voted for. *)
Definition assignment (L : nat → list vote) (g b v : nat) : Z :=
  if decide (v = g) then Z.of_nat b else default (top (L v)) (watermark_in (L v) (g, b)).

Lemma top_ge log x : x ∈ log → (x.2 ≤ top log)%Z.
Proof.
  induction log as [|y log IH]; [by intros ?%elem_of_nil|].
  intros [->|Hx]%elem_of_cons; simpl; [lia|]. specialize (IH Hx). lia.
Qed.

Lemma top_low log : (-1 ≤ top log)%Z.
Proof. induction log; simpl; lia. Qed.

Lemma watermark_in_Some log p w : watermark_in log p = Some w → (p, w) ∈ log.
Proof.
  induction log as [|[q u] log IH]; simpl; [done|]. case_decide; [|set_solver].
  intros. simplify_eq/=. set_solver.
Qed.

Lemma watermark_in_None log p : watermark_in log p = None → p ∉ log.*1.
Proof.
  induction log as [|[q u] log IH]; simpl; [intros _; apply not_elem_of_nil|].
  case_decide; [done|]. intros E [->|?]%elem_of_cons; [done|]. by apply IH.
Qed.

Lemma watermark_in_unique log p w : NoDup (log.*1) → (p, w) ∈ log → watermark_in log p = Some w.
Proof.
  induction log as [|[q u] log IH]; simpl; [by intros _ ?%elem_of_nil|].
  intros [Hn Hnd]%NoDup_cons [[= -> ->]|Hin]%elem_of_cons; [by rewrite decide_True|].
  rewrite decide_False; [by apply IH|]. intros ->. apply Hn, list_elem_of_fmap. by exists (p, w).
Qed.

Lemma sorted_later v log l1 x l2 y :
  log_ok v log → log = l1 ++ x :: l2 → y ∈ x :: l2 → x.1.1 ≠ v → y.1.1 ≠ v → (x.2 ≤ y.2)%Z.
Proof.
  intros Hl -> [->|Hy]%elem_of_cons Hx Hyv; [done|].
  pose proof (log_sorted _ _ Hl) as Hs. clear Hl.
  induction l1 as [|z l1 IH]; simpl in Hs; apply StronglySorted_inv in Hs as [Hs Hf]; [|auto].
  rewrite Forall_forall in Hf. by apply Hf.
Qed.

Section system.
Context (n : nat) (L : nat → list vote).
Hypothesis (logs_ok : ∀ v, log_ok v (L v)).
Hypothesis (in_range : ∀ v x, x ∈ L v → x.1.1 < n).

Lemma assignment_voted v g b w : v ≠ g → ((g, b), w) ∈ L v → assignment L g b v = w.
Proof.
  intros Hne Hin. unfold assignment. rewrite decide_False by done.
  by rewrite (watermark_in_unique (L v) (g, b) w) by (done || apply logs_ok).
Qed.

Lemma assignment_above v g b x : v ≠ g → (g, b) ∉ (L v).*1 → x ∈ L v → (x.2 ≤ assignment L g b v)%Z.
Proof.
  intros Hne Hnin Hx. unfold assignment. rewrite decide_False by done.
  destruct (watermark_in (L v) (g, b)) as [w|] eqn:E; simpl; [|by apply top_ge].
  destruct Hnin. apply watermark_in_Some in E. apply list_elem_of_fmap. by exists (g, b, w).
Qed.

Lemma assignment_mono v g b : v ≠ g → (assignment L g b v ≤ assignment L g (S b) v)%Z.
Proof.
  intros Hne. destruct (watermark_in (L v) (g, b)) as [w|] eqn:E.
  - apply watermark_in_Some in E as Hin. rewrite (assignment_voted v g b w) by done.
    destruct (decide ((g, S b) ∈ (L v).*1)) as [Hn|Hn]; [|by apply (assignment_above v g (S b) (g, b, w))].
    apply list_elem_of_fmap in Hn as ([p u] & Hp & Hu). simpl in Hp. subst p.
    rewrite (assignment_voted v g (S b) u) by done.
    pose proof Hu as Hsplit. apply list_elem_of_split in Hsplit as (l1 & l2 & Hs).
    pose proof (log_order _ _ (logs_ok v) _ _ _ _ _ Hs) as Hb.
    apply list_elem_of_fmap in Hb as ([p x] & Hp & Hb). simpl in Hp. subst p.
    assert (x = w) as ->.
    { assert ((g, b, x) ∈ L v) by (rewrite Hs; set_solver).
      pose proof (watermark_in_unique (L v) (g, b) x ltac:(apply logs_ok) ltac:(done)). congruence. }
    apply list_elem_of_split in Hb as (l3 & l4 & ->).
    assert (E' : L v = l3 ++ (g, b, w) :: (l4 ++ (g, S b, u) :: l2)) by (rewrite Hs, <-app_assoc; done).
    eapply (sorted_later v (L v) _ (g, b, w) _ (g, S b, u)); [apply logs_ok|exact E'|set_solver|by simpl; congruence..].
  - unfold assignment. rewrite !decide_False by done. rewrite E. simpl.
    destruct (watermark_in (L v) (g, S b)) as [u|] eqn:E'; [exfalso|done].
    apply watermark_in_Some, list_elem_of_split in E' as (l1 & l2 & Hs).
    pose proof (log_order _ _ (logs_ok v) _ _ _ _ _ Hs) as Hb.
    apply (watermark_in_None _ _ E). rewrite Hs, fmap_app. set_solver.
Qed.

#[local] Instance assignment_laws : VoteLaws (assignment L).
Proof.
  split.
  - intros. unfold assignment. by rewrite decide_True.
  - intros g b v. destruct (decide (v = g)) as [->|]; [|by apply assignment_mono].
    unfold assignment. rewrite !decide_True by done. lia.
  - intros. unfold assignment. case_decide; [lia|].
    destruct (watermark_in _ _) eqn:E; simpl; [|apply top_low].
    apply watermark_in_Some in E. by apply (log_low _ _ (logs_ok v)) in E.
Qed.

(** ** What a replica receives *)

(** The raft instance of every group delivers that group's votes in order; a
    replica sees any interleaving of the groups, up to any point. *)
Inductive arrives : (nat → list vote) → list decision → Prop :=
| arrives_nil rest : arrives rest []
| arrives_next rest v g b w tl ds :
    v < n → rest v = (g, b, w) :: tl →
    arrives (λ x, if decide (x = v) then tl else rest x) ds →
    arrives rest (Vote g b v w :: ds).

(** The votes seen are those consumed from the logs. *)
Definition consumed (rest : nat → list vote) (S : list (nat * nat * nat)) : Prop :=
  ∀ v, ∃ past, L v = past ++ rest v ∧ ∀ g b, g ≠ v → ((g, b), v) ∈ S ↔ (g, b) ∈ past.*1.

Lemma consumed_next rest S v g b w tl :
  consumed rest S → rest v = (g, b, w) :: tl →
  consumed (λ x, if decide (x = v) then tl else rest x) (if decide (v = g) then S else ((g, b), v) :: S).
Proof.
  intros Hc Hr u. destruct (Hc u) as (past & HL & Hin). case_decide as Hu.
  - subst u. exists (past ++ [(g, b, w)]). split; [by rewrite HL, Hr, <-app_assoc|].
    intros g' b' Hne. rewrite fmap_app, elem_of_app, <-Hin by done. simpl. rewrite list_elem_of_singleton.
    case_decide; [naive_solver|]. rewrite elem_of_cons. naive_solver.
  - exists past. split; [done|]. intros g' b' Hne. rewrite <-Hin by done.
    case_decide; [done|]. rewrite elem_of_cons. naive_solver.
Qed.

Lemma arrives_fifo rest S ds :
  arrives rest ds → consumed rest S → fifo n (assignment L) S ds.
Proof.
  intros Ha. revert S. induction Ha as [rest|rest v g b w tl ds Hv Hr Ha IH]; intros S Hc; [constructor|].
  pose proof (IH _ (consumed_next _ _ _ _ _ _ _ Hc Hr)) as Hf.
  destruct (Hc v) as (past & HL & Hin). rewrite Hr in HL.
  assert (HinL : (g, b, w) ∈ L v) by (rewrite HL; set_solver).
  destruct (decide (v = g)) as [->|Hne]; [by apply fifo_own|].
  pose proof (log_once _ _ (logs_ok v)) as Hnd. rewrite HL, fmap_app in Hnd.
  apply NoDup_app in Hnd as (_ & Hnd & _).
  rewrite <-(assignment_voted v g b w) by done.
  apply fifo_vote; [by apply (in_range v) in HinL|done|done| | | |done].
  - rewrite Hin by done. intros Hp. apply (Hnd _ Hp). simpl. set_solver.
  - destruct b as [|b]; [by left|right]. rewrite Nat.sub_succ, Nat.sub_0_r, Hin by done.
    by eapply (log_order _ _ (logs_ok v)).
  - intros g' b' Hg' Hne' Hnin. rewrite Hin in Hnin by done. rewrite (assignment_voted v g b w) by done.
    destruct (decide ((g', b') ∈ (L v).*1)) as [Hin'|Hn]; [|by apply (assignment_above v g' b' (g, b, w))].
    apply list_elem_of_fmap in Hin' as ([p u] & Hp & Hu). simpl in Hp. subst p.
    rewrite (assignment_voted v g' b' u) by done.
    eapply (sorted_later v (L v) past (g, b, w) tl (g', b', u)); [apply logs_ok|done| |by simpl; congruence..].
    rewrite HL in Hu. apply elem_of_app in Hu as [Hu|Hu]; [|done].
    destruct Hnin. apply list_elem_of_fmap. by exists (g', b', u).
Qed.

Lemma arrivals_fifo ds : arrives L ds → fifo n (assignment L) [] ds.
Proof.
  intros Ha. apply (arrives_fifo L); [done|]. intros v. exists []. split; [done|].
  intros g b _. simpl. split; by intros ?%elem_of_nil.
Qed.

End system.

(** ** The service *)

(** The votes a group's leader has handed to raft. *)
Definition log_of (calls : nat → list call) (v : nat) : list vote :=
  default [] (option_map snd (assign (newAssigner v) (calls v))).

Lemma assign_votes_called oa cs oa' log x :
  assign oa cs = Some (oa', log) → x ∈ log → GetBlockOrder x.1.1 x.1.2 ∈ cs.
Proof.
  revert oa oa' log. induction cs as [|c cs IH]; intros oa oa' log; simpl.
  { intros [= <- <-] Hx. by apply elem_of_nil in Hx. }
  destruct (perform oa c) as [[oa1 r]|] eqn:E; [|done]. simpl.
  destruct (assign oa1 cs) as [[oa2 log2]|] eqn:E2; [|done]. simpl. intros [= <- <-] Hx.
  apply elem_of_app in Hx as [Hx|Hx]; [|right; by eapply IH]. apply elem_of_cons. left.
  destruct c as [g b|g b v|g b|g b]; simpl in E.
  - destruct (getBlockOrder oa g b) as [[? [r'|]]|]; simplify_eq/=; [|by apply elem_of_nil in Hx].
    apply list_elem_of_singleton in Hx as ->. done.
  - destruct (addVoteForBlock _ _ _ _); simplify_eq/=. by apply elem_of_nil in Hx.
  - destruct (getVoteForBlock _ _ _); simplify_eq/=. by apply elem_of_nil in Hx.
  - destruct (increaseLocalClock _ _ _); simplify_eq/=. by apply elem_of_nil in Hx.
Qed.

(** A deployment of [n] groups: the calls of every leader meet the assumptions
    of the assigner and concern the chains of the deployment. *)
Definition deployment (n : nat) (calls : nat → list call) : Prop :=
  ∀ v, calls_ok v (calls v) ∧ ∀ g b, GetBlockOrder g b ∈ calls v → g < n.

Lemma deployment_logs n calls :
  deployment n calls →
  (∀ v, log_ok v (log_of calls v)) ∧ (∀ v x, x ∈ log_of calls v → x.1.1 < n).
Proof.
  intros Hd. split; intros v; destruct (Hd v) as [Hok Hr];
    destruct (votes_of_assigner v (calls v) Hok) as (oa & log & E & Hlog); unfold log_of; rewrite E; simpl; [done|].
  intros x Hx. eapply Hr, assign_votes_called; done.
Qed.

Lemma deployment_delivers n calls ds1 ds2 fuel :
  2 ≤ n → deployment n calls →
  arrives n (log_of calls) ds1 → arrives n (log_of calls) ds2 →
  fuel_for ds1 ≤ fuel → fuel_for ds2 ≤ fuel →
  ∃ om1 om2, replica fuel n ds1 = Some (true, om1) ∧ replica fuel n ds2 = Some (true, om2) ∧
    (delivered om1 `prefix_of` delivered om2 ∨ delivered om2 `prefix_of` delivered om1).
Proof.
  intros Hn Hd H1 H2 Hf1 Hf2. destruct (deployment_logs _ _ Hd) as [Hlog Hr].
  pose proof (assignment_laws n (log_of calls) Hlog Hr) as HV.
  destruct (replica_ok n (assignment (log_of calls)) ds1 fuel) as (S1 & om1 & E1 & Hom1 & _);
    [done|by apply arrivals_fifo|done|].
  destruct (replica_ok n (assignment (log_of calls)) ds2 fuel) as (S2 & om2 & E2 & Hom2 & _);
    [done|by apply arrivals_fifo|done|].
  exists om1, om2. split_and!; [done..|].
  eapply segments_agree; done.
Qed.

(** C3: the ordering service agrees: whatever the leaders of the groups do, and
    whichever prefixes of their votes two replicas have received in whichever
    interleavings, both replicas have returned from every call, and one has
    delivered a prefix of what the other has delivered. *)
Theorem ordering_service_agrees n calls ds1 ds2 fuel :
  2 ≤ n → deployment n calls →
  arrives n (log_of calls) ds1 → arrives n (log_of calls) ds2 →
  fuel_for ds1 ≤ fuel → fuel_for ds2 ≤ fuel →
  ∃ om1 om2, replica fuel n ds1 = Some (true, om1) ∧ replica fuel n ds2 = Some (true, om2) ∧
    (delivered om1 `prefix_of` delivered om2 ∨ delivered om2 `prefix_of` delivered om1).
Proof. apply deployment_delivers. Qed.

(** Two groups whose leaders have each voted for both first blocks. *)
Definition two_groups (v : nat) : list call :=
  match v with
  | 0 => [GetBlockOrder 1 0; GetBlockOrder 0 0; IncreaseClock 0 0; GetBlockOrder 1 1]
  | 1 => [GetBlockOrder 1 0; GetBlockOrder 0 0; IncreaseClock 1 0]
  | _ => []
  end.

Lemma two_groups_deployment : deployment 2 two_groups.
Proof.
  intros [|[|v]]; (split; [split; vm_compute; repeat split; first [lia|done]|]);
    intros g b Hin; simpl in Hin; set_solver by lia.
Qed.

Definition arrival_1 : list decision := [Vote 1 0 0 (-1); Vote 1 0 1 0; Vote 0 0 1 (-1); Vote 0 0 0 0; Vote 1 1 0 0].
Definition arrival_2 : list decision := [Vote 1 0 1 0; Vote 1 0 0 (-1)].

Ltac arrive := eapply arrives_next; [lia|vm_compute; reflexivity|].

Lemma arrival_1_arrives : arrives 2 (log_of two_groups) arrival_1.
Proof. unfold arrival_1. repeat arrive. constructor. Qed.

Lemma arrival_2_arrives : arrives 2 (log_of two_groups) arrival_2.
Proof. unfold arrival_2. repeat arrive. constructor. Qed.

Lemma ordering_service_agrees_witness :
  ∃ om1 om2, replica 20 2 arrival_1 = Some (true, om1) ∧ replica 20 2 arrival_2 = Some (true, om2) ∧
    (delivered om1 `prefix_of` delivered om2 ∨ delivered om2 `prefix_of` delivered om1).
Proof.
  apply (ordering_service_agrees 2 two_groups arrival_1 arrival_2 20);
    [lia|apply two_groups_deployment|apply arrival_1_arrives|apply arrival_2_arrives|by vm_compute; lia|by vm_compute; lia].
Defined.

Example arrivals_order :
  order_of (replica 20 2 arrival_1) = Some (true, [(1, 0); (0, 0); (1, 1)]) ∧
  order_of (replica 20 2 arrival_2) = Some (true, [(1, 0)]).
Proof. split; vm_compute; reflexivity. Qed.
