(* ===== verification/RoundBased.v ===== *)
(** * Round-based block ordering

    [peer::consensus::rb::RoundBasedOrderManager]
    (include/peer/consensus/block_order/round_based/round_based_order_manager.h):
    the alternative ordering that delivers the blocks of all groups round by
    round.  [lastCommittedRound] is kept as the number of committed rounds
    ([lastCommittedRound + 1]); [callback] appends to [delivered]. *)

From S2P Require Import Prelude.

Record RB := mkRB {
  subChainCount : nat;
  committed : nat;
  invalidGroupList : gset nat;
  receiveMap : gmap nat (list bool);
  rb_delivered : list (nat * nat)
}.

Definition setSubChainCount (count : nat) : RB := mkRB count 0 ∅ ∅ [].

(** [invalidGroupList.contains(idx)] for the loop variable [idx] of the loop over
    a [vector<bool>]: the boolean itself is looked up as a group number. *)
Definition contains_bool (s : gset nat) (idx : bool) : bool := bool_decide (Nat.b2n idx ∈ s).

(** [isRoundCommitted(lastCommittedRound + 1)], the only call: its loop has one
    iteration. *)
Definition isRoundCommitted (rb : RB) : RB * bool :=
  match receiveMap rb !! committed rb with
  | None => (rb, false)
  | Some v =>
      if existsb (λ idx, negb idx && negb (contains_bool (invalidGroupList rb) idx)) v then (rb, false)
      else (mkRB (subChainCount rb) (S (committed rb)) (invalidGroupList rb)
              (delete (committed rb) (receiveMap rb)) (rb_delivered rb), true)
  end.

(** The callbacks of the round just committed. *)
Definition deliver_round (rb : RB) : RB :=
  mkRB (subChainCount rb) (committed rb) (invalidGroupList rb) (receiveMap rb)
    (rb_delivered rb ++
     ((λ i, (i, committed rb - 1)) <$>
      filter (λ i, i ∉ invalidGroupList rb) (seq 0 (subChainCount rb)))).

(** The [while] of [tryCommitBlock]: every iteration but the last removes an entry
    of [receiveMap]. *)
Fixpoint tryCommit_loop (fuel : nat) (rb : RB) : bool * RB :=
  match fuel with
  | 0 => (false, rb)
  | S fuel =>
      let '(rb, b) := isRoundCommitted rb in
      if (b : bool) then tryCommit_loop fuel (deliver_round rb) else (true, rb)
  end.

Definition tryCommitBlock (rb : RB) : bool * RB :=
  tryCommit_loop (S (size (receiveMap rb))) rb.

(** The result is the value returned, with the state after the call; the calls
    whose loop has not ended are [None]. *)
Definition commit_and_return (rb : RB) : option (RB * bool) :=
  let '(fin, rb) := tryCommitBlock rb in if (fin : bool) then Some (rb, true) else None.

Definition rb_pushDecision (rb : RB) (c b : nat) : option (RB * bool) :=
  if bool_decide (subChainCount rb ≤ c) then Some (rb, false) else
  let v := default (replicate (subChainCount rb) false) (receiveMap rb !! b) in
  commit_and_return (mkRB (subChainCount rb) (committed rb) (invalidGroupList rb)
    (<[b := <[c := true]> v]> (receiveMap rb)) (rb_delivered rb)).

Definition rb_invalidateChain (rb : RB) (c : nat) : option (RB * bool) :=
  if bool_decide (subChainCount rb ≤ c) then Some (rb, false) else
  if bool_decide (c ∈ invalidGroupList rb) then Some (rb, true) else
  commit_and_return (mkRB (subChainCount rb) (committed rb) ({[c]} ∪ invalidGroupList rb)
    (receiveMap rb) (rb_delivered rb)).

(** A replica receives decisions one by one. *)
Fixpoint rb_run (rb : RB) (ds : list (nat * nat)) : option RB :=
  match ds with
  | [] => Some rb
  | d :: ds => x ← rb_pushDecision rb d.1 d.2; rb_run x.1 ds
  end.

(** ** The loop terminates *)

Lemma isRoundCommitted_shrinks rb rb' :
  isRoundCommitted rb = (rb', true) → S (size (receiveMap rb')) = size (receiveMap rb).
Proof.
  unfold isRoundCommitted. destruct (receiveMap rb !! committed rb) as [v|] eqn:E; [|done].
  destruct (existsb _ v); [done|]. intros [= <-]. simpl.
  rewrite map_size_delete, E. assert (size (receiveMap rb) ≠ 0); [|lia].
  intros H0%map_size_empty_inv. by rewrite H0 in E.
Qed.

Lemma tryCommit_loop_ends fuel rb :
  size (receiveMap rb) < fuel → ∃ rb', tryCommit_loop fuel rb = (true, rb').
Proof.
  revert rb. induction fuel as [|fuel IH]; intros rb Hf; [lia|]. simpl.
  destruct (isRoundCommitted rb) as [rb1 []] eqn:E; [|by eexists].
  apply isRoundCommitted_shrinks in E. apply IH. simpl. lia.
Qed.

Lemma tryCommitBlock_ends rb : ∃ rb', tryCommitBlock rb = (true, rb').
Proof. apply tryCommit_loop_ends. lia. Qed.

(** ** Correctness without failures *)

(** The blocks of the first [k] rounds, group by group. *)
Definition rounds (n k : nat) : list (nat * nat) :=
  r ← seq 0 k; (λ i, (i, r)) <$> seq 0 n.

Lemma rounds_S n k : rounds n (S k) = rounds n k ++ ((λ i, (i, k)) <$> seq 0 n).
Proof. unfold rounds. rewrite seq_S. rewrite bind_app. simpl. by rewrite app_nil_r. Qed.

Lemma filter_none_invalid `{!∀ i : nat, Decision (i ∉ (∅ : gset nat))} (l : list nat) :
  filter (λ i, i ∉ (∅ : gset nat)) l = l.
Proof.
  induction l as [|i l IH]; [done|]. rewrite filter_cons_True by set_solver. by rewrite IH.
Qed.

Section healthy.
Context (n : nat).

(** Round [r] has been received from every group. *)
Definition complete (ds : list (nat * nat)) (r : nat) : Prop := ∀ i, i < n → (i, r) ∈ ds.

Record rb_ok (ds : list (nat * nat)) (rb : RB) : Prop := {
  rb_count : subChainCount rb = n;
  rb_healthy : invalidGroupList rb = ∅;
  rb_rounds : rb_delivered rb = rounds n (committed rb);
  rb_complete r : r < committed rb → complete ds r;
  rb_map r v : committed rb ≤ r → receiveMap rb !! r = Some v →
    length v = n ∧ ∀ i, i < n → v !! i = Some true ↔ (i, r) ∈ ds;
  rb_nomap r : committed rb ≤ r → receiveMap rb !! r = None → ∀ i, i < n → (i, r) ∉ ds
}.

Lemma missing_false (v : list bool) :
  existsb (λ idx, negb idx && negb (contains_bool ∅ idx)) v = false ↔ ∀ i, i < length v → v !! i = Some true.
Proof.
  induction v as [|b v IH]; simpl; [split; [intros _ i ?; lia|done]|].
  rewrite orb_false_iff, IH. destruct b; simpl; split.
  - intros [_ H] [|i] ?; simpl; [done|apply H; lia].
  - intros H. split; [done|]. intros i ?. apply (H (S i)). lia.
  - intros [E _]. done.
  - intros H. specialize (H 0 ltac:(lia)). done.
Qed.

Lemma healthy_round rb ds :
  0 < n → rb_ok ds rb →
  ∃ rb' b, isRoundCommitted rb = (rb', b) ∧
    if (b : bool) then rb_ok ds (deliver_round rb') ∧ receiveMap (deliver_round rb') = receiveMap rb'
    else rb' = rb ∧ ¬ complete ds (committed rb).
Proof.
  intros Hn Hrb. unfold isRoundCommitted.
  destruct (receiveMap rb !! committed rb) as [v|] eqn:E.
  2:{ exists rb, false. split_and!; [done..|]. intros Hc.
      by apply (rb_nomap _ _ Hrb _ ltac:(done) E 0), Hc. }
  destruct (rb_map _ _ Hrb _ _ ltac:(done) E) as [Hl Hv]. rewrite (rb_healthy _ _ Hrb).
  destruct (existsb _ v) eqn:Ee.
  - exists rb, false. split_and!; [done..|]. intros Hc.
    assert (H : existsb (λ idx, negb idx && negb (contains_bool ∅ idx)) v = false); [|congruence].
    apply missing_false. intros i Hi. apply Hv; [lia|]. apply Hc. lia.
  - eexists _, true. split; [done|]. split; [|done].
    assert (Hcomp : complete ds (committed rb)).
    { intros i Hi. apply Hv; [done|]. eapply missing_false; [done|lia]. }
    destruct Hrb as [Hcount Hh Hr Hc Hm Hnm]. split; simpl; [done|done| | | |].
    + rewrite Hr, rounds_S, Hcount. f_equal. rewrite Nat.sub_0_r. f_equal.
      apply filter_none_invalid.
    + intros r Hlt. destruct (decide (r = committed rb)) as [->|]; [done|]. apply Hc. lia.
    + intros r w Hle. rewrite lookup_delete_ne by lia. apply Hm. lia.
    + intros r Hle. rewrite lookup_delete_ne by lia. apply Hnm. lia.
Qed.

Lemma healthy_loop fuel rb ds rb' :
  0 < n → rb_ok ds rb → tryCommit_loop fuel rb = (true, rb') →
  rb_ok ds rb' ∧ ¬ complete ds (committed rb').
Proof.
  intros Hn. revert rb. induction fuel as [|fuel IH]; intros rb Hrb; [done|]. simpl.
  destruct (healthy_round rb ds) as (rb1 & [] & -> & H); [done..| |].
  - apply IH, H.
  - intros [= <-]. destruct H as [-> ?]. done.
Qed.

(** Receiving a block keeps the invariant up to the commits it enables. *)
Lemma receive_ok ds rb c b :
  rb_ok ds rb → c < n →
  rb_ok (ds ++ [(c, b)]) (mkRB (subChainCount rb) (committed rb) (invalidGroupList rb)
    (<[b := <[c := true]> (default (replicate (subChainCount rb) false) (receiveMap rb !! b))]> (receiveMap rb))
    (rb_delivered rb)).
Proof.
  intros [Hcount Hh Hr Hc Hm Hnm] Hcn. split; simpl; [done..| | |].
  - intros r Hlt i Hi. apply elem_of_app. left. by apply Hc.
  - intros r v Hle. destruct (decide (r = b)) as [->|Hne].
    + rewrite lookup_insert_eq. intros [= <-]. rewrite length_insert.
      destruct (receiveMap rb !! b) as [v|] eqn:E; simpl.
      * destruct (Hm b v Hle E) as [Hl Hv]. split; [done|]. intros i Hi.
        rewrite elem_of_app, <-Hv, list_elem_of_singleton by done.
        destruct (decide (i = c)) as [->|]; [rewrite list_lookup_insert_eq by lia; naive_solver|].
        rewrite list_lookup_insert_ne by done. naive_solver.
      * rewrite Hcount. split; [by rewrite length_replicate|]. intros i Hi.
        pose proof (Hnm b Hle E i Hi). rewrite elem_of_app, list_elem_of_singleton.
        destruct (decide (i = c)) as [->|];
          [rewrite list_lookup_insert_eq by (rewrite length_replicate; lia); naive_solver|].
        rewrite list_lookup_insert_ne, lookup_replicate_2 by done. naive_solver.
    + rewrite lookup_insert_ne by done. intros E. destruct (Hm r v Hle E) as [Hl Hv].
      split; [done|]. intros i Hi. rewrite Hv, elem_of_app, list_elem_of_singleton by done. naive_solver.
  - intros r Hle. destruct (decide (r = b)) as [->|Hne]; [by rewrite lookup_insert_eq|].
    rewrite lookup_insert_ne by done. intros E i Hi. rewrite elem_of_app, list_elem_of_singleton.
    intros [?|[= _ ?]]; [by apply (Hnm r Hle E i)|done].
Qed.

Lemma rb_run_ok rb ds ds' :
  0 < n → rb_ok ds rb → ¬ complete ds (committed rb) → Forall (λ d, d.1 < n) ds' →
  ∃ rb', rb_run rb ds' = Some rb' ∧ rb_ok (ds ++ ds') rb' ∧ ¬ complete (ds ++ ds') (committed rb').
Proof.
  intros Hn Hrb Hq Hds. revert rb ds Hrb Hq. induction Hds as [|[c b] ds' Hc Hds IH]; intros rb ds Hrb Hq.
  { exists rb. rewrite app_nil_r. done. }
  cbn [rb_run fst snd] in *. unfold rb_pushDecision, commit_and_return.
  rewrite bool_decide_false by (rewrite (rb_count _ _ Hrb); lia).
  pose proof (receive_ok ds rb c b Hrb Hc) as H1.
  match goal with |- context [tryCommitBlock ?r] => destruct (tryCommitBlock_ends r) as [rb1 E] end.
  rewrite E. simpl. destruct (healthy_loop _ _ _ _ Hn H1 E) as [H2 Hq2].
  destruct (IH rb1 _ H2 Hq2) as (rb' & -> & H3 & Hq3). exists rb'. split; [done|].
  by rewrite <-app_assoc in *.
Qed.

End healthy.

Lemma setSubChainCount_ok n : rb_ok n [] (setSubChainCount n).
Proof. split; simpl; try done; set_solver by lia. Qed.

(** in a deployment of [n] groups in which no chain is invalidated, the
    round-based manager returns from every call and has delivered, round by
    round and group by group, exactly the rounds before the first one it has
    not received completely; the order of arrival does not matter. *)
Theorem rounds_delivered n ds :
  0 < n → Forall (λ d, d.1 < n) ds →
  ∃ rb, rb_run (setSubChainCount n) ds = Some rb ∧
    rb_delivered rb = rounds n (committed rb) ∧
    (∀ r, r < committed rb → complete n ds r) ∧ ¬ complete n ds (committed rb).
Proof.
  intros Hn Hds.
  destruct (rb_run_ok n (setSubChainCount n) [] ds) as (rb & E & Hrb & Hq);
    [done|apply setSubChainCount_ok| |done|].
  { intros Hc. by apply (not_elem_of_nil (0, 0)), (Hc 0). }
  exists rb. split_and!; [done|apply Hrb..|done].
Qed.

Definition sample_arrivals : list (nat * nat) := [(1, 0); (1, 1); (0, 1); (0, 0); (1, 2)].

Lemma rounds_delivered_witness :
  ∃ rb, rb_run (setSubChainCount 2) sample_arrivals = Some rb ∧
    rb_delivered rb = rounds 2 (committed rb) ∧
    (∀ r, r < committed rb → complete 2 sample_arrivals r) ∧ ¬ complete 2 sample_arrivals (committed rb).
Proof.
  apply (rounds_delivered 2 sample_arrivals); [lia|]. unfold sample_arrivals. repeat constructor; simpl; lia.
Defined.

(** ** Failures *)

(** The failure of group 0 makes the manager deliver blocks it has not
    received, and the failure of any other group stops it: after group 0 is
    invalidated one block of group 1 commits the round of all three groups;
    after group 2 is invalidated the blocks of the live groups commit nothing. *)
Theorem invalid_group_confused :
  (∃ rb rb', rb_invalidateChain (setSubChainCount 3) 0 = Some (rb, true) ∧
     rb_run rb [(1, 0)] = Some rb' ∧ rb_delivered rb' = [(1, 0); (2, 0)]) ∧
  (∃ rb rb', rb_invalidateChain (setSubChainCount 3) 2 = Some (rb, true) ∧
     rb_run rb [(0, 0); (1, 0); (0, 1); (1, 1)] = Some rb' ∧ rb_delivered rb' = []).
Proof.
  split; eexists _, _; (split; [vm_compute; reflexivity|]); split; vm_compute; reflexivity.
Qed.
