(* ===== verification/LRU.v ===== *)
(** * LRU cache

    [util::LRUCache] (include/common/lru.h), the cache behind one of the block
    storages.  [keys_] is the list of nodes, most recently used first; an
    iterator kept in [cache_] is the node with its key, so [cache_] is the set
    of keys.  Reading the back of an empty list is undefined and is [None]. *)

From S2P Require Import Prelude.

Section lru.
Context {K V : Type} `{Countable K}.

Record LRUCache := mkLRU {
  keys_ : list (K * V);
  cache_ : gset K;
  maxSize_ : nat;
  elasticity_ : nat
}.

(** [LRUCache(maxSize, elasticity)]; [init] only sets the two limits. *)
Definition newLRU (maxSize elasticity : nat) : LRUCache := mkLRU [] ∅ maxSize elasticity.
Definition lru_init (c : LRUCache) (maxSize elasticity : nat) : LRUCache :=
  mkLRU (keys_ c) (cache_ c) maxSize elasticity.

Definition set_keys (c : LRUCache) (l : list (K * V)) : LRUCache :=
  mkLRU l (cache_ c) (maxSize_ c) (elasticity_ c).

(** The value at the iterator of [k]. *)
Fixpoint node (l : list (K * V)) (k : K) : option V :=
  match l with
  | [] => None
  | x :: l => if decide (x.1 = k) then Some x.2 else node l k
  end.

(** The list without the node of [k]. *)
Fixpoint unlink (l : list (K * V)) (k : K) : list (K * V) :=
  match l with
  | [] => []
  | x :: l => if decide (x.1 = k) then l else x :: unlink l k
  end.

Definition lru_size (c : LRUCache) : nat := size (cache_ c).
Definition lru_empty (c : LRUCache) : bool := bool_decide (cache_ c = ∅).
Definition lru_clear (c : LRUCache) : LRUCache := mkLRU [] ∅ (maxSize_ c) (elasticity_ c).
Definition lru_contains (c : LRUCache) (k : K) : bool := bool_decide (k ∈ cache_ c).

(** The loop of [prune]: at most [fuel] iterations. *)
Fixpoint prune_loop (fuel maxSize : nat) (l : list (K * V)) (s : gset K)
    : option (list (K * V) * gset K) :=
  if bool_decide (maxSize < size s) then
    match fuel with
    | 0 => None
    | S fuel => x ← last l; prune_loop fuel maxSize (removelast l) (s ∖ {[x.1]})
    end
  else Some (l, s).

Definition prune (c : LRUCache) : option LRUCache :=
  if bool_decide (maxSize_ c = 0 ∨ size (cache_ c) < maxSize_ c + elasticity_ c) then Some c else
  x ← prune_loop (length (keys_ c)) (maxSize_ c) (keys_ c) (cache_ c);
  Some (mkLRU x.1 x.2 (maxSize_ c) (elasticity_ c)).

Definition lru_insert (c : LRUCache) (k : K) (v : V) : option LRUCache :=
  if bool_decide (k ∈ cache_ c) then Some (set_keys c ((k, v) :: unlink (keys_ c) k))
  else prune (mkLRU ((k, v) :: keys_ c) ({[k]} ∪ cache_ c) (maxSize_ c) (elasticity_ c)).

(** [tryGetRef_nolock], behind [tryGetCopy] and [tryGetRef]. *)
Definition tryGetCopy (c : LRUCache) (k : K) : LRUCache * option V :=
  if bool_decide (k ∈ cache_ c) then
    match node (keys_ c) k with
    | Some v => (set_keys c ((k, v) :: unlink (keys_ c) k), Some v)
    | None => (c, None)
    end
  else (c, None).

(** [get_nolock], behind [getRef] and [getCopy]: [None] is the exception. *)
Definition getCopy (c : LRUCache) (k : K) : option (LRUCache * V) :=
  match tryGetCopy c k with (c', Some v) => Some (c', v) | (_, None) => None end.

Definition lru_remove (c : LRUCache) (k : K) : LRUCache * bool :=
  if bool_decide (k ∈ cache_ c)
  then (mkLRU (unlink (keys_ c) k) (cache_ c ∖ {[k]}) (maxSize_ c) (elasticity_ c), true)
  else (c, false).

(** ** The invariant *)

Record lru_ok (c : LRUCache) : Prop := {
  lru_nodup : NoDup (keys_ c).*1;
  lru_cache : cache_ c = list_to_set (keys_ c).*1
}.

Lemma lru_in c k : lru_ok c → k ∈ cache_ c ↔ k ∈ (keys_ c).*1.
Proof. intros [_ ->]. by rewrite elem_of_list_to_set. Qed.

Lemma lru_size_keys c : lru_ok c → size (cache_ c) = length (keys_ c).
Proof. intros [Hn ->]. by rewrite size_list_to_set, length_fmap. Qed.

Lemma node_in l k v : node l k = Some v → (k, v) ∈ l.
Proof.
  induction l as [|[k' v'] l IH]; simpl; [done|]. case_decide; [|set_solver].
  intros. simplify_eq/=. set_solver.
Qed.

Lemma node_Some l k : k ∈ l.*1 → is_Some (node l k).
Proof.
  induction l as [|[k' v'] l IH]; simpl; [by intros ?%elem_of_nil|].
  case_decide; [eauto|]. intros [->|?]%elem_of_cons; [done|auto].
Qed.

Lemma node_unique l k v : NoDup l.*1 → (k, v) ∈ l → node l k = Some v.
Proof.
  induction l as [|[k' v'] l IH]; simpl; [by intros _ ?%elem_of_nil|].
  intros [Hn Hnd]%NoDup_cons [[= -> ->]|Hin]%elem_of_cons; [by rewrite decide_True|].
  rewrite decide_False; [auto|]. intros ->. apply Hn, list_elem_of_fmap. by exists (k, v).
Qed.

Lemma unlink_sub l k x : x ∈ unlink l k → x ∈ l.
Proof. induction l as [|y l IH]; simpl; [done|]. case_decide; set_solver. Qed.

Lemma unlink_keys l k k' : NoDup l.*1 → k' ∈ (unlink l k).*1 ↔ k' ∈ l.*1 ∧ k' ≠ k.
Proof.
  induction l as [|[a v] l IH]; simpl; [set_solver|]. intros [Hn Hnd]%NoDup_cons.
  case_decide as E; [subst|]; simpl; [set_solver|].
  rewrite !elem_of_cons, IH by done. naive_solver.
Qed.

Lemma unlink_nodup l k : NoDup l.*1 → NoDup (unlink l k).*1.
Proof.
  induction l as [|[a v] l IH]; simpl; [done|]. intros [Hn Hnd]%NoDup_cons.
  case_decide; [done|]. simpl. apply NoDup_cons. split; [|auto]. rewrite unlink_keys by done. naive_solver.
Qed.

(** Moving a node to the front, with any value, keeps the invariant. *)
Lemma touch_node_ok c k v :
  lru_ok c → k ∈ cache_ c → lru_ok (set_keys c ((k, v) :: unlink (keys_ c) k)).
Proof.
  intros Hc Hk. pose proof (lru_nodup _ Hc) as Hn. apply (lru_in c k Hc) in Hk. split; simpl.
  - apply NoDup_cons. split; [|by apply unlink_nodup]. rewrite unlink_keys by done. naive_solver.
  - rewrite (lru_cache _ Hc). apply set_eq. intros a.
    rewrite elem_of_union, !elem_of_list_to_set, elem_of_singleton, unlink_keys by done.
    destruct (decide (a = k)); naive_solver.
Qed.

(** [prune] keeps the most recently used keys. *)
Lemma prune_loop_ok fuel m l s :
  NoDup l.*1 → s = list_to_set l.*1 → length l ≤ fuel →
  prune_loop fuel m l s = Some (take m l, list_to_set (take m l).*1).
Proof.
  revert l s. induction fuel as [|fuel IH]; intros l s Hn -> Hl; simpl;
    rewrite size_list_to_set, length_fmap by done; case_bool_decide as Hm.
  - lia.
  - by rewrite take_ge by lia.
  - destruct l as [|x l _] using rev_ind; [simpl in *; lia|].
    rewrite last_snoc. simpl. rewrite removelast_last.
    rewrite fmap_app in Hn |- *. apply NoDup_app in Hn as (Hn & Hd & _).
    rewrite length_app in Hl, Hm. simpl in Hl, Hm.
    rewrite IH; [by rewrite take_app_le by lia|done| |lia].
    rewrite list_to_set_app_L. simpl. specialize (Hd x.1).
    apply set_eq. intros a. rewrite elem_of_difference, elem_of_union, elem_of_list_to_set. set_solver.
  - by rewrite take_ge by lia.
Qed.

(** What [insert] leaves: the new node first, and at most the limit of nodes. *)
Lemma lru_insert_keys c k v :
  lru_ok c →
  ∃ c', lru_insert c k v = Some c' ∧ lru_ok c' ∧
    maxSize_ c' = maxSize_ c ∧ elasticity_ c' = elasticity_ c ∧
    let l := (k, v) :: unlink (keys_ c) k in
    keys_ c' = (if decide (k ∈ (keys_ c).*1 ∨ maxSize_ c = 0 ∨ length l < maxSize_ c + elasticity_ c)
                then l else take (maxSize_ c) l).
Proof.
  intros Hc. pose proof (lru_nodup _ Hc) as Hn. unfold lru_insert.
  destruct (decide (k ∈ cache_ c)) as [Hk|Hk].
  { rewrite bool_decide_true by done. eexists. split_and!; [done|by apply touch_node_ok|done..|].
    rewrite decide_True; [done|]. left. by apply lru_in. }
  rewrite bool_decide_false by done. rewrite (lru_in c k Hc) in Hk.
  assert (Hu : unlink (keys_ c) k = keys_ c).
  { clear -Hk. induction (keys_ c) as [|x l IH]; simpl in *; [done|].
    rewrite decide_False by set_solver. f_equal. set_solver. }
  rewrite Hu. unfold prune. cbn [keys_ cache_ maxSize_ elasticity_].
  assert (Hok : lru_ok (mkLRU ((k, v) :: keys_ c) ({[k]} ∪ cache_ c) (maxSize_ c) (elasticity_ c))).
  { split; simpl; [by apply NoDup_cons|]. by rewrite (lru_cache _ Hc). }
  pose proof (lru_size_keys _ Hok) as Hsz. cbn [keys_ cache_] in Hsz. rewrite Hsz.
  case_bool_decide as Hsmall.
  - eexists. split_and!; [done..|]. rewrite decide_True; [done|]. right. naive_solver.
  - rewrite (prune_loop_ok (S (length (keys_ c))) (maxSize_ c) ((k, v) :: keys_ c));
      [|apply Hok..|simpl; lia].
    simpl. eexists. split; [done|]. split_and!; [|done..|].
    + split; cbn [keys_ cache_]; [|done]. pose proof (lru_nodup _ Hok) as Hn'. cbn [keys_] in Hn'.
      rewrite <-(take_drop (maxSize_ c) ((k, v) :: keys_ c)), fmap_app in Hn'.
      by apply NoDup_app in Hn' as [? _].
    + cbn zeta. cbn [keys_]. rewrite decide_False; [done|]. intros [?|?]; [done|]. naive_solver.
Qed.

(** ** Traces *)

Inductive lru_op := Insert (k : K) (v : V) | Get (k : K) | Remove (k : K) | Clear.

Definition lru_step (c : LRUCache) (o : lru_op) : option LRUCache :=
  match o with
  | Insert k v => lru_insert c k v
  | Get k => Some (tryGetCopy c k).1
  | Remove k => Some (lru_remove c k).1
  | Clear => Some (lru_clear c)
  end.

Fixpoint lru_run (c : LRUCache) (os : list lru_op) : option LRUCache :=
  match os with
  | [] => Some c
  | o :: os => c' ← lru_step c o; lru_run c' os
  end.

(** The map the operations build when nothing is ever evicted. *)
Definition abs_step (m : gmap K V) (o : lru_op) : gmap K V :=
  match o with
  | Insert k v => <[k := v]> m
  | Get _ => m
  | Remove k => delete k m
  | Clear => ∅
  end.

Definition contents (os : list lru_op) : gmap K V := fold_left abs_step os ∅.

Definition limit (m e : nat) : nat := m `max` (m + e - 1).

(** The cache is a part of the map within its limit, and all of it when the
    cache is unbounded. *)
Record refines (m e : nat) (a : gmap K V) (c : LRUCache) : Prop := {
  ref_ok : lru_ok c;
  ref_max : maxSize_ c = m;
  ref_ela : elasticity_ c = e;
  ref_size : 0 < m → length (keys_ c) ≤ limit m e;
  ref_part k v : (k, v) ∈ keys_ c → a !! k = Some v;
  ref_all k v : m = 0 → a !! k = Some v → (k, v) ∈ keys_ c
}.

Lemma unlink_ne l k k' v : NoDup l.*1 → (k', v) ∈ unlink l k ↔ (k', v) ∈ l ∧ k' ≠ k.
Proof.
  intros Hn. split.
  - intros Hin. split; [by eapply unlink_sub|].
    assert (Hk : k' ∈ (unlink l k).*1) by (apply list_elem_of_fmap; by exists (k', v)).
    by apply unlink_keys in Hk as [_ ?].
  - intros [Hin Hne]. clear Hn. induction l as [|[a w] l IH]; [done|]. cbn [unlink fst].
    apply elem_of_cons in Hin as [[= <- <-]|Hin]; case_decide as E; simpl in E; subst; set_solver.
Qed.

Lemma unlink_length l k : length (unlink l k) ≤ length l.
Proof. induction l as [|x l IH]; simpl; [lia|]. case_decide; simpl; lia. Qed.

Lemma unlink_length_in l k : k ∈ l.*1 → S (length (unlink l k)) = length l.
Proof.
  induction l as [|x l IH]; simpl; [by intros ?%elem_of_nil|].
  case_decide as E; [done|]. intros [->|Hk]%elem_of_cons; [done|]. simpl. auto.
Qed.

Lemma tryGetCopy_node c k :
  lru_ok c →
  (k ∈ (keys_ c).*1 ∧ ∃ v, node (keys_ c) k = Some v ∧
     tryGetCopy c k = (set_keys c ((k, v) :: unlink (keys_ c) k), Some v)) ∨
  (k ∉ (keys_ c).*1 ∧ tryGetCopy c k = (c, None)).
Proof.
  intros Hc. unfold tryGetCopy. destruct (decide (k ∈ (keys_ c).*1)) as [Hk|Hk].
  - left. rewrite bool_decide_true by by apply lru_in. destruct (node_Some _ _ Hk) as [v E].
    rewrite E. eauto.
  - right. rewrite bool_decide_false by (by rewrite lru_in). done.
Qed.

Lemma insert_refines m e a c k v :
  refines m e a c → ∃ c', lru_insert c k v = Some c' ∧ refines m e (<[k := v]> a) c' ∧ (k, v) ∈ keys_ c'.
Proof.
  intros [Hok Hm He Hs Hp Hall]. pose proof (lru_nodup _ Hok) as Hn.
  destruct (lru_insert_keys c k v Hok) as (c' & -> & Hok' & Hm' & He' & Hk). cbn zeta in Hk.
  rewrite Hm in *. rewrite He in *. exists c'. split; [done|].
  assert (Hin : (k, v) ∈ keys_ c').
  { rewrite Hk. case_decide as Hd; [set_solver|]. destruct m; [naive_solver|]. simpl. set_solver. }
  split; [|done]. split; [done|congruence..| | |].
  - intros Hm0. rewrite Hk. case_decide as Hd.
    + destruct Hd as [Hd|Hd]; [cbn [length]; rewrite unlink_length_in by done; auto|].
      unfold limit. destruct Hd; lia.
    + rewrite length_take. unfold limit. lia.
  - intros k' v' Hin'.
    assert (Hin2 : (k', v') ∈ (k, v) :: unlink (keys_ c) k).
    { rewrite Hk in Hin'. case_decide; [done|]. by eapply elem_of_take in Hin' as (? & ? & _);
        eapply list_elem_of_lookup_2. }
    apply elem_of_cons in Hin2 as [[= -> ->]|Hin2]; [by rewrite lookup_insert_eq|].
    apply unlink_ne in Hin2 as [??]; [|done]. rewrite lookup_insert_ne by done. auto.
  - intros k' v' ->. rewrite Hk, decide_True by auto.
    destruct (decide (k' = k)) as [->|Hne]; [rewrite lookup_insert_eq; intros [= ->]; set_solver|].
    rewrite lookup_insert_ne by done. intros Ha. apply elem_of_cons. right.
    apply unlink_ne; [done|]. auto.
Qed.

Lemma step_refines m e a c o :
  refines m e a c → ∃ c', lru_step c o = Some c' ∧ refines m e (abs_step a o) c'.
Proof.
  intros Hr. pose proof Hr as [Hok Hm He Hs Hp Hall]. pose proof (lru_nodup _ Hok) as Hn.
  destruct o as [k v|k|k|]; simpl.
  - destruct (insert_refines m e a c k v Hr) as (c' & ? & ? & _). eauto.
  - destruct (tryGetCopy_node c k Hok) as [(Hk & v & Hv & ->)|[_ ->]]; [|eauto].
    eexists. split; [done|]. pose proof (node_in _ _ _ Hv) as Hin.
    split; simpl; [apply touch_node_ok; [done|by apply lru_in]|done..| | |].
    + rewrite unlink_length_in by done. done.
    + intros k' v' [[= -> ->]|Hin']%elem_of_cons; [auto|]. apply Hp. by eapply unlink_sub.
    + intros k' v' Hm0 Ha. apply (Hall _ _ Hm0) in Ha.
      destruct (decide (k' = k)) as [->|]; [|apply elem_of_cons; right; by apply unlink_ne].
      apply elem_of_cons. left. f_equal. pose proof (node_unique _ _ _ Hn Ha). congruence.
  - unfold lru_remove. case_bool_decide as Hk; simpl.
    + eexists. split; [done|]. split; simpl; [|done..| | |].
      * split; simpl; [by apply unlink_nodup|]. rewrite (lru_cache _ Hok). apply set_eq. intros x.
        rewrite elem_of_difference, !elem_of_list_to_set, elem_of_singleton, unlink_keys by done. done.
      * intros Hm0. etrans; [apply unlink_length|auto].
      * intros k' v' Hin. apply unlink_ne in Hin as [??]; [|done]. rewrite lookup_delete_ne by done. auto.
      * intros k' v' Hm0 Ha. apply lookup_delete_Some in Ha as [??]. apply unlink_ne; [done|]. split; [auto|congruence].
    + eexists. split; [done|]. rewrite lru_in in Hk by done. split; [done..| |].
      * intros k' v' Hin. rewrite lookup_delete_ne; [auto|]. intros ->. apply Hk, list_elem_of_fmap. by exists (k', v').
      * intros k' v' Hm0 Ha. apply lookup_delete_Some in Ha as [??]. auto.
  - eexists. split; [done|]. split; simpl; [|done..|lia|set_solver|].
    + split; simpl; [apply NoDup_nil_2|done].
    + intros k v _. by rewrite lookup_empty.
Qed.

Lemma run_refines m e a c os :
  refines m e a c → ∃ c', lru_run c os = Some c' ∧ refines m e (fold_left abs_step os a) c'.
Proof.
  revert a c. induction os as [|o os IH]; intros a c Hr; simpl; [eauto|].
  destruct (step_refines m e a c o Hr) as (c1 & -> & Hr1). simpl. auto.
Qed.

Lemma new_refines m e : refines m e ∅ (newLRU m e).
Proof.
  split; simpl; [|done..|lia|set_solver|].
  - split; simpl; [apply NoDup_nil_2|done].
  - intros k v _. by rewrite lookup_empty.
Qed.

Lemma lru_run_app c os os' : lru_run c (os ++ os') = c' ← lru_run c os; lru_run c' os'.
Proof. revert c. induction os as [|o os IH]; intros c; simpl; [done|]. destruct (lru_step c o); simpl; auto. Qed.

(** whatever the operations, an LRU cache never reads an empty list, stays
    within its limit, returns only the value last inserted for a key, finds the
    key inserted last, and without a size limit is exactly the map. *)
Theorem lru_correct m e os :
  ∃ c, lru_run (newLRU m e) os = Some c ∧
    (0 < m → lru_size c ≤ limit m e) ∧
    (∀ k v, (tryGetCopy c k).2 = Some v → contents os !! k = Some v) ∧
    (∀ k v os', os = os' ++ [Insert k v] → (tryGetCopy c k).2 = Some v) ∧
    (m = 0 → ∀ k, (tryGetCopy c k).2 = contents os !! k).
Proof.
  destruct (run_refines m e ∅ (newLRU m e) os) as (c & E & Hr); [apply new_refines|].
  fold (contents os) in Hr. exists c. pose proof Hr as [Hok Hm He Hs Hp Hall].
  assert (Hget : ∀ k v, (tryGetCopy c k).2 = Some v ↔ (k, v) ∈ keys_ c).
  { intros k v. destruct (tryGetCopy_node c k Hok) as [(Hk & w & Hw & ->)|[Hk ->]]; simpl.
    - split; [intros [= <-]; by apply node_in|]. intros Hin.
      pose proof (node_unique _ _ _ (lru_nodup _ Hok) Hin). congruence.
    - split; [done|]. intros Hin. destruct Hk. apply list_elem_of_fmap. by exists (k, v). }
  split_and!; [done| | | |].
  - intros Hm0. unfold lru_size. rewrite lru_size_keys by done. auto.
  - intros k v Hg. by apply Hp, Hget.
  - intros k v os' ->. rewrite lru_run_app in E.
    destruct (run_refines m e ∅ (newLRU m e) os') as (c1 & E1 & Hr1); [apply new_refines|].
    rewrite E1 in E. simpl in E. destruct (insert_refines _ _ _ _ k v Hr1) as (c2 & E2 & _ & Hin).
    rewrite E2 in E. simplify_eq/=. by apply Hget.
  - intros Hm0 k. destruct (contents os !! k) as [v|] eqn:Ec; [apply Hget; auto|].
    destruct (tryGetCopy c k).2 as [v|] eqn:Eg; [|done]. apply Hget, Hp in Eg. congruence.
Qed.

End lru.
Arguments LRUCache K V {_ _}.
