(* ===== verification/Storage.v ===== *)
(** * Block storage

    [peer::inner::BlockStorageBase] and its two derived classes
    [MRBlockStorage] and [BlockLRUCache]
    (include/peer/storage/mr_block_storage.h): the blocks of every region, the
    highest number stored per region ([newBlockFutexList]) and the queues of
    the subscribers.  The base class calls its derived class statically: the
    interface is the class [BlockContainer], one container per region, and what
    a client relies on is [BlockContainerLaws].  Region numbers index vectors
    and are natural numbers; the assertions of debug builds are not modelled. *)

From S2P Require Import Prelude Zpp Proto LRU.

(** ** The derived class, per region *)

Class BlockContainer (C : Type) := {
  getBlock : C → Z → C * option Block;
  tryEmplaceBlock : C → Z → Block → option C;
  pruneWithMaxBlockId : C → Z → C
}.

(** [MRBlockStorage]: a hash map; pruning erases the block [_maxSize] behind,
    computed on 64-bit unsigned numbers. *)
Record MRRegion := mkMR { _maxSize : Z; blockStorage : gmap Z Block }.

Definition mr_getBlock (c : MRRegion) (b : Z) : MRRegion * option Block := (c, blockStorage c !! b).

Definition mr_tryEmplaceBlock (c : MRRegion) (b : Z) (blk : Block) : option MRRegion :=
  Some (mkMR (_maxSize c)
    (match blockStorage c !! b with Some _ => blockStorage c | None => <[b := blk]> (blockStorage c) end)).

Definition mr_prune (c : MRRegion) (b : Z) : MRRegion :=
  mkMR (_maxSize c) (delete (wrap64u (b - _maxSize c)) (blockStorage c)).

#[export] Instance MRBlockStorage : BlockContainer MRRegion := {
  getBlock := mr_getBlock;
  tryEmplaceBlock := mr_tryEmplaceBlock;
  pruneWithMaxBlockId := mr_prune
}.

(** [BlockLRUCache]: an LRU cache; pruning is the cache's own. *)
Definition lru_getBlock (c : LRUCache Z Block) (b : Z) : LRUCache Z Block * option Block := tryGetCopy c b.

#[export] Instance BlockLRUCache : BlockContainer (LRUCache Z Block) := {
  getBlock := lru_getBlock;
  tryEmplaceBlock := lru_insert;
  pruneWithMaxBlockId := λ c _, c
}.

(** ** The base class *)

Record Storage (C : Type) := mkStorage {
  newBlockFutexList : list Z;
  subscriberList : list (list (nat * Block));
  regions : list C
}.
Arguments mkStorage {C}.
Arguments newBlockFutexList {C}.
Arguments subscriberList {C}.
Arguments regions {C}.

Section storage.
Context {C : Type} `{BlockContainer C}.

(** The constructor: no region has a block yet; [c] is an empty container. *)
Definition newStorage (c : C) (regionCount : nat) : Storage C :=
  mkStorage (replicate regionCount (-1)%Z) [] (replicate regionCount c).

Definition regionCount (s : Storage C) : nat := length (newBlockFutexList s).

Definition getMaxStoredBlockNumber (s : Storage C) (r : nat) : option Z := newBlockFutexList s !! r.

Definition newSubscriber (s : Storage C) : Storage C * nat :=
  (mkStorage (newBlockFutexList s) (subscriberList s ++ [[]]) (regions s), length (subscriberList s)).

(** [subscriberWaitForBlock] without a block to wait for, or with one: the
    result of [try_dequeue] and of a timed wait that expires is the
    value-initialised pair. *)
Definition subscriberWaitForBlock (s : Storage C) (id : nat) : Storage C * (Z * option Block) :=
  match subscriberList s !! id with
  | None => (s, ((-1)%Z, None))
  | Some [] => (s, (0%Z, None))
  | Some (x :: q) =>
      (mkStorage (newBlockFutexList s) (<[id := q]> (subscriberList s)) (regions s),
       (Z.of_nat x.1, Some x.2))
  end.

(** [waitForBlock]: the caller sleeps while the region has not reached the block
    (its timeout then returns the null pointer). *)
Inductive wait := Blocked | Returned (s : Storage C) (b : option Block).

Definition waitForBlock (s : Storage C) (r : nat) (b : Z) : wait :=
  if bool_decide (regionCount s ≤ r) then Returned s None else
  match newBlockFutexList s !! r, regions s !! r with
  | Some maxBlockId, Some c =>
      if (maxBlockId <? wrap32 b)%Z then Blocked else
      let '(c', x) := getBlock c b in
      Returned (mkStorage (newBlockFutexList s) (subscriberList s) (<[r := c']> (regions s))) x
  | _, _ => Blocked
  end.

Definition insertBlockAndNotify (s : Storage C) (r : nat) (blk : Block) : option (Storage C) :=
  if bool_decide (regionCount s ≤ r) then Some s else
  let subs := (λ q, q ++ [(r, blk)]) <$> subscriberList s in
  let b := number (header blk) in
  c ← regions s !! r;
  c' ← tryEmplaceBlock c b blk;
  Some (mkStorage (<[r := wrap32 b]> (newBlockFutexList s)) subs
          (<[r := pruneWithMaxBlockId c' b]> (regions s))).

Fixpoint insert_all (s : Storage C) (bs : list (nat * Block)) : option (Storage C) :=
  match bs with
  | [] => Some s
  | x :: bs => s' ← insertBlockAndNotify s x.1 x.2; insert_all s' bs
  end.

(** What the base class relies on: a container that satisfies the invariant
    [inv] takes a block it does not hold and returns it afterwards. *)
Class BlockContainerLaws (inv : C → Prop) (holds : C → Z → Prop) : Prop := {
  emplace_ok c b blk : inv c → ∃ c', tryEmplaceBlock c b blk = Some c' ∧ inv (pruneWithMaxBlockId c' b);
  get_new c b blk c' :
    inv c → ¬ holds c b → in_uint 64 b → tryEmplaceBlock c b blk = Some c' →
    (getBlock (pruneWithMaxBlockId c' b) b).2 = Some blk;
  get_inv c b : inv c → inv (getBlock c b).1
}.

Context (inv : C → Prop) (holds : C → Z → Prop) `{!BlockContainerLaws inv holds}.

Definition storage_ok (s : Storage C) : Prop :=
  length (regions s) = regionCount s ∧ Forall inv (regions s).

Lemma insert_preserves s r blk :
  storage_ok s → ∃ s', insertBlockAndNotify s r blk = Some s' ∧ storage_ok s' ∧ regionCount s' = regionCount s.
Proof.
  intros [Hl Hi]. unfold insertBlockAndNotify. case_bool_decide as Hr; [by exists s|].
  destruct (lookup_lt_is_Some_2 (regions s) r) as [c Hc]; [lia|]. rewrite Hc. simpl.
  destruct (emplace_ok c (number (header blk)) blk) as (c' & -> & Hc').
  { rewrite Forall_lookup in Hi. eauto. }
  simpl. eexists. split; [done|]. unfold storage_ok, regionCount. simpl. rewrite !length_insert.
  split_and!; [done| |done]. by apply Forall_insert.
Qed.

Lemma insert_then_found s s' r blk c :
  storage_ok s → r < regionCount s → regions s !! r = Some c → ¬ holds c (number (header blk)) →
  (0 ≤ number (header blk) < 2 ^ 31)%Z → insertBlockAndNotify s r blk = Some s' →
  ∃ s'', waitForBlock s' r (number (header blk)) = Returned s'' (Some blk).
Proof.
  intros [Hl Hi] Hr Hc Hnew Hb. unfold insertBlockAndNotify. rewrite bool_decide_false by lia.
  rewrite Hc. simpl. rewrite Forall_lookup in Hi. specialize (Hi r c Hc).
  destruct (emplace_ok c (number (header blk)) blk Hi) as (c' & E & _). rewrite E. simpl.
  intros [= <-]. unfold waitForBlock, regionCount. simpl. rewrite length_insert.
  rewrite bool_decide_false by (unfold regionCount in Hr; lia).
  rewrite !list_lookup_insert_eq by (unfold regionCount in *; lia).
  rewrite Z.ltb_irrefl.
  assert (Hu : in_uint 64 (number (header blk))) by (unfold in_uint; lia).
  pose proof (get_new c (number (header blk)) blk c' Hi Hnew Hu E) as Hg.
  destruct (getBlock _ _) as [c2 x]. simpl in Hg. subst x. eauto.
Qed.

(** Every subscriber is handed every block, in the order of insertion. *)
Lemma subscribers_enqueued s s' bs :
  insert_all s bs = Some s' → Forall (λ x, x.1 < regionCount s) bs → storage_ok s →
  subscriberList s' = (λ q, q ++ bs) <$> subscriberList s.
Proof.
  revert s. induction bs as [|[r blk] bs IH]; intros s; simpl.
  { intros [= <-] _ _. symmetry. rewrite <-(list_fmap_id (subscriberList s)) at 2.
    apply list_fmap_ext. intros ???. by rewrite app_nil_r. }
  destruct (insertBlockAndNotify s r blk) as [s1|] eqn:E; [|done]. simpl. intros Hrun Hr Hok.
  inversion Hr as [|?? Hr1 Hrs]; subst. simpl in Hr1.
  destruct (insert_preserves s r blk Hok) as (s2 & E2 & Hok2 & Hcnt). rewrite E in E2. simplify_eq.
  rewrite (IH s2 Hrun) by (rewrite ?Hcnt; done).
  unfold insertBlockAndNotify in E. rewrite bool_decide_false in E by lia.
  destruct (regions s !! r) as [c|]; [|done]. simpl in E.
  destruct (tryEmplaceBlock _ _ _) as [c'|]; [|done]. simplify_eq/=.
  rewrite <-list_fmap_compose. apply list_fmap_ext. intros ???. simpl. by rewrite <-app_assoc.
Qed.

End storage.
Arguments wait C : clear implicits.

(** ** The two containers obey the laws *)

Definition mr_ok (c : MRRegion) : Prop := (0 < _maxSize c < 2 ^ 31)%Z.

#[export] Instance MRBlockStorage_laws :
  BlockContainerLaws mr_ok (λ c b, is_Some (blockStorage c !! b)).
Proof.
  split.
  - intros c b blk Hc. eexists. split; [done|]. done.
  - intros c b blk c' Hc Hn Hu [= <-]. unfold mr_ok in Hc. cbn.
    destruct (blockStorage c !! b) eqn:E; [by destruct Hn|].
    rewrite lookup_delete_ne; [by rewrite lookup_insert_eq|].
    unfold wrap64u, in_uint in *. intros Heq.
    assert (b mod 2 ^ 64 = (b - _maxSize c) mod 2 ^ 64)%Z as Hm.
    { rewrite (Z.mod_small b) by lia. done. }
    apply Z.cong_iff_0 in Hm. replace (b - (b - _maxSize c))%Z with (_maxSize c) in Hm by lia.
    rewrite Z.mod_small in Hm by lia. lia.
  - done.
Qed.

#[export] Instance BlockLRUCache_laws : BlockContainerLaws lru_ok (λ (c : LRUCache Z Block) b, False).
Proof.
  split.
  - intros c b blk Hc. destruct (lru_insert_keys c b blk Hc) as (c' & E & Hok & _). eauto.
  - intros c b blk c' Hc _ _ E. cbn in *. unfold lru_getBlock.
    destruct (lru_insert_keys c b blk Hc) as (c1 & E1 & Hok & _ & _ & Hk).
    assert (c' = c1) as -> by congruence.
    assert (Hin : (b, blk) ∈ keys_ c1).
    { cbn zeta in Hk. rewrite Hk. case_decide as Hd; [set_solver|].
      destruct (maxSize_ c); [naive_solver|]. simpl. set_solver. }
    destruct (tryGetCopy_node c1 b Hok) as [(_ & v & Hv & ->)|[Hn _]].
    + rewrite (node_unique _ _ _ (lru_nodup _ Hok) Hin) in Hv. by simplify_eq.
    + destruct Hn. apply list_elem_of_fmap. by exists (b, blk).
  - intros c b Hc. cbn. unfold lru_getBlock. destruct (tryGetCopy_node c b Hc) as [(Hb & v & _ & ->)|[_ ->]]; [|done].
    apply touch_node_ok; [done|]. by apply lru_in.
Qed.

(** ** Theorems about the storages *)

(** In both storages, inserting a block that the region does not hold yet
    makes the next wait for it return it; the proof is against the interface. *)
Theorem stored_block_found :
  (∀ (s : Storage MRRegion) r blk c,
     storage_ok mr_ok s → r < regionCount s → regions s !! r = Some c →
     blockStorage c !! number (header blk) = None → (0 ≤ number (header blk) < 2 ^ 31)%Z →
     ∃ s' s'', insertBlockAndNotify s r blk = Some s' ∧
       waitForBlock s' r (number (header blk)) = Returned s'' (Some blk)) ∧
  (∀ (s : Storage (LRUCache Z Block)) r blk,
     storage_ok lru_ok s → r < regionCount s → (0 ≤ number (header blk) < 2 ^ 31)%Z →
     ∃ s' s'', insertBlockAndNotify s r blk = Some s' ∧
       waitForBlock s' r (number (header blk)) = Returned s'' (Some blk)).
Proof.
  split.
  - intros s r blk c Hs Hr Hc Hn Hb. destruct (insert_preserves mr_ok _ s r blk Hs) as (s' & E & _).
    destruct (insert_then_found mr_ok _ s s' r blk c Hs Hr Hc) as (s'' & Hw); [rewrite Hn; by intros [??]|done..|].
    eauto.
  - intros s r blk Hs Hr Hb. destruct (insert_preserves lru_ok _ s r blk Hs) as (s' & E & _).
    destruct (lookup_lt_is_Some_2 (regions s) r) as [c Hc]; [by destruct Hs as [-> _]|].
    destruct (insert_then_found lru_ok _ s s' r blk c Hs Hr Hc) as (s'' & Hw); [by intros []|done..|].
    eauto.
Qed.

(** A subscriber is handed every block inserted after it subscribed, of
    every region, in the order of insertion. *)
Theorem subscriber_sees_all (s : Storage MRRegion) bs :
  storage_ok mr_ok s → Forall (λ x, x.1 < regionCount s) bs →
  ∃ s', insert_all (newSubscriber s).1 bs = Some s' ∧
    subscriberList s' !! (newSubscriber s).2 = Some bs.
Proof.
  intros Hs Hr. assert (Hs1 : storage_ok mr_ok (newSubscriber s).1) by done.
  assert (∃ s', insert_all (newSubscriber s).1 bs = Some s') as [s' E].
  { clear Hr. revert Hs1. generalize (newSubscriber s).1. clear s Hs.
    induction bs as [|[r blk] bs IH]; intros s Hs; [by eexists|]. simpl.
    destruct (insert_preserves mr_ok _ s r blk Hs) as (s1 & -> & Hs1 & _). simpl. by apply IH. }
  exists s'. split; [done|].
  rewrite (subscribers_enqueued mr_ok _ _ s' bs E) by done. simpl.
  rewrite fmap_app, lookup_app_r, length_fmap, Nat.sub_diag by by rewrite length_fmap. done.
Qed.

(** ** The window of the map-based storage *)

(** The region holds the last [w] of the blocks [bs]. *)
Definition window (w : Z) (bs : list Block) (m : gmap Z Block) : Prop :=
  ∀ i, m !! i = if bool_decide (0 ≤ i < Z.of_nat (length bs) ∧ Z.of_nat (length bs) ≤ i + w)%Z
                then bs !! Z.to_nat i else None.

Lemma window_snoc w bs m blk :
  (0 < w < 2 ^ 31)%Z → (Z.of_nat (length bs) < 2 ^ 31)%Z → window w bs m →
  window w (bs ++ [blk])
    (delete (wrap64u (Z.of_nat (length bs) - w)) (<[Z.of_nat (length bs) := blk]> m)).
Proof.
  intros Hw Hl Hm i. set (k := Z.of_nat (length bs)) in *.
  assert (Hdel : wrap64u (k - w) = (k - w)%Z ∨ (2 ^ 32 < wrap64u (k - w) ∧ k < w)%Z).
  { unfold wrap64u. destruct (Z_lt_le_dec (k - w) 0) as [Hneg|Hpos]; [right|left; apply Z.mod_small; lia].
    rewrite <-(Z_mod_plus_full (k - w) 1), Z.mod_small by lia. lia. }
  rewrite length_app. simpl. replace (Z.of_nat (length bs + 1)) with (k + 1)%Z by lia.
  destruct (decide (i = wrap64u (k - w))) as [->|Hi].
  { rewrite lookup_delete_eq, bool_decide_false; [done|lia]. }
  rewrite lookup_delete_ne by done. destruct (decide (i = k)) as [->|Hk].
  { rewrite lookup_insert_eq, bool_decide_true by lia.
    subst k. by rewrite Nat2Z.id, list_lookup_middle. }
  rewrite lookup_insert_ne, Hm by done. fold k.
  destruct (decide (0 ≤ i < k ∧ k ≤ i + w)%Z) as [Hin|Hout].
  - rewrite !bool_decide_true by lia. by rewrite lookup_app_l by lia.
  - rewrite !bool_decide_false by lia. done.
Qed.

(** Inserting consecutive blocks into one region. *)
Lemma insert_consecutive (s : Storage MRRegion) r w bs blks c :
  storage_ok mr_ok s → r < regionCount s → regions s !! r = Some c → _maxSize c = w →
  window w bs (blockStorage c) → (Z.of_nat (length bs + length blks) < 2 ^ 31)%Z →
  (∀ j blk, blks !! j = Some blk → number (header blk) = Z.of_nat (length bs + j)) →
  newBlockFutexList s !! r = Some (Z.of_nat (length bs) - 1)%Z →
  ∃ s' c', insert_all s ((λ b, (r, b)) <$> blks) = Some s' ∧ storage_ok mr_ok s' ∧ r < regionCount s' ∧
    regions s' !! r = Some c' ∧ window w (bs ++ blks) (blockStorage c') ∧
    newBlockFutexList s' !! r = Some (Z.of_nat (length (bs ++ blks)) - 1)%Z.
Proof.
  revert s bs c. induction blks as [|blk blks IH]; intros s bs c Hs Hr Hc Hw Hwin Hlen Hnum Hmax.
  { exists s, c. rewrite app_nil_r. done. }
  pose proof (Hnum 0 blk eq_refl) as Hn0. rewrite Nat.add_0_r in Hn0.
  assert (Hmr : mr_ok c) by (destruct Hs as [_ Hs]; rewrite Forall_lookup in Hs; eauto).
  destruct (insert_preserves mr_ok _ s r blk Hs) as (s1 & E & Hs1 & Hcnt).
  rewrite fmap_cons. cbn [insert_all fst snd]. rewrite E. cbn [mbind option_bind].
  unfold insertBlockAndNotify in E. rewrite bool_decide_false in E by lia. rewrite Hc in E. simpl in E.
  injection E as <-. rewrite Hn0 in *.
  assert (Hnone : blockStorage c !! Z.of_nat (length bs) = None) by (rewrite Hwin, bool_decide_false; [done|lia]).
  rewrite Hnone in *. unfold mr_ok in Hmr. rewrite Hw in Hmr. simpl in Hlen.
  destruct Hs as [HlR _].
  match type of Hs1 with storage_ok _ ?x =>
    destruct (IH x (bs ++ [blk]) (mr_prune (mkMR (_maxSize c) (<[Z.of_nat (length bs) := blk]> (blockStorage c)))
      (Z.of_nat (length bs)))) as (s' & c' & -> & ? & ? & ? & ? & ?) end;
    [exact Hs1|unfold regionCount in *; simpl; by rewrite length_insert
    |simpl; apply list_lookup_insert_eq; lia|exact Hw| | | | |].
  - simpl. rewrite Hw. by apply window_snoc; [lia..|].
  - rewrite length_app. simpl. lia.
  - intros j b Hj. rewrite length_app. simpl. rewrite (Hnum (S j) b Hj). lia.
  - simpl. rewrite list_lookup_insert_eq by done.
    rewrite length_app, wrap32_id by (unfold in_int32; lia). simpl. f_equal. lia.
  - exists s', c'. rewrite <-app_assoc in *. done.
Qed.

Lemma storage_window (s0 : Storage MRRegion) w n r blks :
  newBlockFutexList s0 = replicate n (-1)%Z → regions s0 = replicate n (mkMR w ∅) →
  (0 < w < 2 ^ 31)%Z → r < n → (Z.of_nat (length blks) < 2 ^ 31)%Z →
  (∀ j blk, blks !! j = Some blk → number (header blk) = Z.of_nat j) →
  ∃ s, insert_all s0 ((λ b, (r, b)) <$> blks) = Some s ∧
    (∀ b, b < length blks →
      ∃ s', waitForBlock s r (Z.of_nat b) =
        Returned s' (if bool_decide (Z.of_nat (length blks) ≤ Z.of_nat b + w)%Z then blks !! b else None))
    ∧ ∀ b, (Z.of_nat (length blks) ≤ b < 2 ^ 31)%Z → waitForBlock s r b = Blocked.
Proof.
  intros HF HR Hw Hr Hlen Hnum.
  destruct (insert_consecutive s0 r w [] blks (mkMR w ∅))
    as (s & c & E & Hs & Hrs & Hc & Hwin & Hmax); try done.
  - split; [unfold regionCount; by rewrite HF, HR, !length_replicate|]. rewrite HR. by apply Forall_replicate.
  - unfold regionCount. by rewrite HF, length_replicate.
  - by rewrite HR, lookup_replicate_2.
  - intros i. simpl. rewrite lookup_empty, bool_decide_false; [done|lia].
  - by rewrite HF, lookup_replicate_2.
  - exists s. split_and!; [done|..]; intros b Hb; unfold waitForBlock;
      rewrite bool_decide_false by lia; rewrite Hmax, Hc; cbn [app length] in Hwin |- *;
      rewrite wrap32_id by (unfold in_int32; lia).
    + destruct (Z.ltb_spec (Z.of_nat (length blks) - 1) (Z.of_nat b)); [lia|].
      eexists. cbn. f_equal. rewrite Hwin, Nat2Z.id. repeat case_bool_decide; try done; lia.
    + destruct (Z.ltb_spec (Z.of_nat (length blks) - 1) b); [done|lia].
Qed.

(** the map-based storage keeps exactly the last [w] blocks of a region whose
    blocks arrive in order: a wait for one of them returns it, a wait for an
    older one returns the null pointer, a wait for a later one blocks. *)
Theorem storage_keeps_window w n r blks :
  (0 < w < 2 ^ 31)%Z → r < n → (Z.of_nat (length blks) < 2 ^ 31)%Z →
  (∀ j blk, blks !! j = Some blk → number (header blk) = Z.of_nat j) →
  ∃ s, insert_all (newStorage (mkMR w ∅) n) ((λ b, (r, b)) <$> blks) = Some s ∧
    (∀ b, b < length blks →
      ∃ s', waitForBlock s r (Z.of_nat b) =
        Returned s' (if bool_decide (Z.of_nat (length blks) ≤ Z.of_nat b + w)%Z then blks !! b else None))
    ∧ ∀ b, (Z.of_nat (length blks) ≤ b < 2 ^ 31)%Z → waitForBlock s r b = Blocked.
Proof. intros. by apply (storage_window _ w n). Qed.

(** ** Concrete storages *)

Definition numbered (k : Z) : Block :=
  mkBlock (mkHeader k (previousHash (header newBlock)) (dataHash (header newBlock)))
    (body newBlock) (executeResult newBlock) (metadata newBlock).

Definition two_regions : Storage MRRegion := newStorage (mkMR 2 ∅) 2.
Definition two_caches : Storage (LRUCache Z Block) := newStorage (newLRU 2 1) 2.

Lemma two_regions_ok : storage_ok mr_ok two_regions.
Proof. split; [done|]. repeat constructor. Qed.

Lemma two_caches_ok : storage_ok lru_ok two_caches.
Proof. split; [done|]. repeat constructor; (apply NoDup_nil_2 || done). Qed.

Lemma stored_block_found_witness :
  (∃ s' s'', insertBlockAndNotify two_regions 1 (numbered 0) = Some s' ∧
     waitForBlock s' 1 0 = Returned s'' (Some (numbered 0))) ∧
  (∃ s' s'', insertBlockAndNotify two_caches 1 (numbered 0) = Some s' ∧
     waitForBlock s' 1 0 = Returned s'' (Some (numbered 0))).
Proof.
  split.
  - apply (proj1 stored_block_found two_regions 1 (numbered 0) (mkMR 2 ∅));
      [apply two_regions_ok|cbn; lia|done|done|cbn; lia].
  - apply (proj2 stored_block_found two_caches 1 (numbered 0)); [apply two_caches_ok|cbn; lia|cbn; lia].
Defined.

Lemma subscriber_sees_all_witness :
  ∃ s', insert_all (newSubscriber two_regions).1 [(0, numbered 0); (1, numbered 0); (0, numbered 1)] = Some s' ∧
    subscriberList s' !! 0 = Some [(0, numbered 0); (1, numbered 0); (0, numbered 1)].
Proof.
  apply (subscriber_sees_all two_regions); [apply two_regions_ok|]. repeat constructor; cbn; lia.
Defined.

Lemma storage_keeps_window_witness :
  ∃ s, insert_all (newStorage (mkMR 2 ∅) 2) ((λ b, (1, b)) <$> [numbered 0; numbered 1; numbered 2]) = Some s ∧
    ∃ s', waitForBlock s 1 0 = Returned s' None.
Proof.
  destruct (storage_keeps_window 2 2 1 [numbered 0; numbered 1; numbered 2]) as (s & E & Hw & _);
    [lia|lia|cbn; lia|intros [|[|[|j]]] blk Hj; cbn in Hj; try done; injection Hj as <-; done|].
  exists s. split; [exact E|]. apply (Hw 0). cbn. lia.
Defined.

(** [subscriberWaitForBlock] on an empty queue reports region 0, not -1. *)
Example empty_queue_region :
  (subscriberWaitForBlock (newSubscriber two_regions).1 0).2 = (0%Z, None).
Proof. reflexivity. Qed.
