(* ===== verification/StorageLog.v ===== *)
(** * StorageLog: what a block storage promises

    The storages of [Storage] against an abstract log
    (include/peer/storage/mr_block_storage.h): the log has every block inserted,
    in order, and for every subscriber the place it has read up to.  Whatever is
    called on a storage, each answer is one the log allows; the proof is against
    the interface between the base class and its two derived classes. *)

From S2P Require Import Prelude Zpp Proto LRU Storage.

(** ** Calls and answers *)



Section calls.
Context {C : Type} `{BlockContainer C}.


End calls.

(** ** The log *)

Record Log := mkLog { entries : list (nat * Block); cursors : list nat }.

(** The blocks of a region, oldest first, and the number of the newest one as a
    32-bit integer. *)
Definition region_log (L : Log) (r : nat) : list (nat * Block) := filter (λ e, e.1 = r) (entries L).

(** Which blocks of a region the two storages still have, given the blocks [rl]
    that were inserted.  The map-based one has a block until the block [w] numbers
    after it comes in (numbers are unsigned, of 64 bits). *)
Definition in_window (w : Z) (rl : list (nat * Block)) (b : Z) : Prop :=
  ∃ l1 x l2, rl = l1 ++ x :: l2 ∧ number (header x.2) = b ∧ ∀ y, y ∈ l2 → wrap64u (number (header y.2) - w) ≠ b.

(** The cache has the block inserted last. *)
Definition newest (rl : list (nat * Block)) (b : Z) : Prop :=
  ∃ l1 x, rl = l1 ++ [x] ∧ number (header x.2) = b.

Section log.
Context (n : nat) (kept : list (nat * Block) → Z → Prop).



End log.


Lemma region_log_in L r x : x ∈ region_log L r ↔ x.1 = r ∧ x ∈ entries L.
Proof. unfold region_log. by rewrite list_elem_of_filter. Qed.

(** ** Refinement *)

(** What reads of a container promise, besides [BlockContainerLaws]: a read does
    not change what later reads find, an insertion brings in nothing but its
    block, and what is [kept] of the blocks inserted is found. *)
Class BlockContainerReads {C} `{BlockContainer C} (inv : C → Prop) (kept : list (nat * Block) → Z → Prop) : Prop := {
  get_same c b b' : inv c → (getBlock (getBlock c b').1 b).2 = (getBlock c b).2;
  get_emplaced c b blk c' b' x :
    inv c → tryEmplaceBlock c b blk = Some c' → (getBlock (pruneWithMaxBlockId c' b) b').2 = Some x →
    (b' = b ∧ x = blk) ∨ (getBlock c b').2 = Some x;
  kept_nil b : ¬ kept [] b;
  kept_found c rl r blk c' b :
    inv c → (∀ b, kept rl b → is_Some (getBlock c b).2) → tryEmplaceBlock c (number (header blk)) blk = Some c' →
    kept (rl ++ [(r, blk)]) b → is_Some (getBlock (pruneWithMaxBlockId c' (number (header blk))) b).2
}.

Section refinement.
Context {C : Type} `{BlockContainer C} (inv : C → Prop) (holds : C → Z → Prop) (kept : list (nat * Block) → Z → Prop).
Context `{HL : !BlockContainerLaws inv holds} `{HR : !BlockContainerReads inv kept}.











End refinement.

(** The map-based storage with a window of [w] blocks. *)
Definition mr_window (w : Z) (c : MRRegion) : Prop := mr_ok c ∧ _maxSize c = w.

#[export] Instance MRBlockStorage_window w : BlockContainerLaws (mr_window w) (λ c b, is_Some (blockStorage c !! b)).
Proof.
  split.
  - intros c b blk Hc. eexists. split; [done|exact Hc].
  - intros c b blk c' [Hc _]. by apply (get_new (inv := mr_ok) (holds := λ c b, is_Some (blockStorage c !! b))).
  - done.
Qed.

Lemma prune_other b w : (0 < w < 2 ^ 31)%Z → wrap64u (b - w) ≠ b.
Proof.
  unfold wrap64u. intros Hw E. pose proof (Z.mod_pos_bound (b - w) (2 ^ 64)).
  assert ((b - w) mod 2 ^ 64 = b mod 2 ^ 64)%Z as Hm by (rewrite (Z.mod_small b) by lia; done).
  apply Z.cong_iff_0 in Hm. replace (b - w - b)%Z with (- w)%Z in Hm by lia.
  rewrite Z.mod_opp_l_nz in Hm by (rewrite ?Z.mod_small; lia). rewrite Z.mod_small in Hm by lia. lia.
Qed.

#[export] Instance MRBlockStorage_reads w : BlockContainerReads (mr_window w) (in_window w).
Proof.
  split; cbn.
  - done.
  - intros c b blk c' b' x _ [= <-]. cbn. rewrite lookup_delete_Some. intros [_ Hl].
    destruct (blockStorage c !! b) eqn:E; [by right|].
    apply lookup_insert_Some in Hl as [[-> ->]|[_ Hl]]; [by left|by right].
  - by intros b ([] & ? & ? & ? & _).
  - intros c rl r blk c' b [Hok Hw] Hk [= <-] (l1 & x & l2 & E & Hn & Hl2). cbn. unfold mr_ok in Hok. rewrite Hw in *.
    destruct l2 as [|y l2 _] using rev_ind.
    + apply app_inj_tail in E as [_ <-]. cbn in Hn. subst b. rewrite lookup_delete_ne by by apply prune_other.
      destruct (blockStorage c !! number (header blk)) eqn:Eb; [by rewrite Eb|by rewrite lookup_insert_eq].
    + rewrite app_comm_cons, app_assoc in E. apply app_inj_tail in E as [-> <-].
      rewrite lookup_delete_ne by (apply (Hl2 (r, blk)); set_solver).
      destruct (Hk b) as [z Hz]; [exists l1, x, l2; split_and!; [done|done|set_solver]|].
      destruct (blockStorage c !! number (header blk)) eqn:Eb; [by rewrite Hz|].
      rewrite lookup_insert_ne by congruence. by rewrite Hz.
Qed.

Lemma lru_get_node (c : LRUCache Z Block) b : lru_ok c → (tryGetCopy c b).2 = node (keys_ c) b.
Proof.
  intros Hc. destruct (tryGetCopy_node c b Hc) as [(_ & v & Hv & ->)|[Hn ->]]; [done|]. cbn.
  destruct (node (keys_ c) b) as [v|] eqn:E; [|done]. apply node_in in E. destruct Hn. apply list_elem_of_fmap. by exists (b, v).
Qed.

Lemma node_elem (c : LRUCache Z Block) b v : lru_ok c → node (keys_ c) b = Some v ↔ (b, v) ∈ keys_ c.
Proof. intros Hc. split; [apply node_in|]. apply node_unique, Hc. Qed.

#[export] Instance BlockLRUCache_reads : BlockContainerReads (lru_ok (V := Block)) newest.
Proof.
  split; cbn; unfold lru_getBlock.
  - intros c b b' Hc. pose proof (get_inv (inv := lru_ok) c b' Hc) as Hc1. cbn in Hc1. unfold lru_getBlock in Hc1.
    rewrite !lru_get_node by done. apply option_eq. intros v. rewrite !node_elem by done.
    destruct (tryGetCopy_node c b' Hc) as [(Hb & w & Hw & ->)|[_ ->]]; [|done]. cbn [fst set_keys keys_].
    rewrite elem_of_cons, unlink_ne by apply Hc. apply node_in in Hw. split.
    + intros [[= -> ->]|[? _]]; done.
    + intros Hin. destruct (decide (b = b')) as [->|Hne]; [|by right]. left.
      apply (node_unique _ _ _ (lru_nodup _ Hc)) in Hin, Hw. congruence.
  - intros c b blk c' b' x Hc E. destruct (lru_insert_keys c b blk Hc) as (c1 & E1 & Hc1 & _ & _ & Hk).
    assert (c1 = c') as -> by congruence. rewrite !lru_get_node by done. rewrite !node_elem by done. cbn zeta in Hk.
    intros Hin. assert ((b', x) ∈ (b, blk) :: unlink (keys_ c) b) as [[= -> ->]|Hin']%elem_of_cons.
    { rewrite Hk in Hin. case_decide; [done|]. apply list_elem_of_lookup in Hin as [i Hi].
      apply lookup_take_Some in Hi as [Hi _]. by eapply list_elem_of_lookup_2. }
    + by left.
    + right. by eapply unlink_sub.
  - by intros b ([] & ? & ? & _).
  - intros c rl r blk c' b Hc _ E (l1 & x & [_ <-]%app_inj_tail & Hn). cbn in Hn. subst b.
    destruct (lru_insert_keys c (number (header blk)) blk Hc) as (c1 & E1 & Hc1 & _ & _ & Hk). assert (c1 = c') as -> by congruence.
    cbn zeta in Hk. rewrite lru_get_node by done. exists blk. apply node_elem; [done|]. rewrite Hk.
    case_decide as Hd; [set_solver|]. destruct (maxSize_ c); [naive_solver|]. cbn. set_solver.
Qed.



