(* ===== verification/OrderACB.v ===== *)
(** * The callbacks of the ordering service

    [OrderACB], [RaftLogValidator] and [BlockOrder] of
    include/peer/consensus/block_order/global_ordering.h and
    [AsyncAgreement::onLeaderVotingNewBlock]: how votes travel as messages
    between a group's order assigner and the order managers of the replicas,
    and how the leader is made to vote once a majority of groups has.

    Key lookup and signature verification (OpenSSL) are the parameter [verify];
    the outcome of the [i]-th wait for the block itself is the parameter
    [received].  Group and block numbers that index vectors are natural
    numbers: a negative one in a vote message is undefined and is [None]. *)

From S2P Require Import Prelude Zpp Proto OrderAssigner InterChainOrder.

Section callbacks.
Context {ZP : Zpp}.

(** ** Messages *)

(** A [BlockOrder] without signatures, as the leader and the error callback send
    it. *)
Definition order_message (bo : BlockOrder) : string :=
  out c_signedBlockOrder (mkSignedBlockOrder (out c_blockOrder bo) []).

(** The first lines of [applyRawBlockOrder] and of the validation callback. *)
Definition decode_order (decision : string) : option (SignedBlockOrder * BlockOrder) :=
  sb ← read c_signedBlockOrder decision;
  bo ← read c_blockOrder (serializedBlockOrder sb);
  Some (sb, bo).

(** What the error callback broadcasts when a group is down. *)
Definition error_message (subChainId : Z) : string :=
  order_message (mkBlockOrder subChainId (-1) (-1) (-1)).

Definition nat_of (z : Z) : option nat := if (z <? 0)%Z then None else Some (Z.to_nat z).

(** [applyRawBlockOrder]: the returned value and the state of the manager; a
    raft leader also advances its clock ([oa] is its assigner). *)
Definition applyRawBlockOrder (fuel : nat) (oa : option OA) (om : OM) (decision : string)
    : option (bool * option OA * (bool * OM)) :=
  match decode_order decision with
  | None => Some (false, oa, (true, om))
  | Some (_, bo) =>
      if (bo_voteChainId bo =? -1)%Z then
        CHECK ((bo_blockId bo =? -1) && (bo_voteBlockId bo =? -1))%Z ;;
        g ← nat_of (bo_chainId bo);
        r ← invalidateChain fuel om g;
        Some (true, oa, r)
      else
        g ← nat_of (bo_chainId bo);
        b ← nat_of (bo_blockId bo);
        v ← nat_of (bo_voteChainId bo);
        oa' ← match oa with
              | None => Some None
              | Some oa => (λ x : OA * bool, Some x.1) <$> increaseLocalClock oa g b
              end;
        r ← pushDecision fuel om g b v (bo_voteBlockId bo);
        Some (true, oa', r)
  end.

(** ** The leader's votes *)

(** [BlockOrder::voteNewBlock]: the returned value and the message handed to the
    group's raft instance. *)
Definition voteNewBlock (isRaftLeader : bool) (oa : OA) (g b : nat)
    : option (OA * bool * option string) :=
  if negb isRaftLeader then Some (oa, false, None) else
  x ← getBlockOrder oa g b;
  match x.2 with
  | None => Some (x.1, true, None)
  | Some vc =>
      Some (x.1, true, Some (order_message
        (mkBlockOrder (Z.of_nat g) (Z.of_nat b) (Z.of_nat vc.1) vc.2)))
  end.

Definition minThreshHold (groupCount : nat) : nat := groupCount / 2 + 1.

(** The callback that asks whether a majority has voted; [None] is a count of
    -1. *)
Definition getBlockVoteCount (groupCount : nat) (oa : OA) (g b : nat) : option (OA * bool) :=
  x ← getVoteForBlock oa g b;
  match x.2 with
  | None => Some (x.1, true)
  | Some count =>
      CHECK bool_decide (count ≤ groupCount) ;;
      Some (x.1, bool_decide (minThreshHold groupCount ≤ count))
  end.

(** The callback that counts a vote and makes the leader vote when the count
    reaches the majority. *)
Definition increaseBlockVote (groupCount : nat) (leader : bool) (oa : OA) (g b v : nat)
    : option (OA * bool * option string) :=
  x ← addVoteForBlock oa g b v;
  match x.2 with
  | None => Some (x.1, true, None)
  | Some count =>
      CHECK bool_decide (count ≤ groupCount) ;;
      if bool_decide (count ≠ minThreshHold groupCount) then Some (x.1, true, None)
      else voteNewBlock leader x.1 g b
  end.

(** ** Validation *)

(** [validateSignatureOfBlockOrder]: the threads of the pool check disjoint
    signatures and the result is their conjunction. *)
Definition validateSignatureOfBlockOrder (verify : SignatureString → string → bool)
    (sb : SignedBlockOrder) : bool :=
  forallb (λ s, verify s (serializedBlockOrder sb)) (sb_signatures sb).

(** At most [k] waits for the block, asking for a majority after each. *)
Fixpoint wait_loop (groupCount : nat) (received : nat → bool) (i k : nat) (oa : OA) (g b : nat)
    : option (OA * bool) :=
  match k with
  | 0 => Some (oa, false)
  | S k =>
      if received i then Some (oa, true) else
      x ← getBlockVoteCount groupCount oa g b;
      if (x.2 : bool) then Some (x.1, true) else wait_loop groupCount received (S i) k x.1 g b
  end.

(** The validation callback on a raft leader of a deployment with a validator. *)
Definition onValidate (groupCount : nat) (leader : bool) (verify : SignatureString → string → bool)
    (received : nat → bool) (oa : OA) (decision : string) : option (OA * bool * option string) :=
  match decode_order decision with
  | None => Some (oa, false, None)
  | Some (sb, bo) =>
      if (bo_voteChainId bo =? -1)%Z then Some (oa, true, None) else
      g ← nat_of (bo_chainId bo);
      b ← nat_of (bo_blockId bo);
      v ← nat_of (bo_voteChainId bo);
      x ← increaseBlockVote groupCount leader oa g b v;
      let '(oa1, ok, msg) := x in
      if negb ok then Some (oa1, false, msg) else
      y ← getBlockVoteCount groupCount oa1 g b;
      if (y.2 : bool) then Some (y.1, true, msg) else
      if negb (validateSignatureOfBlockOrder verify sb) then Some (y.1, false, msg) else
      z ← wait_loop groupCount received 0 20 y.1 g b;
      Some (z.1, z.2, msg)
  end.

(** ** Theorems *)

Context `{!ZppLaws ZP}.

Lemma decode_order_message bo :
  blockOrder_ok bo → sv_ok (out c_blockOrder bo) →
  decode_order (order_message bo) = Some (mkSignedBlockOrder (out c_blockOrder bo) [], bo).
Proof.
  intros Hbo Hsv. unfold decode_order, order_message.
  erewrite read_out; [|apply signedBlockOrder_codec_ok|split; [done|split; [constructor|done]]].
  cbn [mbind option_bind serializedBlockOrder].
  by erewrite read_out; [|apply blockOrder_codec_ok|].
Qed.

Lemma nat_of_nat k : nat_of (Z.of_nat k) = Some k.
Proof. unfold nat_of. destruct (Z.ltb_spec (Z.of_nat k) 0); [lia|]. by rewrite Nat2Z.id. Qed.

(** The watermark the leader gives. *)
Definition watermark (oa : OA) (g b : nat) : Z :=
  if bool_decide (localChain oa = g) then Z.of_nat b else myClock oa.

Lemma voteNewBlock_message oa g b oa' r msg :
  voteNewBlock true oa g b = Some (oa', r, Some msg) →
  msg = order_message (mkBlockOrder (Z.of_nat g) (Z.of_nat b) (Z.of_nat (localChain oa)) (watermark oa g b)).
Proof.
  unfold voteNewBlock, getBlockOrder, watermark. simpl.
  destruct (getRef _ g b) as [[m s]|]; simpl; [|done]. destruct (finished s); simpl; [done|].
  case_bool_decide; simpl; by intros [= <- <- <-].
Qed.

Definition small (k : nat) : Prop := (Z.of_nat k < 2 ^ 31)%Z.

(** the message a leader hands to raft when it votes makes every replica that
    applies it push exactly the decision the leader's assigner took, and the
    message sent when a group is down makes it invalidate that group's chain. *)
Theorem vote_message_applied oa g b oa' r msg fuel om :
  (∀ bo, sv_ok (out c_blockOrder bo)) →
  small g → small b → small (localChain oa) → in_int32 (myClock oa) →
  voteNewBlock true oa g b = Some (oa', r, Some msg) →
  applyRawBlockOrder fuel None om msg =
    (λ x, (true, None, x)) <$> pushDecision fuel om g b (localChain oa) (watermark oa g b) ∧
  applyRawBlockOrder fuel None om (error_message (Z.of_nat g)) =
    (λ x, (true, None, x)) <$> invalidateChain fuel om g.
Proof.
  unfold small. intros Hsv Hg Hb Hl Hc Hv. apply voteNewBlock_message in Hv as ->.
  unfold applyRawBlockOrder, error_message. split.
  - rewrite decode_order_message; [|unfold blockOrder_ok, in_int32, watermark in *; simpl; case_bool_decide; lia|done].
    cbn [bo_voteChainId bo_chainId bo_blockId bo_voteBlockId].
    destruct (Z.eqb_spec (Z.of_nat (localChain oa)) (-1)); [lia|]. rewrite !nat_of_nat. simpl.
    by destruct (pushDecision _ _ _ _ _ _).
  - rewrite decode_order_message; [|unfold blockOrder_ok, in_int32; simpl; lia|done].
    cbn [bo_voteChainId bo_chainId bo_blockId bo_voteBlockId]. simpl. rewrite nat_of_nat. simpl.
    by destruct (invalidateChain _ _ _).
Qed.

(** ** The forced vote *)

(** The slot the next call for block [b] of chain [g] will see. *)
Definition slot_view (oa : OA) (g b : nat) (s : Slot) : Prop :=
  ∃ m, getRef (blockVotes oa) g b = Some (m, s).

Lemma view_written c l m g b vs f :
  g < MAX_GROUP_SIZE → slot_view (mkOA c l (<[ring g b := mkSlot b vs f]> m)) g b (mkSlot b vs f).
Proof.
  intros Hg. unfold slot_view, getRef, slot. simpl. rewrite bool_decide_true by done.
  rewrite lookup_insert_eq. simpl. rewrite bool_decide_false by lia. eauto.
Qed.

Lemma getRef_map oa g b m s : getRef (blockVotes oa) g b = Some (m, s) → m = <[ring g b := s]> (blockVotes oa).
Proof. unfold getRef. case_bool_decide; [|done]. case_bool_decide; by intros [= <- <-]. Qed.

Lemma addVote_view oa g b v vs f :
  localChain oa ≠ g → g < MAX_GROUP_SIZE → slot_view oa g b (mkSlot b vs f) →
  ∃ oa', addVoteForBlock oa g b v = Some (oa', if f then None else Some (size ({[v]} ∪ vs))) ∧
    localChain oa' = localChain oa ∧ myClock oa' = myClock oa ∧
    slot_view oa' g b (if f then mkSlot b vs true else mkSlot b ({[v]} ∪ vs) false).
Proof.
  intros Hl Hg [m E]. unfold addVoteForBlock. rewrite bool_decide_false by done. rewrite E. simpl.
  apply getRef_map in E as ->.
  destruct f; eexists; (split_and!; [done..|]); rewrite ?insert_insert_eq; by apply view_written.
Qed.

Lemma vote_view oa g b vs :
  localChain oa ≠ g → g < MAX_GROUP_SIZE → slot_view oa g b (mkSlot b vs false) →
  ∃ oa', voteNewBlock true oa g b = Some (oa', true, Some (order_message
      (mkBlockOrder (Z.of_nat g) (Z.of_nat b) (Z.of_nat (localChain oa)) (myClock oa)))) ∧
    localChain oa' = localChain oa ∧ slot_view oa' g b (mkSlot b vs true).
Proof.
  intros Hl Hg [m E]. unfold voteNewBlock, getBlockOrder. rewrite E. simpl.
  rewrite bool_decide_false by done. apply getRef_map in E as ->.
  eexists. split_and!; [done..|]. simpl. rewrite insert_insert_eq. by apply view_written.
Qed.

(** The votes of groups [vs] for one block arrive one after the other at the
    leader; the messages it sends. *)
Fixpoint count_votes (groupCount : nat) (oa : OA) (g b : nat) (vs : list nat)
    : option (list (option string)) :=
  match vs with
  | [] => Some []
  | v :: vs =>
      x ← increaseBlockVote groupCount true oa g b v;
      rest ← count_votes groupCount x.1.1 g b vs;
      Some (x.2 :: rest)
  end.

Lemma count_votes_finished n oa g b s vs :
  localChain oa ≠ g → g < MAX_GROUP_SIZE → slot_view oa g b (mkSlot b s true) →
  count_votes n oa g b vs = Some (replicate (length vs) None).
Proof.
  revert oa. induction vs as [|v vs IH]; intros oa Hl Hg Hv; [done|]. cbn [count_votes].
  unfold increaseBlockVote. destruct (addVote_view oa g b v s true Hl Hg Hv) as (oa' & -> & Hl' & _ & Hv').
  cbn [mbind option_bind fst snd]. rewrite IH by (rewrite ?Hl'; done). done.
Qed.

Lemma count_votes_open n oa g b s vs msg :
  localChain oa ≠ g → g < MAX_GROUP_SIZE → slot_view oa g b (mkSlot b s false) →
  NoDup vs → (∀ v, v ∈ vs → v ∉ s) → size s + length vs ≤ n → size s < minThreshHold n →
  msg = order_message (mkBlockOrder (Z.of_nat g) (Z.of_nat b) (Z.of_nat (localChain oa)) (myClock oa)) →
  count_votes n oa g b vs =
    Some (imap (λ i _, if bool_decide (size s + S i = minThreshHold n) then Some msg else None) vs).
Proof.
  revert oa s. induction vs as [|v vs IH]; intros oa s Hl Hg Hv Hnd Hs Hn Hlt Hmsg; [done|].
  apply NoDup_cons in Hnd as [Hv' Hnd]. cbn [count_votes]. unfold increaseBlockVote.
  destruct (addVote_view oa g b v s false Hl Hg Hv) as (oa1 & -> & Hl1 & Hc1 & Hv1).
  cbn [mbind option_bind fst snd]. simpl in Hn.
  assert (Hsz : size ({[v]} ∪ s) = S (size s)).
  { rewrite size_union by set_solver. by rewrite size_singleton. }
  rewrite Hsz. rewrite bool_decide_true by lia. simpl. rewrite Nat.add_1_r.
  case_bool_decide as Hm.
  - cbn [mbind option_bind fst snd]. rewrite bool_decide_false by done.
    rewrite (IH oa1 ({[v]} ∪ s)); [|congruence|done|done|done|set_solver|lia|lia|congruence].
    simpl. do 2 f_equal. apply imap_ext. intros i x _. simpl. rewrite Hsz.
    by replace (S (size s) + S i) with (size s + S (S i)) by lia.
  - destruct (vote_view oa1 g b ({[v]} ∪ s)) as (oa2 & -> & Hl2 & Hv2); [congruence|done|done|].
    cbn [mbind option_bind fst snd]. rewrite bool_decide_true by done.
    erewrite count_votes_finished by (rewrite ?Hl2, ?Hl1; done). cbn [mbind option_bind].
    rewrite Hl1, Hc1, <-Hmsg. do 2 f_equal. apply list_eq. intros i. rewrite list_lookup_imap.
    destruct (vs !! i) as [x|] eqn:E; simpl.
    + rewrite lookup_replicate_2 by (by eapply lookup_lt_Some). rewrite bool_decide_false by lia. done.
    + apply lookup_ge_None in E. apply lookup_ge_None. by rewrite length_replicate.
Qed.

(** When the votes of distinct groups for a foreign block reach a leader that
    has not voted for it, the leader votes exactly once, when the vote that
    makes a majority of the groups arrives. *)
Theorem forced_vote_at_majority n l g b vs :
  l ≠ g → g < MAX_GROUP_SIZE → NoDup vs → length vs ≤ n →
  count_votes n (newAssigner l) g b vs =
    Some (imap (λ i _, if bool_decide (S i = minThreshHold n)
      then Some (order_message (mkBlockOrder (Z.of_nat g) (Z.of_nat b) (Z.of_nat l) (-1))) else None) vs).
Proof.
  intros Hl Hg Hnd Hlen.
  rewrite (count_votes_open n (newAssigner l) g b ∅ vs
    (order_message (mkBlockOrder (Z.of_nat g) (Z.of_nat b) (Z.of_nat l) (-1)))); try done.
  - unfold slot_view, getRef, newAssigner, slot. simpl. rewrite bool_decide_true by done.
    rewrite lookup_empty. simpl. case_bool_decide; [eauto|]. assert (b = 0) as -> by lia. eauto.
  - unfold minThreshHold. rewrite size_empty. lia.
Qed.

End callbacks.

(** ** Concrete messages *)

#[local] Existing Instance LE.zpp.
#[local] Existing Instance LE.zpp_laws.

Lemma le_order_small bo : sv_ok (out c_blockOrder bo).
Proof. done. Qed.

Lemma vote_message_applied_witness :
  let oa := newAssigner 0 in
  ∃ oa' msg, voteNewBlock true oa 1 0 = Some (oa', true, Some msg) ∧
    applyRawBlockOrder 5 None (default (mkOM [] [] ∅ []) (setGroupCount 2)) msg =
      (λ x, (true, None, x)) <$> pushDecision 5 (default (mkOM [] [] ∅ []) (setGroupCount 2)) 1 0 0 (-1).
Proof.
  eexists _, _. split; [reflexivity|].
  refine (proj1 (vote_message_applied (newAssigner 0) 1 0 _ true _ 5 _ le_order_small _ _ _ _ eq_refl));
    vm_compute; repeat split; (done || discriminate).
Defined.

Lemma forced_vote_at_majority_witness :
  count_votes 3 (newAssigner 0) 1 4 [2; 1; 0] =
    Some [None; Some (order_message (mkBlockOrder 1 4 0 (-1))); None].
Proof.
  refine (forced_vote_at_majority 3 0 1 4 [2; 1; 0] _ _ _ _);
    [lia|unfold MAX_GROUP_SIZE; lia|apply (bool_decide_unpack _); by vm_compute|simpl; lia].
Defined.
