(* ===== verification/RaftFSM.v ===== *)
(** * RaftFSM: the raft groups of the ordering service

    [AgreementRaftFSM] (agreement_raft_fsm.h), the handlers braft calls;
    [RaftCallback] and [LocalDistributor] (local_distributor.h), which pass a
    decision on to the nodes of the group; [MultiRaftFSM]
    (common/raft/multi_raft_fsm.h), the raft instances of a process; and how
    [RoundBasedAgreement] and the [NewBlockOrder] functions (round_based,
    steward) set them up.  braft, ZeroMQ and the parser of addresses are outside
    the repository: whether starting a node succeeds ([node_init]), whether a
    publication is sent ([send_ok]) and the address of a text ([str2ip]) are
    parameters. *)

From S2P Require Import Prelude Zpp.

(** An address, a port and an index: the group the raft instance belongs to. *)
Record PeerId := mkPeerId { p_ip : Z; p_port : Z; p_idx : Z }.

#[export] Instance PeerId_eq_dec : EqDecision PeerId.
Proof. solve_decision. Defined.
#[export] Program Instance PeerId_countable : Countable PeerId :=
  inj_countable' (λ p, (p_ip p, p_port p, p_idx p)) (λ x, mkPeerId x.1.1 x.1.2 x.2) _.
Next Obligation. by intros []. Qed.

(** ** AgreementRaftFSM *)

Inductive Status := INIT | READY | ERROR.

Record FSM := mkFSM { _running : Status; _myId : PeerId; _leaderId : PeerId; _leader_term : Z }.

Definition set_running (f : FSM) (s : Status) : FSM := mkFSM s (_myId f) (_leaderId f) (_leader_term f).

Definition newFSM (myId leaderId : PeerId) : FSM := mkFSM INIT myId leaderId (-1).

(** What a handler asks of the outside: a transfer of leadership, repeated until
    braft accepts it, or the report that a group is down. *)
Inductive action := TransferLeadership (to : PeerId) | OnError (subChainId : Z).

Definition on_leader_start (f : FSM) (term : Z) : FSM * list action :=
  let f := mkFSM (_running f) (_myId f) (_leaderId f) term in
  if decide (_myId f ≠ _leaderId f) then
    match _running f with
    | ERROR => (f, [])
    | _ => (f, [TransferLeadership (_leaderId f)])
    end
  else (set_running f READY, []).

Definition on_leader_stop (f : FSM) : FSM := mkFSM (_running f) (_myId f) (_leaderId f) (-1).

Definition on_stop_following (f : FSM) (leader : PeerId) : FSM * list action :=
  if decide (leader = _leaderId f) then (set_running f ERROR, [OnError (p_idx leader)]) else (f, []).

Definition on_start_following (f : FSM) (leader : PeerId) : FSM :=
  if decide (leader = _leaderId f) then set_running f READY else f.

Definition is_leader (f : FSM) : bool := (0 <? _leader_term f)%Z.

(** [ready]: [None] while the caller sleeps. *)
Definition ready (f : FSM) : option (FSM * bool) :=
  match _running f with
  | INIT => None
  | _ => Some (set_running f READY, bool_decide (_myId f = _leaderId f))
  end.

(** [on_follower_receive]: a leader accepts its own entries, a follower asks the
    validation callback. *)
Definition on_follower_receive (onValidate : string → bool) (f : FSM) (data : string) : bool :=
  if is_leader f then true else onValidate data.

(** ** RaftCallback and LocalDistributor *)

(** What happens to a decision: the local delivery, then the publication. *)
Inductive effect := DeliverLocal (decision : string) | Publish (decision : string).

(** [gossip], which is [onBroadcast]: without a publisher (a group of one) only
    the local delivery.  The result of the local delivery is only logged. *)
Definition gossip (has_pub send_ok : bool) (msg : string) : list effect * bool :=
  if has_pub then ([DeliverLocal msg; Publish msg], send_ok) else ([DeliverLocal msg], true).

(** [on_apply] over the committed entries; an entry that cannot be published
    ends the loop, and the entries behind it are dropped. *)
Fixpoint on_apply (has_pub : bool) (send_ok : nat → bool) (i : nat) (f : FSM) (entries : list string)
    : list effect * list action :=
  match entries with
  | [] => ([], [])
  | e :: entries =>
      match gossip has_pub (send_ok i) e with
      | (es, true) =>
          let '(es', acts) := on_apply has_pub send_ok (S i) f entries in (es ++ es', acts)
      | (es, false) => (es, [OnError (p_idx (_leaderId f))])
      end
  end.

(** ** MultiRaftFSM *)

Abbreviation MultiRaft := (gmap PeerId FSM).

Definition find_node (m : MultiRaft) (p : PeerId) : option FSM := m !! p.

(** [start]: 0 on success. *)
Definition multi_start (node_init : PeerId → Z) (m : MultiRaft) (peers : list PeerId) (local : Z) (fsm : FSM)
    : MultiRaft * Z :=
  if (Z.of_nat (length peers) <=? local)%Z || (local <? 0)%Z then (m, (-1)%Z) else
  match peers !! Z.to_nat local with
  | None => (m, (-1)%Z)
  | Some p =>
      match m !! p with
      | Some _ => (m, (-1)%Z)
      | None => if (node_init p =? 0)%Z then (<[p := fsm]> m, 0%Z) else (m, node_init p)
      end
  end.

Definition multi_stop (m : MultiRaft) (p : PeerId) : MultiRaft * Z :=
  match m !! p with None => (m, (-1)%Z) | Some _ => (delete p m, 0%Z) end.

(** [stop_all]: the destructor stops every instance there is. *)
Definition stop_all (m : MultiRaft) : MultiRaft := fold_left (λ m p, (multi_stop m p).1) (map_to_list m).*1 m.

(** ** The agreements *)

Record NodeConfig := mkNode { nodeId : Z; groupId : Z; ski : string; priIp : string; pubIp : string }.
Record InstanceConfig := mkInstance { nodeConfig : NodeConfig; port : Z }.

(** [NodeConfig::operator==]. *)
Definition same_node (a b : NodeConfig) : bool := ((nodeId a =? nodeId b) && (groupId a =? groupId b))%Z.

Section agreement.
Context (str2ip : string → option Z) (node_init : PeerId → Z).

Definition PeerIdFromConfig (ip : string) (port targetGroupId : Z) : option PeerId :=
  (λ a, mkPeerId a port targetGroupId) <$> str2ip ip.

(** [startCluster(nodes, leaderPos)]: the raft instance of the leader's group;
    [local] is the place of this process in [nodes]. *)
Definition startCluster (local : nat) (m : MultiRaft) (nodes : list InstanceConfig) (leaderPos : nat)
    : MultiRaft * bool :=
  match nodes !! leaderPos with
  | None => (m, false)
  | Some leader =>
      match mapM (λ c, PeerIdFromConfig (pubIp (nodeConfig c)) (port c) (groupId (nodeConfig leader))) nodes with
      | None => (m, false)
      | Some peers =>
          match peers !! local, peers !! leaderPos with
          | Some me, Some ld =>
              let '(m', ret) := multi_start node_init m peers (Z.of_nat local) (newFSM me ld) in (m', (ret =? 0)%Z)
          | _, _ => (m, false)
          end
      end
  end.

Fixpoint startClusters (local : nat) (m : MultiRaft) (nodes : list InstanceConfig) (leaders : list nat)
    : MultiRaft * bool :=
  match leaders with
  | [] => (m, true)
  | l :: leaders =>
      match startCluster local m nodes l with
      | (m', true) => startClusters local m' nodes leaders
      | (m', false) => (m', false)
      end
  end.

(** The place of [me] in a list of instances. *)
Fixpoint position (me : NodeConfig) (nodes : list InstanceConfig) : option nat :=
  match nodes with
  | [] => None
  | c :: nodes => if same_node me (nodeConfig c) then Some 0 else S <$> position me nodes
  end.

(** The order of a node: the flag, the group and the raft instances; a node that
    takes no part in the raft groups has none. *)
Record RaftOrder := mkRaftOrder {
  isRaftLeader : bool; localGroupId : Z; localPeer : option PeerId; multiRaft : MultiRaft
}.

(** The raft half of [NewBlockOrder]; [skip] says which of the groups are not
    started: none in round_based, all but group 0 in steward. *)
Definition newRaftOrder (skip : Z → bool) (participants : list InstanceConfig) (leaders : list nat) (me : NodeConfig)
    : option RaftOrder :=
  match position me participants with
  | None => Some (mkRaftOrder false (-1) None ∅)
  | Some pos =>
      match participants !! pos with
      | None => None
      | Some c =>
          match PeerIdFromConfig (pubIp (nodeConfig c)) (port c) (groupId (nodeConfig c)) with
          | None => None
          | Some p =>
              let wanted := List.filter (λ l, match participants !! l with
                                              | Some x => negb (skip (groupId (nodeConfig x)))
                                              | None => true end) leaders in
              match startClusters pos ∅ participants wanted with
              | (m, true) => Some (mkRaftOrder (bool_decide (pos ∈ leaders)) (groupId (nodeConfig c)) (Some p) m)
              | (_, false) => None
              end
          end
      end
  end.

Definition round_based_skip : Z → bool := λ _, false.
Definition steward_skip : Z → bool := λ g, negb (g =? 0)%Z.

(** [apply]: the node of the local peer takes the message; a missing node is a
    null pointer. *)
Definition raft_apply (o : RaftOrder) (content : string) : option string :=
  p ← localPeer o; _ ← find_node (multiRaft o) p; Some content.

(** [onReplicatingNewBlock]: the message handed to raft, if the block is of this
    group; [None] when the process dies. *)
Definition onReplicatingNewBlock `{!Zpp} (o : RaftOrder) (chainId blockId : Z) : option (option string) :=
  if negb (localGroupId o =? chainId)%Z then Some None
  else Some <$> raft_apply o (out (seq_codec c_i32 c_i32) (chainId, blockId)).
End agreement.

(** ** Applying decisions *)

(** The entries up to and including the first that cannot be published. *)
Fixpoint published (send_ok : nat → bool) (i : nat) (entries : list string) : list string :=
  match entries with
  | [] => []
  | e :: entries => e :: (if send_ok i then published send_ok (S i) entries else [])
  end.

Definition delivered_locally (es : list effect) : list string :=
  omap (λ e, match e with DeliverLocal d => Some d | Publish _ => None end) es.

Lemma on_apply_delivers send_ok i f entries :
  delivered_locally (on_apply true send_ok i f entries).1 = published send_ok i entries ∧
  ((on_apply true send_ok i f entries).2 = [] ↔
   ∀ j, j < length entries → send_ok (i + j) = true).
Proof.
  revert i. induction entries as [|e entries IH]; intros i; simpl; [split; [done|]; split; [intros _ j Hj; lia|done]|].
  destruct (send_ok i) eqn:E; simpl.
  - destruct (IH (S i)) as [H1 H2]. destruct (on_apply true send_ok (S i) f entries) as [es acts]. simpl in *.
    unfold delivered_locally in *. simpl. rewrite H1. split; [done|]. rewrite H2. split.
    + intros Hs [|j] Hj; [by rewrite Nat.add_0_r|]. rewrite Nat.add_succ_r. apply Hs. lia.
    + intros Hs j Hj. specialize (Hs (S j)). rewrite Nat.add_succ_r in Hs. apply Hs. lia.
  - split; [done|]. split; [done|]. intros Hs. specialize (Hs 0). rewrite Nat.add_0_r, E in Hs.
    by assert (false = true) by (apply Hs; lia).
Qed.

(** A group of one node has no publisher and applies every entry. *)
Lemma on_apply_alone send_ok i f entries :
  on_apply false send_ok i f entries = (DeliverLocal <$> entries, []).
Proof. revert i. induction entries as [|e entries IH]; intros i; simpl; [done|]. by rewrite IH. Qed.

(** [ready] reports an instance whose leader has failed as ready, and forgets
    the failure: the status says afterwards that the instance is functional, and
    the next election makes the node hand the group back to the failed leader. *)
Theorem ready_hides_error f term :
  _running f = ERROR → _myId f ≠ _leaderId f →
  (on_leader_start f term).2 = [] ∧
  ∃ f', ready f = Some (f', false) ∧ _running f' = READY ∧
    (on_leader_start f' term).2 = [TransferLeadership (_leaderId f)].
Proof.
  intros He Hne. split; [unfold on_leader_start; simpl; by rewrite decide_True, He|].
  exists (set_running f READY). split; [unfold ready; by rewrite He, bool_decide_false|]. split; [done|].
  unfold on_leader_start. simpl. by rewrite decide_True.
Qed.

(** ** The raft groups of a deployment *)

Section groups.
Context `{ZP : Zpp} (str2ip : string → option Z) (node_init : PeerId → Z).
Context (participants : list InstanceConfig).
Hypothesis ips : ∀ c, c ∈ participants → is_Some (str2ip (pubIp (nodeConfig c))).
Hypothesis inits : ∀ p, node_init p = 0%Z.

Definition peer_of (c : InstanceConfig) (g : Z) : PeerId :=
  mkPeerId (default 0%Z (str2ip (pubIp (nodeConfig c)))) (port c) g.

Lemma PeerIdFromConfig_of c g :
  c ∈ participants → PeerIdFromConfig str2ip (pubIp (nodeConfig c)) (port c) g = Some (peer_of c g).
Proof using ips. intros Hc. unfold PeerIdFromConfig, peer_of. by destruct (ips c Hc) as [a ->]. Qed.

Lemma peers_of g :
  mapM (λ c, PeerIdFromConfig str2ip (pubIp (nodeConfig c)) (port c) g) participants =
  Some ((λ c, peer_of c g) <$> participants).
Proof using ips.
  apply mapM_Some, Forall2_fmap_r, Forall_Forall2_diag, Forall_forall. intros c Hc. by apply PeerIdFromConfig_of.
Qed.

Lemma startCluster_ok pos c l ld m :
  participants !! pos = Some c → participants !! l = Some ld →
  m !! peer_of c (groupId (nodeConfig ld)) = None →
  startCluster str2ip node_init pos m participants l =
  (<[peer_of c (groupId (nodeConfig ld)) :=
     newFSM (peer_of c (groupId (nodeConfig ld))) (peer_of ld (groupId (nodeConfig ld)))]> m, true).
Proof using ips inits.
  intros Hc Hl Hm. unfold startCluster. rewrite Hl, peers_of, !list_lookup_fmap, Hc, Hl. simpl.
  unfold multi_start. rewrite length_fmap.
  pose proof (lookup_lt_Some _ _ _ Hc). destruct (Z.leb_spec (Z.of_nat (length participants)) (Z.of_nat pos)); [lia|].
  destruct (Z.ltb_spec (Z.of_nat pos) 0); [lia|]. simpl.
  rewrite Nat2Z.id, list_lookup_fmap, Hc. simpl. by rewrite Hm, inits.
Qed.

(** The group a leader position stands for. *)
Definition group_of (l : nat) : option Z := (λ c, groupId (nodeConfig c)) <$> participants !! l.

Lemma startClusters_ok pos c leaders m :
  participants !! pos = Some c → Forall (λ l, l < length participants) leaders → NoDup (group_of <$> leaders) →
  (∀ l ld, l ∈ leaders → participants !! l = Some ld → m !! peer_of c (groupId (nodeConfig ld)) = None) →
  ∃ m', startClusters str2ip node_init pos m participants leaders = (m', true) ∧
    ∀ g, m' !! peer_of c g = if decide (Some g ∈ group_of <$> leaders)
         then (λ ld, newFSM (peer_of c g) (peer_of ld g)) <$>
              (head (List.filter (λ l, bool_decide (group_of l = Some g)) leaders) ≫= λ l, participants !! l)
         else m !! peer_of c g.
Proof using ips inits.
  intros Hc. revert m. induction leaders as [|l leaders IH]; intros m Hlt Hnd Hm; cbn [startClusters].
  { exists m. split; [done|]. intros g. by rewrite decide_False by set_solver. }
  apply Forall_cons in Hlt as [Hl Hlt]. csimpl in Hnd. apply NoDup_cons in Hnd as [Hnin Hnd].
  destruct (lookup_lt_is_Some_2 participants l Hl) as [ld Hld].
  rewrite (startCluster_ok pos c l ld m Hc Hld) by (apply (Hm l ld); [set_solver|done]).
  assert (Hg : group_of l = Some (groupId (nodeConfig ld))) by (unfold group_of; by rewrite Hld).
  set (g0 := groupId (nodeConfig ld)) in *.
  destruct (IH (<[peer_of c g0 := newFSM (peer_of c g0) (peer_of ld g0)]> m)) as (m' & E & Hm'); [done|done| |].
  { intros l' ld' Hl' Hld'. rewrite lookup_insert_ne; [apply (Hm l' ld'); [set_solver|done]|].
    intros Heq. apply Hnin. rewrite Hg. apply list_elem_of_fmap. exists l'. split; [|done].
    unfold group_of. rewrite Hld'. simpl. apply (f_equal p_idx) in Heq. simpl in Heq. by rewrite Heq. }
  exists m'. split; [exact E|]. intros g. rewrite Hm', fmap_cons, Hg. cbn [List.filter]. rewrite Hg.
  destruct (decide (Some g ∈ group_of <$> leaders)) as [Hin|Hout].
  - rewrite (decide_True (P := Some g ∈ _ :: _)) by set_solver.
    rewrite (bool_decide_false (Some _ = Some g)); [done|]. intros [= <-]. by rewrite Hg in Hnin.
  - destruct (decide (g = groupId (nodeConfig ld))) as [->|Hne].
    + rewrite decide_True by set_solver. rewrite bool_decide_true by done. simpl. rewrite Hld. simpl.
      by rewrite lookup_insert_eq.
    + rewrite (decide_False (P := Some g ∈ _ :: _)) by (rewrite elem_of_cons; intros [[= ->]|?]; done).
      rewrite lookup_insert_ne; [done|]. intros Heq%(f_equal p_idx). by apply Hne.
Qed.

Lemma filter_fmap_nodup {A B} (f : A → B) (P : A → bool) (l : list A) :
  NoDup (f <$> l) → NoDup (f <$> List.filter P l).
Proof.
  induction l as [|x l IH]; [done|]. csimpl. intros [Hx Hn]%NoDup_cons. destruct (P x); [|by apply IH].
  csimpl. apply NoDup_cons. split; [|by apply IH]. intros (y & Hy & Hin)%list_elem_of_fmap. apply Hx.
  rewrite Hy. apply list_elem_of_In, filter_In in Hin as [Hin _]. by apply list_elem_of_fmap_2, list_elem_of_In.
Qed.

Lemma filter_forall {A} (Q : A → Prop) (P : A → bool) (l : list A) : Forall Q l → Forall Q (List.filter P l).
Proof. induction 1 as [|x l Hx _ IH]; [done|]. simpl. destruct (P x); [by constructor|done]. Qed.

(** The setup succeeds with the instances of the groups that are not skipped. *)
Lemma newRaftOrder_ok skip me pos c leaders :
  position me participants = Some pos → participants !! pos = Some c →
  Forall (λ l, l < length participants) leaders → NoDup (group_of <$> leaders) →
  ∃ o, newRaftOrder str2ip node_init skip participants leaders me = Some o ∧
    isRaftLeader o = bool_decide (pos ∈ leaders) ∧ localGroupId o = groupId (nodeConfig c) ∧
    localPeer o = Some (peer_of c (groupId (nodeConfig c))) ∧
    ∀ g, is_Some (multiRaft o !! peer_of c g) ↔ Some g ∈ group_of <$> leaders ∧ skip g = false.
Proof using ips inits.
  intros Hpos Hc Hlt Hnd. unfold newRaftOrder.
  rewrite Hpos, Hc, PeerIdFromConfig_of by by eapply list_elem_of_lookup_2.
  set (P := λ l, match participants !! l with Some x => negb (skip (groupId (nodeConfig x))) | None => true end).
  destruct (startClusters_ok pos c (List.filter P leaders) ∅ Hc) as (m & -> & Hm);
    [by apply filter_forall|by apply filter_fmap_nodup|intros; apply lookup_empty|].
  eexists. split; [done|]. cbn [isRaftLeader localGroupId localPeer multiRaft]. split_and!; [done..|].
  intros g. rewrite Hm. assert (Hin : Some g ∈ group_of <$> List.filter P leaders ↔
                                     Some g ∈ group_of <$> leaders ∧ skip g = false).
  { rewrite !list_elem_of_fmap. split.
    - intros (l & Hg & Hl%list_elem_of_In). apply filter_In in Hl as [Hl HP].
      split; [exists l; by rewrite list_elem_of_In|]. unfold P in HP. unfold group_of in Hg.
      destruct (participants !! l); [|done]. simplify_eq/=. by apply negb_true_iff.
    - intros [(l & Hg & Hl) Hs]. exists l. split; [done|]. apply list_elem_of_In, filter_In.
      split; [by apply list_elem_of_In|]. unfold P, group_of in *. destruct (participants !! l); [|done].
      simplify_eq/=. by rewrite Hs. }
  destruct (decide (Some g ∈ group_of <$> List.filter P leaders)) as [Hyes|Hno].
  - split; [intros _; by apply Hin|]. intros _. apply fmap_is_Some.
    apply list_elem_of_fmap in Hyes as (l & Hg & Hl).
    assert (Hf : l ∈ List.filter (λ l, bool_decide (group_of l = Some g)) (List.filter P leaders)).
    { apply list_elem_of_In, filter_In. split; [by apply list_elem_of_In|]. by apply bool_decide_true. }
    destruct (List.filter _ (List.filter P leaders)) as [|l' ls] eqn:Ef; [by apply elem_of_nil in Hf|]. simpl.
    assert (Hl' : l' ∈ List.filter (λ l, bool_decide (group_of l = Some g)) (List.filter P leaders))
      by (rewrite Ef; by left).
    apply list_elem_of_In, filter_In in Hl' as [_ Hg']. apply bool_decide_eq_true in Hg'.
    unfold group_of in Hg'. by destruct (participants !! l').
  - rewrite lookup_empty. split; [by intros [??]|]. intros H. by apply Hin in H.
Qed.

(** The raft groups of the round-based order.  When every address parses, every
    braft node starts and no two leaders are of one group, the setup succeeds
    on every participant; a leader's process then has the raft instance of its
    own group, so that each of its blocks is handed to raft, and blocks of other
    groups are skipped. *)
Theorem round_based_proposes me pos c leaders :
  position me participants = Some pos → participants !! pos = Some c →
  Forall (λ l, l < length participants) leaders → NoDup (group_of <$> leaders) →
  ∃ o, newRaftOrder str2ip node_init round_based_skip participants leaders me = Some o ∧
    isRaftLeader o = bool_decide (pos ∈ leaders) ∧
    ∀ g b, isRaftLeader o = true →
      onReplicatingNewBlock o g b =
      Some (if (groupId (nodeConfig c) =? g)%Z then Some (out (seq_codec c_i32 c_i32) (g, b)) else None).
Proof using ips inits.
  intros Hpos Hc Hlt Hnd.
  destruct (newRaftOrder_ok round_based_skip me pos c leaders Hpos Hc Hlt Hnd) as (o & E & HL & HG & HP & Hm).
  exists o. split_and!; [done..|]. intros g b Hl. unfold onReplicatingNewBlock. rewrite HG.
  destruct (Z.eqb_spec (groupId (nodeConfig c)) g) as [<-|]; [|done]. simpl.
  unfold raft_apply, find_node. rewrite HP. simpl.
  destruct (proj2 (Hm (groupId (nodeConfig c)))) as [f Hf]; [|by rewrite Hf].
  split; [|done]. rewrite Hl in HL. symmetry in HL. apply bool_decide_eq_true in HL.
  apply list_elem_of_fmap. exists pos. split; [|done]. unfold group_of. by rewrite Hc.
Qed.

(** In the steward order only the raft instance of group 0 is started, but
    every leader proposes the blocks of its own group: the first block of any
    other group makes its leader use an instance that does not exist. *)
Theorem steward_other_leader_dies me pos c leaders b :
  position me participants = Some pos → participants !! pos = Some c →
  Forall (λ l, l < length participants) leaders → NoDup (group_of <$> leaders) →
  pos ∈ leaders → groupId (nodeConfig c) ≠ 0%Z →
  ∃ o, newRaftOrder str2ip node_init steward_skip participants leaders me = Some o ∧
    isRaftLeader o = true ∧ onReplicatingNewBlock o (groupId (nodeConfig c)) b = None.
Proof using ips inits.
  intros Hpos Hc Hlt Hnd Hin Hne.
  destruct (newRaftOrder_ok steward_skip me pos c leaders Hpos Hc Hlt Hnd) as (o & E & HL & HG & HP & Hm).
  exists o. split_and!; [done|by rewrite HL, bool_decide_true|].
  unfold onReplicatingNewBlock. rewrite HG, Z.eqb_refl. simpl. unfold raft_apply, find_node. rewrite HP. simpl.
  destruct (multiRaft o !! _) as [f|] eqn:Ef; [|done].
  destruct (proj1 (Hm (groupId (nodeConfig c)))) as [_ Hs]; [by rewrite Ef|].
  unfold steward_skip in Hs. destruct (Z.eqb_spec (groupId (nodeConfig c)) 0); done.
Qed.
End groups.

Definition two_leaders : list InstanceConfig :=
  [mkInstance (mkNode 0 0 "s0" "a" "a") 51200; mkInstance (mkNode 0 1 "s1" "b" "b") 51200].
Definition sample_ip (s : string) : option Z := Some (Z.of_nat (String.length s)).

#[local] Existing Instance LE.zpp.

Lemma round_based_proposes_witness :
  ∃ o, newRaftOrder sample_ip (λ _, 0%Z) round_based_skip two_leaders [0; 1] (mkNode 0 1 "s1" "b" "b") = Some o ∧
    ∃ m, onReplicatingNewBlock o 1 7 = Some (Some m).
Proof.
  destruct (round_based_proposes sample_ip (λ _, 0%Z) two_leaders) with
    (me := mkNode 0 1 "s1" "b" "b") (pos := 1) (c := mkInstance (mkNode 0 1 "s1" "b" "b") 51200) (leaders := [0; 1])
    as (o & E & HL & Hp); [by eexists|done|done|done|repeat constructor|apply (bool_decide_eq_true_1 _); by vm_compute|].
  exists o. split; [exact E|]. eexists. apply (Hp 1%Z 7%Z). rewrite HL. by vm_compute.
Defined.

Lemma steward_other_leader_dies_witness :
  ∃ o, newRaftOrder sample_ip (λ _, 0%Z) steward_skip two_leaders [0; 1] (mkNode 0 1 "s1" "b" "b") = Some o ∧
    isRaftLeader o = true ∧ onReplicatingNewBlock o 1 7 = None.
Proof.
  apply (steward_other_leader_dies sample_ip (λ _, 0%Z) two_leaders) with
    (pos := 1) (c := mkInstance (mkNode 0 1 "s1" "b" "b") 51200);
    [by eexists|done|done|done|repeat constructor|apply (bool_decide_eq_true_1 _); by vm_compute|set_solver|done].
Defined.
