(* ===== verification/BaselineOrders.v ===== *)
(** * Baseline orders: GeoBFT, ISS, round-based and Steward

    The ordering services the repository compares with
    (include/peer/consensus/block_order/geobft, iss, round_based, steward).
    All four deliver to the peer through [onExecuteBlock].

    - GeoBFT has no raft: its thread [orderBlock] takes blocks from the content
      storage and executes a round when every group has it.
    - Round-based, ISS and Steward agree on their blocks by raft ([RaftFSM]);
      ISS lets a leader propose only blocks of the current epoch.

    A decision is a pair of [int]s, the group and the block.  The outcome of the
    [i]-th wait for the block is the parameter [received]. *)

From S2P Require Import Prelude Zpp Proto LRU Storage RoundBased RaftFSM OrderACB.

(** ** GeoBFT: [RaftLogValidator::orderBlock] *)

Definition newBlockList (groupCount : nat) : list Z := replicate groupCount (-1)%Z.

(** One block of the subscription: the new counters and the blocks executed. *)
Definition orderBlock (blockList : list Z) (region : nat) (number : Z) : option (list Z * list (nat * Z)) :=
  previousId ← blockList !! region;
  CHECK (previousId =? wrap32 number - 1)%Z ;;
  let previousId := (previousId + 1)%Z in
  let blockList := <[region := previousId]> blockList in
  if existsb (λ it, it <? previousId)%Z blockList then Some (blockList, [])
  else Some (blockList, (λ i, (i, previousId)) <$> seq 0 (length blockList)).

Fixpoint orderBlocks (blockList : list Z) (bs : list (nat * Z)) : option (list Z * list (nat * Z)) :=
  match bs with
  | [] => Some (blockList, [])
  | x :: bs =>
      r ← orderBlock blockList x.1 x.2;
      r' ← orderBlocks r.1 bs;
      Some (r'.1, r.2 ++ r'.2)
  end.

(** The loop on the storage's subscription: the blocks it has queued. *)
Fixpoint orderBlock_loop (fuel : nat) (s : Storage MRRegion) (id : nat) (blockList : list Z)
    : option (Storage MRRegion * list Z * list (nat * Z)) :=
  match fuel with
  | 0 => Some (s, blockList, [])
  | S fuel =>
      match subscriberWaitForBlock s id with
      | (s', (region, Some blk)) =>
          r ← orderBlock blockList (Z.to_nat region) (number (header blk));
          r' ← orderBlock_loop fuel s' id r.1;
          Some (r'.1.1, r'.1.2, r.2 ++ r'.2)
      | (s', (_, None)) => orderBlock_loop fuel s' id blockList
      end
  end.

(** ** Correctness of GeoBFT *)

Definition gcast (x : nat * nat) : nat * Z := (x.1, Z.of_nat x.2).

(** How many blocks of group [g] have arrived. *)
Definition arrived (bs : list (nat * Z)) (g : nat) : nat := length (List.filter (λ x, bool_decide (x.1 = g)) bs).

(** The blocks of every group arrive in order, from 0. *)
Inductive streams (n : nat) : list (nat * Z) → Prop :=
| streams_nil : streams n []
| streams_snoc bs g : streams n bs → g < n → (Z.of_nat (arrived bs g) < 2 ^ 31)%Z →
    streams n (bs ++ [(g, Z.of_nat (arrived bs g))]).

(** The number of complete rounds: the least number of blocks of a group. *)
Definition min_list (l : list nat) : nat :=
  match l with [] => 0 | x :: l => foldr Nat.min x l end.
Definition complete_rounds (n : nat) (bs : list (nat * Z)) : nat := min_list (arrived bs <$> seq 0 n).

Lemma min_list_spec l m :
  l ≠ [] → min_list l = m ↔ m ∈ l ∧ Forall (λ x, m ≤ x) l.
Proof.
  intros Hl. assert (H : min_list l ∈ l ∧ Forall (λ x, min_list l ≤ x) l).
  { destruct l as [|x l]; [done|]. clear Hl m. simpl. induction l as [|y l [IH1 IH2]]; simpl.
    - split; [by left|by constructor].
    - apply Forall_cons in IH2 as [IH2 IH3]. split.
      + destruct (Nat.min_dec y (foldr Nat.min x l)) as [->| ->]; [by right; left|].
        apply elem_of_cons in IH1 as [->|IH1]; [by left|by right; right].
      + constructor; [lia|]. constructor; [lia|]. eapply Forall_impl; [exact IH3|]. simpl. lia. }
  split; [by intros <-|]. intros [H1 H2]. destruct H as [H3 H4]. rewrite Forall_forall in *.
  apply Nat.le_antisymm; [by apply H4|by apply H2].
Qed.

Lemma arrived_snoc bs g g' x :
  arrived (bs ++ [(g, x)]) g' = if decide (g' = g) then S (arrived bs g') else arrived bs g'.
Proof.
  unfold arrived. rewrite List.filter_app, length_app. simpl.
  destruct (decide (g' = g)) as [->|Hne]; [rewrite bool_decide_true by done; simpl; lia|].
  rewrite bool_decide_false by congruence. simpl. lia.
Qed.

Lemma rounds_min n bs k :
  0 < n → complete_rounds n bs = k ↔
  (∃ g, g < n ∧ arrived bs g = k) ∧ ∀ g, g < n → k ≤ arrived bs g.
Proof.
  intros Hn. unfold complete_rounds. rewrite min_list_spec by (destruct n; [lia|done]).
  rewrite list_elem_of_fmap, Forall_fmap, Forall_forall. unfold compose.
  split; intros [(g & H1 & H2) H3].
  - split; [exists g; apply elem_of_seq in H2; split; [lia|done]|]. intros g' Hg'. apply H3, elem_of_seq. lia.
  - split; [exists g; split; [done|apply elem_of_seq; lia]|]. intros g' Hg'%elem_of_seq. apply H3. lia.
Qed.

Lemma orderBlocks_snoc bl bs x :
  orderBlocks bl (bs ++ [x]) =
  (r ← orderBlocks bl bs; r' ← orderBlock r.1 x.1 x.2; Some (r'.1, r.2 ++ r'.2)).
Proof.
  revert bl. induction bs as [|y bs IH]; intros bl; simpl.
  - destruct (orderBlock bl x.1 x.2) as [[bl' ex]|]; simpl; [by rewrite app_nil_r|done].
  - destruct (orderBlock bl y.1 y.2) as [[bl' ex]|]; simpl; [|done]. rewrite IH.
    destruct (orderBlocks bl' bs) as [[bl2 ex2]|]; simpl; [|done].
    destruct (orderBlock bl2 x.1 x.2) as [[bl3 ex3]|]; simpl; [by rewrite app_assoc|done].
Qed.

(** The counters are the arrivals, and the executed blocks the complete rounds. *)
Lemma orderBlocks_ok n bs :
  0 < n → streams n bs →
  orderBlocks (newBlockList n) bs =
  Some ((λ g, Z.of_nat (arrived bs g) - 1)%Z <$> seq 0 n, gcast <$> rounds n (complete_rounds n bs)).
Proof.
  intros Hn Hs. induction Hs as [|bs g Hs IH Hg Hmax].
  { simpl. f_equal. f_equal.
    - unfold newBlockList. change (λ g, Z.of_nat (arrived [] g) - 1)%Z with (λ _ : nat, (-1)%Z).
      by rewrite (const_fmap _ _ (-1)%Z), length_seq.
    - assert (complete_rounds n [] = 0) as ->; [|done]. apply rounds_min; [done|].
      split; [exists 0; split; [lia|done]|lia]. }
  rewrite orderBlocks_snoc, IH. cbn [mbind option_bind fst snd]. unfold orderBlock.
  rewrite list_lookup_fmap, lookup_seq_lt by done. cbn [fmap option_fmap option_map mbind option_bind].
  rewrite wrap32_id, Nat.add_0_l, Z.eqb_refl by (unfold in_int32; lia).
  set (a := arrived bs g) in *. replace (Z.of_nat a - 1 + 1)%Z with (Z.of_nat a) by lia.
  assert (Hbl : <[g := Z.of_nat a]> ((λ g, Z.of_nat (arrived bs g) - 1)%Z <$> seq 0 n) =
                (λ g', Z.of_nat (arrived (bs ++ [(g, Z.of_nat a)]) g') - 1)%Z <$> seq 0 n).
  { apply list_eq. intros i. destruct (decide (i < n)) as [Hi|Hi].
    - rewrite list_lookup_fmap, (lookup_seq_lt 0 n i Hi). simpl. rewrite arrived_snoc.
      destruct (decide (i = g)) as [->|Hne].
      + rewrite list_lookup_insert_eq by (rewrite length_fmap, length_seq; lia). f_equal. fold a. lia.
      + rewrite list_lookup_insert_ne, list_lookup_fmap, lookup_seq_lt by done. done.
    - rewrite !lookup_ge_None_2; [done|rewrite length_fmap, length_seq; lia
        |rewrite length_insert, length_fmap, length_seq; lia]. }
  rewrite Hbl. destruct (existsb _ _) eqn:Ex.
  - cbn [mbind option_bind fst snd]. rewrite app_nil_r. do 4 f_equal. symmetry.
    apply existsb_exists in Ex as (it & Hin & Hlt). apply list_elem_of_In, list_elem_of_fmap in Hin as (i & -> & Hi).
    apply elem_of_seq in Hi. apply Z.ltb_lt in Hlt. rewrite arrived_snoc in Hlt.
    pose proof (proj1 (rounds_min n bs _ Hn) eq_refl) as [(g0 & Hg0 & Hmin) Hall].
    apply rounds_min; [done|]. split;
      [|intros g' Hg'; rewrite arrived_snoc; destruct (decide (g' = g)); specialize (Hall g' Hg'); lia].
    destruct (decide (i = g)) as [->|Hne]; [fold a in Hlt; lia|].
    destruct (decide (g0 = g)) as [->|Hg0'].
    + exists i. split; [lia|]. rewrite arrived_snoc, decide_False by done. specialize (Hall i ltac:(lia)).
      fold a in Hmin. lia.
    + exists g0. split; [done|]. by rewrite arrived_snoc, decide_False.
  - cbn [mbind option_bind fst snd]. rewrite length_fmap, length_seq.
    assert (Hge : ∀ g', g' < n → g' ≠ g → a < arrived bs g').
    { intros g' Hg' Hne. apply not_true_iff_false in Ex. destruct (decide (a < arrived bs g')) as [|Hle]; [done|].
      destruct Ex. apply existsb_exists. exists (Z.of_nat (arrived bs g') - 1)%Z. split; [|apply Z.ltb_lt; lia].
      apply list_elem_of_In, list_elem_of_fmap. exists g'. rewrite arrived_snoc, decide_False by done.
      split; [done|]. apply elem_of_seq. lia. }
    assert (complete_rounds n bs = a) as ->.
    { apply rounds_min; [done|]. split; [by exists g|]. intros g' Hg'.
      destruct (decide (g' = g)) as [->|Hne]; [done|]. specialize (Hge g' Hg' Hne). lia. }
    assert (complete_rounds n (bs ++ [(g, Z.of_nat a)]) = S a) as ->.
    { apply rounds_min; [done|]. split; [exists g; by rewrite arrived_snoc, decide_True|]. intros g' Hg'.
      rewrite arrived_snoc. destruct (decide (g' = g)) as [->|Hd]; [fold a; lia|]. by apply Hge. }
    rewrite rounds_S, fmap_app. do 3 f_equal. by rewrite <-list_fmap_compose.
Qed.

(** What the storage queued, in the form of arrivals. *)
Definition arrivals (bs : list (nat * Block)) : list (nat * Z) := (λ x, (x.1, number (header x.2))) <$> bs.

Lemma idle_loop fuel s id bl : subscriberList s !! id = Some [] → orderBlock_loop fuel s id bl = Some (s, bl, []).
Proof.
  intros Hq. induction fuel as [|fuel IH]; [done|]. simpl. unfold subscriberWaitForBlock. by rewrite Hq.
Qed.

Lemma loop_queue fuel s id bl q bl' ex :
  subscriberList s !! id = Some q → length q ≤ fuel → orderBlocks bl (arrivals q) = Some (bl', ex) →
  ∃ s', orderBlock_loop fuel s id bl = Some (s', bl', ex).
Proof.
  revert s bl q ex. induction fuel as [|fuel IH]; intros s bl q ex Hq Hl Ho.
  { destruct q; [|simpl in Hl; lia]. simpl in *. simplify_eq. by exists s. }
  destruct q as [|x q]; [simpl in Ho; simplify_eq; exists s; by apply idle_loop|].
  cbn [orderBlock_loop]. unfold subscriberWaitForBlock. rewrite Hq. cbn [fst snd].
  unfold arrivals in Ho. csimpl in Ho. rewrite Nat2Z.id.
  destruct (orderBlock bl x.1 (number (header x.2))) as [[bl1 ex1]|]; [|done]. simpl in Ho |- *.
  destruct (orderBlocks bl1 _) as [[bl2 ex2]|] eqn:Eo; [|done]. simplify_eq/=.
  edestruct (IH (mkStorage (newBlockFutexList s) (<[id := q]> (subscriberList s)) (regions s)) bl1 q ex2)
    as (s' & ->); [|simpl in Hl; lia|done|by exists s'].
  simpl. by rewrite list_lookup_insert_eq by by eapply lookup_lt_Some.
Qed.

(** GeoBFT orders by rounds.  Whatever the interleaving in which the blocks of
    the groups reach the storage, each group's in order, the ordering thread
    never fails its [CHECK] and executes exactly the complete rounds, round by
    round and group by group; so any two nodes execute prefixes of one order. *)
Theorem geobft_rounds n (bs : list (nat * Block)) fuel :
  0 < n → streams n (arrivals bs) → length bs ≤ fuel →
  ∃ s s' bl, insert_all (newSubscriber (newStorage (mkMR 256 ∅) n)).1 bs = Some s ∧
    orderBlock_loop fuel s (newSubscriber (newStorage (mkMR 256 ∅) n)).2 (newBlockList n) =
    Some (s', bl, gcast <$> rounds n (complete_rounds n (arrivals bs))).
Proof.
  intros Hn Hs Hf.
  assert (Hok : storage_ok mr_ok (newStorage (mkMR 256 ∅) n)).
  { split; [unfold regionCount; simpl; by rewrite !length_replicate|]. by apply Forall_replicate. }
  destruct (subscriber_sees_all (newStorage (mkMR 256 ∅) n) bs Hok) as (s & E & Hq).
  { unfold regionCount. simpl. rewrite length_replicate. clear Hf.
    assert (Hlt : Forall (λ x : nat * Z, x.1 < n) (arrivals bs)).
    { induction Hs as [|bs' g Hs IH Hg _]; [done|]. apply Forall_app. split; [done|]. by constructor. }
    unfold arrivals in Hlt. by rewrite Forall_fmap in Hlt. }
  destruct (loop_queue fuel s _ (newBlockList n) bs _ _ Hq Hf (orderBlocks_ok n (arrivals bs) Hn Hs)) as (s' & El).
  eexists s, s', _. split; [exact E|exact El].
Qed.

(** ** Messages of the raft-based orders *)

Section raft_orders.
Context `{ZP : Zpp}.

Definition decision_codec : codec (Z * Z) := seq_codec c_i32 c_i32.

(** [waitUntilReceiveValidBlock], the same in the three orders: the first wait and
    up to five more. *)
Fixpoint wait_tries (received : nat → bool) (i k : nat) : bool :=
  if received i then true else match k with 0 => false | S k => wait_tries received (S i) k end.

Definition waitUntilReceiveValidBlock (received : Z → Z → nat → bool) (decision : string) : bool :=
  match read decision_codec decision with
  | None => false
  | Some (chainId, blockId) => wait_tries (received chainId blockId) 0 5
  end.

(** Pushing a decision into the round-based manager.  A negative group is an
    index out of range; a negative round is stored and never looked at. *)
Definition push_raw (rb : RB) (chainId blockId : Z) : option (RB * bool) :=
  if (chainId <? 0)%Z then None else
  if (blockId <? 0)%Z then
    if bool_decide (subChainCount rb ≤ Z.to_nat chainId) then Some (rb, false) else commit_and_return rb
  else rb_pushDecision rb (Z.to_nat chainId) (Z.to_nat blockId).

(** [RoundBasedCallback::applyRawBlockOrder]. *)
Definition rb_applyRawBlockOrder (rb : RB) (decision : string) : option (RB * bool) :=
  match read decision_codec decision with
  | None => Some (rb, false)
  | Some (chainId, blockId) => push_raw rb chainId blockId
  end.

(** [BlockOrder::voteNewBlock] of the round-based order: the value returned and
    the message for raft. *)
Definition rb_voteNewBlock (o : RaftOrder) (chainId blockId : Z) : option (bool * option string) :=
  if negb (isRaftLeader o) then Some (false, None) else
  if negb (localGroupId o =? chainId)%Z then Some (true, None) else
  m ← onReplicatingNewBlock o chainId blockId; Some (true, m).

(** Steward: the blocks of group 0 are executed in the order of the log. *)
Definition steward_applyRawBlockOrder (decision : string) : option (option (Z * Z)) :=
  match read decision_codec decision with
  | None => Some None
  | Some (chainId, blockId) => CHECK (chainId =? 0)%Z ;; Some (Some (chainId, blockId))
  end.

Definition steward_voteNewBlock (o : RaftOrder) (chainId blockId : Z) : option (bool * option string) :=
  if negb (isRaftLeader o) then Some (false, None) else
  m ← onReplicatingNewBlock o chainId blockId; Some (true, m).

(** A log of messages applied one after the other. *)
Fixpoint rb_apply_all (rb : RB) (ds : list string) : option RB :=
  match ds with
  | [] => Some rb
  | d :: ds => x ← rb_applyRawBlockOrder rb d; rb_apply_all x.1 ds
  end.

Context `{HZ : !ZppLaws ZP}.

Lemma decision_ok : codec_ok (λ x : Z * Z, in_int32 x.1 ∧ in_int32 x.2) decision_codec.
Proof using HZ. apply (seq_codec_ok in_int32 in_int32); apply i32_law. Qed.

Definition decision_of (x : nat * nat) : string := out decision_codec (Z.of_nat x.1, Z.of_nat x.2).
Definition decision_fits (x : nat * nat) : Prop := (Z.of_nat x.1 < 2 ^ 31 ∧ Z.of_nat x.2 < 2 ^ 31)%Z.

Lemma decision_read x : decision_fits x → read decision_codec (decision_of x) = Some (Z.of_nat x.1, Z.of_nat x.2).
Proof using HZ. intros [H1 H2]. apply (read_out _ _ _ decision_ok). unfold in_int32. simpl. lia. Qed.

Lemma push_raw_nat rb (x : nat * nat) : push_raw rb (Z.of_nat x.1) (Z.of_nat x.2) = rb_pushDecision rb x.1 x.2.
Proof.
  unfold push_raw. destruct (Z.ltb_spec (Z.of_nat x.1) 0); [lia|]. destruct (Z.ltb_spec (Z.of_nat x.2) 0); [lia|].
  by rewrite !Nat2Z.id.
Qed.

Lemma rb_apply_messages rb ds :
  Forall decision_fits ds → rb_apply_all rb (decision_of <$> ds) = rb_run rb ds.
Proof using HZ.
  intros H. revert rb. induction H as [|x ds Hx _ IH]; intros rb; [done|]. csimpl.
  unfold rb_applyRawBlockOrder. rewrite decision_read, push_raw_nat by done.
  destruct (rb_pushDecision rb x.1 x.2) as [[rb' b]|]; simpl; [apply IH|done].
Qed.
End raft_orders.

(** ** Witness *)

Definition geo_blocks : list (nat * Block) :=
  [(1, numbered 0); (0, numbered 0); (0, numbered 1); (0, numbered 2); (1, numbered 1)].

Lemma geobft_rounds_witness :
  ∃ s s' bl, insert_all (newSubscriber (newStorage (mkMR 256 ∅) 2)).1 geo_blocks = Some s ∧
    orderBlock_loop 9 s 0 (newBlockList 2) = Some (s', bl, [(0, 0%Z); (1, 0%Z); (0, 1%Z); (1, 1%Z)]).
Proof.
  destruct (geobft_rounds 2 geo_blocks 9) as (s & s' & bl & E1 & E2); [lia| |simpl; lia|].
  - change (arrivals geo_blocks) with (((((([] ++ [(1, 0%Z)]) ++ [(0, 0%Z)]) ++ [(0, 1%Z)]) ++ [(0, 2%Z)]) ++ [(1, 1%Z)])).
    repeat (apply (streams_snoc 2); [|lia|by vm_compute]). constructor.
  - by exists s, s', bl.
Defined.
