(* ===== verification/ISS.v ===== *)
(** * ISS: epochs

    [EpochManager], [ISSCallback] and [BlockOrder] of
    include/peer/consensus/block_order/iss/iss_block_order.h.  A leader proposes
    its blocks in order, and only those of the current epoch; an epoch ends when
    every block of it has been received from every group.  The received groups of
    a block number are kept in an LRU cache of the default size (64, with an
    elasticity of 10).  [getRef] hands out a reference that is written through;
    the node it points to is at the front of the cache, where [lru_insert] of the
    same key writes.  Block and epoch numbers are integers without bound. *)

From S2P Require Import Prelude Zpp Proto LRU Storage RoundBased RaftFSM OrderACB BaselineOrders.

Abbreviation Bucket := (LRUCache Z (gset Z)).

(** ** EpochManager *)

Record EpochManager := mkEM {
  _epochLength : Z; _groupCount : Z; _currentEpoch : Z; _bucket : Bucket
}.

Definition newEpochManager (epochLength groupCount : Z) : EpochManager :=
  mkEM epochLength groupCount 0 (newLRU 64 10).

(** The condition [waitUntilCanPropose] waits for. *)
Definition canPropose (em : EpochManager) (blockNumber : Z) : bool :=
  negb (_epochLength em * (_currentEpoch em + 1) <=? blockNumber)%Z.

(** The loop of [checkEpoch]: [k] block numbers from [i]. *)
Fixpoint check_blocks (groupCount : Z) (c : Bucket) (i : Z) (k : nat) : option (Bucket * bool) :=
  match k with
  | 0 => Some (c, true)
  | S k =>
      if negb (lru_contains c i) then Some (c, false) else
      x ← getCopy c i;
      if (Z.of_nat (size (x.2 : gset Z)) <? groupCount)%Z then Some (x.1, false)
      else check_blocks groupCount x.1 (i + 1) k
  end.

Definition checkEpoch (em : EpochManager) (c : Bucket) (epochNumber : Z) : option (Bucket * bool) :=
  check_blocks (_groupCount em) c (_epochLength em * epochNumber) (Z.to_nat (_epochLength em)).

(** The [while] of [receivedBlock]. *)
Fixpoint advance (fuel : nat) (em : EpochManager) : option EpochManager :=
  match fuel with
  | 0 => None
  | S fuel =>
      x ← checkEpoch em (_bucket em) (_currentEpoch em);
      let em' e := mkEM (_epochLength em) (_groupCount em) e x.1 in
      if (x.2 : bool) then advance fuel (em' (_currentEpoch em + 1)%Z) else Some (em' (_currentEpoch em))
  end.

Definition receivedBlock (em : EpochManager) (chainId blockId : Z) : option EpochManager :=
  c1 ← (if lru_contains (_bucket em) blockId then Some (_bucket em) else lru_insert (_bucket em) blockId ∅);
  x ← getCopy c1 blockId;
  c2 ← lru_insert x.1 blockId ({[chainId]} ∪ x.2);
  advance (S (size (cache_ c2))) (mkEM (_epochLength em) (_groupCount em) (_currentEpoch em) c2).

Fixpoint receive_all (em : EpochManager) (ds : list (Z * Z)) : option EpochManager :=
  match ds with
  | [] => Some em
  | d :: ds => em' ← receivedBlock em d.1 d.2; receive_all em' ds
  end.

(** ** ISSCallback *)

Record ISSCallback := mkISS { _epochManager : EpochManager; _orderManager : RB }.

(** [init]: five rounds per epoch. *)
Definition newISS (groupCount : nat) : ISSCallback :=
  mkISS (newEpochManager 5 (Z.of_nat groupCount)) (setSubChainCount groupCount).

Definition iss_applyRawBlockOrder `{!Zpp} (cb : ISSCallback) (decision : string) : option (ISSCallback * bool) :=
  match read decision_codec decision with
  | None => Some (cb, false)
  | Some (chainId, blockId) =>
      em ← receivedBlock (_epochManager cb) chainId blockId;
      x ← push_raw (_orderManager cb) chainId blockId;
      Some (mkISS em x.1, x.2)
  end.

(** ** BlockOrder: the leader *)

Record ISSLeader := mkISSLeader { iss_isRaftLeader : bool; iss_groupId : Z; lastBlockId : Z }.

(** The calls of [voteNewBlockInner] of [voteNewBlock], which proposes the blocks
    it has skipped; each waits until it may propose. *)
Definition iss_proposals (ld : ISSLeader) (blockId : Z) : list Z :=
  (λ i, lastBlockId ld + 1 + Z.of_nat i)%Z <$> seq 0 (Z.to_nat (blockId - lastBlockId ld)).

Definition iss_voteNewBlock (ld : ISSLeader) (chainId blockId : Z) : ISSLeader * bool * list Z :=
  if negb (iss_isRaftLeader ld) then (ld, false, []) else
  if negb (iss_groupId ld =? chainId)%Z then (ld, true, []) else
  (mkISSLeader true (iss_groupId ld) (Z.max (lastBlockId ld) blockId), true, iss_proposals ld blockId).

Fixpoint iss_votes (ld : ISSLeader) (calls : list (Z * Z)) : ISSLeader * list Z :=
  match calls with
  | [] => (ld, [])
  | c :: calls =>
      let '(ld1, _, ps) := iss_voteNewBlock ld c.1 c.2 in
      let '(ld2, qs) := iss_votes ld1 calls in (ld2, ps ++ qs)
  end.

(** A leader, whatever blocks it is called with and in whatever order, proposes
    the blocks of its group one by one: 0, 1, 2, ... *)
Lemma iss_votes_consecutive ld calls :
  iss_isRaftLeader ld = true →
  (iss_votes ld calls).2 =
  (λ i, lastBlockId ld + 1 + Z.of_nat i)%Z <$>
    seq 0 (Z.to_nat (lastBlockId (iss_votes ld calls).1 - lastBlockId ld)) ∧
  (lastBlockId ld ≤ lastBlockId (iss_votes ld calls).1)%Z.
Proof.
  revert ld. induction calls as [|[c b] calls IH]; intros ld Hl; simpl; [by rewrite Z.sub_diag|].
  unfold iss_voteNewBlock. rewrite Hl. simpl. destruct (iss_groupId ld =? c)%Z; simpl.
  2: { destruct (IH ld Hl) as [H1 H2]. destruct (iss_votes ld calls) as [ld2 qs]. done. }
  set (ld1 := mkISSLeader true (iss_groupId ld) (Z.max (lastBlockId ld) b)).
  destruct (IH ld1 eq_refl) as [H1 H2]. destruct (iss_votes ld1 calls) as [ld2 qs]. simpl in *.
  split; [|lia]. rewrite H1. unfold iss_proposals.
  replace (Z.to_nat (lastBlockId ld2 - lastBlockId ld)) with
    (Z.to_nat (b - lastBlockId ld) + Z.to_nat (lastBlockId ld2 - Z.max (lastBlockId ld) b)) by lia.
  rewrite seq_app, fmap_app. f_equal. rewrite Nat.add_0_l.
  rewrite <-(Nat.add_0_r (Z.to_nat (b - lastBlockId ld))) at 1. rewrite <-fmap_add_seq, <-list_fmap_compose.
  apply list_fmap_ext. intros i x _. simpl. lia.
Qed.

(** ** The bucket *)

(** The groups a block number has been received from. *)
Definition received_from (ds : list (Z * Z)) (b : Z) : gset Z :=
  list_to_set (fst <$> filter (λ d : Z * Z, d.2 = b) ds).

Lemma received_from_in ds b g : g ∈ received_from ds b ↔ (g, b) ∈ ds.
Proof.
  unfold received_from. rewrite elem_of_list_to_set, list_elem_of_fmap. split.
  - intros ([g' b'] & -> & [? ?]%list_elem_of_filter). simpl in *. by subst.
  - intros H. exists (g, b). split; [done|]. by apply list_elem_of_filter.
Qed.

(** The cache holds only what was received. *)
Definition bucket_sound (ds : list (Z * Z)) (c : Bucket) : Prop :=
  lru_ok c ∧ maxSize_ c = 64 ∧ elasticity_ c = 10 ∧ ∀ k v, (k, v) ∈ keys_ c → v ⊆ received_from ds k.

(** [getCopy] moves a node and changes nothing else. *)
Lemma getCopy_spec (c c' : Bucket) k v :
  lru_ok c → getCopy c k = Some (c', v) →
  lru_ok c' ∧ (k, v) ∈ keys_ c ∧ cache_ c' = cache_ c ∧ maxSize_ c' = maxSize_ c ∧
  elasticity_ c' = elasticity_ c ∧ ∀ x, x ∈ keys_ c' ↔ x ∈ keys_ c.
Proof.
  intros Hok. unfold getCopy, tryGetCopy. case_bool_decide as Hk; [|done].
  destruct (node (keys_ c) k) as [w|] eqn:En; [|done]. intros [= <- <-].
  pose proof (node_in _ _ _ En) as Hin. split_and!; try done; [by apply touch_node_ok|].
  intros [k' v']. simpl. rewrite elem_of_cons, unlink_ne by apply lru_nodup, Hok.
  destruct (decide (k' = k)) as [->|Hne]; [|naive_solver].
  split; [intros [[= ->]|[_ ?]]; done|]. intros H. left.
  pose proof (node_unique _ _ _ (lru_nodup _ Hok) H). by simplify_eq.
Qed.

Lemma getCopy_contains (c : Bucket) k : lru_ok c → lru_contains c k = true → is_Some (getCopy c k).
Proof.
  intros Hok Hc%bool_decide_eq_true. unfold getCopy, tryGetCopy. rewrite bool_decide_true by done.
  apply (lru_in c k Hok) in Hc. destruct (node_Some _ _ Hc) as [v ->]. by eexists.
Qed.

(** What the check of an epoch leaves and says. *)
Lemma check_blocks_spec gc c i k :
  lru_ok c →
  ∃ c' r, check_blocks gc c i k = Some (c', r) ∧ lru_ok c' ∧ cache_ c' = cache_ c ∧
    maxSize_ c' = maxSize_ c ∧ elasticity_ c' = elasticity_ c ∧ (∀ x, x ∈ keys_ c' ↔ x ∈ keys_ c) ∧
    (r = true ↔ ∀ j, (i ≤ j < i + Z.of_nat k)%Z → ∃ v, (j, v) ∈ keys_ c ∧ (gc ≤ Z.of_nat (size v))%Z).
Proof.
  revert c i. induction k as [|k IH]; intros c i Hok; cbn [check_blocks].
  { exists c, true. split_and!; try done. split; [intros _ j Hj; lia|done]. }
  destruct (lru_contains c i) eqn:Hc; simpl.
  2: { exists c, false. split_and!; try done. split; [done|]. intros H.
       destruct (H i) as (v & Hv & _); [lia|]. apply bool_decide_eq_false in Hc. destruct Hc.
       apply (lru_in c i Hok), list_elem_of_fmap. by exists (i, v). }
  destruct (getCopy_contains c i Hok Hc) as [[c1 v] Eg]. rewrite Eg. cbn [mbind option_bind fst snd].
  destruct (getCopy_spec c c1 i v Hok Eg) as (Hok1 & Hin & Hcache & Hm & He & Hk).
  destruct (Z.ltb_spec (Z.of_nat (size v)) gc) as [Hlt|Hge].
  - exists c1, false. split_and!; try done. split; [done|]. intros H.
    destruct (H i) as (v' & Hv' & Hsz); [lia|].
    pose proof (node_unique _ _ _ (lru_nodup _ Hok) Hv') as N1.
    pose proof (node_unique _ _ _ (lru_nodup _ Hok) Hin) as N2. simplify_eq. lia.
  - destruct (IH c1 (i + 1)%Z Hok1) as (c' & r & -> & Hok' & Hcache' & Hm' & He' & Hk' & Hr).
    exists c', r. split_and!; try congruence; [intros x; by rewrite Hk', Hk|].
    rewrite Hr. split; intros H j Hj.
    + destruct (decide (j = i)) as [->|Hne]; [by exists v|].
      destruct (H j) as (w & Hw & ?); [lia|]. exists w. by rewrite <-Hk.
    + destruct (H j) as (w & Hw & ?); [lia|]. exists w. by rewrite Hk.
Qed.

(** ** Epochs *)

Section epochs.
Context (len gc : Z) (len_pos : (0 < len)%Z).

(** Every block number of the epoch is in the cache with enough groups. *)
Definition epoch_full (l : list (Z * gset Z)) (e : Z) : Prop :=
  ∀ j, (len * e ≤ j < len * e + len)%Z → ∃ v, (j, v) ∈ l ∧ (gc ≤ Z.of_nat (size v))%Z.

(** Every block of the epoch has been received from every group. *)
Definition epoch_complete (ds : list (Z * Z)) (e : Z) : Prop :=
  ∀ j g, (len * e ≤ j < len * e + len)%Z → (0 ≤ g < gc)%Z → (g, j) ∈ ds.

(** Block numbers of the cache at or after an epoch: what the loop runs over. *)
Definition ahead (c : Bucket) (e : Z) : gset Z := filter (λ k, (len * e ≤ k)%Z) (cache_ c).

Lemma ahead_shrinks c e :
  (len * e)%Z ∈ cache_ c → size (ahead c (e + 1)) < size (ahead c e).
Proof using len_pos.
  intros Hin. apply subset_size. unfold ahead. split.
  - intros k. rewrite !elem_of_filter. intros [H1 H2]. split; [lia|done].
  - intros Hsub. assert (H : (len * e)%Z ∈ filter (λ k, (len * (e + 1) ≤ k)%Z) (cache_ c)).
    { apply Hsub, elem_of_filter. split; [lia|done]. }
    apply elem_of_filter in H as [H _]. lia.
Qed.

Lemma advance_spec fuel e c :
  lru_ok c → size (ahead c e) < fuel →
  ∃ e' c', advance fuel (mkEM len gc e c) = Some (mkEM len gc e' c') ∧
    lru_ok c' ∧ maxSize_ c' = maxSize_ c ∧ elasticity_ c' = elasticity_ c ∧ cache_ c' = cache_ c ∧
    (∀ x, x ∈ keys_ c' ↔ x ∈ keys_ c) ∧ (e ≤ e')%Z ∧
    (∀ i, (e ≤ i < e')%Z → epoch_full (keys_ c) i) ∧ ¬ epoch_full (keys_ c) e'.
Proof using len_pos.
  revert e c. induction fuel as [|fuel IH]; intros e c Hok Hf; [lia|]. cbn [advance].
  unfold checkEpoch. cbn [_groupCount _epochLength _bucket _currentEpoch].
  destruct (check_blocks_spec gc c (len * e) (Z.to_nat len) Hok)
    as (c1 & r & -> & Hok1 & Hc1 & Hm1 & He1 & Hk1 & Hr). cbn [mbind option_bind fst snd].
  rewrite Z2Nat.id in Hr by lia. destruct r.
  - pose proof (proj1 Hr eq_refl : epoch_full (keys_ c) e) as Hfull.
    assert (Hin : (len * e)%Z ∈ cache_ c).
    { destruct (Hfull (len * e)%Z) as (v & Hv & _); [lia|]. apply (lru_in c _ Hok), list_elem_of_fmap.
      by exists ((len * e)%Z, v). }
    destruct (IH (e + 1)%Z c1 Hok1) as (e' & c' & E & H1 & H2 & H3 & H4 & H5 & H6 & H7 & H8).
    { pose proof (ahead_shrinks c e Hin) as Hs. unfold ahead in *. rewrite Hc1. lia. }
    exists e', c'. split; [exact E|]. split_and!; try congruence; [intros x; by rewrite H5, Hk1|lia| |].
    + intros i Hi. destruct (decide (i = e)) as [->|Hne]; [done|]. intros j Hj.
      destruct (H7 i ltac:(lia) j Hj) as (v & Hv & ?). exists v. by rewrite <-Hk1.
    + intros Hfull'. apply H8. intros j Hj. destruct (Hfull' j Hj) as (v & Hv & ?). exists v. by rewrite Hk1.
  - exists e, c1. split; [done|]. split_and!; try done; [intros i Hi; lia|].
    intros Hfull. by apply (proj2 Hr) in Hfull.
Qed.

Definition em_ok (ds : list (Z * Z)) (em : EpochManager) : Prop :=
  _epochLength em = len ∧ _groupCount em = gc ∧ (0 ≤ _currentEpoch em)%Z ∧ bucket_sound ds (_bucket em) ∧
  ∀ e, (0 ≤ e < _currentEpoch em)%Z → epoch_complete ds e.

Lemma full_complete ds l e :
  (∀ d, d ∈ ds → 0 ≤ d.1 < gc)%Z → (∀ k v, (k, v) ∈ l → v ⊆ received_from ds k) →
  epoch_full l e → epoch_complete ds e.
Proof.
  intros Hr Hs Hf j g Hj Hg. destruct (Hf j Hj) as (v & Hv & Hsz).
  set (all := list_to_set (Z.of_nat <$> seq 0 (Z.to_nat gc)) : gset Z).
  assert (Hsub : v ⊆ all).
  { intros x Hx%(Hs _ _ Hv). apply received_from_in, Hr in Hx. simpl in Hx.
    apply elem_of_list_to_set, list_elem_of_fmap. exists (Z.to_nat x). rewrite Z2Nat.id, elem_of_seq by lia. lia. }
  assert (v = all) as ->.
  { apply set_subseteq_size_eq; [done|]. unfold all.
    rewrite size_list_to_set, length_fmap, length_seq by (apply NoDup_fmap_2; [apply _|apply NoDup_seq]). lia. }
  apply received_from_in, (Hs _ _ Hv), elem_of_list_to_set, list_elem_of_fmap.
  exists (Z.to_nat g). rewrite Z2Nat.id, elem_of_seq by lia. lia.
Qed.

Lemma received_from_mono ds d b : received_from ds b ⊆ received_from (ds ++ [d]) b.
Proof. intros g. rewrite !received_from_in, elem_of_app. by left. Qed.

(** Inserting what was received keeps the cache sound. *)
Lemma insert_sound ds (c : Bucket) b v :
  bucket_sound ds c → v ⊆ received_from ds b →
  ∃ c', lru_insert c b v = Some c' ∧ bucket_sound ds c' ∧ (b, v) ∈ keys_ c'.
Proof.
  intros (Hok & Hm & He & Hs) Hv.
  destruct (lru_insert_keys c b v Hok) as (c' & E & Hok' & Hm' & He' & Hk). cbn zeta in Hk.
  exists c'. split; [done|]. split.
  - split_and!; [done|congruence..|]. intros k w Hin.
    assert (Hin2 : (k, w) ∈ (b, v) :: unlink (keys_ c) b).
    { rewrite Hk in Hin. destruct (decide _); [done|]. apply list_elem_of_lookup in Hin as [i Hi].
      apply lookup_take_Some in Hi as [Hi _]. by eapply list_elem_of_lookup_2. }
    apply elem_of_cons in Hin2 as [[= -> ->]|Hin2]; [done|]. by apply Hs, (unlink_sub _ b).
  - rewrite Hk. destruct (decide _); [by left|]. rewrite Hm. simpl. by left.
Qed.

Lemma bucket_sound_mono ds d c : bucket_sound ds c → bucket_sound (ds ++ [d]) c.
Proof.
  intros (H1 & H2 & H3 & H4). split_and!; [done..|]. intros k v Hv. etrans; [by apply H4|apply received_from_mono].
Qed.

Lemma receivedBlock_ok ds em g b :
  (∀ d, d ∈ ds ++ [(g, b)] → 0 ≤ d.1 < gc)%Z → em_ok ds em →
  ∃ em', receivedBlock em g b = Some em' ∧ em_ok (ds ++ [(g, b)]) em'.
Proof using len_pos.
  intros Hr (Hlen & Hgc & Hcur & Hb & Hdone). unfold receivedBlock.
  assert (∃ c1, (if lru_contains (_bucket em) b then Some (_bucket em) else lru_insert (_bucket em) b ∅) = Some c1 ∧
            bucket_sound ds c1 ∧ lru_contains c1 b = true) as (c1 & E1 & Hb1 & Hc1).
  { destruct (lru_contains (_bucket em) b) eqn:Hc; [by eexists|].
    destruct (insert_sound ds (_bucket em) b ∅ Hb) as (c1 & E & Hb1 & Hin); [set_solver|].
    exists c1. split_and!; [done..|]. apply bool_decide_true, lru_in; [apply Hb1|].
    apply list_elem_of_fmap. by exists (b, ∅). }
  rewrite E1. cbn [mbind option_bind]. pose proof Hb1 as (Hok1 & Hm1 & He1 & Hs1).
  destruct (getCopy_contains c1 b Hok1 Hc1) as [[c2 v] Eg]. rewrite Eg. cbn [mbind option_bind fst snd].
  destruct (getCopy_spec c1 c2 b v Hok1 Eg) as (Hok2 & Hin & _ & Hm2 & He2 & Hk2).
  destruct (insert_sound (ds ++ [(g, b)]) c2 b ({[g]} ∪ v)) as (c3 & -> & Hb3 & _).
  { split_and!; [done|congruence..|]. intros k w Hw%Hk2. etrans; [by apply Hs1|apply received_from_mono]. }
  { apply union_subseteq. split.
    - apply singleton_subseteq_l, received_from_in. set_solver.
    - etrans; [by apply (Hs1 b v)|apply received_from_mono]. }
  cbn [mbind option_bind]. rewrite Hlen, Hgc. pose proof Hb3 as (Hok3 & Hm3 & He3 & Hs3).
  destruct (advance_spec (S (size (cache_ c3))) (_currentEpoch em) c3 Hok3) as
    (e' & c' & -> & Hok' & Hm' & He' & _ & Hk' & Hle & Hfull & _).
  { apply Nat.lt_succ_r, subseteq_size. intros k. unfold ahead. rewrite elem_of_filter. tauto. }
  eexists. split; [done|]. split_and!; try done; [simpl; lia| |].
  - split_and!; [done|simpl; congruence..|]. intros k w Hw%Hk'. by apply Hs3.
  - cbn [_currentEpoch]. intros e He. destruct (decide (e < _currentEpoch em)%Z).
    + intros j g' Hj Hg'. apply elem_of_app. left. by apply (Hdone e); [lia|..].
    + apply (full_complete _ (keys_ c3)); [done|done|]. apply Hfull. lia.
Qed.

Lemma receive_all_ok ds0 em ds :
  (∀ d, d ∈ ds0 ++ ds → 0 ≤ d.1 < gc)%Z → em_ok ds0 em →
  ∃ em', receive_all em ds = Some em' ∧ em_ok (ds0 ++ ds) em'.
Proof using len_pos.
  revert ds0 em. induction ds as [|[g b] ds IH]; intros ds0 em Hr Hem; simpl.
  { exists em. by rewrite app_nil_r. }
  destruct (receivedBlock_ok ds0 em g b) as (em1 & -> & Hem1); [intros d Hd; apply Hr; set_solver|done|].
  simpl. destruct (IH (ds0 ++ [(g, b)]) em1) as (em' & -> & Hem'); [by rewrite <-app_assoc|done|].
  exists em'. split; [done|]. by rewrite <-app_assoc in Hem'.
Qed.

Lemma newEpochManager_ok : em_ok [] (newEpochManager len gc).
Proof.
  split_and!; try done; simpl; [|intros; lia].
  split_and!; try done; [split; [constructor|done]|]. simpl. intros k v H. by apply elem_of_nil in H.
Qed.
End epochs.

(** ** The order as a whole *)

Fixpoint iss_apply_all `{!Zpp} (cb : ISSCallback) (ds : list string) : option ISSCallback :=
  match ds with
  | [] => Some cb
  | d :: ds => x ← iss_applyRawBlockOrder cb d; iss_apply_all x.1 ds
  end.

Definition zpair (x : nat * nat) : Z * Z := (Z.of_nat x.1, Z.of_nat x.2).

(** Applying messages is applying the decisions to both managers. *)
Lemma iss_apply_messages `{ZP : Zpp} `{HZ : !ZppLaws ZP} em rb ds em' rb' :
  Forall decision_fits ds → receive_all em (zpair <$> ds) = Some em' → rb_run rb ds = Some rb' →
  iss_apply_all (mkISS em rb) (decision_of <$> ds) = Some (mkISS em' rb').
Proof.
  intros H. revert em rb. induction H as [|x ds Hx _ IH]; intros em rb; csimpl; [by intros [= <-] [= <-]|].
  unfold iss_applyRawBlockOrder. rewrite decision_read by done. cbn [_epochManager _orderManager].
  destruct (receivedBlock em _ _) as [em1|]; [|done]. cbn [mbind option_bind]. rewrite push_raw_nat.
  destruct (rb_pushDecision rb x.1 x.2) as [[rb1 b]|]; [|done]. cbn [mbind option_bind fst]. apply IH.
Qed.

Lemma incomplete_round n ds k : ¬ complete n ds k → ∃ g, g < n ∧ (g, k) ∉ ds.
Proof.
  intros H. destruct (decide (Exists (λ g, (g, k) ∉ ds) (seq 0 n))) as [E|E].
  - apply Exists_exists in E as (g & Hg%elem_of_seq & Hd). exists g. split; [lia|done].
  - destruct H. intros g Hg. apply dec_stable. intros Hd. apply E, Exists_exists. exists g. split; [|done].
    apply elem_of_seq. lia.
Qed.

(** C23: ISS orders by rounds and keeps proposals inside the epoch.  Whatever the order
    in which the decisions of [n] groups arrive, every call returns.  The blocks
    delivered are those of the rounds below [k], round by round and group by
    group, where [k] is the first round of which some group's block has not
    arrived.  A block may be proposed only when every block of every earlier
    epoch has arrived from every group, and those blocks have been delivered. *)
Theorem iss_epochs_safe `{ZP : Zpp} `{HZ : !ZppLaws ZP} n ds :
  0 < n → Forall decision_fits ds → Forall (λ d, d.1 < n) ds →
  ∃ cb k, iss_apply_all (newISS n) (decision_of <$> ds) = Some cb ∧
    (∀ r g, r < k → g < n → (g, r) ∈ ds) ∧ (∃ g, g < n ∧ (g, k) ∉ ds) ∧
    rb_delivered (_orderManager cb) = (r ← seq 0 k; (λ g, (g, r)) <$> seq 0 n) ∧
    ∀ b, (0 ≤ b)%Z → canPropose (_epochManager cb) b = true →
      (∀ g j, g < n → (Z.of_nat j < 5 * (b / 5))%Z → (g, j) ∈ ds) ∧ (5 * (b / 5) ≤ Z.of_nat k)%Z.
Proof.
  intros Hn Hfit Hds.
  destruct (receive_all_ok 5 (Z.of_nat n) ltac:(lia) [] (newEpochManager 5 (Z.of_nat n)) (zpair <$> ds))
    as (em & Eem & (Hlen & Hgc & Hcur & _ & Hdone)).
  { intros d (x & -> & Hx)%list_elem_of_fmap. rewrite Forall_forall in Hds. specialize (Hds x Hx). simpl. lia. }
  { apply newEpochManager_ok. }
  destruct (rb_run_ok n (setSubChainCount n) [] ds Hn) as (rb & Erb & Hrb & Hq);
    [apply setSubChainCount_ok|intros Hc; by apply (not_elem_of_nil (0, 0)), (Hc 0)|done|].
  simpl in *. exists (mkISS em rb), (committed rb). split; [by eapply iss_apply_messages|].
  split; [intros r g Hr Hg; by apply Hrb|]. split; [by apply incomplete_round|]. split; [apply Hrb|].
  intros b Hb Hp. cbn [_epochManager _orderManager] in *. unfold canPropose in Hp. rewrite Hlen in Hp.
  apply negb_true_iff, Z.leb_gt in Hp.
  assert (Hall : ∀ g j, g < n → (Z.of_nat j < 5 * (b / 5))%Z → (g, j) ∈ ds).
  { intros g j Hg Hj. assert (He : (0 ≤ Z.of_nat j / 5 < _currentEpoch em)%Z).
    { split; [apply Z.div_pos; lia|]. apply Z.div_lt_upper_bound; [lia|].
      assert (b / 5 < _currentEpoch em + 1)%Z by (apply Z.div_lt_upper_bound; lia). lia. }
    assert (Hin : zpair (g, j) ∈ zpair <$> ds).
    { change (zpair (g, j)) with (Z.of_nat g, Z.of_nat j). apply (Hdone _ He); [|lia]. pose proof (Z.div_mod (Z.of_nat j) 5 ltac:(lia)).
      pose proof (Z.mod_pos_bound (Z.of_nat j) 5 ltac:(lia)). lia. }
    apply list_elem_of_fmap in Hin as ([g' j'] & [= E1 E2] & Hin).
    apply Nat2Z.inj in E1, E2. by subst. }
  split; [exact Hall|]. destruct (Z.le_gt_cases (5 * (b / 5)) (Z.of_nat (committed rb))) as [|Hlt]; [done|].
  destruct Hq. intros i Hi. by apply Hall.
Qed.

(** A group that is 74 blocks ahead of another at one node fills the cache: the
    blocks of the current epoch are evicted, the epoch never ends although all
    its blocks arrive, and a leader at this node proposes nothing more; with 73
    the epochs go on. *)
Definition lagging (n : nat) : list (Z * Z) :=
  ((λ i, (0%Z, Z.of_nat i)) <$> seq 0 n) ++ ((λ i, (1%Z, Z.of_nat i)) <$> seq 0 n).

Theorem epoch_lost :
  _currentEpoch <$> receive_all (newEpochManager 5 2) (lagging 73) = Some 14%Z ∧
  _currentEpoch <$> receive_all (newEpochManager 5 2) (lagging 74) = Some 0%Z ∧
  (λ em, canPropose em 5) <$> receive_all (newEpochManager 5 2) (lagging 74) = Some false.
Proof. split_and!; by vm_compute. Qed.

#[local] Existing Instance LE.zpp.
#[local] Existing Instance LE.zpp_laws.

Definition iss_arrivals : list (nat * nat) := [(1, 0); (0, 0); (0, 1); (1, 2); (1, 1); (0, 2); (0, 3); (1, 3); (1, 4); (0, 4)].

Lemma iss_epochs_safe_witness :
  ∃ cb k, iss_apply_all (newISS 2) (decision_of <$> iss_arrivals) = Some cb ∧ (∃ g, g < 2 ∧ (g, k) ∉ iss_arrivals) ∧
    rb_delivered (_orderManager cb) = (r ← seq 0 k; (λ g, (g, r)) <$> seq 0 2) ∧ (1, 4) ∈ iss_arrivals.
Proof.
  destruct (iss_epochs_safe 2 iss_arrivals) as (cb & k & E & _ & Hk & Hr & Hp);
    [lia|repeat constructor; unfold decision_fits; simpl; lia|repeat constructor; simpl; lia|].
  exists cb, k. split; [exact E|]. split; [exact Hk|]. split; [exact Hr|].
  assert (Hc : (λ c, canPropose (_epochManager c) 7) <$> iss_apply_all (newISS 2) (decision_of <$> iss_arrivals) = Some true)
    by by vm_compute.
  rewrite E in Hc. simpl in Hc. injection Hc as Hc.
  apply (proj1 (Hp 7%Z ltac:(lia) Hc)); [lia|done].
Defined.
