(* ===== verification/ZmqPorts.v ===== *)
(** * ZmqPorts: the port numbers of a deployment

    [PortCalculator] and [ZMQPortUtil] (common/zmq_port_util.h and .cpp): every
    node computes, from the number of nodes of each group and the lowest port
    alone, the ports all services of all nodes listen on.  In a local deployment
    (all nodes on one host) the services of different nodes must not share a
    port; in a distributed one the services of a node must not. *)

From S2P Require Import Prelude Zpp RaftFSM.

Open Scope Z_scope.

Inductive PortType :=
| SERVER_TO_SERVER | CLIENT_TO_SERVER | USER_REQ_COLLECTOR | BFT_PAYLOAD | BFT_RPC
| CFT_PEER_TO_PEER | LOCAL_BLOCK_ORDER | LOCAL_FRAGMENT_BROADCAST | REMOTE_FRAGMENT_RECEIVE.

Definition port_code (t : PortType) : Z :=
  match t with
  | SERVER_TO_SERVER => 0 | CLIENT_TO_SERVER => 1 | USER_REQ_COLLECTOR => 2 | BFT_PAYLOAD => 3
  | BFT_RPC => 4 | CFT_PEER_TO_PEER => 5 | LOCAL_BLOCK_ORDER => 6
  | LOCAL_FRAGMENT_BROADCAST => 100 | REMOTE_FRAGMENT_RECEIVE => 101
  end.

Definition port_decode (z : Z) : option PortType :=
  find (λ t, port_code t =? z)
    [SERVER_TO_SERVER; CLIENT_TO_SERVER; USER_REQ_COLLECTOR; BFT_PAYLOAD; BFT_RPC;
     CFT_PEER_TO_PEER; LOCAL_BLOCK_ORDER; LOCAL_FRAGMENT_BROADCAST; REMOTE_FRAGMENT_RECEIVE].

#[export] Instance PortType_eq_dec : EqDecision PortType.
Proof. solve_decision. Defined.
#[export] Program Instance PortType_countable : Countable PortType :=
  inj_countable port_code port_decode _.
Next Obligation. by intros []. Qed.

(** ** PortCalculator

    An [int] that is used as an index is cast to [size_t]: a negative one is out
    of range.  Sums are over [Z]; the ports of a deployment that fits are far
    below 2^31. *)
Record PortCalculator := mkCalc {
  _regionsNodeCount : list Z;
  _portOffset : Z;
  _groupId : Z;
  _nodeId : Z;
  _results : list (list Z);
}.

Definition at_ {A} (l : list A) (i : Z) : option A := if i <? 0 then None else l !! Z.to_nat i.

Definition newPortCalculator (counts : list Z) (groupId nodeId offset : Z) : option PortCalculator :=
  if Z.of_nat (length counts) <=? groupId then None
  else
    match at_ counts groupId with
    | Some c => if c <=? nodeId then None else Some (mkCalc counts offset groupId nodeId [])
    | None => None
    end.

Definition isPortValid (c : PortCalculator) : bool := negb ((65535 <? _portOffset c) || (_portOffset c <=? 0)).

Definition set_offset (c : PortCalculator) (o : Z) : PortCalculator :=
  mkCalc (_regionsNodeCount c) o (_groupId c) (_nodeId c) (_results c).

(** The end of every allocation: -1 when the offset has left the range of ports,
    otherwise the index of the new result. *)
Definition finish (c : PortCalculator) (result : list Z) : Z * PortCalculator :=
  if isPortValid c then
    (Z.of_nat (length (_results c)),
     mkCalc (_regionsNodeCount c) (_portOffset c) (_groupId c) (_nodeId c) (_results c ++ [result]))
  else (-1, c).

(** The loop over the groups; [None] is the exception of a vector of negative
    size. *)
Fixpoint het_local_loop (counts : list Z) (i : Z) (ret : Z) (c : PortCalculator) : option (Z * PortCalculator) :=
  match counts with
  | [] => Some (ret, c)
  | totalNodes :: rest =>
      if negb (i =? _groupId c) then het_local_loop rest (i + 1) ret (set_offset c (_portOffset c + totalNodes))
      else if totalNodes <? 0 then None
      else
        let result := seqZ (_portOffset c) totalNodes in
        let c' := set_offset c (_portOffset c + totalNodes) in
        if isPortValid c' then
          let '(ret', c'') := finish c' result in het_local_loop rest (i + 1) ret' c''
        else Some (ret, c')
  end.

Definition newHeterogeneousLocalServicePorts (c : PortCalculator) : option (Z * PortCalculator) :=
  het_local_loop (_regionsNodeCount c) 0 (-1) c.

Definition newHeterogeneousRemoteServicePorts (c : PortCalculator) : option (Z * PortCalculator) :=
  let groupCount := Z.of_nat (length (_regionsNodeCount c)) in
  let tmpOffset := fold_left (λ o n, o + groupCount * n) (take (Z.to_nat (_groupId c)) (_regionsNodeCount c)) (_portOffset c) in
  let c' := set_offset c (fold_left (λ o n, o + groupCount * n) (_regionsNodeCount c) (_portOffset c)) in
  Some (finish c' (seqZ (tmpOffset + groupCount * _nodeId c) groupCount)).

Definition newHomogeneousLocalServicePorts (c : PortCalculator) : option (Z * PortCalculator) :=
  match at_ (_regionsNodeCount c) (_groupId c) with
  | Some totalNodes =>
      if totalNodes <? 0 then None
      else Some (finish (set_offset c (_portOffset c + 1)) (replicate (Z.to_nat totalNodes) (_portOffset c)))
  | None => None
  end.

Definition newHomogeneousRemoteServicePorts (c : PortCalculator) : option (Z * PortCalculator) :=
  let groupCount := Z.of_nat (length (_regionsNodeCount c)) in
  Some (finish (set_offset c (_portOffset c + groupCount)) (seqZ (_portOffset c) groupCount)).

Definition getPorts (c : PortCalculator) (index : Z) : option (list Z) := at_ (_results c) index.

(** ** ZMQPortUtil *)
Record ZMQPortUtil := mkUtil {
  _portCalculator : PortCalculator;
  _remoteServicePortMapper : gmap PortType Z;
  _localServicePortMapper : gmap PortType (list Z);
}.

(** [_localServicePortMapper[t].push_back(...)] and [_remoteServicePortMapper[t] = ...]. *)
Definition push_local (alloc : PortCalculator → option (Z * PortCalculator)) (t : PortType) (u : ZMQPortUtil) : option ZMQPortUtil :=
  '(i, c) ← alloc (_portCalculator u);
  Some (mkUtil c (_remoteServicePortMapper u)
    (<[t := default [] (_localServicePortMapper u !! t) ++ [i]]> (_localServicePortMapper u))).

Definition set_remote (alloc : PortCalculator → option (Z * PortCalculator)) (t : PortType) (u : ZMQPortUtil) : option ZMQPortUtil :=
  '(i, c) ← alloc (_portCalculator u);
  Some (mkUtil c (<[t := i]> (_remoteServicePortMapper u)) (_localServicePortMapper u)).

Definition local_types : list PortType :=
  [SERVER_TO_SERVER; CLIENT_TO_SERVER; USER_REQ_COLLECTOR; BFT_PAYLOAD; BFT_RPC; CFT_PEER_TO_PEER; LOCAL_BLOCK_ORDER].
Definition remote_types : list PortType := [LOCAL_FRAGMENT_BROADCAST; REMOTE_FRAGMENT_RECEIVE].

Definition bind_fold (step : PortType → ZMQPortUtil → option ZMQPortUtil) (ts : list PortType) (u : ZMQPortUtil) : option ZMQPortUtil :=
  fold_left (λ o t, u ← o; step t u) ts (Some u).

Definition initWithDistributedDeployment (u : ZMQPortUtil) : option ZMQPortUtil :=
  u ← bind_fold (push_local newHomogeneousLocalServicePorts) local_types u;
  bind_fold (set_remote newHomogeneousRemoteServicePorts) remote_types u.

Definition initWithLocalDeployment (u : ZMQPortUtil) : option ZMQPortUtil :=
  u ← bind_fold (push_local newHeterogeneousLocalServicePorts) local_types u;
  bind_fold (set_remote newHeterogeneousRemoteServicePorts) remote_types u.

Definition NewZMQPortUtil (counts : list Z) (groupId nodeId offset : Z) (distributed : bool) : option ZMQPortUtil :=
  c ← newPortCalculator counts groupId nodeId offset;
  let u := mkUtil c ∅ ∅ in
  if distributed then initWithDistributedDeployment u else initWithLocalDeployment u.

(** The node counts as a vector, from the map of groups in the order the hash
    map is iterated. *)
Definition count_step (v : list Z) (it : Z * Z) : option (list Z) :=
  if it.1 <? 0 then None
  else
    let v := if Z.of_nat (length v) <=? it.1 then resize (Z.to_nat (it.1 + 1)) 0 v else v in
    Some (<[Z.to_nat it.1 := it.2]> v).

Definition nodeCountVector (regions : list (Z * Z)) : option (list Z) :=
  fold_left (λ o it, v ← o; count_step v it) regions (Some []).

Definition NewZMQPortUtil_map (regions : list (Z * Z)) (groupId nodeId offset : Z) (distributed : bool) : option ZMQPortUtil :=
  counts ← nodeCountVector regions;
  NewZMQPortUtil counts groupId nodeId offset distributed.

(** The ports of every node; a negative count is a vector of negative size. *)
Definition InitPortsConfig (portOffset : Z) (regions : list (Z * Z)) (distributed : bool) : option (gmap Z (list ZMQPortUtil)) :=
  fold_left
    (λ o it, cfg ← o;
       CHECK 0 <=? it.2;;
       us ← mapM (λ i, NewZMQPortUtil_map regions it.1 i portOffset distributed) (seqZ 0 it.2);
       Some (<[it.1 := us]> cfg))
    regions (Some ∅).

(** The getters; [None] when the process ends. *)
Definition getRemoteServicePort (u : ZMQPortUtil) (t : PortType) (regionId : Z) : option Z :=
  i ← _remoteServicePortMapper u !! t;
  ret ← getPorts (_portCalculator u) i;
  at_ ret regionId.

Definition getRemoteServicePorts (u : ZMQPortUtil) (t : PortType) : option (gmap Z Z) :=
  i ← _remoteServicePortMapper u !! t;
  ret ← getPorts (_portCalculator u) i;
  Some (list_to_map (imap (λ i p, (Z.of_nat i, p)) ret)).

Definition getLocalServicePorts (u : ZMQPortUtil) (t : PortType) (groupId : Z) : option (list Z) :=
  mine ← _localServicePortMapper u !! t;
  if Z.of_nat (length mine) <=? groupId then None
  else i ← at_ mine groupId; getPorts (_portCalculator u) i.

(** The addresses of the nodes of a group with one service's ports. *)
Definition WrapPortWithConfig (nodes : list NodeConfig) (ports : list Z) : list InstanceConfig * bool :=
  if (length nodes =? 0)%nat || negb (length nodes =? length ports)%nat then ([], false)
  else (zip_with mkInstance nodes ports, true).

(** ** What a node opens

    A node listens on its own entry of each local service, and on one port per
    group for each of the two services between groups. *)
Definition opens (u : ZMQPortUtil) (nodeId : Z) (groupCount : nat) : option (list Z) :=
  ls ← mapM (λ t, ports ← getLocalServicePorts u t 0; at_ ports nodeId) local_types;
  bs ← mapM (getRemoteServicePort u LOCAL_FRAGMENT_BROADCAST) (seqZ 0 (Z.of_nat groupCount));
  rs ← mapM (getRemoteServicePort u REMOTE_FRAGMENT_RECEIVE) (seqZ 0 (Z.of_nat groupCount));
  Some (ls ++ bs ++ rs).

(** The position of node [n] of group [g] among all nodes. *)
Definition before (counts : list Z) (g : nat) : Z := foldr Z.add 0 (take g counts).
Definition all_nodes (counts : list Z) : Z := foldr Z.add 0 counts.

Definition node_of (counts : list Z) (g n : Z) : Prop :=
  0 <= n ∧ ∃ c, at_ counts g = Some c ∧ n < c.

(** ** Allocations in closed form *)
Lemma at_Some {A} (l : list A) i x : at_ l i = Some x ↔ 0 <= i ∧ l !! Z.to_nat i = Some x.
Proof. unfold at_. destruct (Z.ltb_spec i 0); split; [done|intros []; lia|by split|by intros []]. Qed.

Lemma at_seqZ m len i : 0 <= i < len → at_ (seqZ m len) i = Some (m + i).
Proof.
  intros. apply at_Some. split; [lia|].
  apply lookup_seqZ. lia.
Qed.

Lemma at_seqZ_all m len i : at_ (seqZ m len) i = if bool_decide (0 <= i < len) then Some (m + i) else None.
Proof.
  case_bool_decide; [by apply at_seqZ|]. destruct (at_ (seqZ m len) i) as [x|] eqn:E; [|done].
  apply at_Some in E as [? [_ ?]%lookup_seqZ]. lia.
Qed.

Lemma at_app_end {A} (l : list A) x : at_ (l ++ [x]) (Z.of_nat (length l)) = Some x.
Proof. apply at_Some. split; [lia|]. rewrite Nat2Z.id. by apply list_lookup_middle. Qed.

Lemma sum_app a b : foldr Z.add 0 (a ++ b) = foldr Z.add 0 a + foldr Z.add 0 b.
Proof. induction a as [|x a IH]; simpl; [done|]. rewrite IH. lia. Qed.

Lemma sum_nonneg l : Forall (Z.le 0) l → 0 <= foldr Z.add 0 l.
Proof. induction 1; simpl; lia. Qed.

Lemma fold_scaled k l o : fold_left (λ o n, o + k * n) l o = o + k * foldr Z.add 0 l.
Proof. revert o. induction l as [|x l IH]; intros o; simpl; [lia|]. rewrite IH. lia. Qed.

(** A group's nodes come after those of the earlier groups and before the rest. *)
Lemma counts_split counts g cnt :
  counts !! g = Some cnt →
  counts = take g counts ++ cnt :: drop (S g) counts ∧
  all_nodes counts = before counts g + cnt + foldr Z.add 0 (drop (S g) counts).
Proof.
  intros H. assert (counts = take g counts ++ cnt :: drop (S g) counts) as E
    by (symmetry; by apply take_drop_middle).
  split; [exact E|]. unfold all_nodes, before. rewrite E at 1. rewrite sum_app; simpl. lia.
Qed.

Lemma valid_offset c : 0 < _portOffset c <= 65535 → isPortValid c = true.
Proof. intros. unfold isPortValid. apply negb_true_iff, orb_false_iff. split; [apply Z.ltb_ge|apply Z.leb_gt]; lia. Qed.

Lemma finish_valid c r :
  0 < _portOffset c <= 65535 →
  finish c r = (Z.of_nat (length (_results c)),
    mkCalc (_regionsNodeCount c) (_portOffset c) (_groupId c) (_nodeId c) (_results c ++ [r])).
Proof. intros. unfold finish. by rewrite valid_offset. Qed.

Lemma het_local_skip pre rest i ret c :
  (∀ k : nat, (k < length pre)%nat → i + Z.of_nat k ≠ _groupId c) →
  het_local_loop (pre ++ rest) i ret c =
    het_local_loop rest (i + Z.of_nat (length pre)) ret (set_offset c (_portOffset c + foldr Z.add 0 pre)).
Proof.
  revert i c. induction pre as [|x pre IH]; intros i [cs o g n rs] Hk.
  - unfold set_offset. simpl. by rewrite !Z.add_0_r.
  - cbn [app het_local_loop length foldr _groupId]. simpl in Hk.
    assert ((i =? g) = false) as ->.
    { specialize (Hk 0%nat ltac:(lia)). simpl in Hk. apply Z.eqb_neq. lia. }
    cbn [negb]. rewrite IH.
    + unfold set_offset. cbn. f_equal; [lia|f_equal; lia].
    + intros k Hl. specialize (Hk (S k) ltac:(lia)). cbn in *. lia.
Qed.

Section allocations.
Context (c : PortCalculator) (cnt : Z).
Hypothesis Hg : at_ (_regionsNodeCount c) (_groupId c) = Some cnt.
Hypothesis Hnn : Forall (Z.le 0) (_regionsNodeCount c).
Hypothesis Ho : 0 < _portOffset c.

Notation counts := (_regionsNodeCount c).
Notation groups := (Z.of_nat (length counts)).

Definition allocated (size : Z) (ports : list Z) : option (Z * PortCalculator) :=
  Some (Z.of_nat (length (_results c)),
    mkCalc counts (_portOffset c + size) (_groupId c) (_nodeId c) (_results c ++ [ports])).

Lemma het_local_spec :
  _portOffset c + all_nodes counts <= 65535 →
  newHeterogeneousLocalServicePorts c =
    allocated (all_nodes counts) (seqZ (_portOffset c + before counts (Z.to_nat (_groupId c))) cnt).
Proof using Hg Hnn Ho.
  intros Hf. unfold newHeterogeneousLocalServicePorts.
  apply at_Some in Hg as [Hg0 Hgl]. destruct (counts_split _ _ _ Hgl) as [E ET].
  pose proof (lookup_lt_Some _ _ _ Hgl) as Hlt.
  assert (0 <= cnt) by (by eapply Forall_lookup_1 in Hgl).
  pose proof (sum_nonneg _ (Forall_take _ (Z.to_nat (_groupId c)) _ Hnn)) as Hb.
  pose proof (sum_nonneg _ (Forall_drop _ (S (Z.to_nat (_groupId c))) _ Hnn)) as Hd.
  fold (before counts (Z.to_nat (_groupId c))) in Hb.
  rewrite E at 1. rewrite het_local_skip by (rewrite length_take; lia).
  cbn [het_local_loop]. rewrite length_take_le by lia.
  rewrite (proj2 (Z.eqb_eq _ _)) by (cbn; lia). cbn [negb].
  rewrite (proj2 (Z.ltb_ge _ _)) by lia. fold (before counts (Z.to_nat (_groupId c))).
  rewrite valid_offset by (cbn; lia). rewrite finish_valid by (cbn; lia).
  rewrite <-(app_nil_r (drop _ counts)) at 1. rewrite het_local_skip by (cbn; lia).
  cbn [het_local_loop]. unfold allocated, set_offset; cbn.
  do 3 f_equal. lia.
Qed.

Lemma het_remote_spec :
  _portOffset c + groups * all_nodes counts <= 65535 →
  newHeterogeneousRemoteServicePorts c =
    allocated (groups * all_nodes counts)
      (seqZ (_portOffset c + groups * (before counts (Z.to_nat (_groupId c)) + _nodeId c)) groups).
Proof using Hg Hnn Ho.
  intros Hf. unfold newHeterogeneousRemoteServicePorts. rewrite !fold_scaled.
  pose proof (sum_nonneg _ Hnn).
  rewrite finish_valid; [|cbn; unfold all_nodes in *; nia].
  unfold allocated, before, all_nodes. cbn. do 6 f_equal. lia.
Qed.

Lemma hom_local_spec :
  _portOffset c + 1 <= 65535 →
  newHomogeneousLocalServicePorts c = allocated 1 (replicate (Z.to_nat cnt) (_portOffset c)).
Proof using Hg Hnn Ho.
  intros Hf. unfold newHomogeneousLocalServicePorts. rewrite Hg.
  apply at_Some in Hg as [_ Hl]. assert (0 <= cnt) by (by eapply Forall_lookup_1 in Hl).
  rewrite (proj2 (Z.ltb_ge _ _)) by lia. rewrite finish_valid by (cbn; lia). done.
Qed.

Lemma hom_remote_spec :
  _portOffset c + groups <= 65535 →
  newHomogeneousRemoteServicePorts c = allocated groups (seqZ (_portOffset c) groups).
Proof using Ho.
  intros Hf. unfold newHomogeneousRemoteServicePorts. rewrite finish_valid by (cbn; lia). done.
Qed.
End allocations.

(** ** Both deployments in closed form *)
Definition stride (o size : Z) (k : Z) : Z := o + k * size.

Definition local_map : gmap PortType (list Z) :=
  list_to_map (zip local_types [[0]; [1]; [2]; [3]; [4]; [5]; [6]]).
Definition remote_map : gmap PortType Z := list_to_map (zip remote_types [7; 8]).

(** Seven allocations of one kind and two of the other, starting at [offset]:
    the [k]-th of a kind starts [k] sizes after the first. *)
Definition nine (offset lsize rsize : Z) (lports rports : Z → list Z) : list (list Z) :=
  (lports <$> (stride offset lsize <$> seqZ 0 7)) ++
  (rports <$> (stride (offset + 7 * lsize) rsize <$> seqZ 0 2)).

Lemma push_local_run lalloc t lsize lports counts o g n rs rm lm :
  0 < o → o + lsize <= 65535 →
  (∀ o rs, 0 < o → o + lsize <= 65535 →
     lalloc (mkCalc counts o g n rs) = allocated (mkCalc counts o g n rs) lsize (lports o)) →
  push_local lalloc t (mkUtil (mkCalc counts o g n rs) rm lm) =
    Some (mkUtil (mkCalc counts (o + lsize) g n (rs ++ [lports o])) rm
      (<[t := default [] (lm !! t) ++ [Z.of_nat (length rs)]]> lm)).
Proof. intros ?? H. unfold push_local. cbn [_portCalculator]. by rewrite H. Qed.

Lemma set_remote_run ralloc t rsize rports counts o g n rs rm lm :
  0 < o → o + rsize <= 65535 →
  (∀ o rs, 0 < o → o + rsize <= 65535 →
     ralloc (mkCalc counts o g n rs) = allocated (mkCalc counts o g n rs) rsize (rports o)) →
  set_remote ralloc t (mkUtil (mkCalc counts o g n rs) rm lm) =
    Some (mkUtil (mkCalc counts (o + rsize) g n (rs ++ [rports o])) (<[t := Z.of_nat (length rs)]> rm) lm).
Proof. intros ?? H. unfold set_remote. cbn [_portCalculator]. by rewrite H. Qed.

Lemma init_nine (lalloc ralloc : PortCalculator → option (Z * PortCalculator))
    lsize rsize lports rports counts g n offset :
  0 <= lsize → 0 <= rsize → 0 < offset →
  (∀ o rs, 0 < o → o + lsize <= 65535 →
     lalloc (mkCalc counts o g n rs) = allocated (mkCalc counts o g n rs) lsize (lports o)) →
  (∀ o rs, 0 < o → o + rsize <= 65535 →
     ralloc (mkCalc counts o g n rs) = allocated (mkCalc counts o g n rs) rsize (rports o)) →
  offset + 7 * lsize + 2 * rsize <= 65535 →
  (u ← bind_fold (push_local lalloc) local_types (mkUtil (mkCalc counts offset g n []) ∅ ∅);
   bind_fold (set_remote ralloc) remote_types u) =
  Some (mkUtil (mkCalc counts (offset + 7 * lsize + 2 * rsize) g n (nine offset lsize rsize lports rports))
    remote_map local_map).
Proof.
  intros Hl0 Hr0 Ho Hl Hr Hf. unfold bind_fold, local_types, remote_types. cbn [fold_left].
  do 7 (cbn [mbind option_bind]; rewrite (push_local_run _ _ lsize lports) by (done || lia)).
  do 2 (cbn [mbind option_bind]; rewrite (set_remote_run _ _ rsize rports) by (done || lia)).
  f_equal. f_equal; [|vm_compute; reflexivity..].
  f_equal; [lia|]. unfold nine, stride.
  change (seqZ 0 7) with [0; 1; 2; 3; 4; 5; 6]. change (seqZ 0 2) with [0; 1]. cbn [fmap list_fmap app].
  repeat (f_equal; [f_equal; lia|]). do 2 f_equal. lia.
Qed.

Lemma mapM_seqZ f m len :
  (∀ i, 0 <= i < len → f i = Some (m + i)) → mapM f (seqZ 0 len) = Some (seqZ m len).
Proof.
  intros Hf. apply mapM_Some, Forall2_same_length_lookup. rewrite !length_seqZ. split; [done|].
  intros k i p Hi Hp. apply lookup_seqZ in Hi as [-> ?], Hp as [-> ?]. rewrite Hf by lia. by rewrite Z.add_0_l.
Qed.

(** The getters find the allocation of each service. *)
Section getters.
Context (counts : list Z) (o g n offset lsize rsize : Z) (lports rports : Z → list Z).
Notation u := (mkUtil (mkCalc counts o g n (nine offset lsize rsize lports rports)) remote_map local_map).

Lemma nine_local k : 0 <= k < 7 → at_ (nine offset lsize rsize lports rports) k = Some (lports (stride offset lsize k)).
Proof.
  intros Hk. apply at_Some. split; [lia|]. unfold nine.
  rewrite lookup_app_l by (rewrite !length_fmap, length_seqZ; lia).
  rewrite !list_lookup_fmap, (proj2 (lookup_seqZ _ _ _ k)) by lia. done.
Qed.

Lemma nine_remote k : 0 <= k < 2 →
  at_ (nine offset lsize rsize lports rports) (7 + k) = Some (rports (stride (offset + 7 * lsize) rsize k)).
Proof.
  intros Hk. apply at_Some. split; [lia|]. unfold nine.
  rewrite lookup_app_r by (rewrite !length_fmap, length_seqZ; lia).
  rewrite !length_fmap, length_seqZ, !list_lookup_fmap.
  rewrite (proj2 (lookup_seqZ _ _ _ k)) by lia. done.
Qed.

Lemma get_local t k :
  local_map !! t = Some [k] → 0 <= k < 7 → getLocalServicePorts u t 0 = Some (lports (stride offset lsize k)).
Proof.
  intros Hm Hk. unfold getLocalServicePorts. cbn [_localServicePortMapper]. rewrite Hm.
  unfold getPorts. cbn -[nine]. by apply nine_local.
Qed.

Lemma get_remote t k i :
  remote_map !! t = Some (7 + k) → 0 <= k < 2 →
  getRemoteServicePort u t i = at_ (rports (stride (offset + 7 * lsize) rsize k)) i.
Proof.
  intros Hm Hk. unfold getRemoteServicePort. cbn [_remoteServicePortMapper]. rewrite Hm.
  cbn [mbind option_bind]. unfold getPorts. cbn [_portCalculator _results]. by rewrite nine_remote.
Qed.

(** The ports a node opens, once its allocations are known. *)
Lemma opens_nine groups lport rport :
  (∀ o, at_ (lports o) n = Some (lport o)) →
  (∀ o i, 0 <= i < Z.of_nat groups → at_ (rports o) i = Some (rport o + i)) →
  opens u n groups =
  Some ((lport <$> (stride offset lsize <$> seqZ 0 7)) ++
        (seqZ (rport (offset + 7 * lsize)) (Z.of_nat groups) ++
         seqZ (rport (offset + 7 * lsize + rsize)) (Z.of_nat groups))).
Proof.
  intros Hl Hr. unfold opens.
  assert (mapM (λ t, ports ← getLocalServicePorts u t 0; at_ ports n) local_types
     = Some (lport <$> (stride offset lsize <$> seqZ 0 7))) as ->.
  { apply mapM_Some. change (seqZ 0 7) with [0; 1; 2; 3; 4; 5; 6]. unfold local_types. cbn [fmap list_fmap].
    repeat (apply Forall2_cons; split;
      [match goal with |- context [stride _ _ ?k] =>
         rewrite (get_local _ k) by first [vm_compute; reflexivity | lia] end; apply Hl|]). constructor. }
  cbn [mbind option_bind].
  rewrite (mapM_seqZ (getRemoteServicePort u LOCAL_FRAGMENT_BROADCAST) (rport (stride (offset + 7 * lsize) rsize 0))).
  2: { intros i Hi. rewrite (get_remote _ 0) by first [vm_compute; reflexivity | lia]. by apply Hr. }
  cbn [mbind option_bind].
  rewrite (mapM_seqZ (getRemoteServicePort u REMOTE_FRAGMENT_RECEIVE) (rport (stride (offset + 7 * lsize) rsize 1))).
  2: { intros i Hi. rewrite (get_remote _ 1) by first [vm_compute; reflexivity | lia]. by apply Hr. }
  cbn [mbind option_bind]. unfold stride at 2 3. by rewrite Z.mul_0_l, Z.add_0_r, Z.mul_1_l.
Qed.
End getters.

(** The ports node [n] of group [g] opens in a local deployment. *)
Definition local_plan (counts : list Z) (g n offset : Z) : list Z :=
  let groups := Z.of_nat (length counts) in
  let total := all_nodes counts in
  let q := before counts (Z.to_nat g) + n in
  ((λ o, o + q) <$> (stride offset total <$> seqZ 0 7)) ++
  seqZ (offset + 7 * total + groups * q) groups ++
  seqZ (offset + 7 * total + groups * total + groups * q) groups.

(** The ports every node opens in a distributed deployment. *)
Definition distributed_plan (counts : list Z) (offset : Z) : list Z :=
  let groups := Z.of_nat (length counts) in
  (stride offset 1 <$> seqZ 0 7) ++ seqZ (offset + 7) groups ++ seqZ (offset + 7 + groups) groups.

Section deployments.
Context (counts : list Z) (offset : Z).
Hypothesis Hnn : Forall (Z.le 0) counts.
Hypothesis Ho : 0 < offset.

Lemma new_calc g n :
  node_of counts g n → newPortCalculator counts g n offset = Some (mkCalc counts offset g n []).
Proof using.
  intros (Hn & cnt & Hg & Hlt). unfold newPortCalculator.
  pose proof (proj1 (at_Some _ _ _) Hg) as [? Hl]. apply lookup_lt_Some in Hl.
  rewrite (proj2 (Z.leb_gt _ _)) by lia. rewrite Hg. by rewrite (proj2 (Z.leb_gt _ _)) by lia.
Qed.

(** The local services of a group have the same ports whichever of its nodes
    computes them. *)
Definition services_of (u : ZMQPortUtil) : list (option (list Z)) :=
  (λ t, getLocalServicePorts u t 0) <$> local_types.

Lemma services_nine o g n lsize rsize lports rports :
  services_of (mkUtil (mkCalc counts o g n (nine offset lsize rsize lports rports)) remote_map local_map) =
    (λ k, Some (lports (stride offset lsize k))) <$> [0; 1; 2; 3; 4; 5; 6].
Proof using.
  unfold services_of, local_types. cbn [fmap list_fmap].
  repeat (apply (f_equal2 cons); [apply get_local; [vm_compute; reflexivity|lia]|]). done.
Qed.

Definition local_services (g cnt : Z) : list (option (list Z)) :=
  (λ k, Some (seqZ (stride offset (all_nodes counts) k + before counts (Z.to_nat g)) cnt)) <$> [0; 1; 2; 3; 4; 5; 6].

(** The ports of the services between groups, the [k]-th of the two for group [i]. *)
Definition remote_port (distributed : bool) (g n k i : Z) : Z :=
  let groups := Z.of_nat (length counts) in
  if distributed then offset + 7 + k * groups + i
  else offset + 7 * all_nodes counts + k * (groups * all_nodes counts)
       + groups * (before counts (Z.to_nat g) + n) + i.

Definition remote_ports_are (u : ZMQPortUtil) (distributed : bool) (g n : Z) : Prop :=
  ∀ t k i, remote_map !! t = Some (7 + k) → 0 <= k < 2 →
    getRemoteServicePort u t i =
      if bool_decide (0 <= i < Z.of_nat (length counts)) then Some (remote_port distributed g n k i) else None.

Lemma local_deployment g n cnt :
  at_ counts g = Some cnt → 0 <= n < cnt →
  offset + (7 + 2 * Z.of_nat (length counts)) * all_nodes counts <= 65535 →
  ∃ u, NewZMQPortUtil counts g n offset false = Some u ∧
       opens u n (length counts) = Some (local_plan counts g n offset) ∧
       services_of u = local_services g cnt ∧ remote_ports_are u false g n.
Proof using Hnn Ho.
  intros Hg Hn Hf. unfold NewZMQPortUtil. rewrite new_calc by (split; [lia|exists cnt; split; [done|lia]]).
  cbn [mbind option_bind].
  pose proof (sum_nonneg _ Hnn) as HT. fold (all_nodes counts) in HT.
  unfold initWithLocalDeployment.
  rewrite (init_nine _ _ (all_nodes counts) (Z.of_nat (length counts) * all_nodes counts)
    (λ o, seqZ (o + before counts (Z.to_nat g)) cnt)
    (λ o, seqZ (o + Z.of_nat (length counts) * (before counts (Z.to_nat g) + n)) (Z.of_nat (length counts))));
    [|lia|nia|lia| | |nia].
  - eexists. split_and!; [done| |by rewrite services_nine|].
    2: { intros t k i Ht Hk. rewrite (get_remote _ _ _ _ _ _ _ _ _ t k) by done. apply at_seqZ_all. }
    rewrite (opens_nine _ _ _ _ _ _ _ _ _ _
      (λ o, o + before counts (Z.to_nat g) + n)
      (λ o, o + Z.of_nat (length counts) * (before counts (Z.to_nat g) + n))).
    + unfold local_plan. do 2 f_equal. apply list_fmap_ext. intros; lia.
    + intros o. by apply at_seqZ.
    + intros o i Hi. by apply at_seqZ.
  - intros o rs Hpos Hle. by apply (het_local_spec (mkCalc counts o g n rs) cnt).
  - intros o rs Hpos Hle. by apply (het_remote_spec (mkCalc counts o g n rs) cnt).
Qed.

Lemma distributed_deployment g n cnt :
  at_ counts g = Some cnt → 0 <= n < cnt →
  offset + 7 + 2 * Z.of_nat (length counts) <= 65535 →
  ∃ u, NewZMQPortUtil counts g n offset true = Some u ∧
       opens u n (length counts) = Some (distributed_plan counts offset) ∧ remote_ports_are u true g n ∧
       ∀ t k, local_map !! t = Some [k] → 0 <= k < 7 →
         getLocalServicePorts u t 0 = Some (replicate (Z.to_nat cnt) (offset + k)).
Proof using Hnn Ho.
  intros Hg Hn Hf. unfold NewZMQPortUtil. rewrite new_calc by (split; [lia|exists cnt; split; [done|lia]]).
  cbn [mbind option_bind]. unfold initWithDistributedDeployment.
  rewrite (init_nine _ _ 1 (Z.of_nat (length counts))
    (λ o, replicate (Z.to_nat cnt) o) (λ o, seqZ o (Z.of_nat (length counts)))); [|lia|lia|lia| | |lia].
  - eexists. split_and!; [done| | |].
    2: { intros t k i Ht Hk. rewrite (get_remote _ _ _ _ _ _ _ _ _ t k) by done. apply at_seqZ_all. }
    2: { intros t k Ht Hk. rewrite (get_local _ _ _ _ _ _ _ _ _ t k) by done. unfold stride. by rewrite Z.mul_1_r. }
    rewrite (opens_nine _ _ _ _ _ _ _ _ _ _ (λ o, o) (λ o, o)).
    + unfold distributed_plan. rewrite list_fmap_id. done.
    + intros o. apply at_Some. split; [lia|]. apply lookup_replicate. lia.
    + intros o i Hi. by apply at_seqZ.
  - intros o rs Hpos Hle. by apply (hom_local_spec (mkCalc counts o g n rs) cnt).
  - intros o rs Hpos Hle. by apply (hom_remote_spec (mkCalc counts o g n rs)).
Qed.
End deployments.

(** ** The map of node counts, in any order of iteration *)
Definition region_map (counts : list Z) : list (Z * Z) := imap (λ i c, (Z.of_nat i, c)) counts.

Lemma region_map_elem counts it : it ∈ region_map counts ↔ at_ counts it.1 = Some it.2.
Proof.
  unfold region_map. rewrite elem_of_lookup_imap, at_Some. split.
  - intros (i & c & -> & Hi); cbn. rewrite Nat2Z.id. split; [lia|done].
  - intros [H0 Hl]. exists (Z.to_nat it.1), it.2. split; [|done]. rewrite Z2Nat.id by done. by destruct it.
Qed.

Lemma region_map_keys counts : NoDup (region_map counts).*1.
Proof.
  unfold region_map. rewrite fmap_imap. apply NoDup_alt. intros i j x Hi Hj.
  rewrite list_lookup_imap in Hi, Hj. unfold compose in *. cbn in *.
  destruct (counts !! i), (counts !! j); simplify_eq/=. lia.
Qed.

Lemma count_fold counts l v :
  NoDup l.*1 → Forall (λ it, at_ counts it.1 = Some it.2) l → (length v <= length counts)%nat →
  ∃ v', fold_left (λ o it, v ← o; count_step v it) l (Some v) = Some v' ∧
    (length v' <= length counts)%nat ∧
    Forall (λ it, at_ v' it.1 = Some it.2) l ∧
    ∀ i x, i ∉ l.*1 → at_ v i = Some x → at_ v' i = Some x.
Proof.
  revert v. induction l as [|[g c] l IH]; intros v Hd Hl Hv; [by exists v|].
  cbn in Hd. apply NoDup_cons in Hd as [Hg Hd]. apply Forall_cons in Hl as [Hc Hl]. cbn in Hc.
  apply at_Some in Hc as [H0 Hc]. pose proof (lookup_lt_Some _ _ _ Hc) as Hlt.
  cbn [fold_left mbind option_bind]. unfold count_step at 2; cbn [fst snd].
  rewrite (proj2 (Z.ltb_ge _ _)) by lia.
  set (w := if _ <=? g then _ else v).
  assert (Z.to_nat g < length w <= length counts)%nat as Hw.
  { unfold w. destruct (Z.leb_spec (Z.of_nat (length v)) g); rewrite ?length_resize; lia. }
  destruct (IH (<[Z.to_nat g := c]> w)) as (v' & Hr & Hlen & Hall & Hkeep);
    [done..|rewrite length_insert; lia|].
  exists v'. split_and!; [exact Hr|done| |].
  - apply Forall_cons. split; [|done]. cbn. apply Hkeep; [done|].
    apply at_Some. split; [lia|]. apply list_lookup_insert_eq. lia.
  - intros i x Hi Hx. cbn in Hi. apply not_elem_of_cons in Hi as [Hne Hi]. apply Hkeep; [done|].
    apply at_Some in Hx as [Hi0 Hx]. apply at_Some. split; [done|].
    rewrite list_lookup_insert_ne by lia. unfold w.
    destruct (Z.leb_spec (Z.of_nat (length v)) g); [|done].
    rewrite lookup_resize; [done| |by eapply lookup_lt_Some].
    apply lookup_lt_Some in Hx. lia.
Qed.

Lemma nodeCountVector_counts counts regions :
  regions ≡ₚ region_map counts → nodeCountVector regions = Some counts.
Proof.
  intros Hp. destruct (count_fold counts regions []) as (v & Hr & Hlen & Hall & _).
  - rewrite Hp. apply region_map_keys.
  - apply Forall_forall. intros it Hit. apply region_map_elem. by rewrite <-Hp.
  - simpl. lia.
  - unfold nodeCountVector. rewrite Hr. f_equal. apply list_eq. intros i.
    destruct (counts !! i) as [c|] eqn:Hc.
    + rewrite Forall_forall in Hall. specialize (Hall (Z.of_nat i, c)).
      assert ((Z.of_nat i, c) ∈ regions) as Hin.
      { rewrite Hp. apply region_map_elem, at_Some. cbn. rewrite Nat2Z.id. split; [lia|done]. }
      specialize (Hall Hin). apply at_Some in Hall as [_ Hall]. cbn in Hall. by rewrite Nat2Z.id in Hall.
    + apply lookup_ge_None. apply lookup_ge_None in Hc. lia.
Qed.

Lemma init_fold (F : Z → Z → option ZMQPortUtil) (l : list (Z * Z)) (cfg0 : gmap Z (list ZMQPortUtil)) :
  NoDup l.*1 →
  Forall (λ it, 0 <= it.2 ∧ ∀ i, 0 <= i < it.2 → is_Some (F it.1 i)) l →
  ∃ cfg : gmap Z (list ZMQPortUtil),
    fold_left (λ o it, cfg ← o; CHECK 0 <=? it.2;; us ← mapM (F it.1) (seqZ 0 it.2); Some (<[it.1 := us]> cfg))
      l (Some cfg0) = Some cfg ∧
    (∀ g, g ∉ l.*1 → cfg !! g = cfg0 !! g) ∧
    (∀ it i, it ∈ l → 0 <= i < it.2 → (us ← cfg !! it.1; at_ us i) = F it.1 i) ∧
    ∀ it, it ∈ l → ∃ us, cfg !! it.1 = Some us ∧ Z.of_nat (length us) = it.2.
Proof.
  revert cfg0. induction l as [|[g c] l IH]; intros cfg0 Hd Hl; [exists cfg0; set_solver|].
  cbn in Hd. apply NoDup_cons in Hd as [Hg Hd]. apply Forall_cons in Hl as [[H0 Hi] Hl]. cbn [fst snd] in *.
  assert (is_Some (mapM (F g) (seqZ 0 c))) as [us Hus].
  { apply mapM_is_Some, Forall_forall. intros i Hin. apply elem_of_seqZ in Hin. apply Hi. lia. }
  cbn [fold_left mbind option_bind fst snd]. rewrite (proj2 (Z.leb_le _ _)) by done. rewrite Hus.
  cbn [mbind option_bind]. destruct (IH (<[g := us]> cfg0)) as (cfg & Hr & Hkeep & Hall & Hlen); [done..|].
  exists cfg. split_and!; [exact Hr| | |].
  - intros g' Hg'. cbn in Hg'. apply not_elem_of_cons in Hg' as [Hne Hg'].
    rewrite Hkeep, lookup_insert_ne by done. done.
  - intros it i [->|Hin]%elem_of_cons Hr'; [|by apply Hall]. cbn [fst snd] in *.
    rewrite Hkeep, lookup_insert_eq by done. cbn. apply mapM_Some in Hus.
    destruct (Forall2_lookup_l _ _ _ (Z.to_nat i) i Hus) as (u & Hu & HF); [apply lookup_seqZ; lia|].
    rewrite HF. apply at_Some. split; [lia|done].
  - intros it [->|Hin]%elem_of_cons; [|by apply Hlen]. cbn [fst snd]. exists us.
    rewrite Hkeep, lookup_insert_eq by done. split; [done|]. apply length_mapM in Hus. rewrite <-Hus, length_seqZ. lia.
Qed.

(** The ports of one node in the configuration of all nodes. *)
Definition node_util (cfg : gmap Z (list ZMQPortUtil)) (g n : Z) : option ZMQPortUtil :=
  us ← cfg !! g; at_ us n.

Lemma config_nodes counts regions offset distributed :
  regions ≡ₚ region_map counts → Forall (Z.le 0) counts →
  (∀ g n cnt, at_ counts g = Some cnt → 0 <= n < cnt →
     is_Some (NewZMQPortUtil counts g n offset distributed)) →
  ∃ cfg, InitPortsConfig offset regions distributed = Some cfg ∧
    ∀ g n cnt, at_ counts g = Some cnt → 0 <= n < cnt →
      node_util cfg g n = NewZMQPortUtil counts g n offset distributed.
Proof.
  intros Hp Hnn Hok.
  assert (∀ g i, NewZMQPortUtil_map regions g i offset distributed = NewZMQPortUtil counts g i offset distributed) as Hm.
  { intros. unfold NewZMQPortUtil_map. by rewrite (nodeCountVector_counts counts). }
  destruct (init_fold (λ g i, NewZMQPortUtil_map regions g i offset distributed) regions ∅) as (cfg & Hr & _ & Hall & _).
  - rewrite Hp. apply region_map_keys.
  - apply Forall_forall. intros it Hit. rewrite Hp in Hit. apply region_map_elem in Hit.
    split; [|intros i Hi; rewrite Hm; by eapply Hok].
    apply at_Some in Hit as [_ Hl]. by eapply Forall_lookup_1 in Hl.
  - exists cfg. split; [exact Hr|]. intros g n cnt Hg Hn. rewrite <-Hm.
    apply (Hall (g, cnt) n); [|done]. rewrite Hp. by apply region_map_elem.
Qed.

(** The table has a list per group, with an entry per node. *)
Lemma config_shape counts regions offset distributed cfg :
  regions ≡ₚ region_map counts → InitPortsConfig offset regions distributed = Some cfg → Forall (Z.le 0) counts →
  (∀ g n cnt, at_ counts g = Some cnt → 0 <= n < cnt → is_Some (NewZMQPortUtil counts g n offset distributed)) →
  (∀ g cnt, at_ counts g = Some cnt → ∃ us, cfg !! g = Some us ∧ Z.of_nat (length us) = cnt) ∧
  ∀ g, at_ counts g = None → cfg !! g = None.
Proof.
  intros Hp Hc Hnn Hok.
  destruct (init_fold (λ g i, NewZMQPortUtil_map regions g i offset distributed) regions ∅) as (cfg' & Hr & Hkeep & _ & Hlen).
  - rewrite Hp. apply region_map_keys.
  - apply Forall_forall. intros it Hit. rewrite Hp in Hit. apply region_map_elem in Hit. split.
    + apply at_Some in Hit as [_ Hl]. by eapply Forall_lookup_1 in Hl.
    + intros i Hi. unfold NewZMQPortUtil_map. rewrite (nodeCountVector_counts counts) by done. by eapply Hok.
  - assert (cfg' = cfg) as -> by (unfold InitPortsConfig in Hc; congruence). split.
    + intros g cnt Hg. apply (Hlen (g, cnt)). rewrite Hp. by apply region_map_elem.
    + intros g Hg. rewrite Hkeep; [apply lookup_empty|]. rewrite Hp.
      intros ([g' c] & -> & Hin)%list_elem_of_fmap. apply region_map_elem in Hin. cbn in *. congruence.
Qed.

(** ** The ports of a plan are distinct *)
Lemma before_bounds counts g n cnt :
  Forall (Z.le 0) counts → at_ counts g = Some cnt → 0 <= n < cnt →
  0 <= before counts (Z.to_nat g) + n < all_nodes counts.
Proof.
  intros Hnn [H0 Hl]%at_Some Hn. destruct (counts_split _ _ _ Hl) as [_ ET].
  pose proof (sum_nonneg _ (Forall_take _ (Z.to_nat g) _ Hnn)) as Hb. fold (before counts (Z.to_nat g)) in Hb.
  pose proof (sum_nonneg _ (Forall_drop _ (S (Z.to_nat g)) _ Hnn)). lia.
Qed.

Lemma before_mono counts g g' cnt :
  Forall (Z.le 0) counts → counts !! g = Some cnt → (g < g')%nat → before counts g + cnt <= before counts g'.
Proof.
  intros Hnn Hl Hlt. unfold before. replace g' with (S g + (g' - S g))%nat by lia.
  rewrite <-take_take_drop, sum_app, (take_S_r _ _ _ Hl), sum_app. simpl.
  pose proof (sum_nonneg _ (Forall_take _ (g' - S g) _ (Forall_drop _ (S g) _ Hnn))). lia.
Qed.

(** Different nodes have different positions. *)
Lemma position_inj counts g n cnt g' n' cnt' :
  Forall (Z.le 0) counts →
  at_ counts g = Some cnt → 0 <= n < cnt → at_ counts g' = Some cnt' → 0 <= n' < cnt' →
  before counts (Z.to_nat g) + n = before counts (Z.to_nat g') + n' → g = g' ∧ n = n'.
Proof.
  intros Hnn [H0 Hl]%at_Some Hn [H0' Hl']%at_Some Hn' He.
  destruct (Z.lt_trichotomy g g') as [Hlt|[->|Hlt]]; [|lia|].
  - pose proof (before_mono _ _ (Z.to_nat g') _ Hnn Hl). lia.
  - pose proof (before_mono _ _ (Z.to_nat g) _ Hnn Hl'). lia.
Qed.

Lemma elem_local_plan counts g n offset p :
  let groups := Z.of_nat (length counts) in
  let total := all_nodes counts in
  let q := before counts (Z.to_nat g) + n in
  p ∈ local_plan counts g n offset →
  (∃ k, 0 <= k < 7 ∧ p = offset + k * total + q) ∨
  (∃ k i, 0 <= k < 2 ∧ 0 <= i < groups ∧ p = offset + 7 * total + k * (groups * total) + groups * q + i).
Proof.
  intros groups total q. unfold local_plan. fold groups total q. rewrite !elem_of_app.
  intros [(o & -> & (k & -> & Hk)%list_elem_of_fmap)%list_elem_of_fmap|[H|H]].
  - left. apply elem_of_seqZ in Hk. exists k. unfold stride. split; lia.
  - right. apply elem_of_seqZ in H. exists 0, (p - (offset + 7 * total + groups * q)). split_and!; lia.
  - right. apply elem_of_seqZ in H. exists 1, (p - (offset + 7 * total + groups * total + groups * q)). split_and!; lia.
Qed.

(** A port determines the position of the node that opens it. *)
Lemma plan_position groups total offset q q' p :
  0 <= q < total → 0 <= q' < total → 0 <= groups →
  let at_position q := (∃ k, 0 <= k < 7 ∧ p = offset + k * total + q) ∨
    (∃ k i, 0 <= k < 2 ∧ 0 <= i < groups ∧ p = offset + 7 * total + k * (groups * total) + groups * q + i) in
  at_position q → at_position q' → q = q'.
Proof.
  intros Hq Hq' Hg at_position [(k & Hk & E)|(k & i & Hk & Hi & E)] [(k' & Hk' & E')|(k' & i' & Hk' & Hi' & E')].
  - assert (k = k') as -> by nia. lia.
  - assert (0 <= groups * q') by nia. assert (0 <= groups * total) by nia.
    assert (0 <= k' * (groups * total)) by nia. assert (k * total <= 6 * total) by nia. lia.
  - assert (0 <= groups * q) by nia. assert (0 <= groups * total) by nia.
    assert (0 <= k * (groups * total)) by nia. assert (k' * total <= 6 * total) by nia. lia.
  - assert (groups * q + groups <= groups * total) by nia.
    assert (groups * q' + groups <= groups * total) by nia.
    assert (0 <= groups * q ∧ 0 <= groups * q') as [??] by nia.
    assert (k = k') as -> by (destruct (decide (k = 0)), (decide (k' = 0)); [lia| | |lia];
      [replace k' with 1 in * by lia|replace k with 1 in * by lia]; subst; lia).
    assert (groups * q + i = groups * q' + i') by lia.
    destruct (Z.lt_trichotomy q q') as [?|[?|?]]; [|done|].
    + assert (groups * q + groups <= groups * q') by nia. lia.
    + assert (groups * q' + groups <= groups * q) by nia. lia.
Qed.

Lemma NoDup_seqZ_at m len k : NoDup (stride m len <$> seqZ 0 k) ∨ len = 0.
Proof.
  destruct (decide (len = 0)); [by right|left]. apply NoDup_fmap_2; [|apply NoDup_seqZ].
  intros a b. unfold stride. nia.
Qed.

Lemma local_plan_NoDup counts g n cnt offset :
  Forall (Z.le 0) counts → at_ counts g = Some cnt → 0 <= n < cnt → NoDup (local_plan counts g n offset).
Proof.
  intros Hnn Hg Hn. pose proof (before_bounds _ _ _ _ Hnn Hg Hn) as Hq. unfold local_plan.
  set (q := before counts (Z.to_nat g) + n) in *. set (T := all_nodes counts) in *.
  set (R := Z.of_nat (length counts)). assert (0 <= R) by (unfold R; lia).
  assert (R * q + R <= R * T) by nia. assert (0 <= R * q) by nia.
  apply NoDup_app. split_and!.
  - apply NoDup_fmap_2; [intros a b; lia|]. destruct (NoDup_seqZ_at offset T 7); [done|lia].
  - intros p (o & -> & (k & -> & Hk)%list_elem_of_fmap)%list_elem_of_fmap Hp. apply elem_of_seqZ in Hk.
    unfold stride in Hp. assert (k * T <= 6 * T) by nia.
    apply elem_of_app in Hp as [Hp|Hp]; apply elem_of_seqZ in Hp; lia.
  - apply NoDup_app. split_and!; [apply NoDup_seqZ| |apply NoDup_seqZ].
    intros p Hp Hp'. apply elem_of_seqZ in Hp, Hp'. lia.
Qed.

Lemma local_plan_range counts g n cnt offset :
  Forall (Z.le 0) counts → at_ counts g = Some cnt → 0 <= n < cnt →
  let size := (7 + 2 * Z.of_nat (length counts)) * all_nodes counts in
  Forall (λ p, offset <= p < offset + size) (local_plan counts g n offset).
Proof.
  intros Hnn Hg Hn size. pose proof (before_bounds _ _ _ _ Hnn Hg Hn) as Hq. apply Forall_forall.
  intros p Hp. apply elem_local_plan in Hp. unfold size.
  set (q := before counts (Z.to_nat g) + n) in *. set (T := all_nodes counts) in *.
  set (R := Z.of_nat (length counts)) in *. assert (0 <= R) by (unfold R; lia).
  assert (R * q + R <= R * T) by nia. assert (0 <= R * q) by nia.
  destruct Hp as [(k & Hk & ->)|(k & i & Hk & Hi & ->)].
  - assert (0 <= k * T <= 6 * T) by nia. nia.
  - assert (0 <= k * (R * T) <= R * T) by nia. lia.
Qed.

(** C39: All nodes on one host: when the ports needed, seven and two per group
    for each node, fit above the lowest port, the configuration is computed for
    every node in whatever order the hash map of groups is iterated; every node's
    ports are distinct and below 65536, no two nodes share a port, and the nodes
    of a group agree on the ports of the services within the group. *)
Theorem local_ports_disjoint counts regions offset :
  regions ≡ₚ region_map counts → Forall (Z.le 0) counts → 0 < offset →
  offset + (7 + 2 * Z.of_nat (length counts)) * all_nodes counts <= 65535 →
  ∃ cfg, InitPortsConfig offset regions false = Some cfg ∧
  (∀ g n, node_of counts g n → ∃ u ports,
     node_util cfg g n = Some u ∧ opens u n (length counts) = Some ports ∧
     NoDup ports ∧ Forall (λ p, offset <= p < 65535) ports) ∧
  (∀ g n g' n' u u' ports ports', node_of counts g n → node_of counts g' n' →
     node_util cfg g n = Some u → node_util cfg g' n' = Some u' →
     opens u n (length counts) = Some ports → opens u' n' (length counts) = Some ports' →
     (g, n) ≠ (g', n') → ports ## ports') ∧
  (∀ g n n' u u', node_of counts g n → node_of counts g n' →
     node_util cfg g n = Some u → node_util cfg g n' = Some u' → services_of u = services_of u').
Proof.
  intros Hp Hnn Ho Hf.
  destruct (config_nodes counts regions offset false) as (cfg & Hcfg & Hcell); [done..| |].
  { intros g n cnt Hg Hn. destruct (local_deployment counts offset Hnn Ho g n cnt) as (u & -> & _); by eauto. }
  exists cfg. split; [done|].
  assert (∀ g n u, node_of counts g n → node_util cfg g n = Some u → ∃ cnt, at_ counts g = Some cnt ∧ 0 <= n < cnt ∧
    opens u n (length counts) = Some (local_plan counts g n offset) ∧
    services_of u = local_services counts offset g cnt) as Hnode.
  { intros g n u (H0 & cnt & Hg & Hlt) Hu. rewrite (Hcell _ _ _ Hg) in Hu by lia.
    destruct (local_deployment counts offset Hnn Ho g n cnt) as (u' & Hu' & ?); [done|lia|done|].
    rewrite Hu' in Hu. simplify_eq. exists cnt. split_and!; [done|lia|lia|naive_solver..]. }
  split_and!.
  - intros g n (H0 & cnt & Hg & Hlt).
    destruct (local_deployment counts offset Hnn Ho g n cnt) as (u & Hu & Hop & _); [done|lia|done|].
    exists u, (local_plan counts g n offset). rewrite (Hcell _ _ _ Hg) by lia. split_and!; [done..| |].
    + by eapply local_plan_NoDup.
    + eapply Forall_impl; [by eapply (local_plan_range _ g n cnt offset)|]. cbn; intros; lia.
  - intros g n g' n' u u' ps ps' H1 H2 Hu Hu' Hps Hps' Hne p Hin Hin'.
    destruct (Hnode _ _ _ H1 Hu) as (cnt & Hg & Hn & Hop & _).
    destruct (Hnode _ _ _ H2 Hu') as (cnt' & Hg' & Hn' & Hop' & _). simplify_eq.
    apply elem_local_plan in Hin, Hin'. apply Hne.
    destruct (position_inj counts g n cnt g' n' cnt') as [-> ->]; [done..| |done].
    eapply (plan_position (Z.of_nat (length counts)) (all_nodes counts) offset);
      [by eapply before_bounds..|lia|exact Hin|exact Hin'].
  - intros g n n' u u' H1 H2 Hu Hu'.
    destruct (Hnode _ _ _ H1 Hu) as (cnt & Hg & _ & _ & ->).
    destruct (Hnode _ _ _ H2 Hu') as (cnt' & Hg' & _ & _ & ->). congruence.
Qed.

(** Three groups of four, four and seven nodes, the groups met in another order. *)
Lemma local_ports_disjoint_witness :
  ∃ cfg, InitPortsConfig 51200 [(2, 7); (0, 4); (1, 4)] false = Some cfg ∧
  (∀ g n, node_of [4; 4; 7] g n → ∃ u ports,
     node_util cfg g n = Some u ∧ opens u n 3 = Some ports ∧
     NoDup ports ∧ Forall (λ p, 51200 <= p < 65535) ports).
Proof.
  destruct (local_ports_disjoint [4; 4; 7] [(2, 7); (0, 4); (1, 4)] 51200) as (cfg & Hc & Hn & _).
  - change (region_map [4; 4; 7]) with ([(0, 4); (1, 4); (2, 7)] : list (Z * Z)).
    rewrite (Permutation_cons_append [(0, 4); (1, 4)] (2, 7)). reflexivity.
  - repeat constructor; lia.
  - lia.
  - vm_compute. discriminate.
  - exists cfg. split; [exact Hc|exact Hn].
Defined.

(** One node per host: every node opens the same ports, which are distinct. *)
Theorem distributed_ports counts regions offset :
  regions ≡ₚ region_map counts → Forall (Z.le 0) counts → 0 < offset →
  offset + 7 + 2 * Z.of_nat (length counts) <= 65535 →
  ∃ cfg ports, InitPortsConfig offset regions true = Some cfg ∧
    NoDup ports ∧ Forall (λ p, offset <= p < 65535) ports ∧
    ∀ g n, node_of counts g n → ∃ u, node_util cfg g n = Some u ∧ opens u n (length counts) = Some ports.
Proof.
  intros Hp Hnn Ho Hf.
  destruct (config_nodes counts regions offset true) as (cfg & Hcfg & Hcell); [done..| |].
  { intros g n cnt Hg Hn. destruct (distributed_deployment counts offset Hnn Ho g n cnt) as (u & -> & _); by eauto. }
  exists cfg, (distributed_plan counts offset). split_and!; [done|..].
  - unfold distributed_plan. apply NoDup_app. split_and!.
    + by destruct (NoDup_seqZ_at offset 1 7).
    + intros p (k & -> & Hk)%list_elem_of_fmap Hin. apply elem_of_seqZ in Hk. unfold stride in Hin.
      apply elem_of_app in Hin as [Hin|Hin]; apply elem_of_seqZ in Hin; lia.
    + apply NoDup_app. split_and!; [apply NoDup_seqZ| |apply NoDup_seqZ].
      intros p H1 H2. apply elem_of_seqZ in H1, H2. lia.
  - apply Forall_forall. intros p. unfold distributed_plan. rewrite !elem_of_app.
    intros [(k & -> & Hk)%list_elem_of_fmap|[Hin|Hin]].
    + apply elem_of_seqZ in Hk. unfold stride. lia.
    + apply elem_of_seqZ in Hin. lia.
    + apply elem_of_seqZ in Hin. lia.
  - intros g n (H0 & cnt & Hg & Hlt).
    destruct (distributed_deployment counts offset Hnn Ho g n cnt) as (u & Hu & Hop & _); [done|lia|done|].
    exists u. rewrite (Hcell _ _ _ Hg) by lia. done.
Qed.

(** Ports that do not fit are not reported when they are computed: the index -1
    of the failed allocation is stored, and the process ends when the service is
    set up. *)
Lemma missing_ports_found_late :
  (u ← NewZMQPortUtil [4; 4; 7] 2 6 65480 false;
   Some (_remoteServicePortMapper u !! REMOTE_FRAGMENT_RECEIVE,
         getRemoteServicePort u REMOTE_FRAGMENT_RECEIVE 0,
         getLocalServicePorts u SERVER_TO_SERVER 0)) =
  Some (Some (-1), None, Some (seqZ 65488 7)).
Proof. vm_compute. reflexivity. Qed.

(** ** The services between groups, as other components use them *)
Definition fits (counts : list Z) (offset : Z) (distributed : bool) : Prop :=
  if distributed then offset + 7 + 2 * Z.of_nat (length counts) <= 65535
  else offset + (7 + 2 * Z.of_nat (length counts)) * all_nodes counts <= 65535.

Lemma config_remote counts regions offset distributed :
  regions ≡ₚ region_map counts → Forall (Z.le 0) counts → 0 < offset → fits counts offset distributed →
  ∃ cfg, InitPortsConfig offset regions distributed = Some cfg ∧
    ∀ g n, node_of counts g n → ∃ u, node_util cfg g n = Some u ∧ remote_ports_are counts offset u distributed g n.
Proof.
  intros Hp Hnn Ho Hf.
  assert (∀ g n cnt, at_ counts g = Some cnt → 0 <= n < cnt →
    ∃ u, NewZMQPortUtil counts g n offset distributed = Some u ∧ remote_ports_are counts offset u distributed g n) as Hu.
  { intros g n cnt Hg Hn. destruct distributed.
    - destruct (distributed_deployment counts offset Hnn Ho g n cnt) as (u & ? & _ & ? & _); eauto.
    - destruct (local_deployment counts offset Hnn Ho g n cnt) as (u & ? & _ & _ & ?); eauto. }
  destruct (config_nodes counts regions offset distributed) as (cfg & Hcfg & Hcell); [done..| |].
  { intros g n cnt Hg Hn. destruct (Hu g n cnt Hg Hn) as (u & -> & _). eauto. }
  exists cfg. split; [done|]. intros g n (H0 & cnt & Hg & Hlt).
  rewrite (Hcell _ _ _ Hg) by lia. apply (Hu g n cnt); [done|lia].
Qed.

(** The map of a service's ports holds the port of every group. *)
Lemma remote_ports_lookup u t m i :
  getRemoteServicePorts u t = Some m → m !! i = getRemoteServicePort u t i.
Proof.
  unfold getRemoteServicePorts, getRemoteServicePort. intros H.
  destruct (_remoteServicePortMapper u !! t) as [j|]; [|done]. cbn [mbind option_bind] in *.
  destruct (getPorts (_portCalculator u) j) as [ret|]; [|done]. cbn [mbind option_bind] in *.
  apply (inj Some) in H. subst m. apply option_eq. intros p. rewrite at_Some.
  rewrite <-elem_of_list_to_map.
  - rewrite elem_of_lookup_imap. split.
    + intros (k & x & [= -> ->] & Hk). rewrite Nat2Z.id. split; [lia|done].
    + intros [H0 Hl]. exists (Z.to_nat i), p. split; [|done]. by rewrite Z2Nat.id.
  - apply (region_map_keys ret).
Qed.

Lemma remote_ports_map counts offset u distributed g n t k :
  0 < Z.of_nat (length counts) → remote_ports_are counts offset u distributed g n →
  remote_map !! t = Some (7 + k) → 0 <= k < 2 →
  ∃ m, getRemoteServicePorts u t = Some m ∧
    ∀ i, m !! i = if bool_decide (0 <= i < Z.of_nat (length counts))
                  then Some (remote_port counts offset distributed g n k i) else None.
Proof.
  intros Hl Hu Ht Hk. pose proof (Hu t k 0 Ht Hk) as H0. rewrite bool_decide_true in H0 by lia.
  assert (∃ m, getRemoteServicePorts u t = Some m) as [m Hm].
  { unfold getRemoteServicePort in H0. unfold getRemoteServicePorts.
    destruct (_remoteServicePortMapper u !! t) as [j|]; [|done]. cbn [mbind option_bind] in *.
    destruct (getPorts (_portCalculator u) j) as [ret|]; [|done]. by eexists. }
  exists m. split; [done|]. intros i. rewrite (remote_ports_lookup _ _ _ _ Hm). by apply Hu.
Qed.

(** Below 65536, positive, different for the two services, and on one host
    different for different nodes. *)
Lemma remote_port_facts counts offset distributed g n :
  Forall (Z.le 0) counts → 0 < offset → fits counts offset distributed → node_of counts g n →
  ∀ k i, 0 <= k < 2 → 0 <= i < Z.of_nat (length counts) →
    0 < remote_port counts offset distributed g n k i < 65536.
Proof.
  intros Hnn Ho Hf (H0 & cnt & Hg & Hlt) k i Hk Hi.
  pose proof (before_bounds _ _ _ _ Hnn Hg (conj H0 Hlt)) as Hq. unfold remote_port, fits in *.
  set (q := before counts (Z.to_nat g) + n) in *. set (T := all_nodes counts) in *.
  set (R := Z.of_nat (length counts)) in *. destruct distributed.
  - assert (k = 0 ∨ k = 1) as [-> | ->] by lia; lia.
  - clearbody q T R. assert (0 <= R * (T - 1 - q)) by (apply Z.mul_nonneg_nonneg; lia).
    assert (0 <= R * q) by (apply Z.mul_nonneg_nonneg; lia). assert (k = 0 ∨ k = 1) as [-> | ->] by lia; lia.
Qed.

Lemma remote_port_services counts offset distributed g n i :
  Forall (Z.le 0) counts → node_of counts g n → 0 <= i < Z.of_nat (length counts) →
  remote_port counts offset distributed g n 0 i ≠ remote_port counts offset distributed g n 1 i.
Proof.
  intros Hnn (H0 & cnt & Hg & Hlt) Hi.
  pose proof (before_bounds _ _ _ _ Hnn Hg (conj H0 Hlt)) as Hq. unfold remote_port.
  destruct distributed; [lia|]. assert (0 < Z.of_nat (length counts) * all_nodes counts) by nia. lia.
Qed.

Lemma remote_port_inj counts offset g n n' k i :
  0 < Z.of_nat (length counts) → remote_port counts offset false g n k i = remote_port counts offset false g n' k i → n = n'.
Proof. unfold remote_port. intros. nia. Qed.
