(* ===== verification/ThreadPool.v ===== *)
(** * ThreadPool: common/thread_pool_light.h

    The pool that runs the parallel parts of the peer: signature checks, erasure
    coding and Merkle trees.  A pool has two queues (ordinary and emergency
    tasks), a semaphore that is signalled once per task, and workers.  The
    interleavings of producers, workers and the destructor are the runs of a step
    relation: every read of an atomic, every operation on a queue and on the
    semaphore is one step.  The queue (moodycamel::ConcurrentQueue) hands out any
    element it holds, so the order of tasks is open, and a [try_dequeue] fails
    only on an empty queue (the library allows it to fail while another thread
    is enqueuing, upon which a worker tries again); the semaphore is a counter. *)

From S2P Require Import Prelude.

(** ** Splitting a loop: [push_loop] *)

(** The blocks pushed for the range [[first, last)]; a reversed range is
    swapped.  Indices and sizes stay in the range of their types. *)
Definition push_loop (thread_count : nat) (first_index_ index_after_last_ : Z) (num_blocks_ : nat) : list (Z * Z) :=
  let num_blocks := if num_blocks_ =? 0 then thread_count else num_blocks_ in
  let '(first_index, index_after_last) :=
    if (index_after_last_ <? first_index_)%Z then (index_after_last_, first_index_) else (first_index_, index_after_last_) in
  let total_size := Z.to_nat (index_after_last - first_index) in
  let block_size := total_size / num_blocks in
  let '(block_size, num_blocks) :=
    if block_size =? 0 then (1, if 1 <? total_size then total_size else 1) else (block_size, num_blocks) in
  if 0 <? total_size then
    (λ i, ((Z.of_nat (i * block_size) + first_index)%Z,
           if i =? num_blocks - 1 then index_after_last else (Z.of_nat ((i + 1) * block_size) + first_index)%Z))
      <$> seq 0 num_blocks
  else [].

(** [determine_thread_count]: the hardware's number when none is asked for. *)
Definition determine_thread_count (hardware_concurrency thread_count_ : nat) : nat :=
  if 0 <? thread_count_ then thread_count_
  else if 0 <? hardware_concurrency then hardware_concurrency else 1.

(** ** The pool *)
Section pool.
Context {T : Type}.

(** Where a worker is in [worker()]: before the test of [running], waiting on the
    semaphore, trying the emergency queue, trying the other queue, holding a
    task, running it, returned. *)
Inductive wstate := Check | Wait | Fetch | FetchLow | Got (t : T) | Run (t : T) | Exited.

(** [signals] counts calls of [sema.signal] that have still to be made by the
    threads that push and by the destructor; [executed] lists the tasks run. *)
Record Pool := mkPool {
  running : bool;
  sema : nat;
  signals : nat;
  priTasks : list T;
  tasks : list T;
  workers : list wstate;
  executed : list T;
}.

(** The constructor starts the threads. *)
Definition newPool (thread_count : nat) : Pool := mkPool true 0 0 [] [] (replicate thread_count Check) [].

Definition push_task (t : T) (p : Pool) : Pool :=
  mkPool (running p) (sema p) (S (signals p)) (priTasks p) (tasks p ++ [t]) (workers p) (executed p).

Definition push_emergency_task (t : T) (p : Pool) : Pool :=
  mkPool (running p) (sema p) (S (signals p)) (priTasks p ++ [t]) (tasks p) (workers p) (executed p).

(** [destroy_threads]: the flag first, then one signal per thread. *)
Definition destroy_threads (p : Pool) : Pool :=
  mkPool false (sema p) (signals p + length (workers p)) (priTasks p) (tasks p) (workers p) (executed p).

Definition signal (p : Pool) : option Pool :=
  match signals p with
  | 0 => None
  | S k => Some (mkPool (running p) (S (sema p)) k (priTasks p) (tasks p) (workers p) (executed p))
  end.

(** Worker [i] goes on to [w]; nothing else changes. *)
Definition move (p : Pool) (i : nat) (w : wstate) : Pool :=
  mkPool (running p) (sema p) (signals p) (priTasks p) (tasks p) (<[i := w]> (workers p)) (executed p).

(** One step of worker [i]; [pick] is the place of the element a queue hands out.
    [None] when the worker cannot move. *)
Definition worker_step (pick i : nat) (p : Pool) : option Pool :=
  match workers p !! i with
  | Some Check => Some (move p i (if running p then Wait else Exited))
  | Some Wait =>
      match sema p with
      | 0 => None
      | S k => Some (mkPool (running p) k (signals p) (priTasks p) (tasks p) (<[i := Fetch]> (workers p)) (executed p))
      end
  | Some Fetch =>
      if running p then
        match priTasks p with
        | [] => Some (move p i FetchLow)
        | _ =>
            t ← priTasks p !! pick;
            Some (mkPool (running p) (sema p) (signals p) (delete pick (priTasks p)) (tasks p)
                    (<[i := Got t]> (workers p)) (executed p))
        end
      else Some (move p i Exited)
  | Some FetchLow =>
      match tasks p with
      | [] => Some (move p i Fetch)
      | _ =>
          t ← tasks p !! pick;
          Some (mkPool (running p) (sema p) (signals p) (priTasks p) (delete pick (tasks p))
                  (<[i := Got t]> (workers p)) (executed p))
      end
  | Some (Got t) => Some (move p i (if running p then Run t else Exited))
  | Some (Run t) =>
      Some (mkPool (running p) (sema p) (signals p) (priTasks p) (tasks p) (<[i := Check]> (workers p)) (executed p ++ [t]))
  | Some Exited | None => None
  end.

(** What the pool does by itself, and what its users do. *)
Inductive quiet : Pool → Pool → Prop :=
| quiet_signal p p' : signal p = Some p' → quiet p p'
| quiet_worker pick i p p' : worker_step pick i p = Some p' → quiet p p'.

Inductive user := Push (emergency : bool) (t : T) | Destroy.

Definition user_step (u : user) (p : Pool) : Pool :=
  match u with
  | Push true t => push_emergency_task t p
  | Push false t => push_task t p
  | Destroy => destroy_threads p
  end.

(** [reaches us p]: the users have done [us] on a pool, which is now [p]. *)
Inductive reaches (n : nat) : list user → Pool → Prop :=
| reaches_new : reaches n [] (newPool n)
| reaches_quiet us p p' : reaches n us p → quiet p p' → reaches n us p'
| reaches_user us p u : reaches n us p → reaches n (us ++ [u]) (user_step u p).

Definition pushed (us : list user) : list T :=
  omap (λ u, match u with Push _ t => Some t | Destroy => None end) us.

Definition destroyed (us : list user) : bool :=
  existsb (λ u, match u with Push _ _ => false | Destroy => true end) us.
End pool.
Arguments wstate : clear implicits.
Arguments Pool : clear implicits.
Arguments user : clear implicits.

(** ** A loop is split into blocks that cover it *)

(** Consecutive non-empty blocks from [a] to [b]. *)
Inductive covers : Z → Z → list (Z * Z) → Prop :=
| covers_one a b : (a < b)%Z → covers a b [(a, b)]
| covers_cons a m b l : (a < m)%Z → covers m b l → covers a b ((a, m) :: l).

Lemma covers_seq first last (bs n : nat) :
  0 < bs → 0 < n → (Z.of_nat ((n - 1) * bs) + first < last)%Z → ∀ i, i < n →
  covers (Z.of_nat (i * bs) + first) last
    ((λ j, ((Z.of_nat (j * bs) + first)%Z,
            if j =? n - 1 then last else (Z.of_nat ((j + 1) * bs) + first)%Z)) <$> seq i (n - i)).
Proof.
  intros Hbs Hn Hlast i Hi. remember (n - i) as k eqn:Hk. revert i Hi Hk.
  induction k as [|k IH]; intros i Hi Hk; [lia|]. cbn [seq]. rewrite fmap_cons.
  destruct (Nat.eqb_spec i (n - 1)) as [->|Hne].
  - replace k with 0 by lia. cbn. apply covers_one. lia.
  - apply covers_cons; [nia|]. replace (i + 1) with (S i) by lia. apply IH; lia.
Qed.

(** Whatever the number of blocks, [push_loop] pushes consecutive non-empty
    blocks from the first index to the last; nothing for an empty range. *)
Theorem push_loop_covers threads first last num :
  0 < threads →
  let a := Z.min first last in let b := Z.max first last in
  if (first =? last)%Z then push_loop threads first last num = []
  else covers a b (push_loop threads first last num).
Proof.
  intros Ht a b. unfold push_loop.
  set (blocks := if num =? 0 then threads else num).
  assert (0 < blocks) as Hb by (unfold blocks; destruct (Nat.eqb_spec num 0); lia).
  assert ((if (last <? first)%Z then (last, first) else (first, last)) = (a, b)) as ->
    by (unfold a, b; destruct (Z.ltb_spec last first); f_equal; lia).
  destruct (Z.eqb_spec first last) as [->|Hne].
  { unfold a, b. rewrite Z.min_id, Z.max_id, Z.sub_diag. cbn. by rewrite Nat.div_0_l by lia. }
  set (total := Z.to_nat (b - a)). assert (0 < total) as Htot by (unfold total, a, b; lia).
  rewrite (proj2 (Nat.ltb_lt 0 total)) by done.
  pose proof (Nat.div_mod_eq total blocks) as Hdm. pose proof (Nat.mod_upper_bound total blocks).
  destruct (Nat.eqb_spec (total / blocks) 0) as [Hz|Hz].
  - set (n := if 1 <? total then total else 1).
    assert (n = total) as -> by (unfold n; destruct (Nat.ltb_spec 1 total); lia).
    pose proof (covers_seq a b 1 total ltac:(lia) ltac:(lia) ltac:(unfold total in *; lia) 0 ltac:(lia)) as H0.
    rewrite Nat.sub_0_r in H0. exact H0.
  - pose proof (covers_seq a b (total / blocks) blocks ltac:(lia) ltac:(lia)) as H0.
    specialize (H0 ltac:(unfold total in *; nia) 0 ltac:(lia)). rewrite Nat.sub_0_r in H0. exact H0.
Qed.

(** ** Counting workers *)
Section proofs.
Context {T : Type}.

Lemma sum_insert {A} (f : A → nat) (l : list A) i x y :
  l !! i = Some x → sum_list (f <$> <[i := y]> l) + f x = sum_list (f <$> l) + f y.
Proof.
  revert i. induction l as [|z l IH]; intros [|i] H; simplify_eq/=; [lia|]. specialize (IH _ H). lia.
Qed.

Definition fetching (w : wstate T) : nat := match w with Fetch | FetchLow => 1 | _ => 0 end.
Definition waits (w : wstate T) : nat := match w with Wait => 1 | _ => 0 end.
Definition hold (w : wstate T) : list T := match w with Got t | Run t => [t] | _ => [] end.

Definition queued (p : Pool T) : nat := length (priTasks p) + length (tasks p).
Definition in_hand (p : Pool T) : list T := w ← workers p; hold w.

Lemma bind_insert {A B} (f : A → list B) (l : list A) i x y :
  l !! i = Some x → (<[i := y]> l ≫= f) ++ f x ≡ₚ (l ≫= f) ++ f y.
Proof.
  revert i. induction l as [|z l IH]; intros [|i] H; simplify_eq/=.
  - rewrite (Permutation_app_comm _ (f x)), (Permutation_app_comm _ (f y)). apply Permutation_app_swap_app.
  - rewrite <-!app_assoc. by rewrite (IH _ H).
Qed.

Lemma bind_moved {A B} (f : A → list B) (l : list A) i x y :
  l !! i = Some x → f x = [] → (<[i := y]> l ≫= f) ≡ₚ f y ++ (l ≫= f).
Proof.
  intros H E. pose proof (bind_insert f l i x y H) as Hp. rewrite E, app_nil_r in Hp.
  by rewrite Hp, Permutation_app_comm.
Qed.

Lemma delete_perm {A} (l : list A) k x : l !! k = Some x → x :: delete k l ≡ₚ l.
Proof. intros H. symmetry. by apply delete_Permutation. Qed.

(** ** The invariant *)

(** While the pool runs, every queued task has its signal: made and not yet taken,
    still to be made, or taken by a worker that looks for a task.  Nothing is lost
    or run twice.  After the destructor has cleared the flag there are signals
    enough for every worker that waits. *)
Record pool_inv (n : nat) (us : list (user T)) (p : Pool T) : Prop := {
  inv_workers : length (workers p) = n;
  inv_running : running p = negb (destroyed us);
  inv_signals : running p = true → sema p + signals p + sum_list (fetching <$> workers p) = queued p;
  inv_alive : running p = true → Forall (λ w, w ≠ Exited) (workers p);
  inv_stopping : running p = false → sum_list (waits <$> workers p) ≤ sema p + signals p;
  inv_tasks : ∃ lost, (running p = true → lost = []) ∧
    pushed us ≡ₚ lost ++ executed p ++ in_hand p ++ priTasks p ++ tasks p
}.

Lemma waits_le (l : list (wstate T)) : sum_list (waits <$> l) ≤ length l.
Proof. induction l as [|w l IH]; csimpl; [done|]. destruct w; cbn [waits]; lia. Qed.

Lemma inv_new n : pool_inv n [] (newPool n).
Proof.
  split; cbn; try done.
  - by rewrite length_replicate.
  - intros _. unfold queued. cbn. by induction n.
  - intros _. by apply Forall_replicate.
  - exists []. split; [done|]. unfold in_hand. cbn. by induction n.
Qed.

Lemma pushed_snoc us u : pushed (us ++ [u]) = pushed us ++ match u with Push _ t => [t : T] | Destroy => [] end.
Proof. unfold pushed. rewrite omap_app. by destruct u. Qed.

Lemma destroyed_snoc us (u : user T) : destroyed (us ++ [u]) = destroyed us || match u with Push _ _ => false | Destroy => true end.
Proof. unfold destroyed. rewrite existsb_app. cbn. by rewrite orb_false_r. Qed.

Lemma inv_user n us p u : pool_inv n us p → pool_inv n (us ++ [u]) (user_step u p).
Proof.
  intros [Hw Hr Hs Ha Hst (lost & Hl & Ht)]. destruct u as [[|] t|].
  - split; cbn; rewrite ?destroyed_snoc, ?orb_false_r; try done.
    + intros Hrun. specialize (Hs Hrun). unfold queued in *. cbn. rewrite length_app. cbn. lia.
    + intros Hrun. specialize (Hst Hrun). lia.
    + exists lost. split; [done|]. rewrite pushed_snoc, Ht. unfold in_hand. cbn.
      rewrite <-!app_assoc. do 4 f_equiv. apply Permutation_app_comm.
  - split; cbn; rewrite ?destroyed_snoc, ?orb_false_r; try done.
    + intros Hrun. specialize (Hs Hrun). unfold queued in *. cbn. rewrite length_app. cbn. lia.
    + intros Hrun. specialize (Hst Hrun). lia.
    + exists lost. split; [done|]. rewrite pushed_snoc, Ht. unfold in_hand. cbn. by rewrite <-!app_assoc.
  - split; cbn; rewrite ?destroyed_snoc, ?orb_true_r; try done.
    + intros _. pose proof (waits_le (workers p)). lia.
    + exists lost. split; [done|]. rewrite pushed_snoc, app_nil_r. done.
Qed.

Lemma hand_insert p i x y :
  workers p !! i = Some x → (<[i := y]> (workers p) ≫= hold) ++ hold x ≡ₚ in_hand p ++ hold y.
Proof. apply bind_insert. Qed.

Lemma inv_move n us p i x y :
  workers p !! i = Some x → pool_inv n us p →
  (running p = true → fetching x = fetching y) → waits y = 0 ∨ running p = true → hold x = hold y → (running p = true → y ≠ Exited) →
  pool_inv n us (move p i y).
Proof.
  intros Hi [Hw Hr Hs Ha Hst (lost & Hl & Ht)] Hf Hwt Hh He.
  pose proof (sum_insert fetching _ _ _ y Hi) as Hsf. pose proof (sum_insert waits _ _ _ y Hi) as Hsw.
  split; cbn; try done.
  - by rewrite length_insert.
  - intros Hrun. specialize (Hs Hrun). specialize (Hf Hrun). unfold queued in *. cbn. lia.
  - intros Hrun. apply Forall_insert; auto.
  - intros Hrun. specialize (Hst Hrun). destruct Hwt; [lia|congruence].
  - exists lost. split; [done|]. rewrite Ht. do 2 f_equiv. f_equiv.
    pose proof (hand_insert p i x y Hi) as Hp. rewrite Hh in Hp. unfold in_hand. cbn.
    by apply Permutation_app_inv_r in Hp.
Qed.
(** A worker takes a task from a queue. *)
Lemma inv_take n us p i x t pri' tasks' :
  workers p !! i = Some x → pool_inv n us p → fetching x = 1 → t :: pri' ++ tasks' ≡ₚ priTasks p ++ tasks p →
  pool_inv n us (mkPool (running p) (sema p) (signals p) pri' tasks' (<[i := Got t]> (workers p)) (executed p)).
Proof.
  intros Hi [Hw Hr Hs Ha Hst (lost & Hl & Ht)] Hf Hq.
  pose proof (sum_insert fetching _ _ _ (Got t) Hi) as Hsf. pose proof (sum_insert waits _ _ _ (Got t) Hi) as Hsw.
  pose proof (Permutation_length Hq) as Hlen. cbn in Hlen, Hsf, Hsw. rewrite !length_app in Hlen.
  split; cbn; try done.
  - by rewrite length_insert.
  - intros Hrun. specialize (Hs Hrun). unfold queued in *. cbn. lia.
  - intros Hrun. apply Forall_insert; auto. 
  - intros Hrun. specialize (Hst Hrun). lia.
  - exists lost. split; [done|]. rewrite Ht. do 2 f_equiv. unfold in_hand. cbn.
    rewrite (bind_moved hold _ _ _ (Got t) Hi) by by destruct x. cbn. rewrite <-Hq. symmetry.
    apply Permutation_middle.
Qed.

(** A worker takes a signal, runs its task, or finds the pool destroyed. *)
Lemma inv_wait n us p i k :
  workers p !! i = Some Wait → pool_inv n us p → sema p = S k →
  pool_inv n us (mkPool (running p) k (signals p) (priTasks p) (tasks p) (<[i := Fetch]> (workers p)) (executed p)).
Proof.
  intros Hi [Hw Hr Hs Ha Hst (lost & Hl & Ht)] Hse.
  pose proof (sum_insert fetching _ _ _ Fetch Hi) as Hsf. pose proof (sum_insert waits _ _ _ Fetch Hi) as Hsw.
  cbn in Hsf, Hsw. split; cbn; try done.
  - by rewrite length_insert.
  - intros Hrun. specialize (Hs Hrun). unfold queued in *. cbn. lia.
  - intros Hrun. apply Forall_insert; auto.
  - intros Hrun. specialize (Hst Hrun). lia.
  - exists lost. split; [done|]. rewrite Ht. do 3 f_equiv. unfold in_hand. cbn.
    by rewrite (bind_moved hold _ _ _ Fetch Hi).
Qed.

Lemma inv_ran n us p i t :
  workers p !! i = Some (Run t) → pool_inv n us p →
  pool_inv n us (mkPool (running p) (sema p) (signals p) (priTasks p) (tasks p) (<[i := Check]> (workers p)) (executed p ++ [t])).
Proof.
  intros Hi [Hw Hr Hs Ha Hst (lost & Hl & Ht)].
  pose proof (sum_insert fetching _ _ _ Check Hi) as Hsf. pose proof (sum_insert waits _ _ _ Check Hi) as Hsw.
  cbn in Hsf, Hsw. split; cbn; try done.
  - by rewrite length_insert.
  - intros Hrun. specialize (Hs Hrun). unfold queued in *. cbn. lia.
  - intros Hrun. apply Forall_insert; auto.
  - intros Hrun. specialize (Hst Hrun). lia.
  - exists lost. split; [done|]. rewrite Ht. f_equiv. rewrite <-!app_assoc. f_equiv.
    pose proof (hand_insert p i _ Check Hi) as Hh. cbn in Hh. rewrite app_nil_r in Hh.
    rewrite <-Hh. unfold in_hand. cbn. rewrite <-app_assoc. cbn. symmetry. apply Permutation_middle.
Qed.

Lemma inv_dropped n us p i t :
  workers p !! i = Some (Got t) → pool_inv n us p → running p = false → pool_inv n us (move p i Exited).
Proof.
  intros Hi [Hw Hr Hs Ha Hst (lost & Hl & Ht)] Hrun.
  pose proof (sum_insert waits _ _ _ Exited Hi) as Hsw. cbn in Hsw.
  unfold move. split; cbn; rewrite ?Hrun; try done.
  - by rewrite length_insert.
  - by rewrite <-Hr.
  - intros _. specialize (Hst Hrun). lia.
  - exists (t :: lost). split; [done|]. rewrite Ht.
    pose proof (hand_insert p i _ Exited Hi) as Hh. cbn in Hh. rewrite app_nil_r in Hh.
    rewrite <-Hh. unfold in_hand. cbn. rewrite <-app_assoc. cbn.
    rewrite (Permutation_middle lost), (Permutation_middle (executed p)). do 2 f_equiv.
    symmetry. apply Permutation_middle.
Qed.

Lemma inv_worker n us p p' pick i :
  pool_inv n us p → worker_step pick i p = Some p' → pool_inv n us p'.
Proof.
  intros Hinv. unfold worker_step. destruct (workers p !! i) as [w|] eqn:Hi; [|done].
  destruct w as [| | | |t|t|].
  - intros [= <-]. eapply (inv_move _ _ _ _ _ _ Hi); try done; destruct (running p); auto.
  - destruct (sema p) as [|k] eqn:Hse; [done|]. intros [= <-]. by apply inv_wait.
  - destruct (running p) eqn:Hrun.
    + destruct (priTasks p) as [|t0 pri] eqn:Hp; [intros [= <-]; by apply (inv_move _ _ _ _ Fetch); auto|].
      rewrite <-Hp. destruct (priTasks p !! pick) as [t|] eqn:Ht; [|done]. cbn. intros [= <-].
      rewrite <-Hrun. apply (inv_take _ _ _ _ Fetch); [done..|]. by rewrite app_comm_cons, delete_perm.
    + intros [= <-]. apply (inv_move _ _ _ _ Fetch); auto; by rewrite ?Hrun.
  - destruct (tasks p) as [|t0 ts] eqn:Hp; [intros [= <-]; by apply (inv_move _ _ _ _ FetchLow); auto|].
    rewrite <-Hp. destruct (tasks p !! pick) as [t|] eqn:Ht; [|done]. cbn. intros [= <-].
    apply (inv_take _ _ _ _ FetchLow); [done..|]. by rewrite Permutation_middle, delete_perm.
  - destruct (running p) eqn:Hrun; intros [= <-]; [by apply (inv_move _ _ _ _ (Got t)); auto|].
    by eapply inv_dropped.
  - intros [= <-]. by apply inv_ran.
  - done.
Qed.

Lemma inv_quiet n us p p' : pool_inv n us p → quiet p p' → pool_inv n us p'.
Proof.
  intros Hinv Hq. inversion Hq as [p0 p1 H|pick i p0 p1 H]; subst; [|by eapply inv_worker].
  unfold signal in H. destruct (signals p) as [|k] eqn:Hk; [done|]. simplify_eq.
  destruct Hinv as [Hw Hr Hs Ha Hst Ht]. split; cbn; try done.
  - intros Hrun. specialize (Hs Hrun). unfold queued in *. cbn. lia.
  - intros Hrun. specialize (Hst Hrun). lia.
Qed.

Lemma reaches_inv n us (p : Pool T) : reaches n us p → pool_inv n us p.
Proof. induction 1; [apply inv_new|by eapply inv_quiet|by apply inv_user]. Qed.
(** ** The pool comes to rest *)

(** How far a worker is from the semaphore; a worker that has found the emergency
    queue empty has one more turn to make when the other queue is empty too. *)
Definition weight (q : list T) (w : wstate T) : nat :=
  match w with
  | Exited => 0 | Wait => 1 | Check => 2 | Run _ => 3 | Got _ => 4 | Fetch => 7
  | FetchLow => match q with [] => 8 | _ => 6 end
  end.

Definition measure (p : Pool T) : nat :=
  (10 + 3 * length (workers p)) * queued p + 10 * sema p + 11 * signals p +
  sum_list (weight (tasks p) <$> workers p).

Lemma weight_grows q q' (l : list (wstate T)) :
  sum_list (weight q' <$> l) ≤ sum_list (weight q <$> l) + 2 * length l.
Proof. induction l as [|w l IH]; csimpl; [lia|]. destruct w, q, q'; cbn [weight]; lia. Qed.

Lemma length_delete_lt {A} (l : list A) k x : l !! k = Some x → S (length (delete k l)) = length l.
Proof. intros H. rewrite <-(Permutation_length (delete_perm l k x H)). done. Qed.

Ltac pool_cbn := cbn -[sum_list fmap Nat.mul]; rewrite length_insert; unfold queued; cbn [priTasks tasks].

Lemma worker_measure n us p p' pick i :
  pool_inv n us p → worker_step pick i p = Some p' → measure p' < measure p.
Proof.
  intros Hinv. unfold worker_step, measure. destruct (workers p !! i) as [w|] eqn:Hi; [|done].
  assert (∀ y, sum_list (weight (tasks p) <$> <[i := y]> (workers p)) + weight (tasks p) w =
    sum_list (weight (tasks p) <$> workers p) + weight (tasks p) y) as Hsum by (intros; by apply sum_insert).
  destruct w as [| | | |t|t|].
  - intros [= <-]. pool_cbn.
    destruct (running p); [specialize (Hsum Wait)|specialize (Hsum Exited)]; cbn [weight] in Hsum; lia.
  - destruct (sema p) as [|k] eqn:Hse; [done|]. intros [= <-]. pool_cbn. specialize (Hsum Fetch); cbn [weight] in Hsum. lia.
  - destruct (running p) eqn:Hrun.
    + destruct (priTasks p) as [|t0 pri] eqn:Hp.
      * intros [= <-]. pool_cbn.
        rewrite Hp. specialize (Hsum FetchLow). cbn [weight] in Hsum.
        assert (tasks p ≠ []) as Hne.
        { intros Ht. pose proof (inv_signals _ _ _ Hinv Hrun) as Hs. unfold queued in Hs. rewrite Hp, Ht in Hs.
          pose proof (sum_insert fetching _ _ _ Check Hi) as Hc. cbn [fetching length] in *. lia. }
        destruct (tasks p); [done|]. lia.
      * rewrite <-Hp. destruct (priTasks p !! pick) as [t|] eqn:Ht; [|done]. cbn. intros [= <-].
        pool_cbn.
        pose proof (length_delete_lt _ _ _ Ht). specialize (Hsum (Got t)). cbn [weight] in Hsum. nia.
    + intros [= <-]. pool_cbn.
      specialize (Hsum Exited); cbn [weight] in Hsum. lia.
  - destruct (tasks p) as [|t0 ts] eqn:Hp.
    + intros [= <-]. pool_cbn.
      rewrite Hp. specialize (Hsum Fetch); cbn [weight] in Hsum. lia.
    + rewrite <-Hp in *. destruct (tasks p !! pick) as [t|] eqn:Ht; [|done]. cbn. intros [= <-].
      pool_cbn.
      pose proof (length_delete_lt _ _ _ Ht). specialize (Hsum (Got t)). cbn [weight] in Hsum.
      pose proof (weight_grows (tasks p) (delete pick (tasks p)) (<[i := Got t]> (workers p))) as Hg.
      rewrite length_insert in Hg. pose proof (lookup_lt_Some _ _ _ Hi). rewrite Hp in Hsum at 2. nia.
  - intros [= <-]. pool_cbn.
    destruct (running p); [specialize (Hsum (Run t))|specialize (Hsum Exited)]; cbn [weight] in Hsum; lia.
  - intros [= <-]. pool_cbn.
    specialize (Hsum Check); cbn [weight] in Hsum. lia.
  - done.
Qed.

Lemma quiet_measure n us p p' : pool_inv n us p → quiet p p' → measure p' < measure p.
Proof.
  intros Hinv Hq. inversion Hq as [p0 p1 H|pick i p0 p1 H]; subst; [|by eapply worker_measure].
  unfold signal in H. destruct (signals p) as [|k] eqn:Hk; [done|]. simplify_eq.
  unfold measure, queued. cbn -[sum_list fmap Nat.mul]. lia.
Qed.

Lemma quiet_run n us p k p' :
  pool_inv n us p → nsteps quiet k p p' → pool_inv n us p' ∧ k + measure p' ≤ measure p.
Proof.
  intros Hinv Hrun. induction Hrun as [p|k p p1 p' Hq _ IH]; [done|].
  destruct IH as [Hinv' Hm]; [by eapply inv_quiet|]. split; [done|].
  pose proof (quiet_measure _ _ _ _ Hinv Hq). lia.
Qed.
(** At rest: nothing can move. *)
Definition at_rest (p : Pool T) : Prop := ∀ p', ¬ quiet p p'.

Lemma rest_worker p i w :
  at_rest p → workers p !! i = Some w → (w = Wait ∧ sema p = 0) ∨ w = Exited.
Proof.
  intros Hr Hi. assert (worker_step 0 i p = None) as Hn.
  { destruct (worker_step 0 i p) as [p'|] eqn:E; [|done]. by destruct (Hr p' (quiet_worker _ _ _ _ E)). }
  unfold worker_step in Hn. rewrite Hi in Hn. destruct w as [| | | |t|t|]; try done.
  - left. by destruct (sema p).
  - destruct (running p); [|done]. by destruct (priTasks p).
  - by destruct (tasks p).
  - by right.
Qed.

Lemma rest_signals p : at_rest p → signals p = 0.
Proof.
  intros Hr. destruct (signals p) as [|k] eqn:E; [done|]. destruct (Hr (default p (signal p))).
  apply quiet_signal. unfold signal. by rewrite E.
Qed.

Lemma rest_running n us p :
  0 < n → pool_inv n us p → at_rest p → destroyed us = false →
  Forall (λ w, w = Wait) (workers p) ∧ executed p ≡ₚ pushed us.
Proof.
  intros Hn Hinv Hr Hd. assert (running p = true) as Hrun by (by rewrite (inv_running _ _ _ Hinv), Hd).
  assert (Forall (λ w, w = Wait ∧ sema p = 0) (workers p)) as Hall.
  { apply Forall_lookup. intros i w Hi. destruct (rest_worker _ _ _ Hr Hi) as [?| ->]; [done|].
    by pose proof (proj1 (Forall_lookup _ _) (inv_alive _ _ _ Hinv Hrun) _ _ Hi). }
  assert (sema p = 0) as Hs0.
  { pose proof (inv_workers _ _ _ Hinv) as Hl. destruct (workers p); [simpl in Hl; lia|].
    by apply Forall_cons in Hall as [[_ ?] _]. }
  assert (sum_list (fetching <$> workers p) = 0 ∧ in_hand p = []) as [Hf Hh].
  { unfold in_hand. clear -Hall. induction Hall as [|w l [-> _] _ [IH1 IH2]]; csimpl; [done|]. by rewrite IH1, IH2. }
  pose proof (inv_signals _ _ _ Hinv Hrun) as Hq. rewrite Hs0, (rest_signals _ Hr), Hf in Hq. unfold queued in Hq.
  destruct (inv_tasks _ _ _ Hinv) as (lost & Hlost & Ht). rewrite (Hlost Hrun), Hh in Ht.
  destruct (priTasks p), (tasks p); simpl in Hq; try lia.
  split; [by eapply Forall_impl; [exact Hall|]; intros ? []|]. rewrite Ht. cbn. by rewrite app_nil_r.
Qed.

Lemma rest_destroyed n us p :
  pool_inv n us p → at_rest p → destroyed us = true → Forall (λ w, w = Exited) (workers p).
Proof.
  intros Hinv Hr Hd. assert (running p = false) as Hrun by (by rewrite (inv_running _ _ _ Hinv), Hd).
  apply Forall_lookup. intros i w Hi. destruct (rest_worker _ _ _ Hr Hi) as [[-> Hs]|?]; [|done].
  pose proof (inv_stopping _ _ _ Hinv Hrun) as Hw. rewrite Hs, (rest_signals _ Hr) in Hw.
  pose proof (sum_insert waits _ _ _ Check Hi) as Hc. cbn in Hc. lia.
Qed.

(** C38: Whatever the interleaving of producers, workers and destructor, the pool
    left to itself comes to rest within a number of steps its state bounds.  If
    it was not destroyed, every task pushed, emergency or not, has then been run
    exactly once and all workers wait for the next one; if it was, every worker
    has returned. *)
Theorem pool_runs_every_task n us p k p' :
  0 < n → reaches n us p → nsteps quiet k p p' →
  k ≤ measure p ∧
  (at_rest p' →
   if destroyed us then Forall (λ w, w = Exited) (workers p')
   else executed p' ≡ₚ pushed us ∧ Forall (λ w, w = Wait) (workers p')).
Proof.
  intros Hn Hr Hrun. apply reaches_inv in Hr. destruct (quiet_run _ _ _ _ _ Hr Hrun) as [Hinv Hm].
  split; [lia|]. intros Hrest. destruct (destroyed us) eqn:Hd.
  - by eapply rest_destroyed.
  - destruct (rest_running n us p') as [??]; [done..|]. split; done.
Qed.
End proofs.

(** ** Runs of a concrete pool *)

(** A schedule: [None] is a signal, [Some i] a step of worker [i] that is handed
    the first element of a queue. *)
Fixpoint schedule {T} (l : list (option nat)) (p : Pool T) : option (Pool T) :=
  match l with
  | [] => Some p
  | a :: l => p' ← match a with None => signal p | Some i => worker_step 0 i p end; schedule l p'
  end.

Lemma schedule_nsteps {T} l (p p' : Pool T) : schedule l p = Some p' → nsteps quiet (length l) p p'.
Proof.
  revert p. induction l as [|a l IH]; intros p H; [simplify_eq/=; constructor|].
  cbn in H. destruct a as [i|].
  - destruct (worker_step 0 i p) as [p1|] eqn:E; [|done].
    eapply nsteps_l; [by apply (quiet_worker 0 i)|by apply IH].
  - destruct (signal p) as [p1|] eqn:E; [|done].
    eapply nsteps_l; [by apply quiet_signal|by apply IH].
Qed.

(** One worker, an ordinary task and an emergency task. *)
Definition two_pushed : Pool string := push_emergency_task "urgent"%string (push_task "later"%string (newPool 1)).
Definition two_run : Pool string := mkPool true 0 0 [] [] [Wait] ["urgent"; "later"]%string.

Lemma two_reaches : reaches 1 [Push false "later"; Push true "urgent"]%string two_pushed.
Proof.
  apply (reaches_user 1 [Push false "later"%string] _ (Push true "urgent"%string)).
  apply (reaches_user 1 [] _ (Push false "later"%string)). constructor.
Qed.

Lemma two_rest : at_rest two_run.
Proof.
  intros p' Hq. inversion Hq as [? ? H|pick i ? ? H]; subst; [done|].
  destruct i as [|i]; cbn in H; done.
Qed.

Definition two_schedule : list (option nat) :=
  [Some 0; None; None; Some 0; Some 0; Some 0; Some 0; Some 0; Some 0; Some 0; Some 0; Some 0; Some 0; Some 0].

Lemma pool_runs_every_task_witness :
  reaches 1 [Push false "later"; Push true "urgent"]%string two_pushed ∧
  schedule two_schedule two_pushed = Some two_run ∧
  executed two_run ≡ₚ pushed [Push false "later"; Push true "urgent"]%string.
Proof.
  split; [exact two_reaches|]. split; [vm_compute; reflexivity|].
  assert (schedule two_schedule two_pushed = Some two_run) as Hs by (vm_compute; reflexivity).
  exact (proj1 (proj2 (pool_runs_every_task 1 _ two_pushed _ two_run ltac:(lia) two_reaches
    (schedule_nsteps _ _ _ Hs)) two_rest)).
Defined.

(** The destructor does not wait for the tasks, although its comment says so: a
    task still queued when the flag is cleared is never run, and a worker that
    has just taken one drops it. *)
Theorem destructor_drops_tasks :
  let p := push_task "later"%string (newPool 1) in
  (∃ p', schedule [None; Some 0; None] (destroy_threads p) = Some p' ∧
     tasks p' = ["later"]%string ∧ workers p' = [Exited] ∧ executed p' = []) ∧
  (∃ p1 p', schedule [Some 0; None; Some 0; Some 0; Some 0] p = Some p1 ∧ workers p1 = [Got "later"%string] ∧
     schedule [None; Some 0] (destroy_threads p1) = Some p' ∧
     tasks p' = [] ∧ workers p' = [Exited] ∧ executed p' = []).
Proof. split; [eexists|do 2 eexists]; (split_and!; [vm_compute; reflexivity|..]); vm_compute; reflexivity. Qed.
