(* ===== verification/Peer.v ===== *)
(** * Peer: the modules put together

    [peer::core::ModuleCoordinator] (src/peer/core/module_coordinator.cpp).
    Blocks enter the content storage from local consensus and replication; the
    ordering service calls back with the next block of the global order; a
    serial executor (include/common/async_serial_executor.h) then runs the
    batch of that block and hands the block, with its results, to the cache the
    users read.  A block is one shared object: executing it changes what the
    content storage and the queues hold. *)

From S2P Require Import Prelude Zpp Proto DB ORM Samples Coordinator.
From S2P Require Import Deterministic DeterministicProofs Serial Crdt Mix Engine.
From S2P Require Import LRU Storage VectorOrder OrderAssigner InterChainOrder InterChainProofs GlobalOrder.

Section peer.
Context {E : Engine}.

Record Peer := mkPeer {
  workerCount : nat;
  _contentStorage : Storage MRRegion;
  _subscriberId : option nat;
  _db : database;
  _userRPCNotifier : Storage (LRUCache Z Block);
  tasks : list (nat * Z)
}.

Definition set_content (p : Peer) (s : Storage MRRegion) : Peer :=
  mkPeer (workerCount p) s (_subscriberId p) (_db p) (_userRPCNotifier p) (tasks p).

(** The state [NewModuleCoordinator] builds on a database: empty storages of
    the default size for every group, and a subscriber when this node is the
    leader of its group. *)
Definition newPeer (n groupCount : nat) (db : database) (isLeader : bool) : Peer :=
  let cs := newStorage (mkMR 256 ∅) groupCount in
  let ns := newStorage (newLRU 256 10) groupCount in
  if isLeader then mkPeer n (newSubscriber cs).1 (Some (newSubscriber cs).2) db ns []
  else mkPeer n cs None db ns [].

(** The block after its batch: the requests moved back, and the two vectors the
    engine fills. *)
Definition executed_block (blk : Block) (res : list (Envelop * TxReadWriteSet * bool)) : Block :=
  mkBlock (header blk) (mkBody ((λ x, x.1.1) <$> res))
    (mkExecuteResult ((λ x, x.1.2) <$> res) ((λ x, Z.b2z x.2) <$> res)) (metadata blk).

(** Every handle on block [number] of region [r] sees the new contents. *)
Definition set_object (r : nat) (blk : Block) (s : Storage MRRegion) : Storage MRRegion :=
  let same (x : nat * Block) := bool_decide (x.1 = r ∧ number (header x.2) = number (header blk)) in
  mkStorage (newBlockFutexList s)
    ((λ q : list (nat * Block), (λ x, if same x then (r, blk) else x) <$> q) <$> subscriberList s)
    (alter (λ c, mkMR (_maxSize c) (alter (λ _, blk) (number (header blk)) (blockStorage c))) r (regions s)).

(** The call sleeps, the process dies, or it returns. *)
Inductive outcome := Waits | Dies | Done (ok : bool) (p : Peer).

Definition onConsensusBlockOrder (p : Peer) (regionId : nat) (blockId : Z) : outcome :=
  match waitForBlock (_contentStorage p) regionId (wrap64u blockId) with
  | Blocked => Waits
  | Returned _ None => Dies
  | Returned cs (Some realBlock) =>
      if negb (wrap32 (number (header realBlock)) =? blockId)%Z then Dies else
      match run_batch (workerCount p) (_db p) (userRequests (body realBlock)) with
      | None => Dies
      | Some (false, db', _) =>
          Done false (mkPeer (workerCount p) cs (_subscriberId p) db' (_userRPCNotifier p) (tasks p))
      | Some (true, db', res) =>
          let realBlock' := executed_block realBlock res in
          match insertBlockAndNotify (_userRPCNotifier p) regionId realBlock' with
          | None => Dies
          | Some ns => Done true (mkPeer (workerCount p) (set_object regionId realBlock' cs)
                                    (_subscriberId p) db' ns (tasks p))
          end
      end
  end.

(** [deliveredCallback]: add the task of a block to the serial executor. *)
Definition deliveredCallback (p : Peer) (chainId : nat) (blockNumber : Z) : Peer :=
  mkPeer (workerCount p) (_contentStorage p) (_subscriberId p) (_db p) (_userRPCNotifier p)
    (tasks p ++ [(chainId, blockNumber)]).

Definition pop_task (p : Peer) : Peer :=
  mkPeer (workerCount p) (_contentStorage p) (_subscriberId p) (_db p) (_userRPCNotifier p) (tail (tasks p)).

(** [AsyncSerialExecutor::run]: the task at the front, to its end.  A task that
    sleeps keeps the executor; its place in the queue stands for it. *)
Definition run_task (p : Peer) : option Peer :=
  match tasks p with
  | [] => Some p
  | (r, b) :: _ =>
      match onConsensusBlockOrder p r b with
      | Waits => Some p
      | Dies => None
      | Done _ p' => Some (pop_task p')
      end
  end.

(** One round of [contentLeaderReceiverLoop]: the call of [voteNewBlock] it
    makes, if a block is waiting. *)
Definition contentLeaderReceiverLoop (p : Peer) : Peer * option (Z * Z) :=
  match _subscriberId p with
  | None => (p, None)
  | Some id =>
      match subscriberWaitForBlock (_contentStorage p) id with
      | (cs, (regionId, Some blk)) => (set_content p cs, Some (regionId, wrap32 (number (header blk))))
      | (cs, (_, None)) => (set_content p cs, None)
      end
  end.

(** What happens at a peer, one atomic action after the other. *)
Inductive event :=
| Store (r : nat) (blk : Block)
| Order (r : nat) (b : Z)
| RunTask
| Poll.

Definition peer_step (p : Peer) (e : event) : option Peer :=
  match e with
  | Store r blk => cs ← insertBlockAndNotify (_contentStorage p) r blk; Some (set_content p cs)
  | Order r b => Some (deliveredCallback p r b)
  | RunTask => run_task p
  | Poll => Some (contentLeaderReceiverLoop p).1
  end.

Fixpoint peer_run (p : Peer) (es : list event) : option Peer :=
  match es with
  | [] => Some p
  | e :: es => p' ← peer_step p e; peer_run p' es
  end.

(** The blocks the ordering service has called back with. *)
Fixpoint ordered (es : list event) : list (nat * Z) :=
  match es with
  | [] => []
  | Order r b :: es => (r, b) :: ordered es
  | _ :: es => ordered es
  end.

(** ** The ledger: the reference execution *)

(** [chain r b] are the requests of block [b] of region [r].  The ledger runs
    the blocks of an order one after the other, with one worker; it records for
    every block which of its requests commit. *)
Context (chain : nat → Z → list Envelop).

Fixpoint ledger (db : database) (l : list (nat * Z)) : option (database * list (nat * Z * list bool)) :=
  match l with
  | [] => Some (db, [])
  | (r, b) :: l =>
      match verdict (run_batch 1 db (chain r (wrap64u b))) with
      | None => None
      | Some (_, db', flags) =>
          match ledger db' l with
          | None => None
          | Some (db'', tr) => Some (db'', (r, b, flags.*2) :: tr)
          end
      end
  end.

Context (ok : database → list Envelop → Prop).

(** Every batch of the order meets the engine's condition when it runs. *)
Fixpoint ledger_ok (db : database) (l : list (nat * Z)) : Prop :=
  match l with
  | [] => True
  | (r, b) :: l =>
      ok db (chain r (wrap64u b)) ∧
      ∀ x, verdict (run_batch 1 db (chain r (wrap64u b))) = Some x → ledger_ok x.1.2 l
  end.

Lemma ledger_app db l1 l2 :
  ledger db (l1 ++ l2) =
  match ledger db l1 with
  | None => None
  | Some (db1, t1) =>
      match ledger db1 l2 with
      | None => None
      | Some (db2, t2) => Some (db2, t1 ++ t2)
      end
  end.
Proof.
  revert db. induction l1 as [|[r b] l1 IH]; intros db; simpl.
  - by destruct (ledger db l2) as [[??]|].
  - destruct (verdict _) as [[[b0 db'] flags]|]; [|done]. rewrite IH.
    destruct (ledger db' l1) as [[db1 t1]|]; [|done]. by destruct (ledger db1 l2) as [[??]|].
Qed.

Lemma ledger_ok_app db l1 l2 db1 t1 :
  ledger_ok db (l1 ++ l2) → ledger db l1 = Some (db1, t1) → ledger_ok db1 l2.
Proof.
  revert db t1. induction l1 as [|[r b] l1 IH]; intros db t1; simpl; [by intros ? [= <- <-]|].
  intros [_ H]. destruct (verdict _) as [[[b0 db'] flags]|]; [|done].
  destruct (ledger db' l1) as [[db2 t2]|] eqn:E1; [|done]. intros [= <- <-].
  eapply IH; [|done]. by apply (H (b0, db', flags)).
Qed.

(** ** The invariant of a running peer *)

(** What is stored of a region is what its chain holds. *)
Definition held (cs : Storage MRRegion) : Prop :=
  ∀ r c b blk, regions cs !! r = Some c → blockStorage c !! b = Some blk →
    number (header blk) = b ∧ userRequests (body blk) = chain r b.

(** What users can read is what the ledger decided. *)
Definition told (ns : Storage (LRUCache Z Block)) (tr : list (nat * Z * list bool)) : Prop :=
  ∀ r c k blk, regions ns !! r = Some c → (k, blk) ∈ keys_ c →
    ∃ b flags, (r, b, flags) ∈ tr ∧ wrap64u b = k ∧ userRequests (body blk) = chain r k ∧
      transactionFilter (executeResult blk) = Z.b2z <$> flags ∧ length flags = length (chain r k).

Record peer_inv (db0 : database) (l : list (nat * Z)) (p : Peer) : Prop := {
  inv_workers : 0 < workerCount p;
  inv_content : storage_ok mr_ok (_contentStorage p);
  inv_held : held (_contentStorage p);
  inv_users : storage_ok lru_ok (_userRPCNotifier p);
  inv_ledger : ∃ before tr, l = before ++ tasks p ∧ ledger db0 before = Some (_db p, tr) ∧
    told (_userRPCNotifier p) tr
}.

(** A stored block carries the requests of its place in the chain. *)
Definition event_ok (e : event) : Prop :=
  match e with Store r blk => userRequests (body blk) = chain r (number (header blk)) | _ => True end.

Lemma mr_wait (s s' : Storage MRRegion) r b x :
  waitForBlock s r b = Returned s' x →
  x = None ∨ ∃ c, regions s !! r = Some c ∧ x = blockStorage c !! b ∧ regions s' = regions s ∧
    newBlockFutexList s' = newBlockFutexList s ∧ subscriberList s' = subscriberList s.
Proof.
  unfold waitForBlock. case_bool_decide; [intros [= <- <-]; by left|].
  destruct (newBlockFutexList s !! r); [|done]. destruct (regions s !! r) as [c|] eqn:Ec; [|done].
  destruct (_ <? _)%Z; [done|]. simpl. intros [= <- <-]. right. exists c. split_and!; try done.
  simpl. by apply list_insert_id.
Qed.

Lemma mr_insert_held (s s' : Storage MRRegion) r blk :
  held s → userRequests (body blk) = chain r (number (header blk)) →
  insertBlockAndNotify s r blk = Some s' → held s'.
Proof.
  intros Hh Hb. unfold insertBlockAndNotify. case_bool_decide; [by intros [= <-]|].
  destruct (regions s !! r) as [c|] eqn:Ec; [|done]. simpl. intros [= <-] r' c' b blk'. simpl.
  rewrite list_lookup_insert_Some. intros [(<- & <- & _)|[? Hc']]; [|by apply Hh].
  simpl. rewrite lookup_delete_Some. intros [_ Hl].
  destruct (blockStorage c !! number (header blk)) eqn:En; [by apply (Hh r c)|].
  apply lookup_insert_Some in Hl as [[<- <-]|[? Hl]]; [done|by apply (Hh r c)].
Qed.

Lemma set_object_held s r blk :
  held s → userRequests (body blk) = chain r (number (header blk)) → held (set_object r blk s).
Proof.
  intros Hh Hb r' c' b blk'. simpl. destruct (decide (r' = r)) as [->|Hne].
  - rewrite list_lookup_alter_eq. destruct (regions s !! r) as [c|] eqn:Ec; [|done]. intros [= <-]. simpl.
    destruct (decide (b = number (header blk))) as [->|Hb'].
    + rewrite lookup_alter_eq. destruct (blockStorage c !! _); [|done]. by intros [= <-].
    + rewrite lookup_alter_ne by done. by apply (Hh r c).
  - rewrite list_lookup_alter_ne by done. by apply Hh.
Qed.

Lemma set_object_ok s r blk : storage_ok mr_ok s → storage_ok mr_ok (set_object r blk s).
Proof.
  intros [Hl Hf]. split; [unfold regionCount in *; simpl; by rewrite length_alter|]. simpl.
  apply Forall_alter; [done|]. intros c _ Hc. exact Hc.
Qed.

Lemma told_insert ns ns' tr r blk b flags :
  storage_ok lru_ok ns → told ns tr → insertBlockAndNotify ns r blk = Some ns' →
  wrap64u b = number (header blk) → userRequests (body blk) = chain r (number (header blk)) →
  transactionFilter (executeResult blk) = Z.b2z <$> flags → length flags = length (userRequests (body blk)) →
  told ns' (tr ++ [(r, b, flags)]).
Proof.
  intros [Hl Hf] Ht Hi Hb Hq Hfl Hlen. rewrite Hq in Hlen. unfold insertBlockAndNotify in Hi. case_bool_decide as Hr.
  { injection Hi as <-. intros r' c k blk' Hc Hk. destruct (Ht r' c k blk' Hc Hk) as (b' & fl & ? & ?).
    exists b', fl. set_solver. }
  destruct (regions ns !! r) as [c|] eqn:Ec; [|done]. simpl in Hi.
  destruct (lru_insert_keys c (number (header blk)) blk) as (c' & E' & _ & _ & _ & Hk);
    [rewrite Forall_lookup in Hf; by eapply Hf|].
  unfold tryEmplaceBlock, pruneWithMaxBlockId in Hi. simpl in Hi. rewrite E' in Hi. injection Hi as <-.
  intros r' c1 k blk'. simpl. rewrite list_lookup_insert_Some. intros [(<- & <- & _)|[? Hc1]] Hin.
  - assert (Hin2 : (k, blk') ∈ (number (header blk), blk) :: unlink (keys_ c) (number (header blk))).
    { cbn zeta in Hk. rewrite Hk in Hin. destruct (decide _); [done|].
      apply list_elem_of_lookup in Hin as [i Hi]. apply lookup_take_Some in Hi as [Hi _].
      by eapply list_elem_of_lookup_2. }
    apply elem_of_cons in Hin2 as [[= -> ->]|Hin2].
    + exists b, flags. split_and!; [set_solver|done..].
    + apply unlink_sub in Hin2. destruct (Ht r c k blk' Ec Hin2) as (b' & fl & ? & ?).
      exists b', fl. set_solver.
  - destruct (Ht r' c1 k blk' Hc1 Hin) as (b' & fl & ? & ?). exists b', fl. set_solver.
Qed.
Context {HE : EngineLaws E ok}.

(** A batch that returns has the verdict of the reference run. *)
Lemma batch_verdict n db reqs b db' res :
  0 < n → ok db reqs → run_batch n db reqs = Some (b, db', res) →
  b = true ∧ (λ x : Envelop * TxReadWriteSet * bool, x.1.1) <$> res = reqs ∧
  verdict (run_batch 1 db reqs) = Some (true, db', (λ y, (y.1.1, y.2)) <$> res).
Proof using HE.
  intros Hn Hok Hr. destruct (requests_kept n db reqs b db' res Hn Hok Hr) as [-> Hq].
  split; [done|]. split; [done|]. rewrite <-(workers_irrelevant n 1) by (done || lia). by rewrite Hr.
Qed.

Lemma ledger_snoc db l r b db' tr x :
  ledger db l = Some (db', tr) → verdict (run_batch 1 db' (chain r (wrap64u b))) = Some x →
  ledger db (l ++ [(r, b)]) = Some (x.1.2, tr ++ [(r, b, x.2.*2)]).
Proof. intros Hl Hx. rewrite ledger_app, Hl. simpl. rewrite Hx. by destruct x as [[? ?] ?]. Qed.

Lemma run_task_inv db0 l p p' :
  ledger_ok db0 l → peer_inv db0 l p → run_task p = Some p' → peer_inv db0 l p'.
Proof using HE.
  intros Hlok Hp. pose proof Hp as [Hw Hc Hh Hu (before & tr & Hl & Hled & Ht)].
  unfold run_task. destruct (tasks p) as [|[r b] ts] eqn:Ets; [by intros [= <-]|].
  unfold onConsensusBlockOrder.
  destruct (waitForBlock _ _ _) as [|cs [blk|]] eqn:Ew; [by intros [= <-]| |done].
  apply mr_wait in Ew as [?|(c & Hr & Hb & HR & HF & HS)]; [done|].
  destruct (Hh r c _ _ Hr (eq_sym Hb)) as [Hnum Hreq].
  destruct (negb _); [done|].
  rewrite Hl in Hlok. pose proof (ledger_ok_app _ _ _ _ _ Hlok Hled) as [Hok _].
  rewrite Hreq. destruct (run_batch _ _ _) as [[[ret db'] res]|] eqn:Erun; [|done].
  destruct (batch_verdict _ _ _ _ _ _ Hw Hok Erun) as (-> & Hq & Hv).
  assert (Hreq' : userRequests (body (executed_block blk res)) =
                  chain r (number (header (executed_block blk res)))).
  { simpl. by rewrite Hq, Hnum. }
  destruct (insertBlockAndNotify _ _ _) as [ns|] eqn:Ens; [|done]. intros [= <-].
  destruct (insert_preserves lru_ok _ _ r (executed_block blk res) Hu) as (ns' & E' & Hns & _).
  rewrite Ens in E'. injection E' as <-.
  assert (Hcs : storage_ok mr_ok cs ∧ held cs).
  { unfold storage_ok, regionCount, held. by rewrite HR, HF. }
  split; cbn [pop_task workerCount _contentStorage _userRPCNotifier _db tasks]; [done|..].
  - by apply set_object_ok, Hcs.
  - by apply set_object_held; [apply Hcs|].
  - done.
  - exists (before ++ [(r, b)]), (tr ++ [(r, b, (λ x, x.2) <$> res)]). rewrite Ets. split_and!.
    + by rewrite Hl, <-app_assoc.
    + rewrite (ledger_snoc _ _ _ _ _ _ _ Hled Hv). simpl. do 4 f_equal. by rewrite <-list_fmap_compose.
    + eapply told_insert; [exact Hu|exact Ht|exact Ens|by rewrite <-Hnum|exact Hreq'| |].
      * simpl. by rewrite <-list_fmap_compose.
      * simpl. by rewrite !length_fmap.
Qed.

Lemma peer_step_inv db0 l p e p' :
  event_ok e → ledger_ok db0 (l ++ ordered [e]) → peer_inv db0 l p → peer_step p e = Some p' →
  peer_inv db0 (l ++ ordered [e]) p'.
Proof using HE.
  intros He Hlok Hp. destruct e as [r blk|r b| |]; simpl in *; rewrite ?app_nil_r in *.
  - destruct Hp as [Hw Hc Hh Hu Hl]. destruct (insertBlockAndNotify _ _ _) as [cs|] eqn:Ei; [|done].
    intros [= <-]. split; simpl; [done| |by eapply mr_insert_held|done|done].
    destruct (insert_preserves mr_ok _ _ r blk Hc) as (cs' & E' & ? & _). by simplify_eq.
  - intros [= <-]. destruct Hp as [Hw Hc Hh Hu (before & tr & -> & Hled & Ht)].
    split; try done. exists before, tr. simpl. by rewrite app_assoc.
  - by apply run_task_inv.
  - intros [= <-]. unfold contentLeaderReceiverLoop. destruct (_subscriberId p) as [id|]; [|done].
    destruct Hp as [Hw Hc Hh Hu Hl]. unfold subscriberWaitForBlock.
    destruct (subscriberList _ !! id) as [[|x q]|]; split; done.
Qed.

Lemma ordered_app es1 es2 : ordered (es1 ++ es2) = ordered es1 ++ ordered es2.
Proof. induction es1 as [|[] es1 IH]; simpl; by rewrite ?IH. Qed.

Lemma ledger_ok_prefix db l1 l2 : ledger_ok db (l1 ++ l2) → ledger_ok db l1.
Proof.
  revert db. induction l1 as [|[r b] l1 IH]; intros db; simpl; [done|]. intros [? H].
  split; [done|]. intros x Hx. by eapply IH, H.
Qed.

Lemma peer_run_inv db0 l p es p' :
  Forall event_ok es → ledger_ok db0 (l ++ ordered es) → peer_inv db0 l p → peer_run p es = Some p' →
  peer_inv db0 (l ++ ordered es) p'.
Proof using HE.
  revert l p. induction es as [|e es IH]; intros l p Hes Hlok Hp; cbn [peer_run].
  { intros [= <-]. by rewrite app_nil_r. }
  destruct (peer_step p e) as [p1|] eqn:Es; [|done]. cbn [mbind option_bind]. intros Hr.
  assert (Ho : ordered (e :: es) = ordered [e] ++ ordered es) by apply (ordered_app [e]).
  rewrite Ho, app_assoc in *. apply Forall_cons in Hes as [He Hes].
  eapply (IH _ p1); [done|done| |done].
  eapply peer_step_inv; [done|by eapply ledger_ok_prefix|done|done].
Qed.

Lemma newPeer_inv n gc db leader : 0 < n → peer_inv db [] (newPeer n gc db leader).
Proof.
  intros Hn.
  assert (Hs : storage_ok mr_ok (newStorage (mkMR 256 ∅) gc)).
  { split; [unfold regionCount; simpl; by rewrite !length_replicate|]. apply Forall_replicate.
    unfold mr_ok. simpl. lia. }
  assert (Hh : held (newStorage (mkMR 256 ∅) gc)).
  { intros r c b blk [-> _]%lookup_replicate_1. simpl. by rewrite lookup_empty. }
  assert (Hu : storage_ok lru_ok (newStorage (newLRU 256 10 : LRUCache Z Block) gc)).
  { split; [unfold regionCount; simpl; by rewrite !length_replicate|]. apply Forall_replicate.
    split; simpl; [constructor|done]. }
  assert (Ht : told (newStorage (newLRU 256 10) gc) []).
  { intros r c k blk [-> _]%lookup_replicate_1 Hin. by apply elem_of_nil in Hin. }
  unfold newPeer. destruct leader; split; try done; exists [], []; split_and!; done.
Qed.
(** ** Progress *)

(** The block of a task is in the storage. *)
Definition ready (p : Peer) (t : nat * Z) : Prop :=
  (0 ≤ t.2 < 2 ^ 31)%Z ∧ ∃ c m, regions (_contentStorage p) !! t.1 = Some c ∧
    newBlockFutexList (_contentStorage p) !! t.1 = Some m ∧ (t.2 ≤ m)%Z ∧ is_Some (blockStorage c !! t.2).

Lemma ready_wait p r b :
  ready p (r, b) → ∃ c blk, regions (_contentStorage p) !! r = Some c ∧ blockStorage c !! b = Some blk ∧
    wrap64u b = b ∧ waitForBlock (_contentStorage p) r (wrap64u b) = Returned (_contentStorage p) (Some blk).
Proof.
  intros (Hb & c & m & Hr & Hm & Hle & [blk Hblk]). simpl in *.
  assert (Hwb : wrap64u b = b) by (unfold wrap64u; apply Z.mod_small; lia).
  exists c, blk. split_and!; [done..|]. rewrite Hwb. unfold waitForBlock.
  rewrite bool_decide_false by (apply Nat.nle_gt; by eapply lookup_lt_Some).
  rewrite Hm, Hr, (wrap32_id b) by (unfold in_int32; lia).
  destruct (Z.ltb_spec m b); [lia|]. simpl. rewrite Hblk, list_insert_id by done.
  by destruct (_contentStorage p).
Qed.

Lemma set_object_ready p r blk t x y z :
  ready p t → ready (mkPeer (workerCount p) (set_object r blk (_contentStorage p)) (_subscriberId p) x y z) t.
Proof.
  intros (Hb & c & m & Hr & Hm & Hle & Hblk). split; [done|]. simpl.
  destruct (decide (t.1 = r)) as [<-|Hne].
  - rewrite list_lookup_alter_eq, Hr. eexists _, m. split; [done|]. split; [done|]. split; [done|]. simpl.
    destruct (decide (t.2 = number (header blk))) as [<-|?];
      [by rewrite lookup_alter_eq, fmap_is_Some|by rewrite lookup_alter_ne].
  - rewrite list_lookup_alter_ne by done. by exists c, m.
Qed.

(** A task whose block is stored runs to its end. *)
Lemma run_ready db0 l p r b ts x :
  ledger_ok db0 l → peer_inv db0 l p → tasks p = (r, b) :: ts → Forall (ready p) (tasks p) →
  verdict (run_batch 1 (_db p) (chain r (wrap64u b))) = Some x →
  ∃ p', run_task p = Some p' ∧ tasks p' = ts ∧ _db p' = x.1.2 ∧ Forall (ready p') ts.
Proof using HE.
  intros Hlok [Hw Hc Hh Hu (before & tr & Hl & Hled & Ht)] Ets Hrd Hx.
  rewrite Ets in Hrd. apply Forall_cons in Hrd as [Hrd Hrest].
  destruct (ready_wait p r b Hrd) as (c & blk & Hr & Hblk & Hwb & Hwait).
  destruct (Hh r c b blk Hr Hblk) as [Hnum Hreq].
  rewrite Hl, Ets in Hlok. pose proof (ledger_ok_app _ _ _ _ _ Hlok Hled) as [Hok _].
  unfold run_task. rewrite Ets. unfold onConsensusBlockOrder. rewrite Hwait.
  destruct Hrd as [Hb _]. simpl in Hb.
  rewrite Hnum, (wrap32_id b), Z.eqb_refl by (unfold in_int32; lia). cbn [negb]. rewrite Hreq.
  rewrite Hwb in *. pose proof (workers_irrelevant (workerCount p) 1 _ _ Hw ltac:(lia) Hok) as Hv.
  rewrite Hx in Hv. destruct (run_batch (workerCount p) _ _) as [[[ret db'] res]|] eqn:Erun; [|done].
  destruct (batch_verdict _ _ _ _ _ _ Hw Hok Erun) as (-> & Hq & Hv1).
  destruct (insert_preserves lru_ok _ _ r (executed_block blk res) Hu) as (ns & -> & _).
  eexists. split; [done|]. simpl in Hv. injection Hv as <-. split_and!; [by cbn; rewrite Ets|done|].
  eapply Forall_impl; [exact Hrest|]. intros t Ht'. exact (set_object_ready p r _ t _ _ _ Ht').
Qed.

(** Where the reference run has no outcome, the process dies. *)
Lemma run_dies db0 l p r b ts :
  ledger_ok db0 l → peer_inv db0 l p → tasks p = (r, b) :: ts → ready p (r, b) →
  verdict (run_batch 1 (_db p) (chain r (wrap64u b))) = None → run_task p = None.
Proof using HE.
  intros Hlok [Hw Hc Hh Hu (before & tr & Hl & Hled & Ht)] Ets Hrd Hx.
  destruct (ready_wait p r b Hrd) as (c & blk & Hr & Hblk & Hwb & Hwait).
  destruct (Hh r c b blk Hr Hblk) as [Hnum Hreq].
  rewrite Hl, Ets in Hlok. pose proof (ledger_ok_app _ _ _ _ _ Hlok Hled) as [Hok _].
  unfold run_task. rewrite Ets. unfold onConsensusBlockOrder. rewrite Hwait.
  destruct Hrd as [Hb _]. simpl in Hb.
  rewrite Hnum, (wrap32_id b), Z.eqb_refl by (unfold in_int32; lia). cbn [negb]. rewrite Hreq.
  rewrite Hwb in *. pose proof (workers_irrelevant (workerCount p) 1 _ _ Hw ltac:(lia) Hok) as Hv.
  rewrite Hx in Hv. by destruct (run_batch (workerCount p) _ _) as [[[ret db'] res]|].
Qed.

Lemma run_all_ready db0 l p :
  ledger_ok db0 l → peer_inv db0 l p → Forall (ready p) (tasks p) →
  match ledger (_db p) (tasks p) with
  | Some (db', _) => ∃ p', peer_run p (replicate (length (tasks p)) RunTask) = Some p' ∧ tasks p' = [] ∧ _db p' = db'
  | None => peer_run p (replicate (length (tasks p)) RunTask) = None
  end.
Proof using HE.
  intros Hlok. remember (tasks p) as ts eqn:Ets. revert p Ets.
  induction ts as [|[r b] ts IH]; intros p Ets Hp Hrd; simpl in *; [by exists p|]. rewrite Ets in Hrd.
  destruct (verdict _) as [x|] eqn:Ev.
  - destruct (run_ready db0 l p r b ts x Hlok Hp (eq_sym Ets) Hrd Ev) as (p1 & E1 & T1 & D1 & R1).
    destruct x as [[b0 db1] flags]. rewrite E1. simpl in *.
    specialize (IH p1 (eq_sym T1) ltac:(by eapply run_task_inv) R1). rewrite D1 in IH.
    by destruct (ledger db1 ts) as [[db2 tr2]|].
  - rewrite <-Ets in Hrd. apply Forall_cons in Hrd as [Hrd _]. by rewrite (run_dies db0 l p r b ts Hlok Hp (eq_sym Ets) Hrd Ev).
Qed.

(** ** The window of a region *)

(** The blocks a run stores in a region. *)
Fixpoint stored_in (r : nat) (es : list event) : list Block :=
  match es with
  | [] => []
  | Store r' blk :: es => if decide (r' = r) then blk :: stored_in r es else stored_in r es
  | _ :: es => stored_in r es
  end.

(** After [m] blocks numbered from 0 the region has the last 256, whatever their
    contents have become. *)
Definition has_window (r m : nat) (cs : Storage MRRegion) : Prop :=
  newBlockFutexList cs !! r = Some (Z.of_nat m - 1)%Z ∧
  ∃ c, regions cs !! r = Some c ∧ _maxSize c = 256%Z ∧
    window 256 (replicate m newBlock) ((λ _, newBlock) <$> blockStorage c).

Lemma window_insert r m cs blk cs' :
  has_window r m cs → storage_ok mr_ok cs → (Z.of_nat (S m) < 2 ^ 31)%Z → number (header blk) = Z.of_nat m →
  insertBlockAndNotify cs r blk = Some cs' → has_window r (S m) cs'.
Proof.
  intros (Hf & c & Hc & Hmax & Hwin) [Hlen _] Hm Hn. unfold insertBlockAndNotify.
  assert (r < regionCount cs) as Hr by by eapply lookup_lt_Some.
  rewrite bool_decide_false by lia. rewrite Hc, Hn. simpl. intros [= <-]. split; simpl.
  - rewrite list_lookup_insert_eq by done. rewrite wrap32_id by (unfold in_int32; lia). f_equal. lia.
  - rewrite list_lookup_insert_eq by lia. eexists. split; [done|]. split; [done|]. simpl.
    assert (blockStorage c !! Z.of_nat m = None) as Hnone.
    { pose proof (Hwin (Z.of_nat m)) as H. rewrite lookup_fmap, length_replicate, bool_decide_false in H by lia.
      by destruct (blockStorage c !! Z.of_nat m). }
    rewrite Hnone, Hmax, fmap_delete, fmap_insert.
    change (newBlock :: replicate m newBlock) with (replicate (S m) newBlock). rewrite replicate_S_end.
    pose proof (window_snoc 256 (replicate m newBlock) ((λ _, newBlock) <$> blockStorage c) newBlock) as H.
    rewrite length_replicate in H. apply H; [lia|lia|done].
Qed.

Lemma window_other r m cs r' blk cs' :
  has_window r m cs → r' ≠ r → insertBlockAndNotify cs r' blk = Some cs' → has_window r m cs'.
Proof.
  intros Hw Hne. unfold insertBlockAndNotify. case_bool_decide; [by intros [= <-]|].
  destruct (regions cs !! r') as [c|]; [|done]. simpl. intros [= <-]. unfold has_window. simpl.
  by rewrite !list_lookup_insert_ne by done.
Qed.

Lemma window_set_object r m cs r' blk : has_window r m cs → has_window r m (set_object r' blk cs).
Proof.
  intros (Hf & c & Hc & Hmax & Hwin). split; [done|]. simpl. destruct (decide (r' = r)) as [->|Hne].
  - rewrite list_lookup_alter_eq, Hc. eexists. split; [done|]. split; [done|]. simpl.
    replace ((λ _, newBlock) <$> alter _ _ (blockStorage c)) with ((λ _, newBlock) <$> blockStorage c); [done|].
    apply map_eq. intros i. rewrite !lookup_fmap. destruct (decide (i = number (header blk))) as [->|Hi].
    + rewrite lookup_alter_eq. by destruct (blockStorage c !! _).
    + by rewrite lookup_alter_ne.
  - rewrite list_lookup_alter_ne by done. by exists c.
Qed.

Lemma window_step r m p e p' :
  has_window r m (_contentStorage p) → storage_ok mr_ok (_contentStorage p) →
  (Z.of_nat (m + length (stored_in r [e])) < 2 ^ 31)%Z →
  (∀ blk, stored_in r [e] = [blk] → number (header blk) = Z.of_nat m) → peer_step p e = Some p' →
  has_window r (m + length (stored_in r [e])) (_contentStorage p') ∧ storage_ok mr_ok (_contentStorage p').
Proof.
  intros Hw Hok Hm Hn. destruct e as [r' blk|r' b| |]; simpl in *; rewrite ?Nat.add_0_r in *.
  - destruct (insertBlockAndNotify _ r' blk) as [cs|] eqn:Ei; [|done]. intros [= <-]. simpl.
    destruct (insert_preserves mr_ok _ _ r' blk Hok) as (cs' & E' & Hok' & _). rewrite Ei in E'. injection E' as <-.
    split; [|done]. destruct (decide (r' = r)) as [->|Hne]; simpl in *.
    + rewrite Nat.add_1_r in *. by eapply window_insert; [..|by apply Hn|].
    + rewrite Nat.add_0_r. by eapply window_other.
  - by intros [= <-].
  - unfold run_task. destruct (tasks p) as [|[r0 b0] ts]; [by intros [= <-]|].
    unfold onConsensusBlockOrder. destruct (waitForBlock _ _ _) as [|cs [blk|]] eqn:Ew; [by intros [= <-]| |done].
    apply mr_wait in Ew as [?|(c & Hr & Hb & HR & HF & HS)]; [done|].
    assert (has_window r m cs ∧ storage_ok mr_ok cs) as [Hw' Hok'].
    { unfold has_window, storage_ok, regionCount in *. by rewrite HF, HR. }
    destruct (negb _); [done|]. destruct (run_batch _ _ _) as [[[[] db'] res]|]; [| |done].
    + destruct (insertBlockAndNotify _ _ _) as [ns|]; [|done]. intros [= <-].
      split; [by apply window_set_object|by apply set_object_ok].
    + by intros [= <-].
  - intros [= <-]. unfold contentLeaderReceiverLoop. destruct (_subscriberId p) as [id|]; [|done].
    unfold subscriberWaitForBlock. by destruct (subscriberList _ !! id) as [[|x q]|].
Qed.

Lemma stored_in_cons r e es : stored_in r (e :: es) = stored_in r [e] ++ stored_in r es.
Proof. destruct e; simpl; try done. by case_decide. Qed.

Lemma window_run r m p es p' :
  has_window r m (_contentStorage p) → storage_ok mr_ok (_contentStorage p) →
  (Z.of_nat (m + length (stored_in r es)) < 2 ^ 31)%Z →
  (∀ j blk, stored_in r es !! j = Some blk → number (header blk) = Z.of_nat (m + j)) → peer_run p es = Some p' →
  has_window r (m + length (stored_in r es)) (_contentStorage p').
Proof.
  revert m p. induction es as [|e es IH]; intros m p Hw Hok Hm Hn; cbn [peer_run].
  { intros [= <-]. cbn. by rewrite Nat.add_0_r. }
  destruct (peer_step p e) as [p1|] eqn:Es; [|done]. cbn [mbind option_bind]. intros Hr.
  rewrite stored_in_cons, length_app in *.
  assert (∀ blk, stored_in r [e] = [blk] → number (header blk) = Z.of_nat m) as Hn0.
  { intros blk Hb. rewrite (Hn 0 blk); [by rewrite Nat.add_0_r|]. by rewrite Hb. }
  destruct (window_step r m p e p1 Hw Hok ltac:(lia) Hn0 Es) as [Hw1 Hok1].
  rewrite Nat.add_assoc. apply (IH _ p1 Hw1 Hok1); [lia| |done].
  intros j blk Hj. rewrite (Hn (length (stored_in r [e]) + j) blk); [f_equal; lia|].
  by rewrite lookup_app_r, Nat.add_comm, Nat.add_sub by lia.
Qed.

(** A wait for a block that has left the window returns the null pointer. *)
Lemma window_gone r m cs b :
  has_window r m cs → (Z.of_nat m < 2 ^ 31)%Z → (0 ≤ b)%Z → (b + 256 < Z.of_nat m)%Z →
  ∃ cs', waitForBlock cs r (wrap64u b) = Returned cs' None.
Proof.
  intros (Hf & c & Hc & Hmax & Hwin) Hm Hb Hlate. unfold waitForBlock.
  rewrite bool_decide_false by (apply Nat.nle_gt; by eapply lookup_lt_Some).
  assert (wrap64u b = b) as -> by (unfold wrap64u; apply Z.mod_small; lia).
  rewrite Hf, Hc, wrap32_id by (unfold in_int32; lia). destruct (Z.ltb_spec (Z.of_nat m - 1) b); [lia|].
  simpl. eexists. f_equal. pose proof (Hwin b) as H'. rewrite lookup_fmap, length_replicate, bool_decide_false in H' by lia.
  by destruct (blockStorage c !! b).
Qed.

(** ** The leader's votes *)

(** The calls of [voteNewBlock] a run makes. *)
Fixpoint peer_votes (p : Peer) (es : list event) : list (Z * Z) :=
  match es with
  | [] => []
  | e :: es =>
      match peer_step p e with
      | None => []
      | Some p' =>
          match e with
          | Poll => option_list (contentLeaderReceiverLoop p).2 ++ peer_votes p' es
          | _ => peer_votes p' es
          end
      end
  end.

(** The blocks a run stores. *)
Fixpoint stored (gc : nat) (es : list event) : list (Z * Z) :=
  match es with
  | [] => []
  | Store r blk :: es =>
      if bool_decide (r < gc) then (Z.of_nat r, wrap32 (number (header blk))) :: stored gc es else stored gc es
  | _ :: es => stored gc es
  end.

Definition waiting (p : Peer) : option (list (Z * Z)) :=
  match _subscriberId p with
  | None => None
  | Some id =>
      match subscriberList (_contentStorage p) !! id with
      | None => None
      | Some q => Some ((λ x : nat * Block, (Z.of_nat x.1, wrap32 (number (header x.2)))) <$> q)
      end
  end.

Lemma run_task_waiting p p' :
  run_task p = Some p' → waiting p' = waiting p ∧ regionCount (_contentStorage p') = regionCount (_contentStorage p).
Proof.
  unfold run_task. destruct (tasks p) as [|[r b] ts]; [by intros [= <-]|].
  unfold onConsensusBlockOrder.
  destruct (waitForBlock _ _ _) as [|cs [blk|]] eqn:Ew; [by intros [= <-]| |done].
  apply mr_wait in Ew as [?|(c & Hr & Hb & HR & HF & HS)]; [done|].
  destruct (negb _); [done|]. destruct (run_batch _ _ _) as [[[[] db'] res]|]; [|..|done].
  2: { intros [= <-]. unfold waiting, regionCount. simpl. by rewrite HS, HF. }
  destruct (insertBlockAndNotify _ _ _) as [ns|]; [|done]. intros [= <-].
  unfold waiting, regionCount. simpl. rewrite HF. split; [|done]. destruct (_subscriberId p) as [id|]; [|done].
  simpl. rewrite HS, list_lookup_fmap. destruct (subscriberList _ !! id) as [q|]; [|done]. simpl.
  f_equal. rewrite <-list_fmap_compose. apply list_fmap_ext. intros i [r' blk'] _. simpl.
  case_bool_decide as Hs; [|done]. simpl in *. destruct Hs as [-> ->]. done.
Qed.

Lemma votes_waiting gc p es p' q :
  peer_run p es = Some p' → regionCount (_contentStorage p) = gc → waiting p = Some q →
  ∃ q', waiting p' = Some q' ∧ q ++ stored gc es = peer_votes p es ++ q'.
Proof.
  revert p q. induction es as [|e es IH]; intros p q; simpl.
  { intros [= <-] _ ->. exists q. by rewrite app_nil_r. }
  destruct (peer_step p e) as [p1|] eqn:Es; [|done]. simpl. intros Hrun Hgc Hq.
  destruct e as [r blk|r b| |]; simpl in Es.
  - destruct (insertBlockAndNotify _ _ _) as [cs|] eqn:Ei; [|done]. injection Es as <-.
    unfold insertBlockAndNotify in Ei. rewrite Hgc in Ei. destruct (decide (r < gc)) as [Hlt|Hge].
    + rewrite bool_decide_false in Ei by lia. rewrite bool_decide_true by done.
      destruct (regions _ !! r) as [c|]; [|done]. simpl in Ei. injection Ei as <-.
      destruct (IH _ (q ++ [(Z.of_nat r, wrap32 (number (header blk)))]) Hrun) as (q' & Hq' & Heq);
        [simpl; unfold regionCount in *; simpl; by rewrite length_insert| |].
      { unfold waiting in *. simpl. destruct (_subscriberId p) as [id|]; [|done]. simpl in *.
        rewrite list_lookup_fmap. destruct (subscriberList _ !! id) as [q0|]; [|done]. simpl in *.
        injection Hq as <-. by rewrite fmap_app. }
      exists q'. split; [done|]. by rewrite <-app_assoc in Heq.
    + rewrite bool_decide_true in Ei by lia. rewrite bool_decide_false by lia. injection Ei as <-.
      by eapply IH.
  - injection Es as <-. by eapply IH.
  - apply run_task_waiting in Es as [Hw Hc]. eapply IH; [done|congruence|congruence].
  - injection Es as <-. unfold waiting, contentLeaderReceiverLoop in *.
    destruct (_subscriberId p) as [id|] eqn:Eid; [|done]. simpl in Hq. unfold subscriberWaitForBlock in *.
    destruct (subscriberList _ !! id) as [[|x q0]|] eqn:Eq; [| |done]; simpl in *; injection Hq as <-.
    + eapply IH; [exact Hrun|done|]. simpl. by rewrite Eid, Eq.
    + edestruct (IH _ ((λ x : nat * Block, (Z.of_nat x.1, wrap32 (number (header x.2)))) <$> q0) Hrun)
        as (q' & Hq' & Heq); [done| |].
      { simpl. rewrite Eid. by rewrite list_lookup_insert_eq by by eapply lookup_lt_Some. }
      exists q'. split; [done|]. simpl. f_equal. exact Heq.
Qed.

End peer.
Arguments Peer : clear implicits.

(** ** Two peers *)

Section agreement.
Context `{ZP : Zpp} `{HZ : !ZppLaws ZP} (chaincodes : string → option Chaincode) (enableMix : bool).
Context (chain : nat → Z → list Envelop).

(** The engine the peer is built with. *)
#[local] Instance ChaincodeType : Engine := mix_engine chaincodes enableMix.
#[local] Instance ChaincodeType_laws : EngineLaws ChaincodeType (mix_ok chaincodes enableMix) :=
  mix_engine_laws chaincodes enableMix.

Definition order_ok (db : database) (l : list (nat * Z)) : Prop :=
  ledger_ok chain (mix_ok chaincodes enableMix) db l.

(** The blocks a peer has executed: the tasks that have left the executor. *)
Definition executed (es : list event) (p : Peer) : list (nat * Z) :=
  take (length (ordered es) - length (tasks p)) (ordered es).

Definition cast (x : nat * nat) : nat * Z := (x.1, Z.of_nat x.2).

Lemma peer_executed n gc db leader es p :
  0 < n → Forall (event_ok chain) es → order_ok db (ordered es) →
  peer_run (newPeer n gc db leader) es = Some p →
  ordered es = executed es p ++ tasks p ∧
  ∃ tr, ledger chain db (executed es p) = Some (_db p, tr) ∧ told chain (_userRPCNotifier p) tr.
Proof using HZ.
  intros Hn Hes Hok Hrun.
  destruct (peer_run_inv chain (mix_ok chaincodes enableMix) db [] _ es p Hes Hok
    (newPeer_inv chain n gc db leader Hn) Hrun) as [_ _ _ _ (before & tr & Hl & Hled & Ht)].
  simpl in Hl. assert (Hex : executed es p = before).
  { unfold executed. rewrite Hl, length_app, Nat.add_sub. by apply take_app_length. }
  rewrite Hex. split; [done|]. by exists tr.
Qed.

Lemma executed_comparable es1 p1 es2 p2 :
  ordered es1 = executed es1 p1 ++ tasks p1 → ordered es2 = executed es2 p2 ++ tasks p2 →
  ordered es1 `prefix_of` ordered es2 ∨ ordered es2 `prefix_of` ordered es1 →
  executed es1 p1 `prefix_of` executed es2 p2 ∨ executed es2 p2 `prefix_of` executed es1 p1.
Proof.
  intros H1 H2. assert (P1 : executed es1 p1 `prefix_of` ordered es1) by (by exists (tasks p1)).
  assert (P2 : executed es2 p2 `prefix_of` ordered es2) by (by exists (tasks p2)).
  intros [H|H]; eapply prefix_weak_total; [by etrans|done|done|by etrans].
Qed.

(** A longer executed order continues from the shorter one's database. *)
Lemma ledger_continues db l1 l2 db1 tr1 db2 tr2 :
  l1 `prefix_of` l2 → ledger chain db l1 = Some (db1, tr1) → ledger chain db l2 = Some (db2, tr2) →
  ∃ more tr, l2 = l1 ++ more ∧ ledger chain db1 more = Some (db2, tr) ∧ tr2 = tr1 ++ tr.
Proof.
  intros [more ->] H1. rewrite ledger_app, H1. destruct (ledger chain db1 more) as [[db3 t3]|] eqn:E; [|done].
  intros [= <- <-]. by exists more, t3.
Qed.

Lemma ledger_trace db l db' tr :
  ledger chain db l = Some (db', tr) → (λ x : nat * Z * list bool, x.1) <$> tr = l.
Proof.
  revert db tr. induction l as [|[r b] l IH]; intros db tr; simpl; [by intros [= _ <-]|].
  destruct (verdict _) as [[[? db1] fl]|]; [|done]. destruct (ledger chain db1 l) as [[db2 t2]|] eqn:E; [|done].
  intros [= <- <-]. csimpl. by rewrite (IH _ _ E).
Qed.

(** In an order without repetitions a block has one entry. *)
Lemma trace_unique db l db' tr r b1 f1 b2 f2 :
  NoDup ((λ x : nat * Z, (x.1, wrap64u x.2)) <$> l) → ledger chain db l = Some (db', tr) →
  (r, b1, f1) ∈ tr → (r, b2, f2) ∈ tr → wrap64u b1 = wrap64u b2 → (r, b1, f1) = (r, b2, f2).
Proof.
  intros Hnd Hl H1 H2 Hw. rewrite <-(ledger_trace _ _ _ _ Hl), <-list_fmap_compose in Hnd.
  eapply (NoDup_fmap_ne _ tr); [exact Hnd|done|done|]. simpl. by rewrite Hw.
Qed.

(** C1: the peer refines the ledger.  [chain r b] are the requests agreed on for
    block [b] of group [r].  Assume that every block that is stored carries the
    requests agreed on for its place ([event_ok]) and that the batches of the
    order have distinct ids and no transaction that writes a key twice when they
    run ([order_ok]).  Then whenever and in whatever order blocks are stored and
    the order is received, whenever the executor runs and with however many
    workers, a live peer has executed an initial segment of the order the
    ordering service called it with; its database is that of the ledger, which
    runs the same batches one after the other with one worker, and every block it
    lets users read carries the agreed requests and the verdicts of the ledger. *)
Theorem peer_refines_ledger n gc db leader es p :
  0 < n → Forall (event_ok chain) es → order_ok db (ordered es) →
  peer_run (newPeer n gc db leader) es = Some p →
  ordered es = executed es p ++ tasks p ∧
  ∃ tr, ledger chain db (executed es p) = Some (_db p, tr) ∧ told chain (_userRPCNotifier p) tr.
Proof using HZ. apply peer_executed. Qed.

(** C2: replicas agree, from votes to databases.  Two peers of a deployment start
    from one database.  Each receives the votes of the group leaders in its own
    interleaving, orders its blocks with them, stores blocks and runs its
    executor at its own pace and with its own number of workers.  The contents of
    the blocks are agreed on beforehand: every block either peer stores carries
    the requests of its place in one [chain]; and the batches have distinct ids
    and no double writes.  As long as both live, one of them has executed an
    initial segment of what the other has, and its database becomes the other's
    by executing the rest. *)
Theorem peers_agree g calls ds1 ds2 fuel om1 om2 n1 n2 gc db leader1 leader2 es1 es2 p1 p2 :
  2 ≤ g → deployment g calls →
  arrives g (log_of calls) ds1 → arrives g (log_of calls) ds2 →
  fuel_for ds1 ≤ fuel → fuel_for ds2 ≤ fuel →
  replica fuel g ds1 = Some (true, om1) → replica fuel g ds2 = Some (true, om2) →
  ordered es1 `prefix_of` (cast <$> delivered om1) → ordered es2 `prefix_of` (cast <$> delivered om2) →
  0 < n1 → 0 < n2 → Forall (event_ok chain) es1 → Forall (event_ok chain) es2 →
  order_ok db (ordered es1) → order_ok db (ordered es2) →
  peer_run (newPeer n1 gc db leader1) es1 = Some p1 →
  peer_run (newPeer n2 gc db leader2) es2 = Some p2 →
  (∃ more tr, executed es2 p2 = executed es1 p1 ++ more ∧ ledger chain (_db p1) more = Some (_db p2, tr)) ∨
  (∃ more tr, executed es1 p1 = executed es2 p2 ++ more ∧ ledger chain (_db p2) more = Some (_db p1, tr)).
Proof using HZ.
  intros Hg Hd A1 A2 F1 F2 R1 R2 P1 P2 Hn1 Hn2 E1 E2 O1 O2 X1 X2.
  assert (Hcmp : ordered es1 `prefix_of` ordered es2 ∨ ordered es2 `prefix_of` ordered es1).
  { assert (Ho : (cast <$> delivered om1) `prefix_of` (cast <$> delivered om2) ∨
                 (cast <$> delivered om2) `prefix_of` (cast <$> delivered om1)).
    { destruct (deployment_delivers g calls ds1 ds2 fuel) as (o1 & o2 & Q1 & Q2 & [Hp|Hp]); [done..| |];
        simplify_eq; [left|right]; destruct Hp as [k ->]; rewrite fmap_app; by eexists. }
    destruct Ho as [Ho|Ho].
    - apply (prefix_weak_total _ _ (cast <$> delivered om2)); [by etrans|done].
    - apply (prefix_weak_total _ _ (cast <$> delivered om1)); [done|by etrans]. }
  destruct (peer_executed _ _ _ _ _ _ Hn1 E1 O1 X1) as (L1 & tr1 & G1 & _).
  destruct (peer_executed _ _ _ _ _ _ Hn2 E2 O2 X2) as (L2 & tr2 & G2 & _).
  destruct (executed_comparable _ _ _ _ L1 L2 Hcmp) as [Hp|Hp]; [left|right].
  - destruct (ledger_continues _ _ _ _ _ _ _ Hp G1 G2) as (more & tr & ? & ? & _). eauto.
  - destruct (ledger_continues _ _ _ _ _ _ _ Hp G2 G1) as (more & tr & ? & ? & _). eauto.
Qed.

(** C22: users are told the same.  Both peers store, for every block, the requests
    agreed on for its place, and execute batches with distinct ids and no double
    writes.  If the order of one is an initial segment of the other's, without
    repetitions, then a block that users of both can read has at both the agreed
    requests, in their order, and for each of them one verdict, the same at
    both: whatever else the peers have stored, with however many workers they
    have run and whatever has been evicted from their caches. *)
Theorem users_told_the_same n1 n2 gc db leader1 leader2 es1 es2 p1 p2 r k c1 c2 blk1 blk2 :
  0 < n1 → 0 < n2 → Forall (event_ok chain) es1 → Forall (event_ok chain) es2 →
  order_ok db (ordered es1) → order_ok db (ordered es2) →
  ordered es1 `prefix_of` ordered es2 →
  NoDup ((λ x : nat * Z, (x.1, wrap64u x.2)) <$> ordered es2) →
  peer_run (newPeer n1 gc db leader1) es1 = Some p1 →
  peer_run (newPeer n2 gc db leader2) es2 = Some p2 →
  regions (_userRPCNotifier p1) !! r = Some c1 → (k, blk1) ∈ keys_ c1 →
  regions (_userRPCNotifier p2) !! r = Some c2 → (k, blk2) ∈ keys_ c2 →
  userRequests (body blk1) = chain r k ∧ userRequests (body blk2) = chain r k ∧
  transactionFilter (executeResult blk1) = transactionFilter (executeResult blk2) ∧
  length (transactionFilter (executeResult blk1)) = length (chain r k).
Proof using HZ.
  intros Hn1 Hn2 E1 E2 O1 O2 Hpre Hnd X1 X2 R1 K1 R2 K2.
  destruct (peer_executed _ _ _ _ _ _ Hn1 E1 O1 X1) as (L1 & tr1 & G1 & T1).
  destruct (peer_executed _ _ _ _ _ _ Hn2 E2 O2 X2) as (L2 & tr2 & G2 & T2).
  destruct (T1 r c1 k blk1 R1 K1) as (b1 & f1 & I1 & W1 & Q1 & V1 & N1).
  destruct (T2 r c2 k blk2 R2 K2) as (b2 & f2 & I2 & W2 & Q2 & V2 & _).
  split; [done|]. split; [done|]. rewrite V1, V2. split; [|by rewrite length_fmap]. f_equal.
  assert (Hsame : (r, b1, f1) = (r, b2, f2)); [|congruence].
  destruct (executed_comparable _ _ _ _ L1 L2 (or_introl Hpre)) as [Hp|Hp].
  - destruct (ledger_continues _ _ _ _ _ _ _ Hp G1 G2) as (more & tr & _ & _ & ->).
    eapply (trace_unique db (executed es2 p2)); [|exact G2|set_solver|done|congruence].
    rewrite L2, fmap_app in Hnd. by apply NoDup_app in Hnd as [? _].
  - destruct (ledger_continues _ _ _ _ _ _ _ Hp G2 G1) as (more & tr & _ & _ & ->).
    eapply (trace_unique db (executed es1 p1)); [|exact G1|done|set_solver|congruence].
    destruct Hpre as [more' Hpre]. rewrite Hpre, L1, <-app_assoc, fmap_app in Hnd.
    by apply NoDup_app in Hnd as [? _].
Qed.

(** C10: progress.  Let a live peer store blocks with the agreed requests and be
    given an order whose batches have distinct ids and no double writes, and let
    the blocks of all its waiting tasks be in the storage.  Then it executes the
    tasks, one per turn of the executor, and ends with the database of the whole
    order; only where the order has no outcome, because a request names an
    unknown chaincode or its chaincode dies, the process dies. *)
Theorem peer_catches_up n gc db leader es p :
  0 < n → Forall (event_ok chain) es → order_ok db (ordered es) →
  peer_run (newPeer n gc db leader) es = Some p → Forall (ready p) (tasks p) →
  match ledger chain db (ordered es) with
  | Some (db', _) => ∃ p', peer_run p (replicate (length (tasks p)) RunTask) = Some p' ∧ tasks p' = [] ∧ _db p' = db'
  | None => peer_run p (replicate (length (tasks p)) RunTask) = None
  end.
Proof using HZ.
  intros Hn E1 O1 X1 Hr.
  pose proof (peer_run_inv chain (mix_ok chaincodes enableMix) db [] _ es p E1 O1
    (newPeer_inv chain n gc db leader Hn) X1) as Hinv.
  pose proof (inv_ledger _ _ _ _ Hinv) as (before & tr1 & Hl & Hb & Ht). simpl in Hl.
  pose proof (run_all_ready chain (mix_ok chaincodes enableMix) db ([] ++ ordered es) p O1 Hinv Hr) as Hall.
  rewrite Hl, ledger_app, Hb. by destruct (ledger chain (_db p) (tasks p)) as [[db2 tr2]|].
Qed.

(** The leader of a group proposes to the ordering service exactly the blocks
    that reach its storage, in the order in which they do: at any time it has
    voted for an initial segment of them, and the rest is waiting in its queue. *)
Theorem leader_votes_stored n gc db es p :
  peer_run (newPeer n gc db true) es = Some p →
  ∃ q, waiting p = Some q ∧ stored gc es = peer_votes (newPeer n gc db true) es ++ q.
Proof.
  intros Hrun. destruct (votes_waiting gc (newPeer n gc db true) es p [] Hrun) as (q & Hq & Heq).
  - unfold regionCount. simpl. apply length_replicate.
  - done.
  - by exists q.
Qed.

(** ** A late executor *)

(** C40: the storage keeps 256 blocks of a region.  Whatever a peer has stored,
    been ordered, executed and polled, with the blocks of region [r] stored one
    after the other from number 0: when the next task of its executor is a block
    of [r] of which more than 255 successors are stored, the executor finds the
    block gone and the process dies. *)
Theorem late_block_kills_peer n gc db leader r es p b ts :
  r < gc → (Z.of_nat (length (stored_in r es)) < 2 ^ 31)%Z →
  (∀ j blk, stored_in r es !! j = Some blk → number (header blk) = Z.of_nat j) →
  peer_run (newPeer n gc db leader) es = Some p → tasks p = (r, b) :: ts →
  (0 ≤ b)%Z → (b + 256 < Z.of_nat (length (stored_in r es)))%Z →
  peer_step p RunTask = None.
Proof using ZP.
  intros Hr Hlen Hnum Hrun Hts Hb Hlate.
  destruct (window_gone r (length (stored_in r es)) (_contentStorage p) b) as [cs' Hw]; [|done..|].
  - rewrite <-(Nat.add_0_l (length _)). eapply (window_run r 0 (newPeer n gc db leader)); [| |done|done|exact Hrun].
    + split; [destruct leader; simpl; by rewrite lookup_replicate_2|]. exists (mkMR 256 ∅).
      split; [destruct leader; simpl; by rewrite lookup_replicate_2|]. split; [done|]. simpl. intros i.
      rewrite fmap_empty, lookup_empty, bool_decide_false; [done|]. simpl. lia.
    + destruct leader; (split; [unfold regionCount; simpl; by rewrite !length_replicate|]);
        simpl; apply Forall_replicate; unfold mr_ok; simpl; lia.
  - simpl. unfold run_task. rewrite Hts. unfold onConsensusBlockOrder. by rewrite Hw.
Qed.
End agreement.

(** ** Witnesses: two peers of two groups *)

#[local] Existing Instance LE.zpp.
#[local] Existing Instance LE.zpp_laws.

(** Block 0 of group 1 mixes votes with other requests, block 0 of group 0
    repeats some of them. *)
Definition envelop_of (t : Transaction) : Envelop :=
  mkEnvelop (out c_userRequest (userRequest t)) (mkSignature "ski" (tid t)).

Definition sample_chain (r : nat) (b : Z) : list Envelop :=
  match r, b with
  | 1, 0%Z => envelop_of <$> mix_batch
  | 0, 0%Z => envelop_of <$> sample_batch
  | _, _ => []
  end.

Definition chain_block (r : nat) (b : Z) : Block :=
  mkBlock (header (numbered b)) (mkBody (sample_chain r b)) (mkExecuteResult [] []) (mkMetadata [] []).

Definition events_1 : list event :=
  [Store 1 (chain_block 1 0); Order 1 0; Order 0 0; RunTask; Poll; Store 0 (chain_block 0 0); RunTask; RunTask].
Definition events_2 : list event := [Order 1 0; RunTask; Store 1 (chain_block 1 0); RunTask].

Definition sample_peer (n : nat) (leader : bool) (es : list event) : option Peer :=
  peer_run (E := ChaincodeType sample_chaincodes true) (newPeer n 2 vote_db leader) es.

Fixpoint ledger_okb {E : Engine} (chain : nat → Z → list Envelop) (okb : database → list Envelop → bool)
    (db : database) (l : list (nat * Z)) : bool :=
  match l with
  | [] => true
  | (r, b) :: l =>
      okb db (chain r (wrap64u b)) &&
      match verdict (run_batch 1 db (chain r (wrap64u b))) with
      | None => true
      | Some x => ledger_okb chain okb x.1.2 l
      end
  end.

Lemma ledger_okb_ok {E : Engine} chain okb ok db l :
  (∀ db reqs, okb db reqs = true → ok db reqs) → ledger_okb chain okb db l = true → ledger_ok chain ok db l.
Proof.
  intros Hok. revert db. induction l as [|[r b] l IH]; intros db; simpl; [done|].
  intros [H1 H2]%andb_prop. split; [by apply Hok|]. intros x Hx. rewrite Hx in H2. by apply IH.
Qed.

Lemma sample_order_ok l :
  ledger_okb (E := ChaincodeType sample_chaincodes true) sample_chain
    (mix_okb sample_chaincodes true) vote_db l = true →
  order_ok sample_chaincodes true sample_chain vote_db l.
Proof. apply ledger_okb_ok. intros. by apply mix_okb_ok. Qed.

Lemma events_1_ok : Forall (event_ok sample_chain) events_1.
Proof. repeat constructor. Qed.
Lemma events_2_ok : Forall (event_ok sample_chain) events_2.
Proof. repeat constructor. Qed.

Lemma peer_refines_ledger_witness :
  ∃ p tr, sample_peer 3 true events_1 = Some p ∧
    ledger (E := ChaincodeType sample_chaincodes true) sample_chain vote_db (executed events_1 p) = Some (_db p, tr).
Proof.
  destruct (sample_peer 3 true events_1) as [p|] eqn:E; [|by vm_compute in E].
  destruct (peer_refines_ledger sample_chaincodes true sample_chain 3 2 vote_db true events_1 p)
    as (_ & tr & Hl & _); [lia|apply events_1_ok|by apply sample_order_ok; vm_compute|exact E|].
  exists p, tr. split; [reflexivity|exact Hl].
Defined.

Lemma peers_agree_witness :
  ∃ p1 p2, sample_peer 3 true events_1 = Some p1 ∧ sample_peer 2 false events_2 = Some p2 ∧
    ((∃ more tr, executed events_2 p2 = executed events_1 p1 ++ more ∧
       ledger (E := ChaincodeType sample_chaincodes true) sample_chain (_db p1) more = Some (_db p2, tr)) ∨
     (∃ more tr, executed events_1 p1 = executed events_2 p2 ++ more ∧
       ledger (E := ChaincodeType sample_chaincodes true) sample_chain (_db p2) more = Some (_db p1, tr))).
Proof.
  destruct (sample_peer 3 true events_1) as [p1|] eqn:E1; [|by vm_compute in E1].
  destruct (sample_peer 2 false events_2) as [p2|] eqn:E2; [|by vm_compute in E2].
  destruct (replica 20 2 arrival_1) as [[b1 om1]|] eqn:R1; [|by vm_compute in R1].
  destruct (replica 20 2 arrival_2) as [[b2 om2]|] eqn:R2; [|by vm_compute in R2].
  pose proof arrivals_order as [H1 H2]. rewrite R1 in H1. rewrite R2 in H2.
  injection H1 as Hb1 Hd1. injection H2 as Hb2 Hd2. subst b1 b2.
  exists p1, p2. split; [reflexivity|]. split; [reflexivity|].
  apply (peers_agree sample_chaincodes true sample_chain 2 two_groups arrival_1 arrival_2 20 om1 om2
    3 2 2 vote_db true false events_1 events_2 p1 p2);
    [lia|apply two_groups_deployment|apply arrival_1_arrives|apply arrival_2_arrives|by vm_compute; lia
    |by vm_compute; lia|exact R1|exact R2|rewrite Hd1; by exists [(1, 1%Z)]|rewrite Hd2; by exists []|lia|lia
    |apply events_1_ok|apply events_2_ok|by apply sample_order_ok; vm_compute
    |by apply sample_order_ok; vm_compute|exact E1|exact E2].
Defined.

(** The cache of group 1 at a sample peer. *)
Definition read_block (p : Peer) (r : nat) : option (LRUCache Z Block * Z * Block) :=
  c ← regions (_userRPCNotifier p) !! r; x ← head (keys_ c); Some (c, x.1, x.2).

Lemma read_block_in p r c k blk :
  read_block p r = Some (c, k, blk) → regions (_userRPCNotifier p) !! r = Some c ∧ (k, blk) ∈ keys_ c.
Proof.
  unfold read_block. destruct (regions _ !! r) as [c'|]; [|done]. simpl.
  destruct (keys_ c') as [|[k' b'] l] eqn:E; [done|]. simpl. intros [= <- <- <-].
  split; [done|]. rewrite E. set_solver.
Qed.

Lemma users_told_the_same_witness :
  ∃ p1 p2 c1 c2 k1 k2 blk1 blk2, sample_peer 2 false events_2 = Some p1 ∧ sample_peer 3 true events_1 = Some p2 ∧
    read_block p1 1 = Some (c1, k1, blk1) ∧ read_block p2 1 = Some (c2, k2, blk2) ∧
    transactionFilter (executeResult blk1) = transactionFilter (executeResult blk2).
Proof.
  destruct (sample_peer 2 false events_2) as [p1|] eqn:E1; [|by vm_compute in E1].
  destruct (sample_peer 3 true events_1) as [p2|] eqn:E2; [|by vm_compute in E2].
  assert (K1 : (λ p, (λ x, x.1.2) <$> read_block p 1) <$> sample_peer 2 false events_2 = Some (Some 0%Z)) by by vm_compute.
  assert (K2 : (λ p, (λ x, x.1.2) <$> read_block p 1) <$> sample_peer 3 true events_1 = Some (Some 0%Z)) by by vm_compute.
  rewrite E1 in K1. rewrite E2 in K2. simpl in K1, K2.
  destruct (read_block p1 1) as [[[c1 k1] blk1]|] eqn:B1; [|done].
  destruct (read_block p2 1) as [[[c2 k2] blk2]|] eqn:B2; [|done]. injection K1 as ->. injection K2 as ->.
  exists p1, p2, c1, c2, 0%Z, 0%Z, blk1, blk2. split; [reflexivity|]. split; [reflexivity|]. split; [exact B1|]. split; [exact B2|].
  apply read_block_in in B1 as [R1 I1], B2 as [R2 I2].
  apply (users_told_the_same sample_chaincodes true sample_chain 2 3 2 vote_db false true events_2 events_1
    p1 p2 1 0 c1 c2 blk1 blk2);
    [lia|lia|apply events_2_ok|apply events_1_ok|by apply sample_order_ok; vm_compute
    |by apply sample_order_ok; vm_compute|by exists [(0, 0%Z)]| |exact E1|exact E2|exact R1|exact I1|exact R2|exact I2].
  apply (bool_decide_eq_true_1 _). by vm_compute.
Defined.

(** Two blocks stored and ordered, none executed yet. *)
Definition events_3 : list event :=
  [Store 1 (chain_block 1 0); Order 1 0; Order 0 0; Store 0 (chain_block 0 0)].

Lemma peer_catches_up_witness :
  ∃ p p', sample_peer 3 false events_3 = Some p ∧ length (tasks p) = 2 ∧
    peer_run (E := ChaincodeType sample_chaincodes true) p (replicate (length (tasks p)) RunTask) = Some p' ∧
    tasks p' = [].
Proof.
  destruct (sample_peer 3 false events_3) as [p|] eqn:E; [|by vm_compute in E].
  pose proof (peer_catches_up sample_chaincodes true sample_chain 3 2 vote_db false events_3 p) as H.
  destruct (ledger (E := ChaincodeType sample_chaincodes true) sample_chain vote_db (ordered events_3))
    as [[db' tr]|] eqn:L; [|by vm_compute in L].
  destruct H as (p' & Hr & Ht & _); [lia|repeat constructor|by apply sample_order_ok; vm_compute|exact E| |].
  - unfold sample_peer in E. cbn -[chain_block] in E. injection E as <-.
    repeat apply Forall_cons_2; [| |done]; split; try (simpl; lia); eexists _, _;
      (split; [reflexivity|]); (split; [reflexivity|]); (split; [by vm_compute|]); vm_compute; by eexists.
  - exists p, p'. split; [reflexivity|]. split; [|split; [exact Hr|exact Ht]].
    unfold sample_peer in E. cbn -[chain_block] in E. by injection E as <-.
Defined.

Lemma leader_votes_stored_witness :
  ∃ p q, sample_peer 3 true events_1 = Some p ∧ waiting p = Some q ∧
    [(1, 0); (0, 0)]%Z = peer_votes (E := ChaincodeType sample_chaincodes true) (newPeer 3 2 vote_db true) events_1 ++ q.
Proof.
  destruct (sample_peer 3 true events_1) as [p|] eqn:E; [|by vm_compute in E].
  destruct (leader_votes_stored sample_chaincodes true 3 2 vote_db events_1 p E) as (q & Hq & Heq).
  exists p, q. split; [reflexivity|]. split; [exact Hq|]. rewrite <-Heq. by vm_compute.
Defined.

(** The first block is ordered, the second as well, and 257 blocks are stored. *)
Definition late_events : list event :=
  (Store 1 <$> (numbered ∘ Z.of_nat <$> seq 0 257)) ++ [Order 1 0; Poll; Order 1 1].

Lemma late_block_kills_peer_witness :
  ∃ p, peer_run (E := ChaincodeType sample_chaincodes true) (newPeer 2 2 vote_db true) late_events = Some p ∧
    peer_step (E := ChaincodeType sample_chaincodes true) p RunTask = None.
Proof.
  destruct (peer_run (E := ChaincodeType sample_chaincodes true) (newPeer 2 2 vote_db true) late_events) as [p|] eqn:E;
    [|by vm_compute in E].
  exists p. split; [reflexivity|].
  assert (stored_in 1 late_events = numbered ∘ Z.of_nat <$> seq 0 257) as Hst by reflexivity.
  apply (late_block_kills_peer sample_chaincodes true 2 2 vote_db true 1 late_events p 0 [(1, 1%Z)]).
  - lia.
  - rewrite Hst, length_fmap, length_seq. lia.
  - rewrite Hst. intros j blk. rewrite list_lookup_fmap. intros (i & [-> _]%lookup_seq & ->)%fmap_Some. done.
  - exact E.
  - assert (tasks <$> peer_run (E := ChaincodeType sample_chaincodes true) (newPeer 2 2 vote_db true) late_events
      = Some [(1, 0%Z); (1, 1%Z)]) as Ht by by vm_compute.
    rewrite E in Ht. by injection Ht.
  - lia.
  - rewrite Hst, length_fmap, length_seq. lia.
Defined.
