(* ===== verification/Ycsb.v ===== *)
(** * YCSB: src/peer/chaincode/ycsb_row_level.cpp

    The row-level YCSB chaincode as a program over the ORM, an abstract table (a
    map from keys to maps from fields to values), and the refinement between
    them.

    A row is a [std::unordered_map], serialized by zpp_bits as a sequence of
    pairs.  The iteration order of the map is unspecified: [layout] is that
    order as a function of the insertions that built the map, and all that is
    assumed of it is that it is a permutation.  [InitDatabase], which draws
    random rows, is not modelled. *)

From S2P Require Import Prelude Zpp Proto DB ORM.
From Stdlib Require Import Ascii.

(** client/ycsb/ycsb_helper.h: the first characters of the function names *)
Definition UPDATE : ascii := "u"%char.
Definition INSERT : ascii := "i"%char.
Definition READ : ascii := "r"%char.
Definition DELETE : ascii := "d"%char.
Definition SCAN : ascii := "s"%char.
Definition READ_MODIFY_WRITE : ascii := "m"%char.

(** ** Unordered maps, as the pairs in the order of insertion *)

Notation pairs := (list (string * string)).

(** [lhs[k] = v]. *)
Fixpoint assign_field (l : pairs) (k v : string) : pairs :=
  match l with
  | [] => [(k, v)]
  | x :: l => if decide (x.1 = k) then (k, v) :: l else x :: assign_field l k v
  end.

(** [lhs.insert({k, v})]: [None] when the key exists. *)
Definition insert_field (l : pairs) (x : string * string) : option pairs :=
  if decide (x.1 ∈ l.*1) then None else Some (l ++ [x]).

Definition assign_all (l rhs : pairs) : pairs := fold_left (λ l x, assign_field l x.1 x.2) rhs l.

Fixpoint insert_all_fields (l rhs : pairs) : option pairs :=
  match rhs with
  | [] => Some l
  | x :: rhs => l' ← insert_field l x; insert_all_fields l' rhs
  end.

Section chaincode.
Context {ZP : Zpp} (layout : pairs → pairs).

Definition c_row : codec pairs := c_vec (seq_codec c_sv c_sv).

(** Reading a map: pairs whose key was already read are dropped. *)
Definition load_row (raw : string) : option pairs :=
  ps ← read c_row raw;
  Some (fold_left (λ l x, default l (insert_field l x)) ps []).

Definition store_row (key : string) (l : pairs) : prog Z :=
  Put key (out c_row (layout l)) (Ret 0%Z).

Definition updateValue (key : string) (rhs : pairs) : prog Z :=
  Get key (λ o,
    match o with
    | None => Ret (-1)%Z
    | Some raw =>
        match load_row raw with
        | None => Ret (-1)%Z
        | Some lhs => store_row key (assign_all lhs rhs)
        end
    end).

Definition modifyValue (key : string) (reads : list string) (rhs : pairs) : prog Z :=
  Get key (λ o,
    match o with
    | None => Ret (-1)%Z
    | Some raw =>
        match load_row raw with
        | None => Ret (-1)%Z
        | Some lhs =>
            if forallb (λ f, bool_decide (f ∈ lhs.*1)) reads
            then store_row key (assign_all lhs rhs)
            else Ret (-1)%Z
        end
    end).

Definition insertValue (key : string) (rhs : pairs) : prog Z :=
  Get key (λ o,
    match (match o with None => Some [] | Some raw => load_row raw end) with
    | None => Ret (-1)%Z
    | Some lhs =>
        match insert_all_fields lhs rhs with
        | None => Ret (-1)%Z
        | Some l => store_row key l
        end
    end).

(** The arguments: table, key, then the operation's own. *)
Definition c_writeArgs : codec (string * string * pairs) := seq_codec (seq_codec c_sv c_sv) c_row.
Definition c_readArgs : codec (string * string * list string) :=
  seq_codec (seq_codec c_sv c_sv) (c_vec c_sv).
Definition c_modifyArgs : codec (string * string * list string * pairs) := seq_codec c_readArgs c_row.

Definition ycsb_update (argSV : string) : prog Z :=
  match read c_writeArgs argSV with
  | None => Ret (-1)%Z
  | Some (_, key, args) => updateValue key args
  end.

Definition ycsb_insert (argSV : string) : prog Z :=
  match read c_writeArgs argSV with
  | None => Ret (-1)%Z
  | Some (_, key, rhs) => insertValue key rhs
  end.

Definition ycsb_read (argSV : string) : prog Z :=
  match read c_readArgs argSV with
  | None => Ret (-1)%Z
  | Some (_, key, _) => Get key (λ o, Ret (match o with None => -1 | Some _ => 0 end)%Z)
  end.

Definition ycsb_remove (argSV : string) : prog Z := Ret (-1)%Z.
Definition ycsb_scan (argSV : string) : prog Z := Ret (-1)%Z.

Definition readModifyWrite (argSV : string) : prog Z :=
  match read c_modifyArgs argSV with
  | None => Ret (-1)%Z
  | Some (_, key, readFields, writeArgs) => modifyValue key readFields writeArgs
  end.

(** The first character of an empty name is undefined. *)
Definition Ycsb_InvokeChaincode : Chaincode := λ funcName argSV,
  match funcName with
  | EmptyString => Die
  | String c _ =>
      if decide (c = UPDATE) then ycsb_update argSV
      else if decide (c = INSERT) then ycsb_insert argSV
      else if decide (c = READ) then ycsb_read argSV
      else if decide (c = DELETE) then ycsb_remove argSV
      else if decide (c = SCAN) then ycsb_scan argSV
      else if decide (c = READ_MODIFY_WRITE) then readModifyWrite argSV
      else Ret (-1)%Z
  end.

(** ** The abstract table *)

Notation row := (gmap string string).
Notation table := (gmap string row).

Inductive request :=
| Update (key : string) (args : pairs)
| Insert (key : string) (args : pairs)
| Read (key : string) (fields : list string)
| ReadModifyWrite (key : string) (fields : list string) (args : pairs).

Definition write_fields (r : row) (args : pairs) : row := fold_left (λ r x, <[x.1 := x.2]> r) args r.

Definition spec (T : table) (q : request) : option table :=
  match q with
  | Update key args => r ← T !! key; Some (<[key := write_fields r args]> T)
  | Insert key args =>
      let r := default ∅ (T !! key) in
      if decide (NoDup args.*1 ∧ Forall (λ x, r !! x.1 = None) args)
      then Some (<[key := write_fields r args]> T) else None
  | Read key _ => r ← T !! key; Some T
  | ReadModifyWrite key fields args =>
      r ← T !! key;
      if decide (Forall (λ f, is_Some (r !! f)) fields)
      then Some (<[key := write_fields r args]> T) else None
  end.

(** How a client sends a request for table [t]. *)
Definition encode (t : string) (q : request) : string * string :=
  match q with
  | Update key args => (String UPDATE EmptyString, out c_writeArgs (t, key, args))
  | Insert key args => (String INSERT EmptyString, out c_writeArgs (t, key, args))
  | Read key fields => (String READ EmptyString, out c_readArgs (t, key, fields))
  | ReadModifyWrite key fields args =>
      (String READ_MODIFY_WRITE EmptyString, out c_modifyArgs (t, key, fields, args))
  end.

(** The database holds the rows of the table and nothing else is visible. *)
Definition repr (T : table) (db : database) : Prop :=
  ∀ key, match T !! key with
         | Some r => ∃ l : pairs, NoDup l.*1 ∧ list_to_map l = r ∧ visible db key = Some (out c_row l)
         | None => visible db key = None
         end.

(** Sizes fit the 32-bit lengths of the serialization. *)
Definition pair_ok (x : string * string) : Prop := sv_ok x.1 ∧ sv_ok x.2.
Definition row_ok (r : row) : Prop :=
  map_Forall (λ k v, sv_ok k ∧ sv_ok v) r ∧ (Z.of_nat (size r) < 2 ^ 32)%Z.
Definition table_ok (T : table) : Prop := map_Forall (λ _ r, row_ok r) T.
Definition request_ok (q : request) : Prop :=
  match q with
  | Update key args | Insert key args => sv_ok key ∧ vec_ok pair_ok args
  | Read key fields => sv_ok key ∧ vec_ok sv_ok fields
  | ReadModifyWrite key fields args => sv_ok key ∧ vec_ok sv_ok fields ∧ vec_ok pair_ok args
  end.

(** ** Maps and pairs *)

Lemma assign_field_keys l k v x : x ∈ (assign_field l k v).*1 ↔ x = k ∨ x ∈ l.*1.
Proof.
  induction l as [|[a w] l IH]; simpl; [set_solver|]. case_decide as E; simpl in *; subst.
  - set_solver.
  - rewrite !elem_of_cons, IH. naive_solver.
Qed.

Lemma assign_field_ok l k v :
  NoDup l.*1 → NoDup (assign_field l k v).*1 ∧
  (list_to_map (assign_field l k v) : row) = <[k := v]> (list_to_map l).
Proof.
  induction l as [|[a w] l IH]; simpl; [intros _; split; [apply NoDup_singleton|done]|].
  intros [Hn Hnd]%NoDup_cons. destruct (IH Hnd) as [H1 H2]. case_decide as E; simpl in *.
  - subst. split; [by apply NoDup_cons|]. by rewrite insert_insert_eq.
  - split.
    + apply NoDup_cons. split; [|done]. rewrite assign_field_keys. naive_solver.
    + rewrite H2. by apply insert_insert_ne.
Qed.

Lemma assign_all_ok l rhs :
  NoDup l.*1 → NoDup (assign_all l rhs).*1 ∧
  (list_to_map (assign_all l rhs) : row) = write_fields (list_to_map l) rhs.
Proof.
  unfold assign_all, write_fields. revert l. induction rhs as [|x rhs IH]; intros l Hn; simpl; [done|].
  destruct (assign_field_ok l x.1 x.2 Hn) as [H1 H2]. rewrite <-H2. by apply IH.
Qed.

Lemma list_to_map_None (l : pairs) k : (list_to_map l : row) !! k = None ↔ k ∉ l.*1.
Proof. split; [apply not_elem_of_list_to_map_2|apply not_elem_of_list_to_map_1]. Qed.

Lemma insert_fields_ok l rhs :
  NoDup l.*1 →
  match insert_all_fields l rhs with
  | Some l' => NoDup rhs.*1 ∧ Forall (λ x : string * string, (list_to_map l : row) !! x.1 = None) rhs ∧
      NoDup l'.*1 ∧ (list_to_map l' : row) = write_fields (list_to_map l) rhs
  | None => ¬ (NoDup rhs.*1 ∧ Forall (λ x : string * string, (list_to_map l : row) !! x.1 = None) rhs)
  end.
Proof.
  revert l. induction rhs as [|[k v] rhs IH]; intros l Hn; cbn [insert_all_fields].
  { split_and!; [apply NoDup_nil_2|constructor|done..]. }
  unfold insert_field. cbn [fst]. case_decide as Hk; cbn [mbind option_bind].
  { intros [_ Hf]. inversion Hf as [|?? H0]; subst. by apply list_to_map_None in H0. }
  assert (Hn' : NoDup (l ++ [(k, v)]).*1).
  { rewrite fmap_app. apply NoDup_app. split_and!; [done|set_solver|apply NoDup_singleton]. }
  assert (Hm : (list_to_map (l ++ [(k, v)]) : row) = <[k := v]> (list_to_map l)).
  { by apply list_to_map_snoc. }
  specialize (IH _ Hn'). rewrite Hm in IH. destruct (insert_all_fields _ rhs) as [l'|].
  - destruct IH as (H1 & H2 & H3 & H4). rewrite Forall_forall in H2.
    assert (Hnk : k ∉ rhs.*1).
    { intros (x & -> & Hx)%list_elem_of_fmap. specialize (H2 x Hx). by rewrite lookup_insert_eq in H2. }
    split_and!; [by apply NoDup_cons| |done|done].
    constructor; [by apply list_to_map_None|]. apply Forall_forall. intros x Hx. specialize (H2 x Hx).
    by apply lookup_insert_None in H2 as [? _].
  - intros [Hnd Hf]. apply IH. apply NoDup_cons in Hnd as [Hnk Hnd]. inversion Hf as [|?? H0 Hf']; subst.
    split; [done|]. rewrite Forall_forall in Hf' |- *. intros x Hx. apply lookup_insert_None.
    split; [auto|]. intros E. apply Hnk, list_elem_of_fmap. by exists x.
Qed.

Lemma load_fold l acc :
  NoDup (acc ++ l).*1 → fold_left (λ l x, default l (insert_field l x)) l acc = acc ++ l.
Proof.
  revert acc. induction l as [|x l IH]; intros acc Hn; simpl; [by rewrite app_nil_r|].
  unfold insert_field at 2. rewrite decide_False.
  - simpl. rewrite IH; rewrite <-app_assoc; done.
  - rewrite fmap_app in Hn. apply NoDup_app in Hn as (_ & Hd & _). intros Hx. apply (Hd _ Hx). simpl. set_solver.
Qed.

(** ** Rows in the database *)

Context `{!ZppLaws ZP}.
Hypothesis layout_perm : ∀ l, layout l ≡ₚ l.

Lemma row_codec_ok : codec_ok (vec_ok pair_ok) c_row.
Proof. apply vec_law. apply (seq_codec_ok sv_ok sv_ok); apply sv_law. Qed.

Lemma row_pairs_ok l : NoDup l.*1 → row_ok (list_to_map l) → vec_ok pair_ok l.
Proof.
  intros Hn [Hf Hs]. split.
  - apply Forall_forall. intros [k v] Hin. apply (Hf k v). by apply elem_of_list_to_map_1.
  - rewrite map_size_list_to_map in Hs by done. done.
Qed.

Lemma load_row_ok l : NoDup l.*1 → row_ok (list_to_map l) → load_row (out c_row l) = Some l.
Proof.
  intros Hn Hr. unfold load_row.
  rewrite (read_out (vec_ok pair_ok) c_row l) by auto using row_codec_ok, row_pairs_ok.
  cbn [mbind option_bind]. by rewrite load_fold.
Qed.

Lemma row_nonempty l : vec_ok pair_ok l → out c_row l ≠ EmptyString.
Proof.
  intros Hl. destruct l as [|x l].
  - apply (out_nonempty (vec_ok pair_ok) c_row [] [(EmptyString, EmptyString)]); [apply row_codec_ok|done| |done].
    split; [by repeat constructor|done].
  - apply (out_nonempty (vec_ok pair_ok) c_row (x :: l) []); [apply row_codec_ok|done| |done].
    split; [constructor|done].
Qed.

(** Storing a row updates the table. *)
Lemma store_row_ok T db key l :
  repr T db → NoDup l.*1 → row_ok (list_to_map l) →
  repr (<[key := list_to_map l]> T) (applyWrites [mkKV key (out c_row (layout l))] db).
Proof.
  intros HT Hn Hr. pose proof (layout_perm l) as Hp.
  assert (Hn' : NoDup (layout l).*1) by by rewrite Hp.
  assert (Hm : (list_to_map (layout l) : row) = list_to_map l) by by apply list_to_map_proper.
  intros k. unfold applyWrites. cbn [fold_left]. rewrite visible_applyWrite. cbn [kv_key kv_value].
  destruct (decide (key = k)) as [->|Hne].
  - rewrite lookup_insert_eq, decide_False.
    + eauto.
    + apply row_nonempty, row_pairs_ok; [done|]. by rewrite Hm.
  - rewrite lookup_insert_ne by done. apply HT.
Qed.

(** What a run leaves: the code and the write set. *)
Definition leaves (db : database) (p : prog Z) (code : Z) (ws : KVList) : Prop :=
  ∀ o, ∃ o', run db p o = Some (o', code) ∧ orm_writes o' = orm_writes o ++ ws.

Lemma leaves_ret db code : leaves db (Ret code) code [].
Proof. intros o. exists o. by rewrite app_nil_r. Qed.

Lemma leaves_get db key k code ws :
  leaves db (k (visible db key)) code ws → leaves db (Get key k) code ws.
Proof.
  intros H o. simpl. unfold orm_get. destruct (visible db key) as [v|]; [|apply H].
  destruct (H (mkORM (orm_reads o ++ [mkKV key v]) (orm_writes o) (orm_result o))) as (o' & -> & Hw). eauto.
Qed.

Lemma leaves_store db key l : leaves db (store_row key l) 0 [mkKV key (out c_row (layout l))].
Proof. intros o. eexists. done. Qed.

(** The outcome of a request against the table. *)
Definition answers (T : table) (q : request) (db : database) (p : prog Z) : Prop :=
  ∃ code ws, leaves db p code ws ∧
    match spec T q with
    | Some T' => code = 0%Z ∧ repr T' (applyWrites ws db) ∧ NoDup (kv_key <$> ws)
    | None => code = (-1)%Z ∧ ws = []
    end.

Lemma row_of T db key r :
  repr T db → table_ok T → T !! key = Some r →
  ∃ l, NoDup l.*1 ∧ list_to_map l = r ∧ visible db key = Some (out c_row l) ∧ load_row (out c_row l) = Some l.
Proof.
  intros HT Hok E. specialize (HT key). rewrite E in HT. destruct HT as (l & Hn & <- & Hv).
  exists l. split_and!; [done..|]. apply load_row_ok; [done|]. by apply (Hok key).
Qed.

Lemma missing_row T db key : repr T db → T !! key = None → visible db key = None.
Proof. intros HT E. specialize (HT key). by rewrite E in HT. Qed.

Lemma answers_store T T' q db key l p :
  repr T db → NoDup l.*1 → row_ok (list_to_map l) → spec T q = Some T' →
  T' = <[key := list_to_map l]> T → leaves db p 0 [mkKV key (out c_row (layout l))] →
  answers T q db p.
Proof.
  intros HT Hn Hr E -> Hp. eexists _, _. split; [done|]. rewrite E. split_and!; [done|by apply store_row_ok|].
  apply NoDup_singleton.
Qed.

Lemma update_answers T db key args :
  repr T db → table_ok T → (∀ T', spec T (Update key args) = Some T' → table_ok T') →
  answers T (Update key args) db (updateValue key args).
Proof.
  intros HT Hok Hok'. destruct (T !! key) as [r|] eqn:E.
  - destruct (row_of T db key r HT Hok E) as (l & Hn & <- & Hv & Hl).
    destruct (assign_all_ok l args Hn) as [Hn2 Hm].
    eapply (answers_store T _ _ db key (assign_all l args)); [done..| |cbn; by rewrite E|by rewrite Hm|].
    + rewrite Hm. apply (Hok' (<[key := write_fields (list_to_map l) args]> T)) with key; [cbn; by rewrite E|].
      apply lookup_insert_eq.
    + apply leaves_get. rewrite Hv, Hl. apply leaves_store.
  - exists (-1)%Z, []. split; [|cbn; by rewrite E].
    apply leaves_get. rewrite (missing_row T) by done. apply leaves_ret.
Qed.

Lemma modify_answers T db key fields args :
  repr T db → table_ok T → (∀ T', spec T (ReadModifyWrite key fields args) = Some T' → table_ok T') →
  answers T (ReadModifyWrite key fields args) db (modifyValue key fields args).
Proof.
  intros HT Hok Hok'. destruct (T !! key) as [r|] eqn:E.
  - destruct (row_of T db key r HT Hok E) as (l & Hn & <- & Hv & Hl).
    assert (Hf : forallb (λ f, bool_decide (f ∈ l.*1)) fields = true ↔
      Forall (λ f, is_Some ((list_to_map l : row) !! f)) fields).
    { rewrite forallb_forall, Forall_forall. split; intros Hall f Hin.
      - apply list_elem_of_In in Hin. specialize (Hall f Hin). bool_cases.
        apply not_eq_None_Some. rewrite list_to_map_None. auto.
      - apply list_elem_of_In in Hin. specialize (Hall f Hin). apply bool_decide_eq_true.
        destruct (decide (f ∈ l.*1)) as [|Hn']; [done|]. apply list_to_map_None in Hn'.
        rewrite Hn' in Hall. by destruct Hall. }
    destruct (assign_all_ok l args Hn) as [Hn2 Hm].
    destruct (decide (Forall (λ f, is_Some ((list_to_map l : row) !! f)) fields)) as [HF|HF].
    + assert (Es : spec T (ReadModifyWrite key fields args) = Some (<[key := write_fields (list_to_map l) args]> T)).
      { cbn. rewrite E. cbn. by rewrite decide_True. }
      eapply (answers_store T _ _ db key (assign_all l args)); [done..| |done|by rewrite Hm|].
      * rewrite Hm. apply (Hok' _ Es key). apply lookup_insert_eq.
      * apply leaves_get. rewrite Hv, Hl, (proj2 Hf HF). apply leaves_store.
    + exists (-1)%Z, []. split.
      * apply leaves_get. rewrite Hv, Hl. destruct (forallb _ fields); [naive_solver|apply leaves_ret].
      * cbn. rewrite E. cbn. by rewrite decide_False.
  - exists (-1)%Z, []. split; [|cbn; by rewrite E].
    apply leaves_get. rewrite (missing_row T) by done. apply leaves_ret.
Qed.

Lemma insert_answers T db key args :
  repr T db → table_ok T → (∀ T', spec T (Insert key args) = Some T' → table_ok T') →
  answers T (Insert key args) db (insertValue key args).
Proof.
  intros HT Hok Hok'.
  assert (∃ l, NoDup l.*1 ∧ list_to_map l = default ∅ (T !! key) ∧
    match visible db key with None => Some [] | Some raw => load_row raw end = Some l) as (l & Hn & Hm & Hv).
  { destruct (T !! key) as [r|] eqn:E.
    - destruct (row_of T db key r HT Hok E) as (l & Hn & Hr & Hv & Hl). exists l. by rewrite Hv.
    - exists []. rewrite (missing_row T) by done. split_and!; [apply NoDup_nil_2|done..]. }
  pose proof (insert_fields_ok l args Hn) as Hi. rewrite Hm in Hi.
  destruct (insert_all_fields l args) as [l'|] eqn:E'.
  - destruct Hi as (H1 & H2 & H3 & H4).
    assert (Es : spec T (Insert key args) = Some (<[key := write_fields (default ∅ (T !! key)) args]> T)).
    { cbn. by rewrite decide_True. }
    eapply (answers_store T _ _ db key l'); [done..| |done|by rewrite H4|].
    + rewrite H4. apply (Hok' _ Es key). apply lookup_insert_eq.
    + apply leaves_get. rewrite Hv, E'. apply leaves_store.
  - exists (-1)%Z, []. split; [|cbn; by rewrite decide_False].
    apply leaves_get. rewrite Hv, E'. apply leaves_ret.
Qed.

Lemma read_answers T db key fields :
  repr T db → answers T (Read key fields) db (Get key (λ o, Ret (match o with None => -1 | Some _ => 0 end)%Z)).
Proof.
  intros HT. pose proof (HT key) as Hk. destruct (T !! key) as [r|] eqn:E.
  - destruct Hk as (l & _ & _ & Hv). exists 0%Z, []. split; [|cbn; rewrite E; split_and!; [done..|apply NoDup_nil_2]].
    apply leaves_get. rewrite Hv. apply leaves_ret.
  - exists (-1)%Z, []. split; [|cbn; by rewrite E]. apply leaves_get. rewrite Hk. apply leaves_ret.
Qed.

Lemma writeArgs_ok : codec_ok (λ x, (sv_ok x.1.1 ∧ sv_ok x.1.2) ∧ vec_ok pair_ok x.2) c_writeArgs.
Proof.
  apply (seq_codec_ok (λ x : string * string, sv_ok x.1 ∧ sv_ok x.2) (vec_ok pair_ok));
    [apply (seq_codec_ok sv_ok sv_ok); apply sv_law|apply row_codec_ok].
Qed.

Lemma readArgs_ok : codec_ok (λ x, (sv_ok x.1.1 ∧ sv_ok x.1.2) ∧ vec_ok sv_ok x.2) c_readArgs.
Proof.
  apply (seq_codec_ok (λ x : string * string, sv_ok x.1 ∧ sv_ok x.2) (vec_ok sv_ok));
    [apply (seq_codec_ok sv_ok sv_ok); apply sv_law|apply vec_law, sv_law].
Qed.

Lemma modifyArgs_ok :
  codec_ok (λ x, ((sv_ok x.1.1.1 ∧ sv_ok x.1.1.2) ∧ vec_ok sv_ok x.1.2) ∧ vec_ok pair_ok x.2) c_modifyArgs.
Proof.
  apply (seq_codec_ok (λ x : string * string * list string, (sv_ok x.1.1 ∧ sv_ok x.1.2) ∧ vec_ok sv_ok x.2)
    (vec_ok pair_ok)); [exact readArgs_ok|apply row_codec_ok].
Qed.

Lemma invoke_answers T t q db :
  repr T db → table_ok T → sv_ok t → request_ok q → (∀ T', spec T q = Some T' → table_ok T') →
  answers T q db (Ycsb_InvokeChaincode (encode t q).1 (encode t q).2).
Proof.
  intros HT Hok Ht Hq Hok'.
  destruct q as [key args|key args|key fields|key fields args]; cbn [encode fst snd Ycsb_InvokeChaincode].
  - unfold ycsb_update. rewrite decide_True by done. erewrite read_out by (apply writeArgs_ok || (destruct Hq; done)).
    by apply update_answers.
  - rewrite decide_False, decide_True by done. unfold ycsb_insert.
    erewrite read_out by (apply writeArgs_ok || (destruct Hq; done)). by apply insert_answers.
  - rewrite !decide_False, decide_True by done. unfold ycsb_read.
    erewrite read_out by (apply readArgs_ok || (destruct Hq; done)). by apply read_answers.
  - rewrite !decide_False, decide_True by done. unfold readModifyWrite.
    erewrite read_out by (apply modifyArgs_ok || (destruct Hq as (? & ? & ?); done)). by apply modify_answers.
Qed.

(** C26: on a database that holds a table, the row-level YCSB chaincode returns 0
    exactly when the table accepts the request, its write then leads to a
    database that holds the new table, whatever order the row's hash map is
    serialized in; a refused request returns -1 and writes nothing; no request
    writes a key twice. *)
Theorem ycsb_refines T t q db :
  repr T db → table_ok T → sv_ok t → request_ok q → (∀ T', spec T q = Some T' → table_ok T') →
  ∃ o code, run db (Ycsb_InvokeChaincode (encode t q).1 (encode t q).2) newORM = Some (o, code) ∧
    match spec T q with
    | Some T' => code = 0%Z ∧ repr T' (applyWrites (orm_writes o) db) ∧ NoDup (kv_key <$> orm_writes o)
    | None => code = (-1)%Z ∧ orm_writes o = []
    end.
Proof.
  intros HT Hok Ht Hq Hok'. destruct (invoke_answers T t q db HT Hok Ht Hq Hok') as (code & ws & Hl & Hs).
  destruct (Hl newORM) as (o & E & Hw). simpl in Hw. exists o, code. by rewrite Hw.
Qed.
End chaincode.

(** ** A concrete request *)

#[local] Existing Instance LE.zpp.
#[local] Existing Instance LE.zpp_laws.

Definition sample_row : list (string * string) := [("f0", "a"); ("f1", "b")]%string.
Definition sample_table : gmap string (gmap string string) := {["user1" := list_to_map sample_row]}.
Definition sample_rows : database := {["user1" := out c_row sample_row]}.
Definition sample_request : request := Update "user1" [("f1", "c"); ("f2", "d")]%string.

Lemma sample_rows_repr : repr sample_table sample_rows.
Proof.
  intros key. unfold sample_table, sample_rows, visible, db_get.
  destruct (decide (key = "user1"%string)) as [->|Hne].
  - rewrite !lookup_singleton_eq. exists sample_row.
    split_and!; [apply (bool_decide_unpack _); by vm_compute|done|by vm_compute].
  - by rewrite !lookup_singleton_ne by done.
Qed.

Lemma sample_row_ok args :
  Forall pair_ok args → length args < 100 → row_ok (write_fields (list_to_map sample_row) args).
Proof.
  intros Ha Hl. split.
  - unfold write_fields. assert (H0 : map_Forall (λ k v, sv_ok k ∧ sv_ok v) (list_to_map sample_row : gmap string string)).
    { apply map_Forall_insert_2; [done|]. apply map_Forall_insert_2; [done|]. apply map_Forall_empty. }
    revert H0. generalize (list_to_map sample_row : gmap string string). clear Hl.
    induction Ha as [|x args Hx Ha IH]; intros r Hr; [done|]. simpl. apply IH. by apply map_Forall_insert_2.
  - assert (Hsz : size (write_fields (list_to_map sample_row) args) ≤ 2 + length args).
    { unfold write_fields. assert (H0 : size (list_to_map sample_row : gmap string string) ≤ 2) by by vm_compute.
      revert H0. generalize (list_to_map sample_row : gmap string string) 2. clear.
      induction args as [|x args IH]; intros r k Hr; simpl; [lia|].
      rewrite <-plus_n_Sm. apply (IH _ (S k)). rewrite map_size_insert. destruct (r !! x.1); simpl; lia. }
    lia.
Qed.

Lemma ycsb_refines_witness :
  ∃ o code, run sample_rows (Ycsb_InvokeChaincode reverse (encode "t" sample_request).1
      (encode "t" sample_request).2) newORM = Some (o, code) ∧
    match spec sample_table sample_request with
    | Some T' => code = 0%Z ∧ repr T' (applyWrites (orm_writes o) sample_rows) ∧ NoDup (kv_key <$> orm_writes o)
    | None => code = (-1)%Z ∧ orm_writes o = []
    end.
Proof.
  refine (ycsb_refines reverse _ sample_table "t" sample_request sample_rows sample_rows_repr _ _ _ _).
  - intros l. by rewrite reverse_Permutation.
  - apply map_Forall_singleton. apply (sample_row_ok []); [constructor|simpl; lia].
  - done.
  - split; [done|]. split; [by repeat constructor|done].
  - intros T'. cbn. unfold sample_table. rewrite lookup_singleton_eq. cbn. intros [= <-].
    apply map_Forall_insert_2; [|apply map_Forall_singleton; apply (sample_row_ok []); [constructor|simpl; lia]].
    apply (sample_row_ok [("f1", "c"); ("f2", "d")]%string); [by repeat constructor|simpl; lia].
Defined.
