(* ===== verification/SimpleChaincodes.v ===== *)
(** * Simple chaincodes and the registry

    The chaincodes the repository uses as examples and baselines
    (include/peer/chaincode/hash_chaincode.h, simple_transfer.h,
    simple_session_store.h, simple_vote_chaincode.h), the field-level YCSB
    chaincode (src/peer/chaincode/ycsb_chaincode.cpp), the registry that picks a
    chaincode by its name (chaincode.cpp, crdt/crdt_chaincode.cpp) and the
    initialisation of the database (ModuleCoordinator::initChaincodeData,
    initCrdtChaincodeData).

    An exception, and arithmetic on [int] that overflows, end the run ([Die]).
    The constructors read the configuration: the field names and the number of
    candidates are parameters. *)

From S2P Require Import Prelude Zpp Proto DB ORM Decimal Coordinator Deterministic.
From S2P Require Import SmallBank TpccSchema Tpcc Crdt Ycsb.
From Stdlib Require Import Ascii.

(** Writes one after the other. *)
Fixpoint puts (l : pairs) (p : prog Z) : prog Z :=
  match l with
  | [] => p
  | x :: l => Put x.1 x.2 (puts l p)
  end.

Section chaincodes.
Context `{ZP : Zpp}.

(** ** HashChaincode *)

Definition Hash_Set (key value : string) : prog Z := Put key value (Ret 0%Z).
Definition Hash_Get (key : string) : prog Z :=
  Get key (λ o, match o with Some v => SetResult v (Ret 0%Z) | None => Ret (-1)%Z end).

Definition Hash_InvokeChaincode : Chaincode := λ funcNameSV argSV,
  if decide (funcNameSV = "Get"%string) then
    match read c_sv argSV with None => Ret (-1)%Z | Some key => Hash_Get key end
  else if decide (funcNameSV = "Set"%string) then
    match read (seq_codec c_sv c_sv) argSV with
    | None => Ret (-1)%Z
    | Some (key, value) => Hash_Set key value
    end
  else Ret (-1)%Z.

(** ** SimpleTransfer *)

(** [initDatabase], the same in the transfer and in the session chaincode. *)
Definition zeros (recordCount : Z) : pairs :=
  (λ i, (to_string (Z.of_nat i), "0"%string)) <$> seq 0 (Z.to_nat recordCount).
Definition initDatabase (recordCount : Z) : prog Z := puts (zeros recordCount) (Ret 0%Z).

Definition transfer (from to : string) : prog Z :=
  if decide (from = to) then Ret 0%Z else
  Get from (λ o,
    match o with
    | None => Ret (-1)%Z
    | Some fromBalance =>
        Get to (λ o,
          match o with
          | None => Ret (-1)%Z
          | Some toBalance =>
              match atoi fromBalance, atoi toBalance with
              | Some x, Some y =>
                  if decide (in_int32 (x - 100) ∧ in_int32 (y + 100))
                  then Put from (to_string (x - 100)) (Put to (to_string (y + 100)) (Ret 0%Z))
                  else Die
              | _, _ => Die
              end
          end)
    end).

Definition Transfer_InvokeChaincode : Chaincode := λ funcNameSV argSV,
  match read (c_vec c_sv) argSV with
  | None => Ret (-1)%Z
  | Some args =>
      match args with
      | [from; to] => transfer from to
      | [n] =>
          if decide (funcNameSV = "init"%string)
          then match stoi n with Some k => initDatabase k | None => Die end
          else Ret (-1)%Z
      | _ => Ret (-1)%Z
      end
  end.

(** ** SimpleSessionStore *)

Definition Session_Get (key : string) : prog Z :=
  Get key (λ o, Ret (match o with Some _ => 0 | None => -1 end)%Z).

(** [std::atoi] runs on from the end of the value to the bytes that follow the
    arguments in memory, [after]: a [std::string_view] is not terminated. *)
Definition Session_InvokeChaincode (after : string) : Chaincode := λ funcNameSV argSV,
  match read (c_vec c_sv) argSV with
  | None => Ret (-1)%Z
  | Some args =>
      match args with
      | [n] =>
          if decide (funcNameSV = "init"%string)
          then match stoi n with Some k => initDatabase k | None => Die end
          else Ret (-1)%Z
      | [key; value] =>
          match atoi (value +:+ after) with
          | None => Die
          | Some valueNum => if (Z.rem valueNum 2 =? 0)%Z then Session_Get key else Hash_Set key value
          end
      | _ => Ret (-1)%Z
      end
  end.

(** ** SimpleVote *)

Definition SimpleVote_InitDatabase (candidateCount : Z) : prog Z :=
  puts ((λ i, (to_string (Z.of_nat i), out c_i32 0%Z)) <$> seq 0 (Z.to_nat candidateCount)) (Ret 0%Z).

Definition SimpleVote_Vote (candidate : string) (count : Z) : prog Z :=
  Get candidate (λ o,
    match o with
    | None => Ret (-2)%Z
    | Some rawValue =>
        match read c_i32 rawValue with
        | None => Ret (-3)%Z
        | Some oldCount => Put candidate (out c_i32 (wrap32 (oldCount + count))) (Ret 0%Z)
        end
    end).

Definition SimpleVote_InvokeChaincode : Chaincode := λ funcNameSV argSV,
  if decide (funcNameSV = VOTING_GET) then Hash_Get argSV
  else if decide (funcNameSV = VOTING_VOTE) then
    match read (seq_codec c_sv c_i32) argSV with
    | None => Ret (-1)%Z
    | Some (key, count) => SimpleVote_Vote key count
    end
  else Ret (-1)%Z.

(** ** YCSBChaincode: one key per field *)

Definition BuildKeyField (key field : string) : string := key +:+ String "_" field.

(** The loop that reads fields and drops their values. *)
Fixpoint read_fields (key : string) (fields : list string) (p : prog Z) : prog Z :=
  match fields with
  | [] => p
  | f :: fields =>
      Get (BuildKeyField key f) (λ o, match o with None => Ret (-1)%Z | Some _ => read_fields key fields p end)
  end.

Section ycsb_field.
Context (fieldNames : list string).

Definition field_puts (key : string) (args : pairs) : prog Z :=
  puts ((λ x, (BuildKeyField key x.1, x.2)) <$> args) (Ret 0%Z).

Definition field_update (argSV : string) : prog Z :=
  match read c_writeArgs argSV with
  | None => Ret (-1)%Z
  | Some (_, key, args) => field_puts key args
  end.

Definition requested (fields : list string) : list string :=
  if decide (fields = []) then fieldNames else fields.

Definition field_read (argSV : string) : prog Z :=
  match read c_readArgs argSV with
  | None => Ret (-1)%Z
  | Some (_, key, fields) => read_fields key (requested fields) (Ret 0%Z)
  end.

Definition field_readModifyWrite (argSV : string) : prog Z :=
  match read c_modifyArgs argSV with
  | None => Ret (-1)%Z
  | Some (_, key, readFields, writeArgs) =>
      read_fields key (requested readFields) (field_puts key writeArgs)
  end.

(** [remove] and [scan] are not implemented, as in the row-level chaincode. *)
Definition YcsbField_InvokeChaincode : Chaincode := λ funcName argSV,
  match funcName with
  | EmptyString => Die
  | String c _ =>
      if decide (c = UPDATE) then field_update argSV
      else if decide (c = INSERT) then field_update argSV
      else if decide (c = READ) then field_read argSV
      else if decide (c = DELETE) then Ret (-1)%Z
      else if decide (c = SCAN) then Ret (-1)%Z
      else if decide (c = READ_MODIFY_WRITE) then field_readModifyWrite argSV
      else Ret (-1)%Z
  end.
End ycsb_field.

(** ** The registry *)

(** A chaincode object: its two virtual methods. *)
Record ChaincodeObject := mkCC { InvokeChaincode : Chaincode; InitDatabase : prog Z }.

(** The initial data of YCSB, TPC-C and SmallBank are drawn at random by their
    workload generators. *)
Context (layout : pairs → pairs) (g24 : vec Z 24) (after : string) (candidateCount : Z).
Context (ycsb_init tpcc_init sb_init : prog Z).

Definition NewChaincodeByName (ccName : string) : option ChaincodeObject :=
  if decide (ccName = "ycsb"%string) then Some (mkCC (Ycsb_InvokeChaincode layout) ycsb_init)
  else if decide (ccName = "tpcc"%string) then Some (mkCC (TpccCC.TPCC_InvokeChaincode g24) tpcc_init)
  else if decide (ccName = "sb"%string) then Some (mkCC SmallBank_InvokeChaincode sb_init)
  else if decide (ccName = VOTING_CHAINCODE_NAME)
  then Some (mkCC SimpleVote_InvokeChaincode (SimpleVote_InitDatabase candidateCount))
  else if decide (ccName = "transfer"%string) then Some (mkCC Transfer_InvokeChaincode (Ret 0%Z))
  else if decide (ccName = "session_store"%string) then Some (mkCC (Session_InvokeChaincode after) (Ret 0%Z))
  else if decide (ccName = "hash_chaincode"%string) then Some (mkCC Hash_InvokeChaincode (Ret 0%Z))
  else None.

(** ** Initialising the database *)

(** [ModuleCoordinator::initChaincodeData]: the writes of [InitDatabase] as one
    batch of puts. *)
Definition initChaincodeData (db : database) (ccName : string) : option (database * bool) :=
  match NewChaincodeByName ccName with
  | None => Some (db, false)
  | Some cc =>
      match run db (InitDatabase cc) newORM with
      | None => None
      | Some (o, ret) =>
          if negb (ret =? 0)%Z then Some (db, false)
          else Some (syncWriteBatch
                 (λ b, (fold_left (λ b kv, batchPut (kv_key kv) (kv_value kv) b) (orm_writes o) b, true)) db)
      end
  end.

(** [VoteChaincode::InitDatabase] writes through the CRDT shim. *)
Fixpoint crdt_put_zeros (db : database) (l : list nat) : database * Z :=
  match l with
  | [] => (db, 0%Z)
  | i :: l =>
      match shim_put db (to_string (Z.of_nat i)) (λ _, Some (out c_i32 0%Z)) with
      | (db', true) => crdt_put_zeros db' l
      | (db', false) => (db', (-1)%Z)
      end
  end.

Definition Vote_InitDatabase (db : database) : database * Z :=
  crdt_put_zeros db (seq 0 (Z.to_nat candidateCount)).

Definition initCrdtChaincodeData (db : database) (ccName : string) : database * bool :=
  if isCrdtChainCode ccName
  then let '(db', ret) := Vote_InitDatabase db in (db', (ret =? 0)%Z)
  else (db, false).
End chaincodes.

(** ** Running sequences of writes *)

Lemma run_batch_puts db l p o :
  run db (puts l p) o =
  run db p (mkORM (orm_reads o) (orm_writes o ++ ((λ x, mkKV x.1 x.2) <$> l)) (orm_result o)).
Proof.
  revert o. induction l as [|x l IH]; intros o; simpl.
  - rewrite app_nil_r. by destruct o.
  - rewrite IH. unfold orm_put. simpl. by rewrite <-app_assoc.
Qed.

(** ** The abstract bank behind the transfer chaincode *)

Definition bank_of (db : database) (bk : gmap string Z) : Prop :=
  (∀ k, db !! k = to_string <$> bk !! k) ∧ map_Forall (λ _ z, in_int32 z) bk.

Definition total (bk : gmap string Z) : Z := map_fold (λ _ z acc, z + acc)%Z 0%Z bk.

Lemma total_insert bk k x y :
  bk !! k = Some x → total (<[k := y]> bk) = (total bk - x + y)%Z.
Proof.
  intros Hk. unfold total.
  rewrite <-insert_delete_eq, map_fold_insert_L; [|intros; lia|apply lookup_delete_eq].
  rewrite <-(insert_delete_id bk k x Hk) at 2.
  rewrite (map_fold_insert_L _ _ k x); [lia|intros; lia|apply lookup_delete_eq].
Qed.

Lemma bank_visible db bk k : bank_of db bk → visible db k = to_string <$> bk !! k.
Proof.
  intros [Hdb Hin]. unfold visible, db_get. rewrite Hdb. destruct (bk !! k) as [z|] eqn:E; [|done]. simpl.
  rewrite decide_False; [done|]. by apply to_string_nonempty, (Hin k).
Qed.

Lemma bank_insert db bk k z :
  bank_of db bk → in_int32 z → bank_of (applyWrite db (mkKV k (to_string z))) (<[k := z]> bk).
Proof.
  intros [Hdb Hin] Hz. unfold applyWrite. simpl. rewrite decide_False by by apply to_string_nonempty.
  split; [|by apply map_Forall_insert_2]. intros k'.
  destruct (decide (k' = k)) as [->|?]; [by rewrite !lookup_insert_eq|]. by rewrite !lookup_insert_ne.
Qed.

Abbreviation ftable := (gmap (string * string) string).

Section theorems.
Context `{ZP : Zpp} `{HZ : !ZppLaws ZP}.

(** What a transfer of 100 does to the bank; it is undefined when a balance
    leaves the range of [int]. *)
Definition transfer_spec (bk : gmap string Z) (from to : string) : option (gmap string Z * Z) :=
  if decide (from = to) then Some (bk, 0%Z) else
  match bk !! from, bk !! to with
  | Some x, Some y =>
      if decide (in_int32 (x - 100) ∧ in_int32 (y + 100))
      then Some (<[to := (y + 100)%Z]> (<[from := (x - 100)%Z]> bk), 0%Z) else None
  | _, _ => Some (bk, (-1)%Z)
  end.

Lemma transfer_runs db bk from to :
  bank_of db bk →
  match transfer_spec bk from to with
  | None => run db (transfer from to) newORM = None
  | Some (bk', code) =>
      ∃ o, run db (transfer from to) newORM = Some (o, code) ∧ bank_of (applyWrites (orm_writes o) db) bk' ∧
        total bk' = total bk
  end.
Proof.
  intros Hb. unfold transfer_spec, transfer. case_decide as Hft; [by eexists|]. simpl.
  unfold orm_get. rewrite (bank_visible db bk from Hb).
  destruct (bk !! from) as [x|] eqn:Ef; simpl; [|by eexists].
  unfold orm_get. rewrite (bank_visible db bk to Hb).
  destruct (bk !! to) as [y|] eqn:Et; simpl; [|by eexists].
  assert (Hx : in_int32 x) by by apply (proj2 Hb from). assert (Hy : in_int32 y) by by apply (proj2 Hb to).
  rewrite !atoi_to_string by done. case_decide as Hr; [|done]. destruct Hr as [Hr1 Hr2].
  eexists. split; [done|]. cbn [orm_put orm_writes applyWrites app fold_left]. split.
  - by apply bank_insert; [apply bank_insert|].
  - rewrite (total_insert _ to y), (total_insert _ from x) by (rewrite ?lookup_insert_ne by done; done). lia.
Qed.

(** The transfer chaincode keeps the money of the bank: on a database of
    balances in decimal, a call either moves 100 from one account to the other,
    or, when an account is unknown, returns -1 and changes nothing; a balance
    that would leave the range of [int] is undefined.  The total is unchanged
    and balances may become negative. *)
Theorem transfer_refines db bk f from to :
  bank_of db bk → sv_ok from → sv_ok to →
  match transfer_spec bk from to with
  | None => run db (Transfer_InvokeChaincode f (out (c_vec c_sv) [from; to])) newORM = None
  | Some (bk', code) =>
      ∃ o, run db (Transfer_InvokeChaincode f (out (c_vec c_sv) [from; to])) newORM = Some (o, code) ∧
        bank_of (applyWrites (orm_writes o) db) bk' ∧ total bk' = total bk
  end.
Proof using HZ.
  intros Hb Hf Ht. unfold Transfer_InvokeChaincode.
  rewrite (read_out (vec_ok sv_ok)); [by apply transfer_runs|apply vec_law, sv_law|].
  unfold vec_ok. split; [by repeat constructor|simpl; lia].
Qed.

(** The two voting chaincodes do the same.  [SimpleVote], which the
    deterministic engine runs when the mixed one is off, reads and writes through
    the ORM; [VoteChaincode] writes the database in place.  From every database
    and for every call they leave the same database, give the same result string
    and agree on success; only their error codes differ. *)
Theorem simple_vote_equivalent db f a :
  ∃ o ret, run db (SimpleVote_InvokeChaincode f a) newORM = Some (o, ret) ∧
    let '(db', result, ret') := Vote_InvokeChaincode db f a in
    applyWrites (orm_writes o) db = db' ∧ orm_result o = result ∧ (ret =? 0)%Z = (ret' =? 0)%Z.
Proof using HZ.
  unfold SimpleVote_InvokeChaincode, Vote_InvokeChaincode, parse_call.
  destruct (decide (f = VOTING_GET)) as [->|Hg].
  { simpl. unfold orm_get, Get_votes, shim_get, visible. destruct (db_get a db) as [v|]; simpl; [|by eexists _, _].
    destruct (decide (v = EmptyString)); by eexists _, _. }
  destruct (decide (f = VOTING_VOTE)) as [->|Hv]; [|by eexists _, _].
  destruct (read (seq_codec c_sv c_i32) a) as [[key count]|]; [|by eexists _, _].
  simpl. unfold orm_get, visible, Vote, shim_put, vote_callback, db_get.
  destruct (db !! key) as [v|] eqn:E; simpl.
  - destruct (decide (v = EmptyString)) as [->|Hne]; simpl.
    + rewrite read_i32_nonempty. by eexists _, _.
    + destruct (read c_i32 v) as [x|]; simpl; [|by eexists _, _].
      eexists _, _. split; [done|]. cbn [orm_writes orm_put applyWrites fold_left app].
      unfold applyWrite, syncPut. simpl. by rewrite decide_False by by apply i32_nonempty, wrap32_range.
  - rewrite read_i32_nonempty. by eexists _, _.
Qed.

(** ** The initial votes *)

Definition zero_votes (db : database) (l : list nat) : database :=
  fold_left (λ d i, syncPut (to_string (Z.of_nat i)) (out c_i32 0%Z) d) l db.

Lemma zero_votes_lookup db l k :
  zero_votes db l !! k =
  if decide (k ∈ (λ i, to_string (Z.of_nat i)) <$> l) then Some (out c_i32 0%Z) else db !! k.
Proof.
  revert db. induction l as [|i l IH]; intros db; [done|]. unfold zero_votes in *. simpl. rewrite IH.
  unfold syncPut. destruct (decide (k ∈ (λ i, to_string (Z.of_nat i)) <$> l)) as [Hin|Hout].
  - rewrite decide_True; [done|]. csimpl. by right.
  - destruct (decide (k = to_string (Z.of_nat i))) as [->|Hne].
    + rewrite lookup_insert_eq, decide_True; [done|]. csimpl. by left.
    + rewrite lookup_insert_ne, decide_False by (done || csimpl; set_solver). done.
Qed.

Lemma crdt_zeros db l : crdt_put_zeros db l = (zero_votes db l, 0%Z).
Proof. revert db. induction l as [|i l IH]; intros db; [done|]. simpl. by rewrite IH. Qed.

Lemma batch_puts ws b :
  fold_left (λ b kv, batchPut (kv_key kv) (kv_value kv) b) ws b =
  mkBatch (wb_writes b ++ ((λ kv, (kv_key kv, kv_value kv)) <$> ws)) (wb_deletes b).
Proof.
  revert b. induction ws as [|kv ws IH]; intros b; simpl.
  - rewrite app_nil_r. by destruct b.
  - rewrite IH. simpl. by rewrite <-app_assoc.
Qed.

(** The two ways to initialise the voting chaincode, through the registry and
    one batch or through the CRDT shim, leave the same database: every candidate
    0, 1, ... has no votes, and nothing else is touched. *)
Theorem vote_initialised layout g24 after candidateCount yi ti si db :
  (candidateCount < 2 ^ 31)%Z →
  ∃ db', initChaincodeData layout g24 after candidateCount yi ti si db VOTING_CHAINCODE_NAME = Some (db', true) ∧
    initCrdtChaincodeData candidateCount db VOTING_CHAINCODE_NAME = (db', true) ∧
    (∀ i, (0 ≤ i < candidateCount)%Z → count_of db' (to_string i) = Some 0%Z) ∧
    (∀ k, (∀ i, (0 ≤ i < candidateCount)%Z → k ≠ to_string i) → db' !! k = db !! k).
Proof using HZ.
  intros Hc. exists (zero_votes db (seq 0 (Z.to_nat candidateCount))). split_and!.
  - unfold initChaincodeData, NewChaincodeByName. cbn [decide]. simpl.
    unfold SimpleVote_InitDatabase. rewrite run_batch_puts. simpl. unfold syncWriteBatch. simpl.
    rewrite batch_puts. simpl. do 2 f_equal. unfold zero_votes.
    rewrite <-!list_fmap_compose. generalize (seq 0 (Z.to_nat candidateCount)) as l. intros l. clear.
    revert db. induction l as [|i l IH]; intros db; [done|]. simpl. apply IH.
  - unfold initCrdtChaincodeData, Vote_InitDatabase. by rewrite crdt_zeros.
  - intros i Hi. unfold count_of. rewrite zero_votes_lookup, decide_True.
    + simpl. apply (read_out in_int32); [apply i32_law|done].
    + apply list_elem_of_fmap. exists (Z.to_nat i). rewrite Z2Nat.id by lia. split; [done|].
      apply elem_of_seq. lia.
  - intros k Hk. rewrite zero_votes_lookup, decide_False; [done|].
    intros (i & -> & Hi%elem_of_seq)%list_elem_of_fmap. apply (Hk (Z.of_nat i)); [lia|done].
Qed.

(** ** The field-level YCSB chaincode *)

(** Records without an underscore in their key have fields of their own. *)
Fixpoint plain (s : string) : bool :=
  match s with EmptyString => true | String c s => negb (bool_decide (c = "_"%char)) && plain s end.

Lemma BuildKeyField_inj k1 f1 k2 f2 :
  plain k1 = true → plain k2 = true → BuildKeyField k1 f1 = BuildKeyField k2 f2 → k1 = k2 ∧ f1 = f2.
Proof.
  unfold BuildKeyField. revert k2. induction k1 as [|c1 k1 IH]; intros [|c2 k2] H1 H2; simpl in *.
  - by intros [= ->].
  - intros [= <- _]. by apply andb_prop in H2 as [H2 _].
  - intros [= -> _]. by apply andb_prop in H1 as [H1 _].
  - apply andb_prop in H1 as [_ H1], H2 as [_ H2]. intros [= -> E]. destruct (IH k2 H1 H2 E) as [-> ->]. done.
Qed.

(** The table: values by record and field; writing the empty value deletes. *)
Definition frep (T : ftable) (db : database) : Prop :=
  ∀ key f, plain key = true → visible db (BuildKeyField key f) = T !! (key, f).

Definition fwrite (key : string) (T : ftable) (x : string * string) : ftable :=
  if decide (x.2 = EmptyString) then delete (key, x.1) T else <[(key, x.1) := x.2]> T.

Inductive frequest :=
| FWrite (insert : bool) (key : string) (args : pairs)
| FRead (key : string) (fields : list string)
| FModify (key : string) (fields : list string) (args : pairs).

Definition fencode (t : string) (q : frequest) : string * string :=
  match q with
  | FWrite false key args => ("u"%string, out c_writeArgs (t, key, args))
  | FWrite true key args => ("i"%string, out c_writeArgs (t, key, args))
  | FRead key fields => ("r"%string, out c_readArgs (t, key, fields))
  | FModify key fields args => ("m"%string, out c_modifyArgs (t, key, fields, args))
  end.

Definition frequest_ok (q : frequest) : Prop :=
  match q with
  | FWrite _ key args => plain key = true ∧ sv_ok key ∧ vec_ok pair_ok args ∧ NoDup args.*1
  | FRead key fields => plain key = true ∧ sv_ok key ∧ vec_ok sv_ok fields
  | FModify key fields args => plain key = true ∧ sv_ok key ∧ vec_ok sv_ok fields ∧ vec_ok pair_ok args ∧ NoDup args.*1
  end.

Definition has_fields (T : ftable) (key : string) (fields : list string) : bool :=
  forallb (λ f, bool_decide (is_Some (T !! (key, f)))) fields.

(** A write always succeeds; reads need every field they ask for. *)
Definition fspec (fieldNames : list string) (T : ftable) (q : frequest) : option ftable :=
  match q with
  | FWrite _ key args => Some (fold_left (fwrite key) args T)
  | FRead key fields => if has_fields T key (requested fieldNames fields) then Some T else None
  | FModify key fields args =>
      if has_fields T key (requested fieldNames fields) then Some (fold_left (fwrite key) args T) else None
  end.

Lemma frep_writes key args T db :
  plain key = true → frep T db →
  frep (fold_left (fwrite key) args T)
    (applyWrites ((λ x, mkKV (BuildKeyField key x.1) x.2) <$> args) db).
Proof.
  intros Hp. revert T db. induction args as [|x args IH]; intros T db HT; [done|].
  rewrite fmap_cons. cbn [applyWrites fold_left]. apply IH. intros key' f' Hp'.
  rewrite visible_applyWrite. cbn [kv_key kv_value]. unfold fwrite.
  destruct (decide (BuildKeyField key x.1 = BuildKeyField key' f')) as [E|Hne].
  - apply BuildKeyField_inj in E as [<- <-]; [|done..].
    destruct (decide (x.2 = EmptyString)); [by rewrite lookup_delete_eq|by rewrite lookup_insert_eq].
  - assert ((key, x.1) ≠ (key', f')) by congruence.
    destruct (decide (x.2 = EmptyString));
      [rewrite lookup_delete_ne by done|rewrite lookup_insert_ne by done]; by apply HT.
Qed.

Lemma field_writes_nodup (key : string) (args : pairs) :
  plain key = true → NoDup args.*1 →
  NoDup (kv_key <$> ((λ x : string * string, mkKV (BuildKeyField key x.1) x.2) <$> args)).
Proof.
  intros Hp Hnd. rewrite <-list_fmap_compose.
  replace (_ <$> args) with (BuildKeyField key <$> args.*1) by by rewrite <-list_fmap_compose.
  apply NoDup_fmap_2; [|done]. intros f1 f2 E. by apply BuildKeyField_inj in E as [_ ?].
Qed.

(** Reading fields: the program goes on when all are there. *)
Lemma run_read_fields T db key fields p :
  plain key = true → frep T db →
  ∀ o, ∃ rs, run db (read_fields key fields p) o =
    let o' := mkORM (orm_reads o ++ rs) (orm_writes o) (orm_result o) in
    if has_fields T key fields then run db p o' else Some (o', (-1)%Z).
Proof.
  intros Hp HT. induction fields as [|f fields IH]; intros o; simpl.
  { exists []. rewrite app_nil_r. by destruct o. }
  unfold orm_get. rewrite (HT key f Hp). destruct (T !! (key, f)) as [v|] eqn:E; simpl.
  - destruct (IH (mkORM (orm_reads o ++ [mkKV (BuildKeyField key f) v]) (orm_writes o) (orm_result o))) as (rs & ->).
    exists (mkKV (BuildKeyField key f) v :: rs). simpl. by rewrite <-app_assoc.
  - exists []. rewrite app_nil_r. by destruct o.
Qed.

Lemma run_field_puts db key args o :
  run db (field_puts key args) o =
  Some (mkORM (orm_reads o) (orm_writes o ++ ((λ x, mkKV (BuildKeyField key x.1) x.2) <$> args)) (orm_result o), 0%Z).
Proof. unfold field_puts. rewrite run_batch_puts. simpl. by rewrite <-list_fmap_compose. Qed.

(** The field-level YCSB chaincode implements a table of fields for records
    whose keys have no underscore: writes succeed and set the fields given (an
    empty value deletes), reads and read-modify-writes succeed exactly when
    every field asked for, or every configured field, is there; a refused
    request returns -1 and writes nothing. *)
Theorem ycsb_field_refines fieldNames T t q db :
  frep T db → sv_ok t → frequest_ok q →
  ∃ o code, run db (YcsbField_InvokeChaincode fieldNames (fencode t q).1 (fencode t q).2) newORM = Some (o, code) ∧
    match fspec fieldNames T q with
    | Some T' => code = 0%Z ∧ frep T' (applyWrites (orm_writes o) db) ∧ NoDup (kv_key <$> orm_writes o)
    | None => code = (-1)%Z ∧ orm_writes o = []
    end.
Proof using HZ.
  intros HT Ht Hq. destruct q as [ins key args|key fields|key fields args].
  - destruct Hq as (Hp & Hk & Ha & Hnd).
    assert (Hrun : run db (field_update (fencode t (FWrite ins key args)).2) newORM =
      Some (mkORM [] ((λ x, mkKV (BuildKeyField key x.1) x.2) <$> args) EmptyString, 0%Z)).
    { unfold field_update. destruct ins; cbn [fencode snd];
        (erewrite read_out by (apply writeArgs_ok || done)); by rewrite run_field_puts. }
    exists (mkORM [] ((λ x, mkKV (BuildKeyField key x.1) x.2) <$> args) EmptyString), 0%Z.
    split; [destruct ins; exact Hrun|]. split_and!; [done|by apply frep_writes|by apply field_writes_nodup].
  - destruct Hq as (Hp & Hk & Hf). cbn [fencode fst snd YcsbField_InvokeChaincode fspec].
    rewrite !decide_False, decide_True by done. unfold field_read.
    erewrite read_out by (apply readArgs_ok || done).
    destruct (run_read_fields T db key (requested fieldNames fields) (Ret 0%Z) Hp HT newORM) as (rs & ->).
    cbn zeta. destruct (has_fields _ _ _); eexists _, _; [|done].
    split; [done|]. split_and!; [done..|apply NoDup_nil_2].
  - destruct Hq as (Hp & Hk & Hf & Ha & Hnd). cbn [fencode fst snd YcsbField_InvokeChaincode fspec].
    rewrite !decide_False, decide_True by done. unfold field_readModifyWrite.
    erewrite read_out by (apply modifyArgs_ok || done).
    destruct (run_read_fields T db key (requested fieldNames fields) (field_puts key args) Hp HT newORM) as (rs & ->).
    cbn zeta. destruct (has_fields _ _ _); [|by eexists _, _]. rewrite run_field_puts.
    eexists _, _. split; [done|]. split_and!; [done|by apply frep_writes|by apply field_writes_nodup].
Qed.

(** Keys with an underscore collide: a write to field "c" of record "a_b" is
    read back as field "b_c" of record "a". *)
Theorem keyfield_collision v :
  v ≠ EmptyString →
  visible (applyWrites [mkKV (BuildKeyField "a_b" "c") v] ∅) (BuildKeyField "a" "b_c") = Some v.
Proof.
  intros Hv. cbn [applyWrites fold_left]. rewrite visible_applyWrite. cbn [kv_key kv_value].
  rewrite decide_True by done. by rewrite decide_False.
Qed.
End theorems.

(** ** Witnesses *)

#[local] Existing Instance LE.zpp.
#[local] Existing Instance LE.zpp_laws.

Definition sample_votes : database := {[ "9"%string := "z"%string ]}.

(** The session chaincode decides between reading and writing by the parity of
    the value, but looks past its end: with the same arguments, "1" followed by
    a zero byte is odd and is written, followed by the byte "2" it is even and
    is read. *)
Theorem session_reads_past_value :
  let call after := run ∅ (Session_InvokeChaincode after "f" (out (c_vec c_sv) ["k"; "1"]%string)) newORM in
  (λ r, (orm_writes r.1, r.2)) <$> call (String "000" EmptyString) = Some ([mkKV "k" "1"], 0%Z) ∧
  (λ r, (orm_writes r.1, r.2)) <$> call "2"%string = Some ([], (-1)%Z).
Proof. split; by vm_compute. Qed.

Definition two_accounts : gmap string Z := {[ "a"%string := 50%Z; "b"%string := (-7)%Z ]}.
Definition two_balances : database := to_string <$> two_accounts.

Lemma two_balances_bank : bank_of two_balances two_accounts.
Proof.
  split; [intros k; apply lookup_fmap|].
  apply map_Forall_insert_2; [done|]. apply map_Forall_singleton. done.
Qed.

Lemma transfer_refines_witness :
  ∃ o bk', run two_balances (Transfer_InvokeChaincode "t" (out (c_vec c_sv) ["a"; "b"]%string)) newORM = Some (o, 0%Z) ∧
    bank_of (applyWrites (orm_writes o) two_balances) bk' ∧ total bk' = 43%Z ∧
    bk' !! "a"%string = Some (-50)%Z ∧ bk' !! "b"%string = Some 93%Z.
Proof.
  pose proof (transfer_refines two_balances two_accounts "t" "a" "b" two_balances_bank) as H.
  destruct H as (o & E & Hb & Ht); [done|done|].
  eexists o, _. split; [exact E|]. split; [exact Hb|]. split; [rewrite Ht; by vm_compute|]. split; by vm_compute.
Defined.

Lemma vote_initialised_witness :
  ∃ db', initCrdtChaincodeData 3 sample_votes VOTING_CHAINCODE_NAME = (db', true) ∧
    count_of db' "2"%string = Some 0%Z.
Proof.
  destruct (vote_initialised (λ l, l) (vreplicate 24 0%Z) EmptyString 3 (Ret 0%Z) (Ret 0%Z) (Ret 0%Z) sample_votes)
    as (db' & _ & H1 & H2 & _); [lia|].
  exists db'. split; [exact H1|]. apply (H2 2%Z). lia.
Defined.

Definition field_db : database := {[ "u1_f0"%string := "x"%string ]}.
Definition field_table : ftable := {[ ("u1", "f0")%string := "x"%string ]}.

Lemma field_db_rep : frep field_table field_db.
Proof.
  intros key f Hp. unfold visible, db_get, field_db, field_table.
  destruct (decide (BuildKeyField key f = "u1_f0"%string)) as [E|Hne].
  - change "u1_f0"%string with (BuildKeyField "u1" "f0") in E.
    apply BuildKeyField_inj in E as [-> ->]; [|done..]. by rewrite !lookup_singleton_eq.
  - rewrite !lookup_singleton_ne; [done|intros [= <- <-]; by apply Hne|done].
Qed.

Lemma ycsb_field_refines_witness :
  ∃ o T', run field_db (YcsbField_InvokeChaincode ["f0"%string]
      (fencode "t" (FModify "u1" [] [("f1", "y")]%string)).1
      (fencode "t" (FModify "u1" [] [("f1", "y")]%string)).2) newORM = Some (o, 0%Z) ∧
    frep T' (applyWrites (orm_writes o) field_db) ∧ T' !! ("u1", "f1")%string = Some "y"%string.
Proof.
  destruct (ycsb_field_refines ["f0"%string] field_table "t" (FModify "u1" [] [("f1", "y")]%string) field_db)
    as (o & code & E & H); [apply field_db_rep|done| |].
  - split; [done|]. split; [done|]. split; [split; [constructor|simpl; lia]|]. split.
    + split; [|simpl; lia]. repeat constructor.
    + apply NoDup_singleton.
  - destruct H as (-> & Hf & _). eexists o, _. split; [exact E|]. split; [exact Hf|]. by vm_compute.
Defined.
