(* ===== verification/Merkle.v ===== *)
(** * Merkle trees

    [pmt::MerkleTree] (include/common/parallel_merkle_tree.h and
    src/common/parallel_merkle_tree.cpp): building a tree over data blocks,
    generating proofs (all of them while hashing, or one from the stored tree),
    and verifying them.

    SHA-256 (OpenSSL) is the parameter [HashFunc] on digests; the digest of a
    data block is the parameter [Digest], which may fail.  [zero] is a
    value-initialised digest.  A sibling is kept as its value: every buffer a
    proof points into is left unchanged once proofs point into it.  Indices are
    natural numbers; an access out of a vector's range is [None].  [log2] on
    doubles is exact on powers of two and never rounds another 32-bit size to an
    integer, so [calTreeDepth] is the rounded-up binary logarithm.

    Loops that a thread pool may split are written over the list of indices
    they visit, so the sequential loop and the workers' loops are instances. *)

From S2P Require Import Prelude.

Inductive ModeType := ModeProofGen | ModeTreeBuild | ModeProofGenAndTreeBuild.

#[export] Instance ModeType_eq_dec : EqDecision ModeType.
Proof. solve_decision. Defined.

Section merkle.
Context {H : Type} `{Countable H} (HashFunc : H → H → H) (zero : H).

(** ** Data *)

Record MProof := mkProof { Siblings : list H; Path : Z }.

Record MerkleTree := mkTree {
  Mode : ModeType;
  leafMap : gmap H nat;
  tree : list (list H);
  Root : H;
  Leaves : list H;
  Proofs : list MProof;
  Depth : nat
}.

Definition calTreeDepth (blockLen : nat) : nat := Nat.log2_up blockLen.

Definition initProofs (numLeaves : nat) : list MProof := replicate numLeaves (mkProof [] 0).

Definition fixOdd (buf : list H) (prevLen : nat) : option (list H * nat) :=
  if Nat.even prevLen then Some (buf, prevLen) else
  appendNode ← buf !! (prevLen - 1);
  if bool_decide (length buf < S prevLen) then Some (buf ++ [appendNode], S prevLen)
  else Some (<[prevLen := appendNode]> buf, S prevLen).

(** ** Proofs while hashing *)

(** One of the two loops of [updatePairProof]: every proof in the range gets the
    sibling and the path bit. *)
Definition add_range (start stop : nat) (bit : Z) (sib : H) (ps : list MProof) : list MProof :=
  fold_left (λ ps i, alter (λ p, mkProof (Siblings p ++ [sib]) (Path p + bit)) i ps)
    (seq start (stop - start)) ps.

Definition updatePairProof (buf : list H) (idx batch step : nat) (ps : list MProof)
    : option (list MProof) :=
  let start := idx * batch in
  right ← buf !! (idx + 1);
  left ← buf !! idx;
  let ps := add_range start (Nat.min (start + batch) (length ps)) (2 ^ Z.of_nat step) right ps in
  let start := start + batch in
  Some (add_range start (Nat.min (start + batch) (length ps)) 0 left ps).

(** [updateProofs] over the given pair indices. *)
Definition update_at (buf : list H) (step : nat) (o : option (list MProof)) (idx : nat)
    : option (list MProof) :=
  ps ← o; updatePairProof buf idx (2 ^ step) step ps.

(** 0, 2, 4, ... below [bufLen]. *)
Definition evens (bufLen : nat) : list nat := (λ k, 2 * k) <$> seq 0 ((bufLen + 1) / 2).

Definition updateProofs (buf : list H) (bufLen step : nat) (ps : list MProof) : option (list MProof) :=
  fold_left (update_at buf step) (evens bufLen) (Some ps).

(** [buf[idx >> 1] = HashFunc(buf[idx], buf[idx + 1])], in place. *)
Definition hash_in_place (o : option (list H)) (idx : nat) : option (list H) :=
  buf ← o;
  a ← buf !! idx;
  b ← buf !! (idx + 1);
  Some (<[idx / 2 := HashFunc a b]> buf).

Fixpoint proofGen_loop (k step : nat) (buf : list H) (prevLen : nat) (ps : list MProof)
    : option (list H * list MProof) :=
  match k with
  | 0 => Some (buf, ps)
  | S k =>
      buf ← fold_left hash_in_place (evens prevLen) (Some buf);
      x ← fixOdd buf (prevLen / 2);
      ps ← updateProofs x.1 x.2 step ps;
      proofGen_loop k (S step) x.1 x.2 ps
  end.

Definition pair_root (buf : list H) : option H :=
  a ← buf !! 0; b ← buf !! 1; Some (HashFunc a b).

(** [proofGen]: the root and the proofs of all leaves. *)
Definition proofGen (leaves : list H) (depth : nat) : option (H * list MProof) :=
  let numLeaves := length leaves in
  x ← fixOdd leaves numLeaves;
  ps ← updateProofs x.1 numLeaves 0 (initProofs numLeaves);
  y ← proofGen_loop (depth - 1) 1 x.1 x.2 ps;
  r ← pair_root y.1;
  Some (r, y.2).

(** ** Building the tree *)

(** [tree[i+1][j >> 1] = HashFunc(tree[i][j], tree[i][j + 1])]. *)
Definition hash_pair (lvl : list H) (o : option (list H)) (j : nat) : option (list H) :=
  out ← o;
  a ← lvl !! j;
  b ← lvl !! (j + 1);
  if bool_decide (j / 2 < length out) then Some (<[j / 2 := HashFunc a b]> out) else None.

Fixpoint treeBuild_loop (k : nat) (lvl : list H) (prevLen : nat) : option (list (list H)) :=
  match k with
  | 0 => Some [lvl]
  | S k =>
      out ← fold_left (hash_pair lvl) (evens prevLen) (Some (replicate (prevLen / 2) zero));
      x ← fixOdd out (length out);
      rest ← treeBuild_loop k x.1 x.2;
      Some (lvl :: rest)
  end.

Definition buildLeafMap (leaves : list H) : gmap H nat :=
  fold_left (λ m p, <[p.2 := p.1]> m) (zip (seq 0 (length leaves)) leaves) ∅.

Definition treeBuild (leaves : list H) (depth : nat) : option (list (list H) * H) :=
  x ← fixOdd leaves (length leaves);
  t ← treeBuild_loop (depth - 1) x.1 x.2;
  top ← t !! (depth - 1);
  r ← pair_root top;
  Some (t, r).

(** The loop of [New] over the levels of the stored tree. *)
Fixpoint updateAll (t : list (list H)) (step : nat) (ps : list MProof) : option (list MProof) :=
  match t with
  | [] => Some ps
  | lvl :: t => ps ← updateProofs lvl (length lvl) step ps; updateAll t (S step) ps
  end.

Section blocks.
Context {B : Type} (Digest : B → option H).

Definition leafGen (blocks : list B) : option (list H) := mapM Digest blocks.

(** [New] without parallel construction: [None] is the null pointer. *)
Definition New (mode : ModeType) (blocks : list B) : option MerkleTree :=
  if bool_decide (length blocks ≤ 1) then None else
  let depth := calTreeDepth (length blocks) in
  leaves ← leafGen blocks;
  match mode with
  | ModeProofGen =>
      x ← proofGen leaves depth;
      Some (mkTree mode ∅ [] x.1 leaves x.2 depth)
  | ModeTreeBuild =>
      x ← treeBuild leaves depth;
      Some (mkTree mode (buildLeafMap leaves) x.1 x.2 leaves [] depth)
  | ModeProofGenAndTreeBuild =>
      x ← treeBuild leaves depth;
      ps ← updateAll x.1 0 (initProofs (length leaves));
      Some (mkTree mode (buildLeafMap leaves) x.1 x.2 leaves ps depth)
  end.

(** ** Verifying and generating one proof *)

Fixpoint fold_path (hash : H) (path : Z) (sibs : list H) : H :=
  match sibs with
  | [] => hash
  | n :: sibs =>
      fold_path (if Z.eqb (Z.land path 1) 1 then HashFunc hash n else HashFunc n hash)
        (Z.shiftr path 1) sibs
  end.

Definition Verify (b : B) (p : MProof) (root : H) : option bool :=
  hash ← Digest b; Some (bool_decide (fold_path hash (Path p) (Siblings p) = root)).

Fixpoint gen_loop (t : list (list H)) (k i idx : nat) (path : Z) (sibs : list H) : option MProof :=
  match k with
  | 0 => Some (mkProof sibs path)
  | S k =>
      row ← t !! i;
      if Nat.odd idx then
        s ← row !! (idx - 1); gen_loop t k (S i) (idx / 2) path (sibs ++ [s])
      else
        s ← row !! (idx + 1); gen_loop t k (S i) (idx / 2) (path + 2 ^ Z.of_nat i) (sibs ++ [s])
  end.

Definition GenerateProof (mt : MerkleTree) (b : B) : option MProof :=
  if decide (Mode mt = ModeProofGen) then None else
  d ← Digest b;
  idx ← leafMap mt !! d;
  gen_loop (tree mt) (Depth mt) 0 idx 0 [].
End blocks.

(** ** Reference definitions *)

Fixpoint pairs_hash (l : list H) : list H :=
  match l with
  | a :: b :: l => HashFunc a b :: pairs_hash l
  | _ => []
  end.

Definition pad (l : list H) : list H :=
  if Nat.even (length l) then l else match last l with Some x => l ++ [x] | None => l end.

(** The next level of the tree. *)
Definition up (l : list H) : list H := pairs_hash (pad l).

Definition level (k : nat) (l : list H) : list H := Nat.iter k up l.

(** The neighbour in a pair. *)
Definition sib (i : nat) : nat := if Nat.odd i then i - 1 else i + 1.

(** The path of leaf [i] after [k] levels: bit [j] tells that the ancestor at
    level [j] is a left child. *)
Fixpoint path_upto (k i : nat) : Z :=
  match k with
  | 0 => 0
  | S k => path_upto k i + (if Nat.odd (i / 2 ^ k) then 0 else 2 ^ Z.of_nat k)
  end.

Fixpoint sibs_upto (k : nat) (l : list H) (i : nat) : option (list H) :=
  match k with
  | 0 => Some []
  | S k => ss ← sibs_upto k l i; s ← pad (level k l) !! sib (i / 2 ^ k); Some (ss ++ [s])
  end.

Definition proof_of (k : nat) (l : list H) (i : nat) : option MProof :=
  ss ← sibs_upto k l i; Some (mkProof ss (path_upto k i)).
End merkle.
