(* ===== verification/MerkleProofs.v ===== *)
(** * Merkle trees: correctness

    The construction of [pmt::MerkleTree] refines the reference tree of
    [Merkle]: all modes compute the same root and, for every leaf, the same
    proof; every such proof verifies; an accepted proof of the tree's depth is
    about a leaf. *)

From S2P Require Import Prelude Merkle.

(** ** Halving *)

Lemma even_len_div {A} (l : list A) : Nat.even (length l) = true → 2 * (length l / 2) = length l.
Proof.
  intros [k Hk]%Nat.even_spec. rewrite Hk, (Nat.mul_comm 2 k), Nat.div_mul by lia. lia.
Qed.

Lemma div_pow_succ i k : i / 2 ^ k / 2 = i / 2 ^ S k.
Proof. rewrite Nat.Div0.div_div, Nat.pow_succ_r' , Nat.mul_comm. done. Qed.

Lemma odd_half i : Nat.odd i = true → i = 2 * (i / 2) + 1.
Proof.
  intros Ho. rewrite (Nat.div_mod_eq i 2) at 1.
  rewrite (Nat.odd_spec i) in Ho. destruct Ho as [m ->].
  replace ((2 * m + 1) mod 2) with 1; [lia|].
  rewrite Nat.add_comm, Nat.mul_comm, Nat.Div0.mod_add. done.
Qed.

Lemma even_half i : Nat.odd i = false → i = 2 * (i / 2).
Proof.
  intros Ho. unfold Nat.odd in Ho. apply negb_false_iff, Nat.even_spec in Ho as [m ->].
  rewrite (Nat.mul_comm 2 m), Nat.div_mul by lia. lia.
Qed.

Lemma half_up_bound n d : n ≤ 2 ^ S d → (n + 1) / 2 ≤ 2 ^ d.
Proof.
  rewrite Nat.pow_succ_r'. intros.
  pose proof (Nat.div_lt_upper_bound (n + 1) 2 (S (2 ^ d))). lia.
Qed.

Lemma half_up_ge2 n : 3 ≤ n → 2 ≤ (n + 1) / 2.
Proof. intros. apply Nat.div_le_lower_bound; lia. Qed.

Section merkle_proofs.
Context {H : Type} `{Countable H} (HashFunc : H → H → H) (zero : H).

Notation pairs_hash := (pairs_hash HashFunc).
Notation up := (up HashFunc).
Notation level := (level HashFunc).
Notation fold_path := (fold_path HashFunc).

(** ** Levels *)

Lemma length_pairs_hash l : length (pairs_hash l) = length l / 2.
Proof.
  revert l. fix IH 1. intros [|a [|b l]]; [done..|].
  cbn [pairs_hash length]. rewrite IH.
  replace (S (S (length l))) with (length l + 1 * 2) by lia.
  rewrite Nat.div_add by lia. lia.
Qed.

Lemma lookup_pairs_hash l j a b :
  l !! (2 * j) = Some a → l !! (2 * j + 1) = Some b → pairs_hash l !! j = Some (HashFunc a b).
Proof.
  revert l. induction j as [|j IH]; intros [|x [|y l]] Ha Hb;
    try (by rewrite ?Nat.mul_succ_r, ?(Nat.add_comm _ 2) in *); [by simplify_eq/=|].
  replace (2 * S j) with (S (S (2 * j))) in * by lia. apply IH; done.
Qed.

Lemma lookup_pairs_hash_inv l j h :
  pairs_hash l !! j = Some h →
  ∃ a b, l !! (2 * j) = Some a ∧ l !! (2 * j + 1) = Some b ∧ h = HashFunc a b.
Proof.
  intros Hj. pose proof (lookup_lt_Some _ _ _ Hj) as Hl. rewrite length_pairs_hash in Hl.
  pose proof (Nat.Div0.mul_div_le (length l) 2).
  destruct (lookup_lt_is_Some_2 l (2 * j)) as [a Ha]; [lia|].
  destruct (lookup_lt_is_Some_2 l (2 * j + 1)) as [b Hb]; [lia|].
  exists a, b. rewrite (lookup_pairs_hash _ _ _ _ Ha Hb) in Hj. by simplify_eq.
Qed.

Lemma pad_even (l : list H) : Nat.even (length l) = true → pad l = l.
Proof. unfold pad. by intros ->. Qed.

Lemma pad_odd (l : list H) x : Nat.even (length l) = false → last l = Some x → pad l = l ++ [x].
Proof. unfold pad. by intros -> ->. Qed.

Lemma length_pad (l : list H) : length (pad l) = 2 * ((length l + 1) / 2).
Proof.
  unfold pad. destruct (Nat.even (length l)) eqn:He.
  - apply Nat.even_spec in He as [k ->].
    rewrite Nat.add_comm, (Nat.mul_comm 2 k), Nat.div_add by lia. simpl. lia.
  - destruct (last l) eqn:Hl; [|by apply last_None in Hl; subst].
    rewrite length_app. cbn [length].
    assert (Nat.odd (length l) = true) as Ho by (unfold Nat.odd; by rewrite He).
    apply Nat.odd_spec in Ho as [k ->].
    assert ((2 * k + 1 + 1) / 2 = k + 1) as ->; [|lia].
    replace (2 * k + 1 + 1) with ((k + 1) * 2) by lia. by apply Nat.div_mul.
Qed.

Lemma even_length_pad (l : list H) : Nat.even (length (pad l)) = true.
Proof. rewrite length_pad, Nat.even_mul. done. Qed.

Lemma pad_prefix (l : list H) : l `prefix_of` pad l.
Proof.
  unfold pad. case_match; [done|]. case_match; [by eexists|done].
Qed.

Lemma pad_lookup (l : list H) i x : l !! i = Some x → pad l !! i = Some x.
Proof. intros. eapply prefix_lookup_Some; [done|apply pad_prefix]. Qed.

Lemma elem_of_pad (l : list H) x : x ∈ pad l → x ∈ l.
Proof.
  unfold pad. case_match; [done|]. destruct (last l) as [y|] eqn:Hl; [|done].
  intros [?| ->%list_elem_of_singleton]%elem_of_app; [done|].
  rewrite last_lookup in Hl. by eapply list_elem_of_lookup_2.
Qed.

Lemma length_up l : length (up l) = (length l + 1) / 2.
Proof.
  unfold Merkle.up. rewrite length_pairs_hash, length_pad, Nat.mul_comm, Nat.div_mul; lia.
Qed.

Lemma level_succ k l : level (S k) l = up (level k l).
Proof. done. Qed.

Lemma level_up k l : level k (up l) = level (S k) l.
Proof. unfold Merkle.level. by rewrite <-Nat.iter_succ_r. Qed.

(** The level [d] above [n ≤ 2 ^ d] leaves is the root alone. *)
Lemma level_single d l : 1 ≤ length l ≤ 2 ^ d → length (level d l) = 1.
Proof.
  revert l. induction d as [|d IH]; intros l [H1 H2].
  - simpl in *. lia.
  - rewrite <-level_up. apply IH. rewrite length_up. split.
    + apply Nat.div_le_lower_bound; lia.
    + by apply half_up_bound.
Qed.

(** Below the root every level has at least two nodes. *)
Lemma level_ge2 k d l :
  S k ≤ d → 2 ^ (d - 1) < length l → 2 ≤ length (level k l).
Proof.
  revert d l. induction k as [|k IH]; intros d l Hd Hn.
  - simpl. pose proof (Nat.pow_nonzero 2 (d - 1)). lia.
  - rewrite <-level_up. apply (IH (d - 1)); [lia|].
    rewrite length_up. replace (d - 1) with (S (d - 2)) in Hn by lia.
    rewrite Nat.pow_succ_r' in Hn. replace (d - 1 - 1) with (d - 2) by lia.
    assert (S (2 ^ (d - 2)) ≤ (length l + 1) / 2); [|lia].
    apply Nat.div_le_lower_bound; lia.
Qed.

Lemma lookup_level_half k l i :
  i < length l → i / 2 ^ k < length (level k l).
Proof.
  intros Hi. induction k as [|k IH]; [by rewrite Nat.pow_0_r, Nat.div_1_r|].
  rewrite level_succ, length_up, <-div_pow_succ.
  apply Nat.div_le_lower_bound; [lia|].
  pose proof (Nat.Div0.mul_div_le (i / 2 ^ k) 2). lia.
Qed.

Lemma sib_lt {l : list H} {i} : i < length l → sib i < length (pad l).
Proof.
  rewrite length_pad. unfold sib. intros Hi.
  assert (i / 2 + 1 ≤ (length l + 1) / 2) as Hh.
  { apply Nat.div_le_lower_bound; [lia|]. pose proof (Nat.Div0.mul_div_le i 2). lia. }
  destruct (Nat.odd i) eqn:Ho; [apply odd_half in Ho|apply even_half in Ho]; lia.
Qed.

(** ** Paths and proofs *)

Lemma fold_path_snoc h p ss s :
  (0 ≤ p)%Z →
  fold_path h p (ss ++ [s]) =
  if Z.testbit p (Z.of_nat (length ss)) then HashFunc (fold_path h p ss) s
  else HashFunc s (fold_path h p ss).
Proof.
  revert h p. induction ss as [|x ss IH]; intros h p Hp.
  - cbn [app fold_path length]. change 1%Z with (Z.ones 1) at 1.
    rewrite Z.land_ones, Z.pow_1_r, <-Z.bit0_mod by lia. change (Z.of_nat 0) with 0%Z. by destruct (Z.testbit p 0).
  - cbn [app fold_path length]. rewrite IH by (by apply Z.shiftr_nonneg).
    rewrite Z.shiftr_spec by lia.
    replace (Z.of_nat (length ss) + 1)%Z with (Z.of_nat (S (length ss))) by lia. done.
Qed.

Lemma path_upto_range k i : (0 ≤ path_upto k i < 2 ^ Z.of_nat k)%Z.
Proof.
  induction k as [|k IH]; [simpl; lia|]. cbn [path_upto].
  rewrite Nat2Z.inj_succ, Z.pow_succ_r by lia. case_match; lia.
Qed.

Lemma path_upto_bit k i j :
  j < k → Z.testbit (path_upto k i) (Z.of_nat j) = negb (Nat.odd (i / 2 ^ j)).
Proof.
  intros Hj. induction k as [|k IH]; [lia|]. cbn [path_upto].
  pose proof (path_upto_range k i) as Hr.
  destruct (decide (j = k)) as [->|Hne].
  - destruct (Nat.odd (i / 2 ^ k)); simpl.
    + rewrite Z.add_0_r, Z.testbit_false, Z.div_small by lia. done.
    + rewrite Z.testbit_true by lia.
      replace (path_upto k i + 2 ^ Z.of_nat k)%Z with (path_upto k i + 1 * 2 ^ Z.of_nat k)%Z by lia.
      rewrite Z.div_add, Z.div_small by lia. done.
  - rewrite <-IH by lia. case_match; [by rewrite Z.add_0_r|].
    rewrite <-(Z.mod_pow2_bits_low _ (Z.of_nat k)) by lia.
    rewrite <-(Z.mod_pow2_bits_low (path_upto k i) (Z.of_nat k)) by lia.
    replace (path_upto k i + 2 ^ Z.of_nat k)%Z with (path_upto k i + 1 * 2 ^ Z.of_nat k)%Z by lia.
    by rewrite Z.mod_add by lia.
Qed.

Lemma sibs_upto_length k l i ss : sibs_upto HashFunc k l i = Some ss → length ss = k.
Proof.
  revert ss. induction k as [|k IH]; intros ss Hs; simplify_option_eq; [done|].
  rewrite length_app, (IH _ eq_refl). simpl. lia.
Qed.

Lemma sibs_upto_is_Some k l i : i < length l → ∃ ss, sibs_upto HashFunc k l i = Some ss.
Proof.
  intros Hi. induction k as [|k [ss IH]]; [by eexists|].
  cbn [sibs_upto]. rewrite IH. cbn [mbind option_bind].
  destruct (lookup_lt_is_Some_2 (pad (level k l)) (sib (i / 2 ^ k))) as [s ->]; [|by eexists].
  apply sib_lt. by apply lookup_level_half.
Qed.

(** A pair of neighbours hashes to their parent. *)
Lemma up_parent l i x s :
  l !! i = Some x → pad l !! sib i = Some s →
  up l !! (i / 2) = Some (if Nat.odd i then HashFunc s x else HashFunc x s).
Proof.
  intros Hx%pad_lookup Hs. unfold sib in Hs. unfold Merkle.up.
  destruct (Nat.odd i) eqn:Ho.
  - apply odd_half in Ho. apply lookup_pairs_hash; [by rewrite <-Hs; f_equal; lia|].
    by rewrite <-Ho.
  - apply even_half in Ho. apply lookup_pairs_hash; rewrite <-Ho; done.
Qed.

Lemma fold_path_level k l i x p ss :
  (0 ≤ p)%Z → l !! i = Some x → sibs_upto HashFunc k l i = Some ss →
  (∀ j, j < k → Z.testbit p (Z.of_nat j) = negb (Nat.odd (i / 2 ^ j))) →
  level k l !! (i / 2 ^ k) = Some (fold_path x p ss).
Proof.
  intros Hp Hx. revert ss. induction k as [|k IH]; intros ss Hs Hb.
  - injection Hs as <-. by rewrite Nat.pow_0_r, Nat.div_1_r.
  - cbn [sibs_upto] in Hs. apply bind_Some in Hs as (ss' & Hs' & Hs).
    apply bind_Some in Hs as (s & Hsib & [= <-]).
    rewrite fold_path_snoc, (sibs_upto_length _ _ _ _ Hs'), Hb by lia.
    rewrite level_succ, <-div_pow_succ.
    rewrite (up_parent _ _ _ _ (IH _ Hs' ltac:(auto)) Hsib). by destruct (Nat.odd _).
Qed.

(** Every proof of the reference tree leads from its leaf to the root. *)
Lemma proof_of_root d l i x r p :
  length l ≤ 2 ^ d → l !! i = Some x → level d l !! 0 = Some r →
  proof_of HashFunc d l i = Some p → fold_path x (Path p) (Siblings p) = r.
Proof.
  intros Hd Hx Hr. unfold proof_of. intros (ss & Hs & [= <-])%bind_Some. simpl.
  pose proof (fold_path_level d l i x (path_upto d i) ss) as Hf.
  destruct (path_upto_range d i). specialize (Hf ltac:(lia) Hx Hs (path_upto_bit d i)).
  pose proof (lookup_lt_Some _ _ _ Hx).
  rewrite Nat.div_small, Hr in Hf by lia. by simplify_eq.
Qed.
(** ** The operations on buffers *)

(** [fixOdd] pads the part of the buffer that is in use, whatever the buffer
    holds beyond it. *)
Lemma fixOdd_pad (l buf : list H) :
  l ≠ [] → l `prefix_of` buf →
  ∃ buf', fixOdd buf (length l) = Some (buf', length (pad l)) ∧ pad l `prefix_of` buf'.
Proof.
  intros Hl [k ->]. unfold fixOdd. destruct (Nat.even (length l)) eqn:He.
  - rewrite pad_even by done. eexists; split; [done|]. by eexists.
  - destruct (last l) as [x|] eqn:Hx; [|by apply last_None in Hx].
    assert (length l ≠ 0) by (by destruct l).
    rewrite (pad_odd _ x), length_app by done. cbn [length].
    rewrite lookup_app_l by lia. pose proof Hx as Hx'. rewrite last_lookup in Hx'.
    replace (pred (length l)) with (length l - 1) in Hx' by lia. rewrite Hx'.
    cbn [mbind option_bind]. rewrite length_app, Nat.add_1_r.
    case_bool_decide as Hk; (eexists; split; [done|]).
    + assert (k = []) as -> by (destruct k; simpl in *; [done|lia]).
      rewrite app_nil_r. done.
    + rewrite insert_app_r_alt, Nat.sub_diag by lia.
      destruct k as [|y k]; [simpl in *; lia|]. exists k. by rewrite <-app_assoc.
Qed.

Lemma fixOdd_exact (l : list H) : l ≠ [] → fixOdd l (length l) = Some (pad l, length (pad l)).
Proof.
  intros Hl. unfold fixOdd. destruct (Nat.even (length l)) eqn:He.
  - by rewrite pad_even.
  - destruct (last l) as [x|] eqn:Hx; [|by apply last_None in Hx].
    assert (length l ≠ 0) by (by destruct l).
    rewrite (pad_odd _ x), length_app by done.
    rewrite last_lookup in Hx. replace (pred (length l)) with (length l - 1) in Hx by lia.
    rewrite Hx. cbn [mbind option_bind length]. rewrite bool_decide_true by lia.
    by rewrite Nat.add_1_r.
Qed.

(** The pair indices of an even length. *)
Lemma evens_seq m : evens (2 * m) = (λ k, 2 * k) <$> seq 0 m.
Proof.
  unfold evens. rewrite Nat.add_comm, (Nat.mul_comm 2 m), Nat.div_add by lia. done.
Qed.

Lemma evens_pad (l : list H) : evens (length l) = evens (length (pad l)).
Proof. rewrite length_pad, evens_seq. done. Qed.

Lemma evens_snoc m : evens (2 * S m) = evens (2 * m) ++ [2 * m].
Proof. rewrite !evens_seq, seq_S, fmap_app. done. Qed.

Lemma elem_of_evens n j : j ∈ evens n ↔ Nat.odd j = false ∧ j < 2 * ((n + 1) / 2).
Proof.
  unfold evens. rewrite list_elem_of_fmap. setoid_rewrite elem_of_seq. split.
  - intros (k & -> & Hk). split; [|lia]. by rewrite Nat.odd_mul.
  - intros [Ho%even_half Hj]. exists (j / 2). lia.
Qed.

Lemma NoDup_evens n : NoDup (evens n).
Proof. apply NoDup_fmap_2; [intros ???; lia|apply NoDup_seq]. Qed.

(** Hashing the pairs of [p] in place turns the front of the buffer into the
    next level and keeps what has not been overwritten. *)
Lemma hash_in_place_evens (p buf : list H) m :
  p `prefix_of` buf → 2 * m ≤ length p →
  ∃ buf', fold_left (hash_in_place HashFunc) (evens (2 * m)) (Some buf) = Some buf' ∧
    length buf' = length buf ∧
    (∀ j, j < m → buf' !! j = pairs_hash p !! j) ∧ (∀ j, m ≤ j → buf' !! j = buf !! j).
Proof.
  intros Hp. induction m as [|m IH]; intros Hm.
  - exists buf. split; [done|]. split; [done|]. split; [lia|done].
  - destruct IH as (b & Hb & Hlen & Hlo & Hhi); [lia|].
    rewrite evens_snoc, fold_left_app, Hb. cbn [fold_left].
    destruct (lookup_lt_is_Some_2 p (2 * m)) as [x Hx]; [lia|].
    destruct (lookup_lt_is_Some_2 p (2 * m + 1)) as [y Hy]; [lia|].
    unfold hash_in_place. cbn [mbind option_bind]. rewrite !Hhi by lia.
    rewrite (prefix_lookup_Some _ _ _ _ Hx Hp), (prefix_lookup_Some _ _ _ _ Hy Hp).
    cbn [mbind option_bind]. rewrite (Nat.mul_comm 2 m), Nat.div_mul by lia.
    eexists. split; [done|]. rewrite length_insert. split; [done|].
    pose proof (prefix_length _ _ Hp).
    split; intros j Hj.
    + destruct (decide (j = m)) as [->|]; [|rewrite list_lookup_insert_ne by lia; apply Hlo; lia].
      rewrite list_lookup_insert_eq by lia. symmetry. by apply lookup_pairs_hash.
    + rewrite list_lookup_insert_ne by lia. apply Hhi. lia.
Qed.

Lemma hash_in_place_prefix (p buf : list H) :
  p `prefix_of` buf → Nat.even (length p) = true →
  ∃ buf', fold_left (hash_in_place HashFunc) (evens (length p)) (Some buf) = Some buf' ∧
    pairs_hash p `prefix_of` buf'.
Proof.
  intros Hp He. pose proof (even_len_div _ He) as Hd.
  destruct (hash_in_place_evens p buf (length p / 2)) as (b & Hb & Hlen & Hlo & _); [done|lia|].
  rewrite Hd in Hb. exists b. split; [done|].
  pose proof (prefix_length _ _ Hp).
  exists (drop (length p / 2) b). rewrite <-(take_drop (length p / 2) b) at 1. f_equal.
  apply list_eq. intros j. destruct (decide (j < length p / 2)) as [Hj|Hj].
  - by rewrite lookup_take_lt, Hlo.
  - rewrite !lookup_ge_None_2; [done|rewrite length_pairs_hash; lia|rewrite length_take; lia].
Qed.

(** Hashing the pairs of a level into a fresh row. *)
Lemma hash_pair_evens l out m :
  2 * m ≤ length l → m ≤ length out →
  fold_left (hash_pair HashFunc l) (evens (2 * m)) (Some out) =
  Some (take m (pairs_hash l) ++ drop m out).
Proof.
  induction m as [|m IH]; intros Hl Ho; [done|].
  rewrite evens_snoc, fold_left_app, IH by lia. cbn [fold_left].
  destruct (lookup_lt_is_Some_2 l (2 * m)) as [x Hx]; [lia|].
  destruct (lookup_lt_is_Some_2 l (2 * m + 1)) as [y Hy]; [lia|].
  unfold hash_pair. cbn [mbind option_bind]. rewrite Hx, Hy. cbn [mbind option_bind].
  rewrite (Nat.mul_comm 2 m), Nat.div_mul by lia.
  assert (length (take m (pairs_hash l)) = m) as Hlen.
  { rewrite length_take, length_pairs_hash.
    pose proof (Nat.div_le_lower_bound (length l) 2 m). lia. }
  rewrite bool_decide_true by (rewrite length_app, length_drop, Hlen; lia).
  rewrite insert_app_r_alt, Hlen, Nat.sub_diag by lia.
  destruct (lookup_lt_is_Some_2 out m) as [z Hz]; [lia|].
  rewrite (drop_S _ _ _ Hz). cbn.
  rewrite (take_S_r _ _ (HashFunc x y)) by (by apply lookup_pairs_hash).
  by rewrite <-app_assoc.
Qed.

Lemma hash_pair_row l :
  Nat.even (length l) = true →
  fold_left (hash_pair HashFunc l) (evens (length l)) (Some (replicate (length l / 2) zero)) =
  Some (pairs_hash l).
Proof.
  intros He. pose proof (even_len_div _ He) as Hd. rewrite <-Hd at 1.
  rewrite hash_pair_evens by (rewrite ?length_replicate; lia).
  rewrite take_ge by (by rewrite length_pairs_hash).
  by rewrite drop_ge, app_nil_r by (by rewrite length_replicate).
Qed.
(** ** Adding a level to the proofs *)

(** What a level adds to the proof of leaf [i]. *)
Definition add_level (buf : list H) (step i : nat) (p : MProof) : MProof :=
  match buf !! sib (i / 2 ^ step) with
  | Some s => mkProof (Siblings p ++ [s])
      (Path p + if Nat.odd (i / 2 ^ step) then 0 else 2 ^ Z.of_nat step)
  | None => p
  end.

Lemma fold_alter_seq {A} (f : A → A) a n (l : list A) i :
  fold_left (λ l i, alter f i l) (seq a n) l !! i =
  if bool_decide (a ≤ i < a + n) then f <$> l !! i else l !! i.
Proof.
  revert a l. induction n as [|n IH]; intros a l; cbn [seq fold_left].
  - rewrite bool_decide_false by lia. done.
  - rewrite IH. destruct (decide (i = a)) as [->|Hne].
    + rewrite bool_decide_false, bool_decide_true, list_lookup_alter_eq by lia. done.
    + rewrite list_lookup_alter_ne by done.
      rewrite (bool_decide_ext (S a ≤ i < S a + n) (a ≤ i < a + S n)) by lia. done.
Qed.

Lemma fold_alter_length {A} (f : A → A) js (l : list A) :
  length (fold_left (λ l i, alter f i l) js l) = length l.
Proof.
  revert l. induction js as [|j js IH]; intros l; [done|]. simpl. by rewrite IH, length_alter.
Qed.

Lemma add_range_lookup a n bit (s : H) ps i :
  add_range a (Nat.min (a + n) (length ps)) bit s ps !! i =
  if bool_decide (a ≤ i < a + n)
  then (λ p, mkProof (Siblings p ++ [s]) (Path p + bit)) <$> ps !! i else ps !! i.
Proof.
  unfold add_range. rewrite fold_alter_seq.
  destruct (decide (i < length ps)) as [Hi|Hi].
  - rewrite (bool_decide_ext (a ≤ i < a + (Nat.min (a + n) (length ps) - a)) (a ≤ i < a + n)) by lia.
    done.
  - rewrite lookup_ge_None_2 by lia. by do 2 case_bool_decide.
Qed.

Lemma add_range_length a b bit (s : H) ps : length (add_range a b bit s ps) = length ps.
Proof. apply fold_alter_length. Qed.

Lemma pair_start_iff idx batch i :
  batch ≠ 0 → idx * batch ≤ i < idx * batch + batch ↔ i / batch = idx.
Proof.
  intros Hb. rewrite (Nat.div_mod_eq i batch) at 1 2.
  pose proof (Nat.mod_upper_bound i batch Hb). split; [|intros <-; lia].
  intros [? ?]. destruct (lt_eq_lt_dec (i / batch) idx) as [[?|?]|?]; [nia|done|nia].
Qed.

Lemma updatePairProof_lookup buf idx step ps :
  Nat.odd idx = false → idx + 1 < length buf →
  ∃ ps', updatePairProof buf idx (2 ^ step) step ps = Some ps' ∧ length ps' = length ps ∧
    ∀ i, ps' !! i =
      (if bool_decide (2 * (i / 2 ^ step / 2) = idx) then add_level buf step i else id) <$> ps !! i.
Proof.
  intros Ho Hl. unfold updatePairProof.
  destruct (lookup_lt_is_Some_2 buf (idx + 1)) as [r Hr]; [lia|].
  destruct (lookup_lt_is_Some_2 buf idx) as [l Hlk]; [lia|].
  rewrite Hr, Hlk. cbn [mbind option_bind]. eexists. split; [done|].
  split; [by rewrite !add_range_length|]. intros i.
  rewrite add_range_lookup, add_range_lookup.
  assert (2 ^ step ≠ 0) as Hb by (by apply Nat.pow_nonzero).
  rewrite (bool_decide_ext _ _ (pair_start_iff idx _ i Hb)).
  replace (idx * 2 ^ step + 2 ^ step) with (S idx * 2 ^ step) by lia.
  rewrite (bool_decide_ext _ _ (pair_start_iff (S idx) _ i Hb)).
  unfold add_level, sib. apply even_half in Ho as Hh.
  destruct (decide (i / 2 ^ step = idx)) as [E|E].
  - rewrite E, bool_decide_false, bool_decide_true, bool_decide_true by lia.
    rewrite Ho, Hr. done.
  - rewrite (bool_decide_false (_ = idx)) by done.
    destruct (decide (i / 2 ^ step = S idx)) as [E'|E'].
    + rewrite E', bool_decide_true by done.
      assert (Nat.odd (S idx) = true) as Ho' by (by rewrite Nat.odd_succ, <-Nat.negb_odd, Ho).
      pose proof (odd_half _ Ho'). rewrite bool_decide_true by lia.
      rewrite Ho'. replace (S idx - 1) with idx by lia. by rewrite Hlk.
    + rewrite !bool_decide_false; [by rewrite option_fmap_id| |done].
      destruct (Nat.odd (i / 2 ^ step)) eqn:Hoi;
        [apply odd_half in Hoi|apply even_half in Hoi]; lia.
Qed.

(** The proofs after any number of pairs depend on the set of pairs only. *)
Lemma update_at_lookup buf step js ps :
  NoDup js → (∀ j, j ∈ js → Nat.odd j = false ∧ j + 1 < length buf) →
  ∃ ps', fold_left (update_at buf step) js (Some ps) = Some ps' ∧ length ps' = length ps ∧
    ∀ i, ps' !! i =
      (if bool_decide (2 * (i / 2 ^ step / 2) ∈ js) then add_level buf step i else id) <$> ps !! i.
Proof using Type.
  revert ps. induction js as [|j js IH]; intros ps Hn Hj.
  - exists ps. split; [done|]. split; [done|]. intros i.
    rewrite bool_decide_false by apply not_elem_of_nil. by rewrite option_fmap_id.
  - apply NoDup_cons in Hn as [Hnj Hn]. cbn [fold_left update_at mbind option_bind].
    destruct (Hj j) as [Ho Hl]; [by left|].
    destruct (updatePairProof_lookup buf j step ps Ho Hl) as (ps1 & -> & Hlen1 & H1).
    destruct (IH ps1 Hn) as (ps2 & -> & Hlen2 & H2); [intros; apply Hj; by right|].
    exists ps2. split; [done|]. split; [by rewrite Hlen2|]. intros i. rewrite H2, H1.
    rewrite <-option_fmap_compose.
    destruct (decide (2 * (i / 2 ^ step / 2) = j)) as [E|E].
    + rewrite E, bool_decide_false, bool_decide_true, bool_decide_true by (done || by left). done.
    + rewrite (bool_decide_false (_ = j)) by done.
      rewrite (bool_decide_ext (_ ∈ j :: js) (2 * (i / 2 ^ step / 2) ∈ js)); [done|].
      rewrite elem_of_cons. split; [by intros [?|?]|by right].
Qed.

(** A whole level: every proof gets its sibling. *)
Lemma updateProofs_lookup l buf step n ps :
  evens n = evens (length l) → pad l `prefix_of` buf → (∀ i, i < length ps → i / 2 ^ step < length l) →
  ∃ ps', updateProofs buf n step ps = Some ps' ∧ length ps' = length ps ∧
    ∀ i, i < length ps → ps' !! i = add_level (pad l) step i <$> ps !! i.
Proof.
  intros He Hp Hi. unfold updateProofs. rewrite He.
  destruct (update_at_lookup buf step (evens (length l)) ps) as (ps' & -> & Hlen & Hlk).
  - apply NoDup_evens.
  - intros j [Ho Hj]%elem_of_evens. split; [done|].
    apply prefix_length in Hp. rewrite length_pad in Hp. apply even_half in Ho. lia.
  - exists ps'. split; [done|]. split; [done|]. intros i Hil. rewrite Hlk.
    specialize (Hi i Hil). pose proof (sib_lt Hi) as Hs.
    rewrite bool_decide_true.
    + apply option_fmap_ext. intros p. unfold add_level.
      apply lookup_lt_is_Some_2 in Hs as [s Hs]. by rewrite Hs, (prefix_lookup_Some _ _ _ _ Hs Hp).
    + apply elem_of_evens. split; [by rewrite Nat.odd_mul|].
      assert (S (i / 2 ^ step / 2) ≤ (length l + 1) / 2); [|lia].
      apply Nat.div_le_lower_bound; [lia|]. pose proof (Nat.Div0.mul_div_le (i / 2 ^ step) 2). lia.
Qed.
(** ** The construction refines the reference tree *)

Notation treeBuild_loop := (treeBuild_loop HashFunc zero).
Notation proof_of := (proof_of HashFunc).

(** The proofs hold the first [k] levels. *)
Definition proofs_at (k : nat) (l : list H) (ps : list MProof) : Prop :=
  length ps = length l ∧ ∀ i, i < length l → ps !! i = proof_of k l i.

Lemma initProofs_at l : proofs_at 0 l (initProofs (length l)).
Proof.
  split; [apply length_replicate|]. intros i Hi. by apply lookup_replicate_2.
Qed.

Lemma proof_of_succ k l i p :
  i < length l → proof_of k l i = Some p →
  proof_of (S k) l i = Some (add_level (pad (level k l)) k i p).
Proof.
  intros Hi. unfold Merkle.proof_of, add_level.
  intros (ss & Hss & [= <-])%bind_Some. cbn [sibs_upto]. rewrite Hss. cbn [mbind option_bind].
  pose proof (sib_lt (lookup_level_half k l i Hi)) as [s Hs]%lookup_lt_is_Some_2.
  rewrite Hs. done.
Qed.

Lemma proof_of_is_Some k l i : i < length l → ∃ p, proof_of k l i = Some p.
Proof.
  intros Hi. unfold Merkle.proof_of. destruct (sibs_upto_is_Some k l i Hi) as [ss ->]. by eexists.
Qed.

Lemma updateProofs_at l k buf n ps :
  evens n = evens (length (level k l)) → pad (level k l) `prefix_of` buf → proofs_at k l ps →
  ∃ ps', updateProofs buf n k ps = Some ps' ∧ proofs_at (S k) l ps'.
Proof.
  intros He Hp [Hlen Hps].
  destruct (updateProofs_lookup (level k l) buf k n ps He Hp) as (ps' & Hu & Hl' & Hlk).
  { intros i Hi. apply lookup_level_half. lia. }
  exists ps'. split; [done|]. split; [lia|]. intros i Hi.
  destruct (proof_of_is_Some k l i Hi) as [p Hpi].
  rewrite Hlk, Hps, Hpi by lia. symmetry. by apply proof_of_succ.
Qed.

Lemma pad_nonempty (l : list H) : l ≠ [] → pad l ≠ [].
Proof. intros Hl E. pose proof (pad_prefix l) as Hp. rewrite E in Hp. by apply prefix_nil_inv in Hp. Qed.

Lemma level_nonempty k l : l ≠ [] → level k l ≠ [].
Proof.
  intros Hl. assert (0 < length l) as Hl0 by (destruct l; [done|simpl; lia]).
  pose proof (lookup_level_half k l 0 Hl0). by destruct (level k l); [simpl in *; lia|].
Qed.

Lemma proofGen_loop_at l m : ∀ k buf ps,
  l ≠ [] → pad (level k l) `prefix_of` buf → proofs_at (S k) l ps →
  ∃ buf' ps', proofGen_loop HashFunc m (S k) buf (length (pad (level k l))) ps = Some (buf', ps') ∧
    pad (level (k + m) l) `prefix_of` buf' ∧ proofs_at (S (k + m)) l ps'.
Proof.
  induction m as [|m IH]; intros k buf ps Hl Hp Hps.
  - rewrite Nat.add_0_r. by exists buf, ps.
  - cbn [proofGen_loop].
    destruct (hash_in_place_prefix _ _ Hp (even_length_pad _)) as (b & -> & Hb).
    cbn [mbind option_bind].
    replace (length (pad (level k l)) / 2) with (length (level (S k) l))
      by (by rewrite level_succ; unfold Merkle.up; rewrite length_pairs_hash).
    destruct (fixOdd_pad (level (S k) l) b) as (b' & -> & Hb'); [by apply level_nonempty|done|].
    cbn [mbind option_bind fst snd].
    destruct (updateProofs_at l (S k) b' (length (pad (level (S k) l))) ps) as (ps' & -> & Hps');
      [by rewrite <-evens_pad|done..|].
    cbn [mbind option_bind]. rewrite Nat.add_succ_r. by apply (IH (S k)).
Qed.

(** The row below the root is a pair, and the root is its hash. *)
Lemma pair_root_level d l buf :
  1 ≤ length l ≤ 2 ^ S d → pad (level d l) `prefix_of` buf → 
  ∃ r, pair_root HashFunc buf = Some r ∧ level (S d) l !! 0 = Some r.
Proof.
  intros Hd Hp. pose proof (level_single (S d) l Hd) as H1.
  destruct (lookup_lt_is_Some_2 (level (S d) l) 0) as [r Hr]; [lia|].
  exists r. split; [|done]. rewrite level_succ in Hr. unfold Merkle.up in Hr.
  apply lookup_pairs_hash_inv in Hr as (a & b & Ha & Hb & ->).
  unfold pair_root. simpl in Ha, Hb.
  rewrite (prefix_lookup_Some _ _ _ _ Ha Hp), (prefix_lookup_Some _ _ _ _ Hb Hp). done.
Qed.

Lemma proofGen_correct l d :
  2 ≤ length l ≤ 2 ^ S d →
  ∃ r ps, proofGen HashFunc l (S d) = Some (r, ps) ∧
    level (S d) l !! 0 = Some r ∧ proofs_at (S d) l ps.
Proof.
  intros Hd. assert (l ≠ []) as Hl by (by destruct l; [simpl in *; lia|]).
  unfold proofGen. rewrite fixOdd_exact by done. cbn [mbind option_bind fst snd].
  destruct (updateProofs_at l 0 (pad l) (length l) _ eq_refl ltac:(done) (initProofs_at l))
    as (ps & -> & Hps). cbn [mbind option_bind].
  replace (S d - 1) with d by lia.
  destruct (proofGen_loop_at l d 0 (pad l) ps Hl) as (buf & ps' & Hg & Hb & Hps'); [done..|].
  cbn in Hg. rewrite Hg. cbn [mbind option_bind fst snd].
  destruct (pair_root_level d l buf) as (r & -> & Hr); [lia|done|].
  by exists r, ps'.
Qed.

(** The stored tree: the padded levels below the root. *)
Lemma treeBuild_loop_levels l m : ∀ k,
  l ≠ [] →
  treeBuild_loop m (pad (level k l)) (length (pad (level k l))) =
  Some ((λ j, pad (level j l)) <$> seq k (S m)).
Proof.
  induction m as [|m IH]; intros k Hl; [done|]. cbn [Merkle.treeBuild_loop].
  rewrite hash_pair_row by apply even_length_pad. cbn [mbind option_bind].
  change (pairs_hash (pad (level k l))) with (level (S k) l).
  rewrite fixOdd_exact by (by apply level_nonempty). cbn [mbind option_bind fst snd].
  rewrite IH by done. done.
Qed.

Lemma treeBuild_correct l d :
  2 ≤ length l ≤ 2 ^ S d →
  ∃ r, treeBuild HashFunc zero l (S d) = Some ((λ j, pad (level j l)) <$> seq 0 (S d), r) ∧
    level (S d) l !! 0 = Some r.
Proof.
  intros Hd. assert (l ≠ []) as Hl by (by destruct l; [simpl in *; lia|]).
  unfold treeBuild. rewrite fixOdd_exact by done. cbn [mbind option_bind fst snd].
  replace (S d - 1) with d by lia.
  rewrite (treeBuild_loop_levels l d 0 Hl : treeBuild_loop d (pad l) (length (pad l)) = _). cbn [mbind option_bind].
  rewrite list_lookup_fmap, lookup_seq_lt by lia. cbn [fmap option_fmap option_map mbind option_bind].
  destruct (pair_root_level d l (pad (level d l))) as (r & Hr & Hr'); [lia|done|].
  cbn [Nat.add]. rewrite Hr. cbn [mbind option_bind]. by exists r.
Qed.

Lemma updateAll_correct l m : ∀ k ps,
  proofs_at k l ps →
  ∃ ps', updateAll ((λ j, pad (level j l)) <$> seq k m) k ps = Some ps' ∧ proofs_at (k + m) l ps'.
Proof.
  induction m as [|m IH]; intros k ps Hps; [rewrite Nat.add_0_r; by exists ps|].
  cbn [seq fmap list_fmap updateAll].
  destruct (updateProofs_at l k (pad (level k l)) (length (pad (level k l))) ps) as (ps' & -> & Hps');
    [by rewrite <-evens_pad|done..|].
  cbn [mbind option_bind]. rewrite Nat.add_succ_r. by apply (IH (S k)).
Qed.
(** ** The leaf map and single proofs *)

Lemma zip_seq_snoc (l : list H) x :
  zip (seq 0 (length (l ++ [x]))) (l ++ [x]) = zip (seq 0 (length l)) l ++ [(length l, x)].
Proof.
  rewrite length_app, Nat.add_1_r, seq_S, zip_with_app by apply length_seq. done.
Qed.

Lemma buildLeafMap_sound (l : list H) d i : buildLeafMap l !! d = Some i → l !! i = Some d.
Proof.
  unfold buildLeafMap. revert d i. induction l as [|x l IH] using rev_ind; intros d i; [done|].
  rewrite zip_seq_snoc, fold_left_app. cbn [fold_left fst snd].
  intros [[<- <-]|[Hne Hl]]%lookup_insert_Some; [by apply list_lookup_middle|].
  apply lookup_app_l_Some. by apply IH.
Qed.

Lemma buildLeafMap_complete (l : list H) d : d ∈ l → is_Some (buildLeafMap l !! d).
Proof.
  unfold buildLeafMap. induction l as [|x l IH] using rev_ind; [by intros ?%elem_of_nil|].
  rewrite zip_seq_snoc, fold_left_app. cbn [fold_left fst snd].
  intros [Hd|Hd]%elem_of_app; apply lookup_insert_is_Some'; [by right; apply IH|left].
  symmetry. by apply list_elem_of_singleton.
Qed.

Lemma gen_loop_correct l d i m : ∀ k path ss,
  i < length l → k + m = d →
  proof_of k l i = Some (mkProof ss path) →
  gen_loop ((λ j, pad (level j l)) <$> seq 0 d) m k (i / 2 ^ k) path ss = proof_of d l i.
Proof.
  induction m as [|m IH]; intros k path ss Hi Hk Hp; cbn [gen_loop].
  - rewrite <-Hp, <-Hk. f_equal. lia.
  - rewrite list_lookup_fmap, lookup_seq_lt by lia.
    cbn [fmap option_fmap option_map mbind option_bind Nat.add].
    pose proof (proof_of_succ _ _ _ _ Hi Hp) as Hs. unfold add_level, sib in Hs. simpl in Hs.
    pose proof (sib_lt (lookup_level_half k l i Hi)) as [s Hsib]%lookup_lt_is_Some_2.
    unfold sib in Hsib. rewrite div_pow_succ.
    destruct (Nat.odd (i / 2 ^ k)); rewrite Hsib in Hs; rewrite Hsib; cbn [mbind option_bind];
      apply IH; rewrite ?Z.add_0_r in Hs; done || lia.
Qed.

(** ** The interface *)

Section interface.
Context {B : Type} (Digest : B → option H).

Notation New := (New HashFunc zero Digest).
Notation Verify := (Verify HashFunc Digest).
Notation GenerateProof := (GenerateProof Digest).

(** A tree over the given leaves, as the reference has it. *)
Record tree_spec (mt : MerkleTree) (leaves : list H) : Prop := {
  ts_depth : 2 ^ (Depth mt - 1) < length leaves ≤ 2 ^ Depth mt;
  ts_leaves : Leaves mt = leaves;
  ts_root : level (Depth mt) leaves = [Root mt];
  ts_proofs : Mode mt ≠ ModeTreeBuild → proofs_at (Depth mt) leaves (Proofs mt);
  ts_map : Mode mt ≠ ModeProofGen → leafMap mt = buildLeafMap leaves;
  ts_tree : Mode mt ≠ ModeProofGen → tree mt = (λ j, pad (level j leaves)) <$> seq 0 (Depth mt)
}.

Lemma calTreeDepth_spec n : 2 ≤ n →
  ∃ d, calTreeDepth n = S d ∧ 2 ^ d < n ≤ 2 ^ S d.
Proof.
  intros Hn. unfold calTreeDepth. pose proof (Nat.log2_up_spec n ltac:(lia)) as Hs.
  pose proof (Nat.log2_up_pos n ltac:(lia)). exists (pred (Nat.log2_up n)).
  rewrite Nat.succ_pred by lia. done.
Qed.

Lemma root_single d l r : 1 ≤ length l ≤ 2 ^ d → level d l !! 0 = Some r → level d l = [r].
Proof.
  intros Hd Hr. pose proof (level_single d l Hd) as H1.
  destruct (level d l) as [|x [|y t]]; simplify_eq/=; done.
Qed.

(** [New] builds the reference tree in every mode. *)
Lemma New_spec mode blocks leaves :
  2 ≤ length blocks → leafGen Digest blocks = Some leaves →
  ∃ mt, New mode blocks = Some mt ∧ Mode mt = mode ∧ tree_spec mt leaves.
Proof.
  intros Hn Hl. unfold Merkle.New. rewrite bool_decide_false by lia. rewrite Hl.
  pose proof (length_mapM _ _ _ Hl) as Hlen. cbn [mbind option_bind].
  destruct (calTreeDepth_spec (length blocks) Hn) as (d & -> & Hd). rewrite Hlen in *.
  destruct (proofGen_correct leaves d) as (r & ps & Hg & Hr & Hps); [lia|].
  destruct (treeBuild_correct leaves d) as (r' & Ht & Hr'); [lia|].
  rewrite Hr in Hr'. injection Hr' as <-.
  apply root_single in Hr; [|lia].
  destruct (updateAll_correct leaves (S d) 0 _ (initProofs_at leaves)) as (ps' & Hu & Hps').
  replace d with (S d - 1) in Hd at 1 by lia.
  destruct mode; [rewrite Hg|rewrite Ht|rewrite Ht]; cbn [mbind option_bind fst snd];
    rewrite ?Hu; cbn [mbind option_bind fst snd]; (eexists; split; [done|]; split; [done|]);
    by split; cbn [Depth Leaves Root Mode Proofs leafMap tree].
Qed.

Lemma GenerateProof_spec mt leaves b d i :
  tree_spec mt leaves → Mode mt ≠ ModeProofGen → Digest b = Some d →
  buildLeafMap leaves !! d = Some i →
  GenerateProof mt b = proof_of (Depth mt) leaves i.
Proof.
  intros [] Hm Hd Hi. unfold Merkle.GenerateProof. rewrite decide_False by done.
  rewrite Hd. cbn [mbind option_bind]. rewrite ts_map0, Hi, ts_tree0 by done.
  cbn [mbind option_bind]. pose proof (buildLeafMap_sound _ _ _ Hi) as Hl%lookup_lt_Some.
  rewrite <-(gen_loop_correct leaves (Depth mt) i (Depth mt) 0 0 []) by done.
  by rewrite Nat.pow_0_r, Nat.div_1_r.
Qed.

(** A proof of the tree's reference verifies its leaf. *)
Lemma tree_proof_verifies mt leaves b d i p :
  tree_spec mt leaves → Digest b = Some d → leaves !! i = Some d →
  proof_of (Depth mt) leaves i = Some p →
  Verify b p (Root mt) = Some true ∧ length (Siblings p) = Depth mt ∧ (0 ≤ Path p < 2 ^ Z.of_nat (Depth mt))%Z.
Proof.
  intros [] Hd Hi Hp. unfold Merkle.Verify. rewrite Hd. cbn [mbind option_bind].
  assert (level (Depth mt) leaves !! 0 = Some (Root mt)) as Hr by (by rewrite ts_root0).
  rewrite bool_decide_true by (eapply proof_of_root; [|done..]; lia). split; [done|].
  apply bind_Some in Hp as (ss & Hss & [= <-]). simpl.
  split; [by eapply sibs_upto_length|apply path_upto_range].
Qed.
End interface.
(** ** Soundness *)

(** The pairs a verification hashes, and the pairs a tree is made of. *)
Fixpoint verify_pairs (hash : H) (path : Z) (sibs : list H) : list (H * H) :=
  match sibs with
  | [] => []
  | n :: sibs =>
      let q := if Z.eqb (Z.land path 1) 1 then (hash, n) else (n, hash) in
      q :: verify_pairs (HashFunc q.1 q.2) (Z.shiftr path 1) sibs
  end.

Fixpoint row_pairs (l : list H) : list (H * H) :=
  match l with
  | a :: b :: l => (a, b) :: row_pairs l
  | _ => []
  end.

Definition tree_pairs (d : nat) (l : list H) : list (H * H) :=
  seq 0 d ≫= λ k, row_pairs (pad (level k l)).

(** No pair of the first list collides with another pair of the second. *)
Definition collision_free (qs ts : list (H * H)) : Prop :=
  ∀ q t, q ∈ qs → t ∈ ts → HashFunc q.1 q.2 = HashFunc t.1 t.2 → q = t.

Lemma elem_of_pairs_hash l h :
  h ∈ pairs_hash l → ∃ a b, (a, b) ∈ row_pairs l ∧ a ∈ l ∧ b ∈ l ∧ h = HashFunc a b.
Proof.
  revert l. fix IH 1. intros [|a [|b l]]; cbn [pairs_hash row_pairs]; [by intros ?%elem_of_nil..|].
  intros [E|Hh]%elem_of_cons.
  - clear IH. exists a, b. set_solver.
  - destruct (IH l Hh) as (x & y & ? & ? & ? & E). clear IH Hh. exists x, y. set_solver.
Qed.

Lemma fold_path_verify h p ss s :
  ∃ q, q ∈ verify_pairs h p (ss ++ [s]) ∧ fold_path h p (ss ++ [s]) = HashFunc q.1 q.2 ∧
    (q = (fold_path h p ss, s) ∨ q = (s, fold_path h p ss)).
Proof.
  revert h p. induction ss as [|x ss IH]; intros h p.
  - simpl. case_match; (eexists; split; [by left|]; eauto).
  - cbn [app fold_path verify_pairs].
    destruct (IH (if Z.eqb (Z.land p 1) 1 then HashFunc h x else HashFunc x h) (Z.shiftr p 1))
      as (q & Hq & Hf & Hc).
    exists q. split; [|done]. right. by case_match.
Qed.

Lemma verify_pairs_prefix h p ss s q :
  q ∈ verify_pairs h p ss → q ∈ verify_pairs h p (ss ++ [s]).
Proof.
  revert h p. induction ss as [|x ss IH]; intros h p; cbn [app verify_pairs]; set_solver.
Qed.

(** A value that hashes up to a node of level [d] over [d] siblings is a leaf. *)
Lemma fold_path_descend d l h p ss :
  length ss = d → collision_free (verify_pairs h p ss) (tree_pairs d l) →
  fold_path h p ss ∈ level d l → h ∈ l.
Proof.
  revert d. induction ss as [|s ss IH] using rev_ind; intros d Hd Hc Hin.
  - simpl in Hd. subst d. done.
  - rewrite length_app in Hd. simpl in Hd. destruct d as [|d]; [lia|].
    rewrite level_succ in Hin. unfold Merkle.up in Hin.
    apply elem_of_pairs_hash in Hin as (a & b & Hab & Ha & Hb & E).
    destruct (fold_path_verify h p ss s) as (q & Hq & Hf & Hcase).
    assert (q = (a, b)) as ->.
    { apply Hc; [done| |by rewrite <-Hf, E]. unfold tree_pairs. apply list_elem_of_bind.
      exists d. split; [done|]. apply elem_of_seq. lia. }
    apply (IH d); [lia| |].
    + intros q t Hq' Ht. apply Hc; [by apply verify_pairs_prefix|].
      unfold tree_pairs in *. rewrite seq_S, bind_app. set_solver.
    + destruct Hcase; simplify_eq; by apply elem_of_pad.
Qed.

Section theorems.
Context {B : Type} (Digest : B → option H).

Notation New := (New HashFunc zero Digest).
Notation Verify := (Verify HashFunc Digest).
Notation GenerateProof := (GenerateProof Digest).

Lemma leafGen_lookup blocks leaves i b :
  leafGen Digest blocks = Some leaves → blocks !! i = Some b → 
  ∃ d, Digest b = Some d ∧ leaves !! i = Some d.
Proof.
  unfold leafGen. intros Hl%mapM_Some Hb. revert i Hb.
  induction Hl as [|x y xs ys Hxy _ IH]; intros [|i] Hb; simplify_eq/=; eauto.
Qed.

Lemma leafGen_elem blocks leaves d :
  leafGen Digest blocks = Some leaves → d ∈ leaves → ∃ b, b ∈ blocks ∧ Digest b = Some d.
Proof using Type.
  unfold leafGen. intros Hl%mapM_Some. induction Hl as [|b x bs l Hx _ IH]; [by intros ?%elem_of_nil|].
  intros [->|Hd]%elem_of_cons; [exists b; split; [by left|done]|].
  destruct (IH Hd) as (b' & Hb & ?). exists b'. split; [by right|done].
Qed.

Lemma New_inv mode blocks mt :
  New mode blocks = Some mt →
  ∃ leaves, 2 ≤ length blocks ∧ leafGen Digest blocks = Some leaves ∧ tree_spec mt leaves ∧
    Mode mt = mode.
Proof.
  intros HN. pose proof HN as HN'. unfold Merkle.New in HN'.
  case_bool_decide as Hn; [done|]. apply bind_Some in HN' as (leaves & Hl & _).
  destruct (New_spec Digest mode blocks leaves) as (mt' & Hmt & Hm & Hs); [lia|done|].
  rewrite HN in Hmt. simplify_eq. exists leaves. split; [lia|]. split; [done|]. by split.
Qed.

(** A stored tree has a proof for every block, and it verifies. *)
Lemma merkle_proof_exists mt leaves blocks i b :
  tree_spec mt leaves → leafGen Digest blocks = Some leaves → blocks !! i = Some b →
  Mode mt ≠ ModeProofGen →
  ∃ p, GenerateProof mt b = Some p ∧ Verify b p (Root mt) = Some true ∧
    length (Siblings p) = Depth mt ∧ (0 ≤ Path p < 2 ^ Z.of_nat (Depth mt))%Z.
Proof.
  intros Hs Hl Hb Hmode. destruct (leafGen_lookup _ _ _ _ Hl Hb) as (d & Hd & Hi).
  destruct (buildLeafMap_complete leaves d) as [j Hj]; [by eapply list_elem_of_lookup_2|].
  pose proof (buildLeafMap_sound _ _ _ Hj) as Hlj.
  destruct (proof_of_is_Some (Depth mt) leaves j) as [p Hp]; [by eapply lookup_lt_Some|].
  exists p. split; [|by eapply tree_proof_verifies].
  by rewrite (GenerateProof_spec Digest mt leaves b d j).
Qed.

Lemma merkle_new_total mode blocks :
  is_Some (New mode blocks) ↔ 2 ≤ length blocks ∧ ∀ b, b ∈ blocks → is_Some (Digest b).
Proof.
  split.
  - intros [mt (leaves & Hn & Hl & _)%New_inv]. split; [done|]. intros b [i Hi]%list_elem_of_lookup.
    destruct (leafGen_lookup _ _ _ _ Hl Hi) as (d & -> & _). done.
  - intros [Hn Hd]. destruct (mapM_is_Some_2 Digest blocks) as [leaves Hl]; [by apply Forall_forall|].
    destruct (New_spec Digest mode blocks leaves Hn Hl) as (mt & -> & _). done.
Qed.

(** C30: A Merkle tree is built in every mode exactly when there are at least two
    blocks and every block has a digest.  Every proof the tree offers for one of
    its blocks, whether generated while hashing or afterwards from the stored
    tree, is accepted by [Verify] against the root, has one sibling per level
    and a path below [2 ^ Depth]. *)
Theorem merkle_complete mode blocks :
  (is_Some (New mode blocks) ↔ 2 ≤ length blocks ∧ ∀ b, b ∈ blocks → is_Some (Digest b)) ∧
  ∀ mt i b, New mode blocks = Some mt → blocks !! i = Some b →
    let good p := Verify b p (Root mt) = Some true ∧ length (Siblings p) = Depth mt ∧
      (0 ≤ Path p < 2 ^ Z.of_nat (Depth mt))%Z in
    (mode ≠ ModeTreeBuild → ∃ p, Proofs mt !! i = Some p ∧ good p) ∧
    (mode ≠ ModeProofGen → ∃ p, GenerateProof mt b = Some p ∧ good p).
Proof.
  split; [apply merkle_new_total|].
  intros mt i b (leaves & Hn & Hl & Hs & Hm)%New_inv Hb.
  destruct (leafGen_lookup _ _ _ _ Hl Hb) as (d & Hd & Hi).
  pose proof (lookup_lt_Some _ _ _ Hi) as Hlt. cbv zeta. split; intros Hmode.
  - destruct (ts_proofs _ _ Hs) as [_ Hps]; [by rewrite Hm|].
    destruct (proof_of_is_Some (Depth mt) leaves i Hlt) as [p Hp]. exists p.
    split; [by rewrite Hps|]. by eapply tree_proof_verifies.
  - eapply merkle_proof_exists; [done..|by rewrite Hm].
Qed.

(** The three modes build one tree: the same root and depth, the same proofs
    where both generate all of them, and a proof generated afterwards is the
    proof generated while hashing of some block with the same digest. *)
Theorem merkle_modes_agree m1 m2 blocks mt1 mt2 :
  New m1 blocks = Some mt1 → New m2 blocks = Some mt2 →
  Root mt1 = Root mt2 ∧ Depth mt1 = Depth mt2 ∧ Leaves mt1 = Leaves mt2 ∧
  (m1 ≠ ModeTreeBuild → m2 ≠ ModeTreeBuild → Proofs mt1 = Proofs mt2) ∧
  (m1 ≠ ModeProofGen → m2 ≠ ModeTreeBuild → ∀ b, b ∈ blocks →
    ∃ i b', blocks !! i = Some b' ∧ Digest b' = Digest b ∧ GenerateProof mt1 b = Proofs mt2 !! i).
Proof.
  intros (l1 & Hn & Hl1 & Hs1 & Hm1)%New_inv (l2 & _ & Hl2 & Hs2 & Hm2)%New_inv.
  rewrite Hl1 in Hl2. injection Hl2 as <-.
  assert (Depth mt1 = Depth mt2) as HD.
  { pose proof (ts_depth _ _ Hs1) as [Ha Hb]. pose proof (ts_depth _ _ Hs2) as [Hc Hd].
    destruct (lt_eq_lt_dec (Depth mt1) (Depth mt2)) as [[Hlt|?]|Hlt]; [|done|].
    - pose proof (Nat.pow_le_mono_r 2 (Depth mt1) (Depth mt2 - 1)). lia.
    - pose proof (Nat.pow_le_mono_r 2 (Depth mt2) (Depth mt1 - 1)). lia. }
  pose proof (ts_root _ _ Hs1) as Hr1. rewrite HD, (ts_root _ _ Hs2) in Hr1.
  split; [by injection Hr1|]. split; [done|].
  split; [by rewrite (ts_leaves _ _ Hs1), (ts_leaves _ _ Hs2)|]. split.
  - intros H1 H2. destruct (ts_proofs _ _ Hs1) as [L1 P1]; [by rewrite Hm1|].
    destruct (ts_proofs _ _ Hs2) as [L2 P2]; [by rewrite Hm2|].
    apply list_eq_same_length with (length l1); [done..|]. intros i x y Hi.
    rewrite P1, P2, HD by done. congruence.
  - intros H1 H2 b [i Hi]%list_elem_of_lookup.
    destruct (leafGen_lookup _ _ _ _ Hl1 Hi) as (d & Hd & Hli).
    destruct (buildLeafMap_complete l1 d) as [j Hj]; [by eapply list_elem_of_lookup_2|].
    pose proof (buildLeafMap_sound _ _ _ Hj) as Hlj. pose proof (lookup_lt_Some _ _ _ Hlj) as Hlt.
    pose proof (length_mapM _ _ _ Hl1) as Hlen.
    destruct (lookup_lt_is_Some_2 blocks j) as [b' Hb']; [lia|].
    destruct (leafGen_lookup _ _ _ _ Hl1 Hb') as (d' & Hd' & Hlj').
    rewrite Hlj in Hlj'. injection Hlj' as <-.
    exists j, b'. split; [done|]. split; [congruence|].
    destruct (ts_proofs _ _ Hs2) as [_ ->]; [by rewrite Hm2| |done].
    rewrite (GenerateProof_spec Digest mt1 l1 b d j) by (done || by rewrite Hm1). by rewrite HD.
Qed.

(** C31: A proof that has one sibling per level is only accepted for a block
    whose digest is the digest of a block of the tree, unless one of the pairs
    [Verify] hashes collides with a different pair of the tree. *)
Theorem merkle_sound mode blocks mt b p :
  New mode blocks = Some mt → Verify b p (Root mt) = Some true →
  length (Siblings p) = Depth mt →
  (∀ d, Digest b = Some d →
    collision_free (verify_pairs d (Path p) (Siblings p)) (tree_pairs (Depth mt) (Leaves mt))) →
  ∃ b', b' ∈ blocks ∧ Digest b' = Digest b.
Proof.
  intros (leaves & Hn & Hl & Hs & Hm)%New_inv HV Hlen Hc.
  unfold Merkle.Verify in HV. apply bind_Some in HV as (d & Hd & [= Hr]). bool_cases.
  specialize (Hc d Hd). rewrite (ts_leaves _ _ Hs) in Hc.
  destruct (leafGen_elem blocks leaves d Hl) as (b' & Hb' & Hd').
  - apply (fold_path_descend (Depth mt) leaves d (Path p) (Siblings p)); [done..|].
    rewrite Hr, (ts_root _ _ Hs). by left.
  - exists b'. split; [done|]. by rewrite Hd, Hd'.
Qed.

(** Duplicating the last of an odd number of blocks does not change the root:
    two different lists of blocks have one root. *)
Theorem merkle_duplicate_root mode blocks b mt :
  New mode blocks = Some mt → Nat.odd (length blocks) = true → last blocks = Some b →
  ∃ mt', New mode (blocks ++ [b]) = Some mt' ∧ Root mt' = Root mt ∧ Depth mt' = Depth mt.
Proof.
  intros (leaves & Hn & Hl & Hs & Hm)%New_inv Ho Hb.
  rewrite last_lookup in Hb. destruct (leafGen_lookup _ _ _ _ Hl Hb) as (d & Hd & Hi).
  pose proof (length_mapM _ _ _ Hl) as Hlen.
  assert (leafGen Digest (blocks ++ [b]) = Some (leaves ++ [d])) as Hl'.
  { unfold leafGen in *. apply mapM_Some in Hl. apply mapM_Some.
    apply Forall2_app; [done|]. by constructor. }
  assert (pad leaves = leaves ++ [d]) as Hp.
  { apply pad_odd; [by rewrite <-Hlen, <-Nat.negb_odd, Ho|]. by rewrite last_lookup, <-Hlen. }
  destruct (New_spec Digest mode (blocks ++ [b]) (leaves ++ [d])) as (mt' & HN & Hm' & Hs');
    [rewrite length_app; lia|done|].
  exists mt'. split; [done|].
  assert (Depth mt' = Depth mt) as HD.
  { pose proof (ts_depth _ _ Hs) as [Ha Hb']. pose proof (ts_depth _ _ Hs') as [Hc Hd'].
    rewrite <-Hp, length_pad in Hc, Hd'. apply odd_half in Ho. rewrite Hlen in Ho.
    rewrite Ho in *. remember (length leaves / 2) as h eqn:Eh. clear Eh.
    replace ((2 * h + 1 + 1) / 2) with (S h) in *
      by (rewrite <-(Nat.div_mul (S h) 2) by lia; f_equal; lia).
    destruct (Depth mt) as [|e]; [simpl in *; lia|].
    destruct (Depth mt') as [|e']; [simpl in *; lia|]. rewrite !Nat.sub_succ, !Nat.sub_0_r in *.
    rewrite !Nat.pow_succ_r' in *. f_equal.
    destruct (lt_eq_lt_dec e e') as [[Hlt|?]|Hlt]; [|done|].
    - pose proof (Nat.pow_le_mono_r 2 (S e) e'). rewrite Nat.pow_succ_r' in *. lia.
    - pose proof (Nat.pow_le_mono_r 2 (S e') e). rewrite Nat.pow_succ_r' in *. lia. }
  split; [|done]. pose proof (ts_root _ _ Hs) as Hr. pose proof (ts_root _ _ Hs') as Hr'.
  rewrite HD in Hr'. destruct (Depth mt) as [|e] eqn:HDe;
    [pose proof (ts_depth _ _ Hs) as [_ Hd1]; rewrite HDe in Hd1; simpl in Hd1; lia|].
  rewrite <-level_up in Hr, Hr'. unfold Merkle.up in Hr, Hr'.
  rewrite (pad_even (leaves ++ [d])), <-Hp, Hr in Hr' by (rewrite <-Hp; apply even_length_pad).
  by injection Hr'.
Qed.
End theorems.
End merkle_proofs.

(** ** Concrete trees *)

(** Five blocks, each its own digest, and a hash without collisions among them. *)
Definition pairing (a b : Z) : Z := (1000 * a + b + 1)%Z.
Definition five : list Z := [1; 2; 3; 4; 5]%Z.

Lemma merkle_complete_witness :
  (∃ mt, New pairing 0%Z (@Some Z) ModeProofGen five = Some mt) ∧
  (∃ mt p, New pairing 0%Z (@Some Z) ModeTreeBuild five = Some mt ∧
    GenerateProof (@Some Z) mt 3%Z = Some p ∧ Verify pairing (@Some Z) 3%Z p (Root mt) = Some true).
Proof.
  split.
  - apply (proj1 (merkle_complete pairing 0%Z (@Some Z) ModeProofGen five)). by split; [simpl; lia|].
  - assert (∃ mt, New pairing 0%Z (@Some Z) ModeTreeBuild five = Some mt) as [mt Hmt]
      by (eexists; vm_compute; reflexivity).
    destruct (proj2 (merkle_complete pairing 0%Z (@Some Z) ModeTreeBuild five) mt 2 3%Z Hmt eq_refl)
      as [_ Hg]. destruct (Hg ltac:(done)) as (p & Hp & HV & _). by exists mt, p.
Defined.

Lemma merkle_modes_agree_witness :
  ∃ mt1 mt2, New pairing 0%Z (@Some Z) ModeProofGen five = Some mt1 ∧
    New pairing 0%Z (@Some Z) ModeTreeBuild five = Some mt2 ∧ Root mt1 = Root mt2.
Proof.
  eexists _, _. split; [vm_compute; reflexivity|]. split; [vm_compute; reflexivity|].
  eapply (merkle_modes_agree pairing 0%Z (@Some Z) ModeProofGen ModeTreeBuild five);
    vm_compute; reflexivity.
Defined.

Lemma merkle_sound_witness :
  ∃ b', b' ∈ five ∧ Some b' = Some 3%Z.
Proof.
  apply (merkle_sound pairing 0%Z (@Some Z) ModeTreeBuild five
    (default (mkTree ModeTreeBuild ∅ [] 0%Z [] [] 0) (New pairing 0%Z (@Some Z) ModeTreeBuild five))
    3%Z (mkProof [4; 1003; 5011007]%Z 5)).
  - vm_compute. reflexivity.
  - vm_compute. reflexivity.
  - vm_compute. reflexivity.
  - intros d [= <-] q t Hq Ht. revert q Hq t Ht.
    cut (Forall (λ q, Forall (λ t, pairing q.1 q.2 = pairing t.1 t.2 → q = t)
      (tree_pairs pairing 3 five)) (verify_pairs pairing 3%Z 5%Z [4; 1003; 5011007]%Z)).
    + intros Hf q Hq t Ht. rewrite Forall_forall in Hf. specialize (Hf q Hq).
      rewrite Forall_forall in Hf. by apply Hf.
    + apply (bool_decide_unpack _). vm_compute. exact I.
Defined.

Lemma merkle_duplicate_root_witness :
  ∃ mt mt', New pairing 0%Z (@Some Z) ModeTreeBuild five = Some mt ∧
    New pairing 0%Z (@Some Z) ModeTreeBuild (five ++ [5%Z]) = Some mt' ∧ Root mt' = Root mt.
Proof.
  assert (∃ mt, New pairing 0%Z (@Some Z) ModeTreeBuild five = Some mt) as [mt Hmt]
    by (eexists; vm_compute; reflexivity).
  destruct (merkle_duplicate_root pairing 0%Z (@Some Z) ModeTreeBuild five 5%Z mt Hmt eq_refl eq_refl)
    as (mt' & ? & ? & _). by exists mt, mt'.
Defined.
