(* ===== verification/MerkleParallel.v ===== *)
(** * Merkle trees: parallel construction

    [RunInParallel] and [LeafGenParallel]: the loops of [pmt::MerkleTree] split
    over [numRoutines] tasks of the thread pool.  A parallel loop is the set of
    outcomes of all schedules of its tasks ([par_run] of [Prelude]); an outcome
    [None] is an access out of range.  The task that fills [leafMap] reads the
    leaves and writes the map only, so its place in the schedule is irrelevant.

    [proofGenParallel] hands its tasks references to variables the calling
    thread goes on to change; its loop body is a step relation over the shared
    variables. *)

From S2P Require Import Prelude Merkle MerkleProofs.

(** [for (j = start; j < n; j += step)]: the values of [j]; [fuel] bounds the
    number of iterations and [n] iterations are enough for a positive step. *)
Fixpoint for_loop (fuel j n step : nat) : list nat :=
  match fuel with
  | 0 => []
  | S fuel => if bool_decide (j < n) then j :: for_loop fuel (j + step) n step else []
  end.

(** The indices of the tasks of a strided loop. *)
Definition strided (numRoutines n scale : nat) : list (list nat) :=
  (λ i, for_loop n (i * scale) n (numRoutines * scale)) <$> seq 0 numRoutines.

Definition calculateNumRoutine (numRoutines workCount : nat) : nat :=
  let nr := if bool_decide (workCount / 16 < numRoutines) then workCount / 16 else numRoutines in
  if bool_decide (nr = 0) then 1 else nr.

(** ** Outcome sets *)

Definition outcomes (A : Type) := option A → Prop.
Definition oret {A} (o : option A) : outcomes A := λ r, r = o.
Definition obind {A B} (m : outcomes A) (f : A → outcomes B) : outcomes B :=
  λ r, (m None ∧ r = None) ∨ ∃ a, m (Some a) ∧ f a r.
Notation "x ⇠ m ;; k" := (obind m (λ x, k)) (at level 100, m at level 90, k at level 200).

(** There is one outcome. *)
Definition det {A} (m : outcomes A) (o : option A) : Prop := ∀ r, m r ↔ r = o.

Lemma det_intro {A} (m : outcomes A) o : (∃ r, m r) → (∀ r, m r → r = o) → det m o.
Proof. intros [r Hr] Hu r'. split; [apply Hu|]. intros ->. by rewrite <-(Hu r Hr). Qed.

Lemma det_ret {A} (o : option A) : det (oret o) o.
Proof. done. Qed.

Lemma det_bind {A B} (m : outcomes A) (f : A → outcomes B) a o :
  det m (Some a) → det (f a) o → det (obind m f) o.
Proof.
  intros Hm Hf. apply det_intro.
  - exists o. right. exists a. split; [by apply Hm|by apply Hf].
  - intros r [[Hn _]|(a' & Ha & Hr)]; [by apply Hm in Hn|].
    apply Hm in Ha. simplify_eq. by apply Hf.
Qed.

Section parallel.
Context {H : Type} `{Countable H} (HashFunc : H → H → H) (zero : H).
Context (NumRoutines : nat).

Definition updateProofsParallel (buf : list H) (bufLen step : nat) (ps : list MProof)
    : outcomes (list MProof) :=
  let nr := calculateNumRoutine NumRoutines bufLen in
  par_run (update_at buf step) (strided nr bufLen 2) (Some ps).

Definition hash_row_parallel (lvl : list H) (prevLen : nat) : outcomes (list H) :=
  let nr := calculateNumRoutine NumRoutines prevLen in
  par_run (hash_pair HashFunc lvl) (strided nr prevLen 2) (Some (replicate (prevLen / 2) zero)).

Fixpoint treeBuildParallel_loop (k : nat) (lvl : list H) (prevLen : nat) : outcomes (list (list H)) :=
  match k with
  | 0 => oret (Some [lvl])
  | S k =>
      out ⇠ hash_row_parallel lvl prevLen;;
      x ⇠ oret (fixOdd out (length out));;
      rest ⇠ treeBuildParallel_loop k x.1 x.2;;
      oret (Some (lvl :: rest))
  end.

Definition treeBuildParallel (leaves : list H) (depth : nat) : outcomes (list (list H) * H) :=
  x ⇠ oret (fixOdd leaves (length leaves));;
  t ⇠ treeBuildParallel_loop (depth - 1) x.1 x.2;;
  oret (top ← t !! (depth - 1); r ← pair_root HashFunc top; Some (t, r)).

Fixpoint updateAllParallel (t : list (list H)) (step : nat) (ps : list MProof) : outcomes (list MProof) :=
  match t with
  | [] => oret (Some ps)
  | lvl :: t => ps ⇠ updateProofsParallel lvl (length lvl) step ps;; updateAllParallel t (S step) ps
  end.

(** ** Leaves *)

(** What a leaf task does: set a leaf, or clear [ret] and stop. *)
Inductive leaf_act := SetLeaf (j : nat) (h : H) | ClearRet.

Definition leaf_exec (s : list H * bool) (a : leaf_act) : list H * bool :=
  match a with
  | SetLeaf j h => (<[j := h]> s.1, s.2)
  | ClearRet => (s.1, false)
  end.

Section blocks.
Context {B : Type} (Digest : B → option H).

Fixpoint leaf_task (blocks : list B) (js : list nat) : list leaf_act :=
  match js with
  | [] => []
  | j :: js =>
      match blocks !! j ≫= Digest with
      | Some h => SetLeaf j h :: leaf_task blocks js
      | None => [ClearRet]
      end
  end.

(** The leaves, or [None] when [ret] is false. *)
Definition leafGenParallel (blocks : list B) : outcomes (list H) := λ o,
  ∃ leaves ret,
    par_run leaf_exec
      (leaf_task blocks <$> strided (calculateNumRoutine NumRoutines (length blocks)) (length blocks) 1)
      (replicate (length blocks) zero, true) (leaves, ret) ∧
    o = if (ret : bool) then Some leaves else None.

(** [New] with [RunInParallel], for the modes that store the tree. *)
Definition NewParallel (mode : ModeType) (blocks : list B) : outcomes (MerkleTree (H:=H)) :=
  if bool_decide (length blocks ≤ 1) then oret None else
  let depth := calTreeDepth (length blocks) in
  leaves ⇠ leafGenParallel blocks;;
  x ⇠ treeBuildParallel leaves depth;;
  if decide (mode = ModeTreeBuild) then
    oret (Some (mkTree mode (buildLeafMap leaves) x.1 x.2 leaves [] depth))
  else
    ps ⇠ updateAllParallel x.1 0 (initProofs (length leaves));;
    oret (Some (mkTree mode (buildLeafMap leaves) x.1 x.2 leaves ps depth)).
End blocks.

(** ** Tasks visit every index once *)

Lemma elem_of_for_loop fuel j n step x :
  0 < step → n ≤ j + fuel →
  x ∈ for_loop fuel j n step ↔ x < n ∧ ∃ k, x = j + k * step.
Proof.
  intros Hs. revert j. induction fuel as [|fuel IH]; intros j Hf; cbn [for_loop].
  - split; [by intros ?%elem_of_nil|]. intros [? [k ?]]. lia.
  - case_bool_decide as Hj.
    + rewrite elem_of_cons, IH by lia. split.
      * intros [->|[? [k ->]]]; [split; [done|]; by exists 0; lia|].
        split; [done|]. exists (S k). lia.
      * intros [? [[|k] ->]]; [left; lia|right]. split; [done|]. exists k. lia.
    + split; [by intros ?%elem_of_nil|]. intros [? [k ?]]. lia.
Qed.

Lemma NoDup_for_loop fuel j n step : 0 < step → NoDup (for_loop fuel j n step).
Proof.
  intros Hs. cut (NoDup (for_loop fuel j n step) ∧ ∀ x, x ∈ for_loop fuel j n step → j ≤ x);
    [by intros []|].
  revert j. induction fuel as [|fuel IH]; intros j; cbn [for_loop];
    [split; [constructor|by intros ? ?%elem_of_nil]|].
  case_bool_decide; [|split; [constructor|by intros ? ?%elem_of_nil]].
  destruct (IH (j + step)) as [Hn Hx]. split.
  - constructor; [|done]. intros Hin%Hx. lia.
  - intros x [->|Hin%Hx]%elem_of_cons; lia.
Qed.

Lemma calculateNumRoutine_pos nr n : 0 < calculateNumRoutine nr n.
Proof. unfold calculateNumRoutine. repeat case_bool_decide; lia. Qed.

Lemma NoDup_concat_disjoint {A} (ls : list (list A)) :
  Forall NoDup ls → (∀ i j l l' x, ls !! i = Some l → ls !! j = Some l' → x ∈ l → x ∈ l' → i = j) →
  NoDup (concat ls).
Proof.
  induction 1 as [|l ls Hl _ IH]; intros Hd; [constructor|]. simpl.
  apply NoDup_app. split; [done|]. split.
  - intros x Hx Hin. rewrite list_elem_of_In, in_concat in Hin.
    destruct Hin as (l' & [j Hj]%list_elem_of_In%list_elem_of_lookup & Hx'%list_elem_of_In).
    by specialize (Hd 0 (S j) l l' x eq_refl Hj Hx Hx').
  - apply IH. intros i j l1 l2 x Hi Hj Hx Hx'.
    specialize (Hd (S i) (S j) l1 l2 x Hi Hj Hx Hx'). lia.
Qed.

Lemma concat_fmap_fmap {A A'} (f : A → A') (ls : list (list A)) :
  concat (((λ l, f <$> l) : list A → list A') <$> ls : list (list A')) = (f <$> concat ls : list A').
Proof. induction ls as [|l ls IH]; [done|]. csimpl. by rewrite IH, fmap_app. Qed.

(** The tasks of a strided loop visit the multiples of [scale] below [n], each
    once. *)
Lemma strided_perm nr n scale :
  0 < nr → 0 < scale →
  concat (strided nr n scale) ≡ₚ filter (λ x, x mod scale = 0) (seq 0 n).
Proof.
  intros Hnr Hsc. apply NoDup_Permutation.
  - apply NoDup_concat_disjoint.
    + apply Forall_fmap, Forall_true. intros i. apply NoDup_for_loop. lia.
    + intros i j l l' x Hi Hj Hx Hx'.
      apply list_lookup_fmap_Some in Hi as (a & -> & [-> Ha]%lookup_seq).
      apply list_lookup_fmap_Some in Hj as (b & -> & [-> Hb]%lookup_seq).
      apply elem_of_for_loop in Hx as [_ [k Hk]]; [|lia..].
      apply elem_of_for_loop in Hx' as [_ [k' Hk']]; [|lia..]. cbn in *.
      assert (i + k * nr = j + k' * nr) as E by nia.
      assert ((i + k * nr) mod nr = (j + k' * nr) mod nr) as E' by (by rewrite E).
      rewrite !Nat.Div0.mod_add, !Nat.mod_small in E' by lia. done.
  - apply NoDup_filter, NoDup_seq.
  - intros x. unfold strided. rewrite concat_fmap_elem, list_elem_of_filter, elem_of_seq.
    setoid_rewrite elem_of_seq. split.
    + intros (i & Hi & [Hx [k ->]]%elem_of_for_loop); [|lia..]. split; [|lia].
      replace (i * scale + k * (nr * scale)) with ((i + k * nr) * scale) by lia.
      apply Nat.Div0.mod_mul.
    + intros [Hm Hx]. apply Nat.Div0.mod_divides in Hm as [c ->]. exists (c mod nr).
      pose proof (Nat.mod_upper_bound c nr). split; [lia|].
      apply elem_of_for_loop; [lia..|]. split; [lia|]. exists (c / nr).
      pose proof (Nat.div_mod_eq c nr). nia.
Qed.

Lemma strided_evens nr n : 0 < nr → concat (strided nr n 2) ≡ₚ evens n.
Proof.
  intros Hnr. rewrite strided_perm by lia. apply NoDup_Permutation.
  - apply NoDup_filter, NoDup_seq.
  - apply NoDup_evens.
  - intros x. rewrite list_elem_of_filter, elem_of_seq, elem_of_evens.
    rewrite <-Nat.bit0_mod, Nat.bit0_odd.
    pose proof (Nat.div_mod_eq (n + 1) 2). pose proof (Nat.mod_upper_bound (n + 1) 2 ltac:(lia)).
    destruct (Nat.odd x) eqn:Ho; cbn [Nat.b2n];
      [split; intros [? ?]; [lia|done]|].
    apply even_half in Ho. split; (intros [? ?]; split); done || lia.
Qed.
(** ** Every schedule gives the sequential loops *)

(** Updates of different pairs do not interfere. *)
Lemma updateProofsParallel_det buf n step ps ps' :
  (∀ j, j ∈ evens n → j + 1 < length buf) → updateProofs buf n step ps = Some ps' →
  det (updateProofsParallel buf n step ps) (Some ps').
Proof.
  intros Hb Hu. apply det_intro; [eexists; apply par_run_seq|].
  intros r (l & Hl & ->)%par_run_fold.
  rewrite (strided_evens _ _ (calculateNumRoutine_pos _ _)) in Hl.
  assert (∀ j, j ∈ evens n → Nat.odd j = false ∧ j + 1 < length buf) as Hj.
  { intros j Hj. split; [by apply elem_of_evens in Hj as []|by apply Hb]. }
  destruct (update_at_lookup buf step (evens n) ps (NoDup_evens n) Hj) as (p1 & H1 & L1 & E1).
  destruct (update_at_lookup buf step l ps) as (p2 & H2 & L2 & E2).
  { rewrite <-Hl. apply NoDup_evens. }
  { intros j. rewrite <-Hl. apply Hj. }
  unfold updateProofs in Hu. rewrite H1 in Hu. injection Hu as <-. rewrite H2. f_equal.
  apply list_eq. intros i. rewrite E1, E2.
  rewrite (bool_decide_ext (_ ∈ evens n) (2 * (i / 2 ^ step / 2) ∈ l)); [done|by rewrite Hl].
Qed.

Lemma hash_pair_comm lvl o a b :
  Nat.odd a = false → Nat.odd b = false → a ≠ b →
  hash_pair HashFunc lvl (hash_pair HashFunc lvl o a) b =
  hash_pair HashFunc lvl (hash_pair HashFunc lvl o b) a.
Proof.
  intros Ha%even_half Hb%even_half Hne. destruct o as [out|]; [|done]. unfold hash_pair.
  cbn [mbind option_bind].
  destruct (lvl !! a) as [x|], (lvl !! (a + 1)) as [y|], (lvl !! b) as [u|], (lvl !! (b + 1)) as [v|];
    cbn [mbind option_bind]; repeat case_bool_decide; cbn [mbind option_bind];
    rewrite ?length_insert in *; repeat case_bool_decide; try done; try lia.
  f_equal. apply list_insert_insert_ne. lia.
Qed.

Lemma hash_row_parallel_det lvl :
  Nat.even (length lvl) = true →
  det (hash_row_parallel lvl (length lvl)) (Some (pairs_hash HashFunc lvl)).
Proof.
  intros He. apply det_intro; [eexists; apply par_run_seq|].
  intros r (l & Hl & ->)%par_run_fold.
  rewrite (strided_evens _ _ (calculateNumRoutine_pos _ _)) in Hl.
  rewrite <-(hash_pair_row HashFunc zero lvl He). symmetry.
  apply fold_left_perm_distinct; [apply NoDup_evens| |done].
  intros a b s [? _]%elem_of_evens [? _]%elem_of_evens ?. by apply hash_pair_comm.
Qed.

Lemma treeBuildParallel_loop_det l m : ∀ k,
  l ≠ [] →
  det (treeBuildParallel_loop m (pad (level HashFunc k l)) (length (pad (level HashFunc k l))))
    (Some ((λ j, pad (level HashFunc j l)) <$> seq k (S m))).
Proof.
  induction m as [|m IH]; intros k Hl; [apply det_ret|]. cbn [treeBuildParallel_loop].
  eapply det_bind; [apply hash_row_parallel_det, even_length_pad|].
  change (pairs_hash HashFunc (pad (level HashFunc k l))) with (level HashFunc (S k) l).
  eapply det_bind.
  { rewrite (fixOdd_exact (level HashFunc (S k) l)) by (by apply level_nonempty). apply det_ret. }
  eapply det_bind; [by apply (IH (S k))|]. apply det_ret.
Qed.

Lemma treeBuildParallel_det l d x :
  l ≠ [] → treeBuild HashFunc zero l (S d) = Some x → det (treeBuildParallel l (S d)) (Some x).
Proof.
  intros Hl. unfold treeBuild, treeBuildParallel. rewrite fixOdd_exact by done.
  cbn [mbind option_bind fst snd]. replace (S d - 1) with d by lia.
  rewrite (treeBuild_loop_levels HashFunc zero l d 0 Hl
    : treeBuild_loop HashFunc zero d (pad l) (length (pad l)) = _). intros Hx.
  eapply det_bind; [apply det_ret|].
  eapply det_bind; [by apply (treeBuildParallel_loop_det l d 0)|].
  cbn [mbind option_bind] in Hx. rewrite Hx. apply det_ret.
Qed.

Lemma evens_even_bound n j : Nat.even n = true → j ∈ evens n → j + 1 < n.
Proof.
  intros [m ->]%Nat.even_spec [Hj Hlt]%elem_of_evens. apply even_half in Hj.
  rewrite Nat.add_comm, (Nat.mul_comm 2 m), Nat.div_add in Hlt by lia. simpl in Hlt. lia.
Qed.

Lemma updateAllParallel_det t : ∀ step ps ps',
  Forall (λ lvl, Nat.even (length lvl) = true) t →
  updateAll t step ps = Some ps' → det (updateAllParallel t step ps) (Some ps').
Proof.
  induction t as [|lvl t IH]; intros step ps ps' Ht Hu; cbn [updateAll updateAllParallel] in *.
  - rewrite Hu. apply det_ret.
  - apply Forall_cons in Ht as [He Ht]. apply bind_Some in Hu as (ps1 & H1 & H2).
    eapply det_bind; [|by apply IH].
    apply updateProofsParallel_det; [|done]. intros j. by apply evens_even_bound.
Qed.
Section par_blocks.
Context {B : Type} (Digest : B → option H).

Notation leafGen := (leafGen Digest).

Definition set_leaf (leaves : list H) (j : nat) : leaf_act := SetLeaf j (default zero (leaves !! j)).

Lemma strided_ones nr n : 0 < nr → concat (strided nr n 1) ≡ₚ seq 0 n.
Proof.
  intros Hnr. rewrite strided_perm by lia. apply NoDup_Permutation; [..|intros x].
  - apply NoDup_filter, NoDup_seq.
  - apply NoDup_seq.
  - rewrite list_elem_of_filter, Nat.mod_1_r. naive_solver.
Qed.

Lemma leaf_task_ok blocks leaves js :
  leafGen blocks = Some leaves → (∀ j, j ∈ js → j < length blocks) →
  leaf_task Digest blocks js = set_leaf leaves <$> js.
Proof.
  intros Hl. induction js as [|j js IH]; intros Hj; [done|]. cbn [Merkle.leafGen leaf_task].
  destruct (lookup_lt_is_Some_2 blocks j) as [b Hb]; [apply Hj; by left|].
  destruct (leafGen_lookup Digest _ _ _ _ Hl Hb) as (d & Hd & Hlk).
  rewrite Hb. cbn [mbind option_bind]. rewrite Hd, IH by (intros; apply Hj; by right).
  csimpl. unfold set_leaf. by rewrite Hlk.
Qed.

Lemma leaf_task_fails blocks js j :
  j ∈ js → blocks !! j ≫= Digest = None → ClearRet ∈ leaf_task Digest blocks js.
Proof.
  induction js as [|i js IH]; [by intros ?%elem_of_nil|]. intros Hj Hn.
  cbn [leaf_task]. destruct (blocks !! i ≫= Digest) eqn:E; [|by left].
  right. apply IH; [|done]. apply elem_of_cons in Hj as [->|]; [congruence|done].
Qed.

Lemma leaf_exec_sets leaves m :
  m ≤ length leaves →
  fold_left leaf_exec (set_leaf leaves <$> seq 0 m) (replicate (length leaves) zero, true) =
  (take m leaves ++ replicate (length leaves - m) zero, true).
Proof.
  induction m as [|m IH]; intros Hm; [by rewrite Nat.sub_0_r|].
  rewrite seq_S, fmap_app, fold_left_app, IH by lia. cbn [fmap list_fmap fold_left].
  unfold set_leaf, leaf_exec. cbn [fst snd Nat.add].
  destruct (lookup_lt_is_Some_2 leaves m) as [x Hx]; [lia|]. rewrite Hx. simpl default.
  rewrite insert_app_r_alt by (rewrite length_take; lia).
  rewrite length_take, Nat.min_l, Nat.sub_diag by lia.
  replace (length leaves - m) with (S (length leaves - S m)) by lia.
  rewrite (take_S_r _ _ _ Hx), <-app_assoc. done.
Qed.

Lemma leaf_exec_clear l s : ClearRet ∈ l → (fold_left leaf_exec l s).2 = false.
Proof.
  intros (l1 & l2 & ->)%list_elem_of_split. rewrite fold_left_app. cbn [fold_left leaf_exec].
  generalize (fold_left leaf_exec l1 s).1 as ls. induction l2 as [|[j h|] l2 IH]; intros ls; [done|..];
    cbn [fold_left leaf_exec fst snd]; apply IH.
Qed.

Lemma leafGenParallel_det blocks :
  det (leafGenParallel Digest blocks) (leafGen blocks).
Proof.
  apply det_intro.
  { destruct (fold_left leaf_exec (concat (leaf_task Digest blocks <$> strided
      (calculateNumRoutine NumRoutines (length blocks)) (length blocks) 1))
      (replicate (length blocks) zero, true)) as [ls rt] eqn:E.
    eexists. exists ls, rt. split; [|done]. rewrite <-E. apply par_run_seq. }
  intros r (leaves & ret & Hr & ->). apply par_run_fold in Hr as (l & Hl & Hf).
  set (nr := calculateNumRoutine _ _) in *.
  pose proof (strided_ones nr (length blocks) (calculateNumRoutine_pos _ _)) as Hp.
  destruct (leafGen blocks) as [ls|] eqn:HL.
  - assert (concat (leaf_task Digest blocks <$> strided nr (length blocks) 1) =
            set_leaf ls <$> concat (strided nr (length blocks) 1)) as E.
    { rewrite <-concat_fmap_fmap. f_equal. apply list_fmap_ext. intros i js Hi.
      apply leaf_task_ok; [done|]. intros j Hj.
      cut (j ∈ seq 0 (length blocks)); [intros ?%elem_of_seq; lia|].
      rewrite <-Hp, list_elem_of_In, in_concat. exists js.
      split; apply list_elem_of_In; [by eapply list_elem_of_lookup_2|done]. }
    rewrite E, Hp in Hl. pose proof (length_mapM _ _ _ HL) as Hlen.
    erewrite <-(fold_left_perm_distinct _ _ l) in Hf; [..|exact Hl].
    + rewrite Hlen, leaf_exec_sets, take_ge, Nat.sub_diag, app_nil_r in Hf by lia.
      by simplify_eq.
    + apply NoDup_fmap_2; [by intros ?? [= ?]|apply NoDup_seq].
    + intros a b s (i & -> & _)%list_elem_of_fmap (j & -> & _)%list_elem_of_fmap Hne.
      unfold set_leaf, leaf_exec. cbn [fst snd]. f_equal.
      apply list_insert_insert_ne. intros ->. done.
  - assert (∃ j b, blocks !! j = Some b ∧ Digest b = None) as (j & b & Hb & Hd).
    { apply mapM_None, Exists_exists in HL as (b & [j Hj]%list_elem_of_lookup & Hd). eauto. }
    assert (j ∈ concat (strided nr (length blocks) 1)) as Hj.
    { rewrite Hp. apply elem_of_seq. apply lookup_lt_Some in Hb. lia. }
    rewrite list_elem_of_In, in_concat in Hj. destruct Hj as (js & Hjs & Hj).
    apply list_elem_of_In in Hjs, Hj.
    assert (ClearRet ∈ l) as Hc.
    { rewrite <-Hl. apply concat_fmap_elem. exists js. split; [done|].
      apply (leaf_task_fails _ _ j); [done|]. by rewrite Hb. }
    apply (leaf_exec_clear l (replicate (length blocks) zero, true)) in Hc.
    rewrite <-Hf in Hc. simpl in Hc. by subst ret.
Qed.

(** Parallel construction is deterministic: whatever the size of the pool
    and whatever the schedule of its tasks, the one outcome of a construction
    that stores the tree (with or without its proofs) is the outcome of the
    sequential construction, failure included. *)
Theorem merkle_parallel_deterministic mode blocks :
  mode ≠ ModeProofGen →
  ∀ r, NewParallel Digest mode blocks r ↔
    r = New HashFunc zero Digest mode blocks.
Proof.
  intros Hmode. change (det (NewParallel Digest mode blocks)
    (New HashFunc zero Digest mode blocks)).
  unfold NewParallel, New. case_bool_decide as Hn; [apply det_ret|].
  destruct (leafGen blocks) as [leaves|] eqn:HL.
  - cbn [mbind option_bind].
    eapply det_bind; [rewrite <-HL; apply leafGenParallel_det|].
    pose proof (length_mapM _ _ _ HL) as Hlen.
    destruct (calTreeDepth_spec (length blocks)) as (d & -> & Hd); [lia|].
    destruct (treeBuild_correct HashFunc zero leaves d) as (rt & Ht & _); [lia|].
    assert (leaves ≠ []) by (by destruct leaves; [simpl in *; lia|]).
    eapply det_bind; [by apply treeBuildParallel_det|].
    destruct (updateAll_correct HashFunc leaves (S d) 0 _ (initProofs_at HashFunc leaves))
      as (ps' & Hu & _).
    rewrite Ht. destruct mode; [done|..]; cbn [decide mbind option_bind fst snd].
    + apply det_ret.
    + rewrite Hu. cbn [mbind option_bind]. rewrite decide_False by done.
      eapply det_bind; [|apply det_ret].
      apply updateAllParallel_det; [|done].
      apply Forall_fmap, Forall_true. intros j. apply even_length_pad.
  - cbn [mbind option_bind]. apply det_intro.
    + exists None. left. split; [|done]. apply leafGenParallel_det. by rewrite HL.
    + intros r [[_ ->]|(a & Ha & _)]; [done|].
      apply leafGenParallel_det in Ha. by rewrite HL in Ha.
Qed.
End par_blocks.
(** ** [proofGenParallel] *)

(** One iteration of the loop: the buffers, the variables the tasks share with
    the calling thread, the statement the caller is at, and the next index of
    each task ([None] once it has signalled). *)
Record PG := mkPG {
  bufs : list (list H);
  buf1 : nat;
  buf2 : nat;
  prevLen : nat;
  pc : nat;
  tasks : list (option nat)
}.

Inductive pg_step (nr : nat) : PG → PG → Prop :=
| pg_buf1 bs b1 b2 n ts :
    pg_step nr (mkPG bs b1 b2 n 0 ts) (mkPG bs b2 b2 n 1 ts)
| pg_push bs b1 b2 n ts :
    pg_step nr (mkPG bs b1 b2 n 1 ts) (mkPG (bs ++ [replicate (n / 2) zero]) b1 b2 n 2 ts)
| pg_buf2 bs b1 b2 n ts :
    pg_step nr (mkPG bs b1 b2 n 2 ts) (mkPG bs b1 (length bs - 1) n 3 ts)
| pg_half bs b1 b2 n ts :
    pg_step nr (mkPG bs b1 b2 n 3 ts) (mkPG bs b1 b2 (n / 2) 4 ts)
| pg_wait bs b1 b2 n ts :
    Forall (λ t, t = None) ts →
    pg_step nr (mkPG bs b1 b2 n 4 ts) (mkPG bs b1 b2 n 5 ts)
| pg_task bs b1 b2 n p ts i j src dst x y :
    ts !! i = Some (Some j) → j < n →
    bs !! b1 = Some src → src !! j = Some x → src !! (j + 1) = Some y →
    bs !! b2 = Some dst → j / 2 < length dst →
    pg_step nr (mkPG bs b1 b2 n p ts)
      (mkPG (<[b2 := <[j / 2 := HashFunc x y]> dst]> bs) b1 b2 n p (<[i := Some (j + 2 * nr)]> ts))
| pg_signal bs b1 b2 n p ts i j :
    ts !! i = Some (Some j) → n ≤ j →
    pg_step nr (mkPG bs b1 b2 n p ts) (mkPG bs b1 b2 n p (<[i := None]> ts)).

(** The iterations [k], [k - 1], ... of the loop: hashing, [fixOdd] and the
    proofs.  Only runs without an access out of range are outcomes. *)
Fixpoint proofGenParallel_loop (k step : nat) (bs : list (list H)) (b1 b2 n : nat) (ps : list MProof)
    (o : list H * list MProof) : Prop :=
  match k with
  | 0 => ∃ buf, bs !! b1 = Some buf ∧ o = (buf, ps)
  | S k =>
      let nr := calculateNumRoutine NumRoutines n in
      ∃ bs' b1' b2' n' buf buf' len' ps',
        rtc (pg_step nr) (mkPG bs b1 b2 n 0 ((λ i, Some (2 * i)) <$> seq 0 nr))
          (mkPG bs' b1' b2' n' 5 (replicate nr None)) ∧
        bs' !! b1' = Some buf ∧ fixOdd buf n' = Some (buf', len') ∧
        updateProofsParallel buf' len' step ps (Some ps') ∧
        proofGenParallel_loop k (S step) (<[b1' := buf']> bs') b1' b2' len' ps' o
  end.

(** The outcomes of [proofGenParallel]: root and proofs. *)
Definition proofGenParallel (leaves : list H) (depth : nat) (o : H * list MProof) : Prop :=
  ∃ buf len ps buf' ps' r,
    fixOdd leaves (length leaves) = Some (buf, len) ∧
    updateProofsParallel buf (length leaves) 0 (initProofs (length leaves)) (Some ps) ∧
    proofGenParallel_loop (depth - 1) 1 [buf; replicate (len / 2) zero] 0 1 len ps (buf', ps') ∧
    pair_root HashFunc buf' = Some r ∧ o = (r, ps').

(** [proofGenParallel] has a data race: its tasks read the buffer pointers
    and the length through references the caller changes before it waits.  For
    any four leaves and any pool some schedule ends without an error and with
    the root of two value-initialised digests, whatever the leaves are. *)
Theorem proofGenParallel_race a b c d :
  ∃ ps, proofGenParallel [a; b; c; d] (calTreeDepth 4) (HashFunc zero zero, ps).
Proof.
  assert (calculateNumRoutine NumRoutines 4 = 1) as Hnr.
  { unfold calculateNumRoutine. change (4 / 16) with 0.
    destruct (decide (0 < NumRoutines)) as [Hn|Hn];
      [by rewrite (bool_decide_true _ Hn)|rewrite (bool_decide_false _ Hn)].
    by rewrite bool_decide_true by lia. }
  assert (∀ buf step ps, 4 ≤ length buf ∨ 2 ≤ length buf ∧ step = 1 → length ps = 4 →
    ∃ ps', length ps' = 4 ∧
      updateProofsParallel buf (if bool_decide (step = 1) then 2 else 4) step ps (Some ps')) as Hup.
  { intros buf step ps Hb Hps.
    set (n := if bool_decide (step = 1) then 2 else 4).
    assert (∀ j, j ∈ evens n → Nat.odd j = false ∧ j + 1 < length buf) as Hj.
    { intros j [Ho Hj]%elem_of_evens. split; [done|]. apply even_half in Ho.
      revert Hj. subst n. destruct (decide (step = 1)) as [E|E];
        [rewrite bool_decide_true by done|rewrite bool_decide_false by done];
        [change ((2 + 1) / 2) with 1|change ((4 + 1) / 2) with 2]; lia. }
    destruct (update_at_lookup buf step (evens n) ps (NoDup_evens n) Hj) as (ps' & Hu & Hl & _).
    exists ps'. split; [lia|].
    eapply updateProofsParallel_det; [|exact Hu|done]. intros j. apply Hj. }
  destruct (Hup [a; b; c; d] 0 (initProofs 4)) as (ps0 & Hl0 & Hu0); [simpl; lia|done|].
  destruct (Hup [zero; zero] 1 ps0) as (ps1 & _ & Hu1); [simpl; lia|done|].
  exists ps1, [a; b; c; d], 4, ps0, [zero; zero], ps1, (HashFunc zero zero).
  split; [done|]. split; [done|]. split; [|done].
  cbn [calTreeDepth]. change (calTreeDepth 4 - 1) with 1. cbn [proofGenParallel_loop].
  rewrite Hnr. change (replicate (4 / 2) zero) with [zero; zero].
  exists [[a; b; c; d]; [zero; zero]; [HashFunc zero zero; zero]], 1, 2, 2, [zero; zero], [zero; zero], 2, ps1.
  split; [|split; [done|]; split; [done|]; split; [done|]; by exists [zero; zero]].
  cbn [seq fmap list_fmap].
  eapply rtc_l; [apply pg_buf1|]. eapply rtc_l; [apply pg_push|].
  eapply rtc_l; [apply pg_buf2|]. eapply rtc_l; [apply pg_half|].
  eapply rtc_l; [eapply (pg_task _ _ _ _ _ _ _ 0 0 [zero; zero]); try done; simpl; lia|].
  eapply rtc_l; [eapply (pg_signal _ _ _ _ _ _ _ 0 2); [done|simpl; lia]|].
  eapply rtc_l; [apply pg_wait; by repeat constructor|]. reflexivity.
Qed.
End parallel.

(** ** A concrete pool *)

Lemma merkle_parallel_deterministic_witness :
  NewParallel pairing 0%Z 4 (@Some Z) ModeTreeBuild five (New pairing 0%Z (@Some Z) ModeTreeBuild five).
Proof.
  by apply (merkle_parallel_deterministic pairing 0%Z 4 (@Some Z) ModeTreeBuild five ltac:(done)).
Defined.
