(* ===== verification/ProofGenerator.v ===== *)
(** * Merkle proofs of requests and results

    [util::UserRequestMTGenerator], [util::ExecResultMTGenerator] and the
    serialization of proofs (include/common/proof_generator.h and
    src/common/proof_generator.cpp; the copy of the reader in
    src/client/sdk/client_sdk.cpp).

    SHA-256 of OpenSSL is the parameter [sha]; that it reports an error is not
    modelled.  The trees are built in parallel by the code; [Merkle.New] is the
    outcome of every schedule ([MerkleParallel]).  [max_alloc] is the number of
    digests the allocator can provide, below [2 ^ 31] (64 GiB) so that the [int]
    counters of the loops are exact: resizing a vector beyond it throws, which
    ends the process. *)

From S2P Require Import Prelude Zpp Proto Merkle MerkleProofs.

(** Digests are keys of maps; the instance computes. *)
#[export] Instance HashString_countable : Countable HashString.
Proof.
  apply (inj_countable' vec_to_list (λ l, fun_to_vec (λ i, default 0%Z (l !! fin_to_nat i)))).
  intros v. apply vec_eq. intros i. rewrite lookup_fun_to_vec.
  by rewrite (proj1 (vlookup_lookup v i (v !!! i)) eq_refl).
Defined.

(** The bytes of a digest, as they are hashed. *)
Definition bytes_of {n} (v : vec Z n) : string :=
  String.string_of_list_ascii ((λ z, Ascii.ascii_of_N (Z.to_N z)) <$> vec_to_list v).

Definition ValidateHandleType := option (SignatureString → HashString → bool).

Inductive parse (A : Type) := Parsed (a : A) | ParseFailed | Threw.
Arguments Parsed {A}.
Arguments ParseFailed {A}.
Arguments Threw {A}.

Section generator.
Context `{ZP : Zpp} (sha : string → HashString) (max_alloc : Z).

Notation MProof := (MProof (H := HashString)).
Notation MerkleTree := (MerkleTree (H := HashString)).

Definition HashFunc (h1 h2 : HashString) : HashString := sha (bytes_of h1 +:+ bytes_of h2).
Definition zero_digest : HashString := vreplicate 32 0%Z.

(** ** Requests *)

Record EnvelopDataBlock := mkEDB { _envelop : Envelop; _validateHandle : ValidateHandleType }.

Definition envelop_Digest (b : EnvelopDataBlock) : option HashString :=
  let digest := sha (payload (_envelop b)) in
  match _validateHandle b with
  | Some h => if h (signature (_envelop b)) digest then Some digest else None
  | None => Some digest
  end.

Definition request_blocks (reqs : list Envelop) (vh : ValidateHandleType) : list EnvelopDataBlock :=
  let blocks := (λ e, mkEDB e vh) <$> reqs in
  match reqs with
  | [e] => blocks ++ [mkEDB e None]
  | _ => blocks
  end.

Definition UserRequest_GenerateMerkleTree (reqs : list Envelop) (vh : ValidateHandleType)
    (mode : ModeType) : option MerkleTree :=
  New HashFunc zero_digest envelop_Digest mode (request_blocks reqs vh).

Definition UserRequest_GenerateProof (mt : MerkleTree) (e : Envelop) : option MProof :=
  GenerateProof envelop_Digest mt (mkEDB e None).

Definition UserRequest_ValidateProof (root : HashString) (p : MProof) (e : Envelop) : bool :=
  bool_decide (Verify HashFunc envelop_Digest (mkEDB e None) p root = Some true).

(** ** Execution results *)

Definition execResult_Digest (b : TxReadWriteSet * Z) : option HashString :=
  Some (sha (out (seq_codec c_rwset c_byte) b)).

Definition result_blocks (rws : list TxReadWriteSet) (filter : list Z) : list (TxReadWriteSet * Z) :=
  let blocks := zip rws filter in
  match blocks with
  | [b] => [b; b]
  | _ => blocks
  end.

Definition ExecResult_GenerateMerkleTree (rws : list TxReadWriteSet) (filter : list Z)
    (mode : ModeType) : option MerkleTree :=
  if bool_decide (length rws ≠ length filter) then None else
  New HashFunc zero_digest execResult_Digest mode (result_blocks rws filter).

Definition ExecResult_GenerateProof (mt : MerkleTree) (rw : TxReadWriteSet) (filter : Z) : option MProof :=
  GenerateProof execResult_Digest mt (rw, filter).

Definition ExecResult_ValidateProof (root : HashString) (p : MProof) (rw : TxReadWriteSet) (filter : Z) : bool :=
  bool_decide (Verify HashFunc execResult_Digest (rw, filter) p root = Some true).

(** ** Serialized proofs *)

(** [serializeToString] into an empty string. *)
Definition proof_serializeToString (p : MProof) : string :=
  fold_left (λ s h, s +:+ out (c_arr 32) h) (Siblings p)
    (out (seq_codec c_u32 c_i64) (Path p, Z.of_nat (length (Siblings p)))).

Fixpoint read_siblings (n : nat) (s : string) : option (list HashString) :=
  match n with
  | 0 => Some []
  | S n => x ← inp (c_arr 32) s; r ← read_siblings n x.2; Some (x.1 :: r)
  end.

(** [deserializeFromString] from the start: [container.resize(proofSize)] takes
    the signed size as an unsigned one. *)
Definition proof_deserializeFromString (raw : string) : parse MProof :=
  match inp (seq_codec c_u32 c_i64) raw with
  | None => ParseFailed
  | Some ((path, proofSize), r) =>
      if (max_alloc <? wrap64u proofSize)%Z then Threw else
      match read_siblings (Z.to_nat proofSize) r with
      | Some sibs => Parsed (mkProof sibs path)
      | None => ParseFailed
      end
  end.

(** The proofs a serialization carries. *)
Definition proof_ok (p : MProof) : Prop :=
  in_uint 32 (Path p) ∧ Forall arr_ok (Siblings p) ∧ (Z.of_nat (length (Siblings p)) ≤ max_alloc)%Z.

Section laws.
Context `{HZ : !ZppLaws ZP}.

Definition siblings_string (sibs : list HashString) : string :=
  foldr (λ h s, out (c_arr 32) h +:+ s) EmptyString sibs.

Lemma fold_siblings sibs s :
  fold_left (λ s h, s +:+ out (c_arr 32) h) sibs s = s +:+ siblings_string sibs.
Proof.
  revert s. induction sibs as [|h sibs IH]; intros s; cbn [fold_left siblings_string foldr];
    [by rewrite string_app_nil_r|]. by rewrite IH, string_app_assoc.
Qed.

Lemma read_siblings_ok sibs :
  Forall arr_ok sibs → read_siblings (length sibs) (siblings_string sibs) = Some sibs.
Proof.
  induction 1 as [|h sibs Hh _ IH]; [done|]. cbn [length read_siblings siblings_string foldr].
  rewrite (arr_law 32 h _ Hh). cbn [mbind option_bind fst snd].
  unfold siblings_string in IH. by rewrite IH.
Qed.

Lemma proof_roundtrip p :
  (max_alloc < 2 ^ 31)%Z → proof_ok p →
  proof_deserializeFromString (proof_serializeToString p) = Parsed p.
Proof.
  intros Ha (Hp & Hs & Hl). destruct p as [sibs path]. cbn [Path Siblings] in *.
  unfold proof_deserializeFromString, proof_serializeToString. cbn [Path Siblings].
  rewrite fold_siblings.
  rewrite (seq_codec_ok _ _ _ _ u32_law i64_law (path, Z.of_nat (length sibs))).
  - unfold wrap64u. rewrite Z.mod_small by lia.
    replace (max_alloc <? Z.of_nat (length sibs))%Z with false by (symmetry; apply Z.ltb_ge; lia).
    by rewrite Nat2Z.id, read_siblings_ok.
  - split; cbn [fst snd]; [done|]. unfold in_int64. lia.
Qed.

(** A message that announces a negative number of siblings makes the reader
    of proofs throw, whatever follows the number. *)
Theorem negative_proof_throws path size rest :
  (max_alloc < 2 ^ 31)%Z → in_uint 32 path → (- 2 ^ 63 ≤ size < 0)%Z →
  proof_deserializeFromString (out (seq_codec c_u32 c_i64) (path, size) +:+ rest) = Threw.
Proof.
  intros Ha Hp Hs. unfold proof_deserializeFromString.
  rewrite (seq_codec_ok _ _ _ _ u32_law i64_law (path, size)).
  - unfold wrap64u. rewrite <-(Z.mod_unique_pos size (2 ^ 64) (-1) (2 ^ 64 + size)) by lia.
    by replace (max_alloc <? 2 ^ 64 + size)%Z with true by (symmetry; apply Z.ltb_lt; lia).
  - split; cbn [fst snd]; [done|]. unfold in_int64. lia.
Qed.
End laws.

(** Requests and inner nodes are hashed alike and a proof may have any
    length: for every tree of requests there is a payload such that
    [ValidateProof] accepts every envelope with it, with the empty proof. *)
Theorem forged_request_accepted reqs vh mode mt :
  UserRequest_GenerateMerkleTree reqs vh mode = Some mt →
  ∃ forged, ∀ s, UserRequest_ValidateProof (Root mt) (mkProof [] 0) (mkEnvelop forged s) = true.
Proof.
  intros (leaves & Hn & Hl & Hs & Hm)%New_inv.
  pose proof (ts_depth _ _ _ Hs) as Hd. pose proof (ts_root _ _ _ Hs) as Hr.
  destruct (Depth mt) as [|d]; [simpl in Hd; lia|]. rewrite level_succ in Hr.
  assert (up HashFunc (level HashFunc d leaves) !! 0 = Some (Root mt)) as H0 by (by rewrite Hr).
  apply lookup_pairs_hash_inv in H0 as (a & b & _ & _ & E).
  exists (bytes_of a +:+ bytes_of b). intros s. unfold UserRequest_ValidateProof.
  apply bool_decide_eq_true. unfold Verify. cbn [mbind option_bind envelop_Digest _validateHandle].
  cbn [_envelop payload Siblings Path fold_path]. rewrite bool_decide_true; [done|]. by rewrite E.
Qed.

(** A tree of requests exists for every batch that is not empty and whose
    signatures pass. *)
Lemma request_tree_exists reqs vh mode :
  reqs ≠ [] → (∀ e h, e ∈ reqs → vh = Some h → h (signature e) (sha (payload e)) = true) →
  ∃ mt, UserRequest_GenerateMerkleTree reqs vh mode = Some mt ∧ Mode mt = mode.
Proof.
  intros Hr Hv. unfold UserRequest_GenerateMerkleTree.
  destruct (mapM_is_Some_2 envelop_Digest (request_blocks reqs vh)) as [leaves Hl].
  { apply Forall_forall. intros b Hb.
    assert (b ∈ (λ e, mkEDB e vh) <$> reqs ∨ _validateHandle b = None) as [Hin|Hn].
    { unfold request_blocks in Hb. destruct reqs as [|e [|e' reqs]]; [by left..| |by left].
      apply elem_of_app in Hb as [?| ->%list_elem_of_singleton]; [by left|by right]. }
    - apply list_elem_of_fmap in Hin as (e & -> & He). unfold envelop_Digest. simpl.
      destruct vh as [h|]; [|done]. by rewrite (Hv e h He eq_refl).
    - destruct b as [e v]. simpl in Hn. subst v. by eexists. }
  destruct (New_spec HashFunc zero_digest envelop_Digest mode (request_blocks reqs vh) leaves)
    as (mt & HN & Hm & _); [|done|by exists mt].
  unfold request_blocks. destruct reqs as [|e [|e' reqs]]; simpl; [done|lia..].
Qed.

Lemma request_block_in reqs vh e : e ∈ reqs → mkEDB e vh ∈ request_blocks reqs vh.
Proof.
  intros He. unfold request_blocks.
  assert (mkEDB e vh ∈ (λ e, mkEDB e vh) <$> reqs) by (apply list_elem_of_fmap; eauto).
  destruct reqs as [|a [|b reqs]]; [done| |done]. apply elem_of_app. by left.
Qed.

(** ** Proofs fit the serialization *)

Section sha_ok.
Context (sha_ok : ∀ s, arr_ok (sha s)).

Lemma level_arr_ok k leaves :
  Forall arr_ok leaves → Forall arr_ok (pad (level HashFunc k leaves)).
Proof using sha_ok.
  intros Hl. apply Forall_forall. intros x Hx%elem_of_pad. revert x Hx.
  destruct k as [|k]; [by apply Forall_forall|].
  intros x (a & b & _ & _ & _ & ->)%elem_of_pairs_hash. apply sha_ok.
Qed.

Lemma sibs_arr_ok k leaves i ss :
  Forall arr_ok leaves → sibs_upto HashFunc k leaves i = Some ss → Forall arr_ok ss.
Proof using sha_ok.
  intros Hl. revert ss. induction k as [|k IH]; intros ss; cbn [sibs_upto]; [intros [= <-]; constructor|].
  intros (ss' & Hss & (s & Hs & [= <-])%bind_Some)%bind_Some.
  apply Forall_app. split; [by apply IH|]. constructor; [|constructor].
  eapply (Forall_lookup_1 arr_ok); [by apply level_arr_ok|exact Hs].
Qed.

(** Proofs of a tree of at most [2 ^ 31] leaves. *)
Lemma tree_proof_ok mt leaves i p :
  tree_spec HashFunc mt leaves → Forall arr_ok leaves → (Z.of_nat (length leaves) ≤ 2 ^ 31)%Z →
  (32 ≤ max_alloc)%Z → proof_of HashFunc (Depth mt) leaves i = Some p → proof_ok p.
Proof using sha_ok.
  intros Hs Hl Hlen Ha (ss & Hss & [= <-])%bind_Some. pose proof (ts_depth _ _ _ Hs) as [Hd _].
  assert (Depth mt ≤ 31) as HD.
  { destruct (decide (Depth mt ≤ 31)); [done|].
    pose proof (Nat.pow_le_mono_r 2 31 (Depth mt - 1) ltac:(lia) ltac:(lia)) as Hp.
    apply Nat2Z.inj_le in Hp. apply Nat2Z.inj_lt in Hd. rewrite Nat2Z.inj_pow in Hp.
    change (Z.of_nat 2 ^ Z.of_nat 31)%Z with (2 ^ 31)%Z in Hp. lia. }
  unfold proof_ok. cbn [Path Siblings]. split.
  - pose proof (path_upto_range (Depth mt) i). unfold in_uint.
    pose proof (Z.pow_le_mono_r 2 (Z.of_nat (Depth mt)) 32). lia.
  - split; [by eapply sibs_arr_ok|]. rewrite (sibs_upto_length _ _ _ _ _ Hss). lia.
Qed.

Lemma request_leaves_ok vh reqs leaves :
  leafGen envelop_Digest (request_blocks reqs vh) = Some leaves →
  Forall arr_ok leaves ∧ length leaves ≤ S (length reqs).
Proof using sha_ok.
  intros Hl. split.
  - apply Forall_forall. intros d (b & _ & Hb)%(leafGen_elem _ _ _ _ Hl).
    unfold envelop_Digest in Hb. repeat case_match; simplify_eq; apply sha_ok.
  - rewrite <-(length_mapM _ _ _ Hl). unfold request_blocks.
    repeat case_match; rewrite ?length_app, ?length_fmap; simpl; lia.
Qed.

Lemma result_leaves_ok rws filter leaves :
  leafGen execResult_Digest (result_blocks rws filter) = Some leaves →
  Forall arr_ok leaves ∧ length leaves ≤ S (length rws).
Proof using sha_ok.
  intros Hl. split.
  - apply Forall_forall. intros d (b & _ & [= <-])%(leafGen_elem _ _ _ _ Hl). apply sha_ok.
  - rewrite <-(length_mapM _ _ _ Hl). unfold result_blocks.
    assert (length (zip rws filter) ≤ length rws) by (rewrite length_zip_with; lia).
    repeat case_match; simpl in *; lia.
Qed.
End sha_ok.
End generator.

(** ** Concrete inputs *)

#[local] Existing Instance LE.zpp.
#[local] Existing Instance LE.zpp_laws.

(** A hash with the shape of SHA-256. *)
Definition toy_hash (s : string) : Z :=
  fold_left (λ a c, (a * 31 + Z.of_N (Ascii.N_of_ascii c) + 7) mod 65536)%Z (String.list_ascii_of_string s) 1%Z.
Definition toy_sha (s : string) : HashString :=
  (toy_hash s / 256)%Z ::: (toy_hash s mod 256)%Z ::: vreplicate 30 0%Z.

Lemma toy_sha_ok s : arr_ok (toy_sha s).
Proof.
  assert (0 ≤ toy_hash s < 65536)%Z as Hh.
  { unfold toy_hash. generalize (String.list_ascii_of_string s) as l. intros l.
    assert (∀ a, 0 ≤ a < 65536 → 0 ≤ fold_left (λ a c, (a * 31 + Z.of_N (Ascii.N_of_ascii c) + 7) mod 65536) l a < 65536)%Z
      as Hl; [|apply Hl; lia].
    induction l as [|c l IH]; intros a Ha; [done|]. cbn [fold_left]. apply IH. by apply Z.mod_pos_bound. }
  unfold arr_ok, toy_sha, in_uint. cbn [vec_to_list].
  repeat apply Forall_cons_2; try done.
  - split; [apply Z.div_pos; lia|]. apply Z.div_lt_upper_bound; lia.
  - apply Z.mod_pos_bound. lia.
Qed.

Lemma negative_proof_throws_witness :
  proof_deserializeFromString 1000 (out (seq_codec c_u32 c_i64) (5%Z, (-1)%Z) +:+ EmptyString) = Threw.
Proof. apply (negative_proof_throws 1000 5 (-1) EmptyString); done. Defined.

Lemma forged_request_accepted_witness :
  ∃ forged, ∀ s, UserRequest_ValidateProof toy_sha
    (Root (default (mkTree ModeTreeBuild ∅ [] zero_digest [] [] 0)
      (UserRequest_GenerateMerkleTree toy_sha [sample_envelop] None ModeTreeBuild)))
    (mkProof [] 0) (mkEnvelop forged s) = true.
Proof.
  eapply (forged_request_accepted toy_sha [sample_envelop] None ModeTreeBuild).
  vm_compute. reflexivity.
Defined.
