(* ===== verification/LightClient.v ===== *)
(** * Transactions with proofs

    The peer's [UserRPCController::getTxWithProof]
    (src/peer/core/user_rpc_controller.cpp), which looks a transaction up in the
    stored blocks and answers with Merkle proofs, and the client's
    [ClientSDK::getTransaction] and [ReceiveInterface::Validate*MerkleProof]
    (src/client/sdk/client_sdk.cpp), which parse and check the answer.

    A transaction id is the 64 bytes the SDK sends.  The outcome [None] of the
    handler is the end of the process (a null pointer is dereferenced or a
    vector is accessed out of range) or a wait that does not return.  Protobuf
    carries the response unchanged; an optional field is an [option]. *)

From S2P Require Import Prelude Zpp Proto Merkle MerkleProofs ProofGenerator LRU Storage.

Notation MT := (MerkleTree (H := HashString)).
Notation MTCache := (LRUCache HashString MT).

(** ** The peer *)

Record ControllerImpl := mkCtl {
  _storage : Storage (LRUCache Z Block);
  _blockBodyMerkleTree : MTCache;
  _executeResultMerkleTree : MTCache
}.

Record GetTxResponse := mkResp {
  success : bool;
  chainid : Z;
  blockid : Z;
  r_envelop : string;
  r_envelopproof : string;
  r_rwset : option string;
  r_rwsetproof : option string
}.

Definition noResponse : GetTxResponse := mkResp false 0 0 EmptyString EmptyString None None.

Section light.
Context `{ZP : Zpp} (sha : string → HashString) (max_alloc : Z).

(** Look a tree up in a cache, or make it and cache it. *)
Definition getOrGenerate (c : MTCache) (k : HashString) (gen : option MT) : option (MTCache * option MT) :=
  match tryGetCopy c k with
  | (c', Some mt) => Some (c', Some mt)
  | (c', None) =>
      match gen with
      | None => Some (c', None)
      | Some mt => c'' ← lru_insert c' k mt; Some (c'', Some mt)
      end
  end.

Definition body_tree (b : Block) : option MT :=
  UserRequest_GenerateMerkleTree sha (userRequests (body b)) None ModeProofGenAndTreeBuild.

Definition exec_tree (b : Block) : option MT :=
  ExecResult_GenerateMerkleTree sha (txReadWriteSet (executeResult b))
    (transactionFilter (executeResult b)) ModeProofGenAndTreeBuild.

Definition getOrGenerateUserRequestMT (c : MTCache) (b : Block) : option (MTCache * option MT) :=
  getOrGenerate c (dataHash (header b)) (body_tree b).

Definition getOrGenerateExecResultMT (c : MTCache) (b : Block) : option (MTCache * option MT) :=
  getOrGenerate c (dataHash (header b)) (exec_tree b).

(** The second half of [getTxWithProof], after [set_success(true)]: read and
    write sets. *)
Definition answer_rwset (c : ControllerImpl) (b : Block) (txid : DigestString) (resp : GetTxResponse)
    : option (ControllerImpl * GetTxResponse) :=
  match findRWSet (txReadWriteSet (executeResult b)) (transactionFilter (executeResult b)) txid with
  | None => Some (c, resp)
  | Some (_, None) => None
  | Some (rw, Some valid) =>
      let set p := mkResp (success resp) (chainid resp) (blockid resp) (r_envelop resp)
        (r_envelopproof resp) (Some (out (seq_codec c_rwset c_byte) (rw, valid))) p in
      g ← getOrGenerateExecResultMT (_executeResultMerkleTree c) b;
      let c := mkCtl (_storage c) (_blockBodyMerkleTree c) g.1 in
      mt ← g.2;
      match ExecResult_GenerateProof sha mt rw valid with
      | None => Some (c, set None)
      | Some p => Some (c, set (Some (proof_serializeToString p)))
      end
  end.

(** The body of the loop of [getTxWithProof] once the envelope is found. *)
Definition answer (c : ControllerImpl) (r : nat) (b : Block) (e : Envelop) (txid : DigestString)
    : option (ControllerImpl * GetTxResponse) :=
  let n := wrap32 (number (header b)) in
  g ← getOrGenerateUserRequestMT (_blockBodyMerkleTree c) b;
  let c := mkCtl (_storage c) g.1 (_executeResultMerkleTree c) in
  mt ← g.2;
  match UserRequest_GenerateProof sha mt e with
  | None => Some (c, mkResp false (Z.of_nat r) n (out c_envelop e) EmptyString None None)
  | Some p =>
      answer_rwset c b txid
        (mkResp true (Z.of_nat r) n (out c_envelop e) (proof_serializeToString p) None None)
  end.

Fixpoint getTx_loop (k : nat) (c : ControllerImpl) (r : nat) (i : Z) (txid : DigestString)
    : option (ControllerImpl * GetTxResponse) :=
  match k with
  | 0 => Some (c, noResponse)
  | S k =>
      match waitForBlock (_storage c) r (wrap64u i) with
      | Blocked => None
      | Returned s x =>
          let c := mkCtl s (_blockBodyMerkleTree c) (_executeResultMerkleTree c) in
          match x with
          | None => getTx_loop k c r (i + 1) txid
          | Some b =>
              match findEnvelop (userRequests (body b)) txid with
              | None => getTx_loop k c r (i + 1) txid
              | Some e => answer c r b e txid
              end
          end
      end
  end.

Definition getTxWithProof (c : ControllerImpl) (r : nat) (hint : Z) (txid : DigestString)
    : option (ControllerImpl * GetTxResponse) :=
  maxBlockNumber ← getMaxStoredBlockNumber (_storage c) r;
  getTx_loop (Z.to_nat (maxBlockNumber + 1 - hint)) c r hint txid.

(** ** The client *)

Record TxMerkleProof := mkTMP {
  t_envelop : Envelop;
  t_rwSet : option (TxReadWriteSet * Z);
  t_envelopProof : MProof (H := HashString);
  t_rwSetProof : option (MProof (H := HashString))
}.

Definition getTransaction (resp : GetTxResponse) : parse TxMerkleProof :=
  if negb (success resp) then ParseFailed else
  match proof_deserializeFromString max_alloc (r_envelopproof resp) with
  | Threw => Threw
  | ParseFailed => ParseFailed
  | Parsed p =>
      match read c_envelop (r_envelop resp) with
      | None => ParseFailed
      | Some e =>
          match option_map (proof_deserializeFromString max_alloc) (r_rwsetproof resp) with
          | Some Threw => Threw
          | Some ParseFailed => ParseFailed
          | q =>
              let q := match q with Some (Parsed q) => Some q | _ => None end in
              match r_rwset resp with
              | None => Parsed (mkTMP e None p q)
              | Some s =>
                  match read (seq_codec c_rwset c_byte) s with
                  | None => ParseFailed
                  | Some x => Parsed (mkTMP e (Some x) p q)
                  end
              end
          end
      end
  end.

Definition ValidateUserRequestMerkleProof (root : HashString) (p : MProof) (e : Envelop) : bool :=
  UserRequest_ValidateProof sha root p e.

Definition ValidateExecResultMerkleProof (root : HashString) (p : MProof) (rw : TxReadWriteSet)
    (filter : Z) : bool := ExecResult_ValidateProof sha root p rw filter.

(** ** Caches and storage *)

(** A cache of trees made from the blocks of [seen]. *)
Definition cache_ok (gen : Block → option MT) (seen : list Block) (c : MTCache) : Prop :=
  lru_ok c ∧ ∀ k mt, (k, mt) ∈ keys_ c → ∃ b, b ∈ seen ∧ dataHash (header b) = k ∧ gen b = Some mt.

Lemma getOrGenerate_ok gen seen c b :
  cache_ok gen seen c → b ∈ seen →
  ∃ c' o, getOrGenerate c (dataHash (header b)) (gen b) = Some (c', o) ∧ cache_ok gen seen c' ∧
    match o with
    | Some mt => ∃ b', b' ∈ seen ∧ dataHash (header b') = dataHash (header b) ∧ gen b' = Some mt
    | None => gen b = None
    end.
Proof.
  intros [Hok Hc] Hb. unfold getOrGenerate.
  destruct (tryGetCopy_node c (dataHash (header b)) Hok) as [(Hk & mt & Hv & ->)|[Hk ->]].
  - eexists _, _. split; [done|]. apply node_in in Hv. split; [|by apply Hc].
    split; [apply touch_node_ok; [done|by apply lru_in]|].
    intros k m [[= -> ->]|Hin%unlink_sub]%elem_of_cons; by apply Hc.
  - destruct (gen b) as [mt|] eqn:Hg; [|by exists c, None].
    destruct (lru_insert_keys c (dataHash (header b)) mt Hok) as (c' & -> & Hok' & _ & _ & Hkeys).
    eexists _, _. split; [done|]. split; [|by exists b]. split; [done|]. cbn zeta in Hkeys.
    intros k m Hin.
    assert ((k, m) ∈ (dataHash (header b), mt) :: unlink (keys_ c) (dataHash (header b))) as Hin'.
    { rewrite Hkeys in Hin. case_decide; [done|].
      by eapply elem_of_take in Hin as (? & ? & _); eapply list_elem_of_lookup_2. }
    apply elem_of_cons in Hin' as [[= -> ->]|Hin'%unlink_sub]; [by exists b|by apply Hc].
Qed.

(** The blocks a region holds. *)
Definition holds (s : Storage (LRUCache Z Block)) (r : nat) (i : Z) (b : Block) : Prop :=
  ∃ c, regions s !! r = Some c ∧ (i, b) ∈ keys_ c.

Lemma touch_elem (c : LRUCache Z Block) i b x :
  lru_ok c → (i, b) ∈ keys_ c → x ∈ (i, b) :: unlink (keys_ c) i ↔ x ∈ keys_ c.
Proof.
  intros Hok Hin. pose proof (lru_nodup _ Hok) as Hn. destruct x as [j b'].
  rewrite elem_of_cons, unlink_ne by done. split; [intros [[= -> ->]|[? _]]; done|].
  intros Hx. destruct (decide (j = i)) as [->|Hne]; [left|by right].
  pose proof (node_unique _ _ _ Hn Hin) as H1. rewrite (node_unique _ _ _ Hn Hx) in H1.
  by simplify_eq.
Qed.

(** A wait for a block within the region's range returns it when the region
    holds it, and changes nothing but the order of use. *)
Lemma wait_touch s r i m :
  storage_ok lru_ok s → newBlockFutexList s !! r = Some m → (0 ≤ i ≤ m)%Z → (m < 2 ^ 31)%Z →
  ∃ s' x, waitForBlock s r i = Returned s' x ∧ storage_ok lru_ok s' ∧
    newBlockFutexList s' = newBlockFutexList s ∧
    (∀ j b, holds s' r j b ↔ holds s r j b) ∧ (∀ b, x = Some b ↔ holds s r i b).
Proof.
  intros [Hl Hall] Hm Hi Hm31. pose proof (lookup_lt_Some _ _ _ Hm) as Hr.
  destruct (lookup_lt_is_Some_2 (regions s) r) as [c Hc]; [unfold regionCount in Hl; lia|].
  pose proof (Forall_lookup_1 _ _ _ _ Hall Hc) as Hok.
  unfold waitForBlock. rewrite bool_decide_false by (unfold regionCount; lia).
  rewrite Hm, Hc, wrap32_id by (unfold in_int32; lia).
  replace (m <? i)%Z with false by (symmetry; apply Z.ltb_ge; lia).
  cbn [getBlock BlockLRUCache]. unfold lru_getBlock.
  destruct (tryGetCopy_node c i Hok) as [(Hk & b & Hv & ->)|[Hk ->]].
  - apply node_in in Hv as Hin. eexists _, _. split; [done|]. split.
    { split; cbn; [by rewrite length_insert|]. apply Forall_insert; [done|].
      apply touch_node_ok; [done|by apply lru_in]. }
    split; [done|]. split.
    + intros j b'. unfold holds. cbn. rewrite list_lookup_insert_eq by (by eapply lookup_lt_Some).
      rewrite Hc. split; intros (c1 & [= <-] & Hin1); eexists; (split; [done|]);
        by apply (touch_elem c i b _ Hok Hin).
    + intros b'. unfold holds. rewrite Hc. split.
      * intros [= ->]. by exists c.
      * intros (c1 & [= <-] & Hin1). rewrite (node_unique _ _ _ (lru_nodup _ Hok) Hin1) in Hv. congruence.
  - eexists _, _. split; [done|]. rewrite list_insert_id by done. split; [by split|].
    split; [done|]. split; [done|]. intros b. split; [done|]. intros (c1 & Hc1 & Hin).
    rewrite Hc in Hc1. simplify_eq. destruct Hk. apply list_elem_of_fmap. by exists (i, b).
Qed.

(** ** The peer's answers check out *)

(** A block as consensus and execution leave it: its data hash is the root of
    its requests, it has a result per filter element, and its parts fit the
    serialization. *)
Record chain_block (b : Block) : Prop := {
  cb_root : ∃ mt, body_tree b = Some mt ∧ Root mt = dataHash (header b);
  cb_reqs : Forall envelop_ok (userRequests (body b));
  cb_len : (Z.of_nat (length (userRequests (body b))) < 2 ^ 31)%Z;
  cb_exec : length (txReadWriteSet (executeResult b)) = length (transactionFilter (executeResult b));
  cb_exec_len : (Z.of_nat (length (txReadWriteSet (executeResult b))) < 2 ^ 31)%Z;
  cb_rws : Forall rwset_ok (txReadWriteSet (executeResult b));
  cb_filter : Forall (in_uint 8) (transactionFilter (executeResult b))
}.

(** Blocks of which no two have one data hash and different requests. *)
Definition hash_determines (seen : list Block) : Prop :=
  ∀ b b', b ∈ seen → b' ∈ seen → dataHash (header b) = dataHash (header b') →
    userRequests (body b) = userRequests (body b').

Record ctl_ok (seen : list Block) (c : ControllerImpl) : Prop := {
  co_storage : storage_ok lru_ok (_storage c);
  co_body : cache_ok body_tree seen (_blockBodyMerkleTree c);
  co_exec : cache_ok exec_tree seen (_executeResultMerkleTree c)
}.

Lemma CompareDigest_eq (a b : DigestString) : CompareDigest a b = 0%Z → a = b.
Proof. apply CompareTID_eq. Qed.

Lemma findEnvelop_spec reqs txid e :
  findEnvelop reqs txid = Some e → e ∈ reqs ∧ Proto.digest (signature e) = txid.
Proof.
  induction reqs as [|x reqs IH]; [done|]. cbn [findEnvelop].
  destruct (CompareDigest _ _ =? 0)%Z eqn:Hd; cbn [negb].
  - intros [= ->]. split; [by left|]. by apply CompareDigest_eq, Z.eqb_eq.
  - intros [? ?]%IH. split; [by right|done].
Qed.

Lemma findRWSet_spec rws filter txid rw o :
  length rws = length filter → findRWSet rws filter txid = Some (rw, o) →
  ∃ v, o = Some v ∧ rw ∈ rws ∧ v ∈ filter.
Proof.
  revert filter. induction rws as [|x rws IH]; intros [|f filter] Hl; simplify_eq/=; [done|].
  destruct (CompareDigest (requestDigest x) txid =? 0)%Z; cbn [negb].
  - intros [= -> <-]. exists f. split; [done|]. split; by left.
  - intros (v & -> & ? & ?)%IH; [|done]. exists v. split; [done|]. split; by right.
Qed.

Lemma GenerateProof_inv {B} (Digest : B → option HashString) mt leaves b p :
  tree_spec (HashFunc sha) mt leaves → Mode mt = ModeProofGenAndTreeBuild →
  GenerateProof Digest mt b = Some p → ∃ i, proof_of (HashFunc sha) (Depth mt) leaves i = Some p.
Proof.
  intros Hs Hm Hg. pose proof Hg as Hg'. unfold GenerateProof in Hg'.
  rewrite decide_False in Hg' by (by rewrite Hm).
  apply bind_Some in Hg' as (d & Hd & (i & Hi & _)%bind_Some).
  rewrite (ts_map _ _ _ Hs) in Hi by (by rewrite Hm).
  exists i. rewrite <-Hg. symmetry. by eapply GenerateProof_spec; [|rewrite Hm|..].
Qed.

Context `{HZ : !ZppLaws ZP}.
Context (sha_ok : ∀ s, arr_ok (sha s)) (Halloc : (32 ≤ max_alloc < 2 ^ 31)%Z).

(** A proof from the tree of a block's requests: it exists for its envelopes,
    verifies, and survives the serialization. *)
Lemma body_proof_good b mt e :
  chain_block b → body_tree b = Some mt → Root mt = dataHash (header b) → e ∈ userRequests (body b) →
  ∃ p, UserRequest_GenerateProof sha mt e = Some p ∧ proof_ok max_alloc p ∧
    ValidateUserRequestMerkleProof (dataHash (header b)) p e = true.
Proof using sha_ok Halloc.
  intros Hb Hmt Hroot He. pose proof Hmt as (leaves & Hn & Hl & Hs & Hm)%New_inv.
  pose proof (request_block_in _ None _ He) as [i Hi]%list_elem_of_lookup.
  destruct (merkle_proof_exists _ _ _ _ _ _ _ Hs Hl Hi) as (p & Hp & HV & _); [by rewrite Hm|].
  exists p. split; [done|]. destruct (GenerateProof_inv _ _ _ _ _ Hs Hm Hp) as [j Hj].
  destruct (request_leaves_ok sha sha_ok None _ _ Hl) as [Hla Hll].
  split.
  - eapply tree_proof_ok; [done..| |lia|done]. pose proof (cb_len _ Hb). lia.
  - unfold ValidateUserRequestMerkleProof, UserRequest_ValidateProof. rewrite <-Hroot.
    by apply bool_decide_eq_true.
Qed.

Lemma exec_tree_exists b rw v :
  chain_block b → rw ∈ txReadWriteSet (executeResult b) → v ∈ transactionFilter (executeResult b) →
  is_Some (exec_tree b).
Proof using Type.
  intros Hb Hrw Hv. unfold exec_tree, ExecResult_GenerateMerkleTree. pose proof (cb_exec _ Hb) as Hl.
  rewrite bool_decide_false by (by intros ?).
  apply merkle_new_total. split.
  - unfold result_blocks. destruct (txReadWriteSet _) as [|x [|y l]] eqn:E1, (transactionFilter _) as [|f [|g l']];
      simplify_eq/=; try lia. by apply elem_of_nil in Hrw.
  - intros x _. by eexists.
Qed.

Lemma exec_proof_ok b mt rw v p :
  chain_block b → exec_tree b = Some mt → ExecResult_GenerateProof sha mt rw v = Some p →
  proof_ok max_alloc p.
Proof using sha_ok Halloc.
  intros Hb Hmt Hp. unfold exec_tree, ExecResult_GenerateMerkleTree in Hmt.
  case_bool_decide; [done|]. apply New_inv in Hmt as (leaves & Hn & Hl & Hs & Hm).
  destruct (GenerateProof_inv _ _ _ _ _ Hs Hm Hp) as [j Hj].
  destruct (result_leaves_ok sha sha_ok _ _ _ Hl) as [Hla Hll].
  eapply tree_proof_ok; [done..| |lia|done]. pose proof (cb_exec_len _ Hb). lia.
Qed.

(** The part about read and write sets completes, with proofs that parse. *)
Lemma answer_rwset_ok seen c b txid resp :
  ctl_ok seen c → Forall chain_block seen → b ∈ seen →
  r_rwset resp = None → r_rwsetproof resp = None →
  ∃ c' rwo q, answer_rwset c b txid resp =
      Some (c', mkResp (success resp) (chainid resp) (blockid resp) (r_envelop resp) (r_envelopproof resp)
        (out (seq_codec c_rwset c_byte) <$> rwo) (proof_serializeToString <$> q)) ∧
    ctl_ok seen c' ∧ _storage c' = _storage c ∧
    (∀ x, rwo = Some x → rwset_ok x.1 ∧ in_uint 8 x.2) ∧ (∀ p, q = Some p → proof_ok max_alloc p).
Proof using sha_ok Halloc.
  intros [Hs Hbc Hec] Hseen Hb Hr1 Hr2. unfold answer_rwset.
  pose proof (proj1 (Forall_forall _ _) Hseen b Hb) as Hcb.
  destruct (findRWSet _ _ txid) as [[rw o]|] eqn:Hf.
  - apply findRWSet_spec in Hf as (v & -> & Hrw & Hv); [|apply Hcb]. unfold getOrGenerateExecResultMT.
    destruct (getOrGenerate_ok exec_tree seen _ b Hec Hb) as (c1 & o & -> & Hc1 & Ho').
    cbn [mbind option_bind fst snd]. destruct (exec_tree_exists b rw v Hcb Hrw Hv) as [mt0 Hmt0].
    destruct o as [mt|]; [|congruence]. destruct Ho' as (b' & Hb' & _ & Hmt). cbn [mbind option_bind].
    assert (∀ x, Some (rw, v) = Some x → rwset_ok x.1 ∧ in_uint 8 x.2) as Hx.
    { intros x [= <-]. split; [by apply (proj1 (Forall_forall _ _) (cb_rws _ Hcb))|].
      by apply (proj1 (Forall_forall _ _) (cb_filter _ Hcb)). }
    destruct (ExecResult_GenerateProof sha mt rw v) as [p|] eqn:Hp.
    + eexists _, (Some (rw, v)), (Some p). split; [done|]. split; [by split|]. split; [done|].
      split; [done|]. intros ? [= <-]. apply (exec_proof_ok b' mt rw v); [|done|done].
      by apply (proj1 (Forall_forall _ _) Hseen).
    + eexists _, (Some (rw, v)), None. split; [done|]. split; [by split|]. done.
  - exists c, None, None. split; [destruct resp; simpl in *; by subst|]. split; [by split|]. done.
Qed.

(** What the client makes of such an answer. *)
Lemma client_parses ch bn e p rwo q :
  envelop_ok e → proof_ok max_alloc p →
  (∀ x, rwo = Some x → rwset_ok x.1 ∧ in_uint 8 x.2) → (∀ p, q = Some p → proof_ok max_alloc p) →
  getTransaction (mkResp true ch bn (out c_envelop e) (proof_serializeToString p)
    (out (seq_codec c_rwset c_byte) <$> rwo) (proof_serializeToString <$> q)) =
  Parsed (mkTMP e rwo p q).
Proof using HZ Halloc.
  intros He Hp Hrw Hq. unfold getTransaction. cbn [success negb r_envelopproof r_envelop r_rwset r_rwsetproof].
  rewrite (proof_roundtrip max_alloc p) by (done || lia).
  rewrite (read_out envelop_ok) by (done || apply envelop_codec_ok).
  assert (∀ x, rwo = Some x → read (seq_codec c_rwset c_byte) (out (seq_codec c_rwset c_byte) x) = Some x)
    as Hr.
  { intros x Hx. apply (read_out (λ x, rwset_ok x.1 ∧ in_uint 8 x.2)); [|by apply Hrw].
    apply seq_codec_ok; [apply rwset_codec_ok|apply byte_law]. }
  destruct q as [q|]; cbn [fmap option_fmap option_map].
  - rewrite (proof_roundtrip max_alloc q) by (by apply Hq || lia).
    destruct rwo as [x|]; cbn [fmap option_fmap option_map]; [by rewrite Hr|done].
  - destruct rwo as [x|]; cbn [fmap option_fmap option_map]; [by rewrite Hr|done].
Qed.

(** The answer for a found envelope. *)
Lemma answer_good seen c r b e txid :
  ctl_ok seen c → Forall chain_block seen → hash_determines seen → b ∈ seen →
  findEnvelop (userRequests (body b)) txid = Some e →
  ∃ c' resp t, answer c r b e txid = Some (c', resp) ∧ ctl_ok seen c' ∧ _storage c' = _storage c ∧
    success resp = true ∧ getTransaction resp = Parsed t ∧ t_envelop t = e ∧
    ValidateUserRequestMerkleProof (dataHash (header b)) (t_envelopProof t) e = true.
Proof using HZ sha_ok Halloc.
  intros Hok Hseen Hdet Hb [He Htx]%findEnvelop_spec. pose proof Hok as [Hs Hbc Hec].
  pose proof (proj1 (Forall_forall _ _) Hseen) as Hcb. unfold answer, getOrGenerateUserRequestMT.
  destruct (getOrGenerate_ok body_tree seen _ b Hbc Hb) as (c1 & o & -> & Hc1 & Ho).
  cbn [mbind option_bind fst snd]. destruct (cb_root _ (Hcb b Hb)) as (mt0 & Hmt0 & Hroot0).
  destruct o as [mt|]; [|congruence]. destruct Ho as (b' & Hb' & Hh & Hmt). cbn [mbind option_bind].
  destruct (cb_root _ (Hcb b' Hb')) as (mt' & Hmt' & Hroot'). rewrite Hmt in Hmt'. injection Hmt' as <-.
  destruct (body_proof_good b' mt e (Hcb b' Hb') Hmt Hroot') as (p & -> & Hp & HV).
  { by rewrite (Hdet b' b Hb' Hb Hh). }
  destruct (answer_rwset_ok seen (mkCtl (_storage c) c1 (_executeResultMerkleTree c)) b txid
    (mkResp true (Z.of_nat r) (wrap32 (number (header b))) (out c_envelop e) (proof_serializeToString p) None None))
    as (c2 & rwo & q & -> & Hok2 & Hst & Hrw & Hq); [done..|].
  cbn [success chainid blockid r_envelop r_envelopproof].
  eexists c2, _, (mkTMP e rwo p q). split; [done|]. split; [done|]. split; [done|]. split; [done|].
  split; [|by rewrite <-Hh].
  apply client_parses; [|done..]. by apply (proj1 (Forall_forall _ _) (cb_reqs _ (Hcb b Hb))).
Qed.

Lemma getTx_loop_good seen r m txid i b e : ∀ k c j,
  ctl_ok seen c → Forall chain_block seen → hash_determines seen →
  (∀ j b', holds (_storage c) r j b' → b' ∈ seen) →
  newBlockFutexList (_storage c) !! r = Some m → (m < 2 ^ 31)%Z →
  (0 ≤ j ≤ i)%Z → (i ≤ m)%Z → Z.of_nat k = (m + 1 - j)%Z →
  holds (_storage c) r i b → findEnvelop (userRequests (body b)) txid = Some e →
  (∀ j' b', (j ≤ j' < i)%Z → holds (_storage c) r j' b' → findEnvelop (userRequests (body b')) txid = None) →
  ∃ c' resp t, getTx_loop k c r j txid = Some (c', resp) ∧ ctl_ok seen c' ∧
    success resp = true ∧ getTransaction resp = Parsed t ∧ t_envelop t = e ∧
    ValidateUserRequestMerkleProof (dataHash (header b)) (t_envelopProof t) e = true.
Proof using HZ sha_ok Halloc.
  induction k as [|k IH]; intros c j Hok Hseen Hdet Hin Hm Hm31 Hj Him Hk Hb He Hno; [lia|].
  cbn [getTx_loop]. unfold wrap64u. rewrite Z.mod_small by lia.
  destruct (wait_touch (_storage c) r j m) as (s' & x & -> & Hs' & Hf & Hh & Hx);
    [apply Hok|done|lia|done|].
  assert (ctl_ok seen (mkCtl s' (_blockBodyMerkleTree c) (_executeResultMerkleTree c))) as Hok'.
  { by destruct Hok; split. }
  assert (∀ j b', holds s' r j b' → b' ∈ seen) as Hin' by (intros ??; rewrite Hh; apply Hin).
  assert (∀ b', holds (_storage c) r i b' → j = i → x = Some b') as Hxi
    by (intros b' Hb' ->; by apply Hx).
  assert (j ≠ i → ∃ c' resp t,
    getTx_loop k (mkCtl s' (_blockBodyMerkleTree c) (_executeResultMerkleTree c)) r (j + 1) txid =
      Some (c', resp) ∧ ctl_ok seen c' ∧ success resp = true ∧ getTransaction resp = Parsed t ∧
    t_envelop t = e ∧
    ValidateUserRequestMerkleProof (dataHash (header b)) (t_envelopProof t) e = true) as Hnext.
  { intros Hne. apply IH; try done; cbn [_storage]; [by rewrite Hf|lia|lia|by apply Hh|].
    intros j' b' Hj' Hb'. apply (Hno j'); [lia|by apply Hh]. }
  destruct (decide (j = i)) as [->|Hne].
  - rewrite (Hxi b Hb eq_refl), He.
    destruct (answer_good seen _ r b e txid Hok' Hseen Hdet (Hin i b Hb) He)
      as (c' & resp & t & -> & ? & _ & ?). by exists c', resp, t.
  - destruct x as [b'|]; [|by apply Hnext].
    rewrite (Hno j b'); [by apply Hnext|lia|by apply Hx].
Qed.

(** C36: A light client can rely on the peer: for a transaction that the peer
    holds in some block, [getTxWithProof] answers (it neither fails nor blocks,
    and keeps its caches consistent), the client parses the answer, gets an
    envelope of that block with the transaction id it asked for, and the proof
    passes the client's check against the data hash in the block's header.
    Every stored block is as consensus makes it and no two of them have one data
    hash and different requests. *)
Theorem light_client_accepts seen c r m hint i b e txid :
  ctl_ok seen c → Forall chain_block seen → hash_determines seen →
  (∀ j b', holds (_storage c) r j b' → b' ∈ seen) →
  newBlockFutexList (_storage c) !! r = Some m → (m < 2 ^ 31)%Z →
  (0 ≤ hint ≤ i)%Z → (i ≤ m)%Z → holds (_storage c) r i b →
  findEnvelop (userRequests (body b)) txid = Some e →
  (∀ j b', (hint ≤ j < i)%Z → holds (_storage c) r j b' →
    findEnvelop (userRequests (body b')) txid = None) →
  ∃ c' resp t, getTxWithProof c r hint txid = Some (c', resp) ∧ ctl_ok seen c' ∧
    success resp = true ∧ getTransaction resp = Parsed t ∧
    t_envelop t ∈ userRequests (body b) ∧ Proto.digest (signature (t_envelop t)) = txid ∧
    ValidateUserRequestMerkleProof (dataHash (header b)) (t_envelopProof t) (t_envelop t) = true.
Proof using HZ sha_ok Halloc.
  intros Hok Hseen Hdet Hin Hm Hm31 Hh Him Hb He Hno. unfold getTxWithProof, getMaxStoredBlockNumber.
  rewrite Hm. cbn [mbind option_bind].
  destruct (getTx_loop_good seen r m txid i b e (Z.to_nat (m + 1 - hint)) c hint)
    as (c' & resp & t & Hg & Hok' & Hsucc & Hp & Ht & HV); [done|done|done|done|done|done|lia|lia|lia|done|done|done|].
  exists c', resp, t. rewrite Ht. apply findEnvelop_spec in He as [? ?]. done.
Qed.
End light.

(** ** A concrete peer *)

#[local] Existing Instance LE.zpp.
#[local] Existing Instance LE.zpp_laws.

Definition tx_envelop (n : Z) : Envelop := mkEnvelop "request" (mkSignature "client" (vreplicate 64 n)).
Definition tx_block (h : HashString) (n ret : Z) : Block :=
  mkBlock (mkHeader n (vreplicate 32 0%Z) h) (mkBody [tx_envelop 1; tx_envelop 2; tx_envelop 3])
    (mkExecuteResult [mkRWSet (vreplicate 64 1%Z) EmptyString ret [] []] [1%Z]) (mkMetadata [] []).
(** The data hash of these blocks. *)
Definition tx_root : HashString :=
  default zero_digest (Root <$> body_tree toy_sha (tx_block zero_digest 0 0)).
Definition tx_peer (bs : list Block) : option ControllerImpl :=
  s ← insert_all (newStorage (newLRU 256 10) 1) ((λ b, (0, b)) <$> bs);
  Some (mkCtl s (newLRU 64 10) (newLRU 64 10)).

Lemma tx_block_ok n ret :
  (0 ≤ n < 2 ^ 31)%Z → in_int32 ret → chain_block toy_sha (tx_block tx_root n ret).
Proof.
  intros Hn Hret. split; cbn.
  - assert (∃ mt, body_tree toy_sha (tx_block zero_digest 0 0) = Some mt ∧ Root mt = tx_root) as Hr.
    { eexists. split; [vm_compute; reflexivity|vm_compute; reflexivity]. }
    exact Hr.
  - repeat apply Forall_cons_2; try apply Forall_nil_2;
      (split; [vm_compute; done|split; [vm_compute; done|vm_compute; repeat constructor; done]]).
  - done.
  - done.
  - done.
  - apply Forall_singleton. unfold rwset_ok. cbn [requestDigest retValue retCode reads writes].
    split_and!; [vm_compute; repeat constructor; done|vm_compute; done|done..|split; done|split; done].
  - apply Forall_singleton. vm_compute. done.
Qed.

Lemma light_client_accepts_witness :
  ∃ c c' resp t, tx_peer [tx_block tx_root 0 0] = Some c ∧
    getTxWithProof toy_sha c 0 0 (vreplicate 64 2%Z) = Some (c', resp) ∧
    getTransaction 1000 resp = Parsed t ∧
    ValidateUserRequestMerkleProof toy_sha tx_root (t_envelopProof t) (t_envelop t) = true.
Proof.
  set (b := tx_block tx_root 0 0).
  assert (chain_block toy_sha b) as Hb by (by apply tx_block_ok).
  set (c := mkCtl (mkStorage [0%Z] [] [mkLRU [(0%Z, b)] {[0%Z]} 256 10]) (newLRU 64 10) (newLRU 64 10)).
  assert (∀ j b', holds (_storage c) 0 j b' → b' = b) as Hh.
  { intros j b' (c0 & [= <-] & [= -> ->]%list_elem_of_singleton). done. }
  destruct (light_client_accepts toy_sha 1000 toy_sha_ok ltac:(lia) [b] c 0 0 0 0 b (tx_envelop 2)
    (vreplicate 64 2%Z)) as (c' & resp & t & Hg & _ & _ & Hp & _ & _ & HV).
  - split; [split; [done|]|split; [split|]; [constructor|done|by intros ?? ?%elem_of_nil]..].
    apply Forall_singleton. split; [apply NoDup_singleton|done].
  - by apply Forall_singleton.
  - intros b1 b2 ->%list_elem_of_singleton ->%list_elem_of_singleton. done.
  - intros j b' ->%Hh. by apply list_elem_of_singleton.
  - done.
  - done.
  - lia.
  - done.
  - eexists. split; [done|]. by apply list_elem_of_singleton.
  - vm_compute. reflexivity.
  - lia.
  - exists c, c', resp, t. split; [vm_compute; reflexivity|]. split; [exact Hg|].
    split; [exact Hp|]. exact HV.
Defined.

(** The trees of execution results are cached under the hash of the
    requests: when one batch of requests is in two blocks with different
    results, a query for the second block after one for the first is answered
    without a proof of its result, although a peer asked only for the second
    block gives one. *)
Theorem exec_cache_stale :
  ∃ b0 b1 c c1 resp0 c2 resp1 c3 resp2,
    chain_block toy_sha b0 ∧ chain_block toy_sha b1 ∧ body b0 = body b1 ∧
    tx_peer [b0; b1] = Some c ∧
    getTxWithProof toy_sha c 0 0 (vreplicate 64 1%Z) = Some (c1, resp0) ∧ is_Some (r_rwsetproof resp0) ∧
    getTxWithProof toy_sha c1 0 1 (vreplicate 64 1%Z) = Some (c2, resp1) ∧
    success resp1 = true ∧ is_Some (r_rwset resp1) ∧ r_rwsetproof resp1 = None ∧
    getTxWithProof toy_sha c 0 1 (vreplicate 64 1%Z) = Some (c3, resp2) ∧ is_Some (r_rwsetproof resp2).
Proof.
  assert (Hrun : (c ← tx_peer [tx_block tx_root 0 0; tx_block tx_root 1 5];
    x ← getTxWithProof toy_sha c 0 0 (vreplicate 64 1%Z);
    y ← getTxWithProof toy_sha x.1 0 1 (vreplicate 64 1%Z);
    z ← getTxWithProof toy_sha c 0 1 (vreplicate 64 1%Z);
    Some (bool_decide (is_Some (r_rwsetproof x.2)), success y.2, bool_decide (is_Some (r_rwset y.2)),
      bool_decide (r_rwsetproof y.2 = None), bool_decide (is_Some (r_rwsetproof z.2)))) =
    Some (true, true, true, true, true)) by (vm_compute; reflexivity).
  apply bind_Some in Hrun as (c & Hc & ([c1 r0] & Hx & ([c2 r1] & Hy & ([c3 r2] & Hz & [= E1 E2 E3 E4 E5])
    %bind_Some)%bind_Some)%bind_Some).
  bool_cases. exists (tx_block tx_root 0 0), (tx_block tx_root 1 5), c, c1, r0, c2, r1, c3, r2.
  split; [by apply tx_block_ok|]. split; [by apply tx_block_ok|]. done.
Qed.
