(* ===== verification/UserService.v ===== *)
(** * UserService: a user's requests and queries

    The path of a user: [NeuChainDB::sendInvokeRequest] (client/neuchain_db.cpp)
    signs and sends a request; the peer answers queries for blocks
    ([UserRPCController::getBlock], [getLightBlock], [getTop],
    [getBlockHeader]); [ClientSDK] and [NeuChainStatus] parse the answers; and
    [StatusThread::doMonitor] with [Measurements] (client/core) counts what became
    of the transactions that were sent.

    Signing is the parameter [sign].  The transport delivers messages unchanged.
    A query for a block that is not there waits; with a timeout it is answered
    when the timeout expires, without one it is not answered ([NoAnswer]).  A
    negative group indexes a vector out of range ([Crash]). *)

From S2P Require Import Prelude Zpp Proto Merkle MerkleProofs ProofGenerator LRU Storage LightClient.

(** ** Sending requests *)
Section send.
Context `{ZP : Zpp} (sign : string → option DigestString) (server_ski : string).

(** The constructor: the random number's low half becomes the high half. *)
Definition firstNonce (random : Z) : Z :=
  let shifted := wrap64u (random * 2 ^ 32) in
  if (shifted <? 2 ^ 63)%Z then shifted else (shifted - 2 ^ 64)%Z.

(** [sendInvokeRequest]: the next nonce, and the message with the digest that
    identifies the transaction; a failed signature is [ERROR]. *)
Definition sendInvokeRequest (nextNonce : Z) (chaincodeName funcName args : string)
    : Z * option (string * DigestString) :=
  let data := out c_userRequest (mkUserRequest chaincodeName funcName args nextNonce) in
  ((nextNonce + 1)%Z,
   d ← sign data;
   Some (out c_envelop (mkEnvelop data (mkSignature server_ski d)), d)).

Fixpoint send_all (nextNonce : Z) (reqs : list (string * string * string)) : list (option (string * DigestString)) :=
  match reqs with
  | [] => []
  | r :: reqs =>
      let x := sendInvokeRequest nextNonce r.1.1 r.1.2 r.2 in x.2 :: send_all x.1 reqs
  end.

(** What the peer makes of a message: the envelope and its transaction. *)
Definition peer_reads (msg : string) : option Transaction :=
  e ← read c_envelop msg; NewTransactionFromEnvelop e.
End send.

(** ** Queries for blocks: the peer *)
Inductive rpc (R : Type) := NoAnswer | Crash | Answer (c : ControllerImpl) (r : R).
Arguments NoAnswer {_}.
Arguments Crash {_}.
Arguments Answer {_}.

Record GetBlockResponse := mkGB { gb_success : bool; gb_payload : string }.
Record GetTopResponse := mkTop { top_success : bool; top_chainid : Z; top_blockid : Z }.
Record GetBlockHeaderResponse := mkGH {
  gh_success : bool; gh_chainid : Z; gh_blockid : Z; gh_header : string; gh_metadata : string
}.

(** [_impl->_storage->waitForBlock(chainid, blockid, timeout)] of a handler. *)
Definition fetch {R} (c : ControllerImpl) (chainid blockid : Z) (timeoutms : option Z)
    (missing : R) (found : Block → R) : rpc R :=
  let timeout := default (-1)%Z timeoutms in
  if (chainid <? 0)%Z then Crash else
  match waitForBlock (_storage c) (Z.to_nat chainid) (wrap64u blockid) with
  | Blocked => if (0 <? timeout)%Z then Answer c missing else NoAnswer
  | Returned s x =>
      let c := mkCtl s (_blockBodyMerkleTree c) (_executeResultMerkleTree c) in
      Answer c (match x with None => missing | Some b => found b end)
  end.

Section handlers.
Context `{ZP : Zpp}.

Definition light_codec : codec (Header * Body * list Z) := seq_codec (seq_codec c_header c_body) (c_vec c_byte).

Definition getBlock (c : ControllerImpl) (chainid blockid : Z) (timeoutms : option Z) : rpc GetBlockResponse :=
  fetch c chainid blockid timeoutms (mkGB false "Failed to get block within timeout.")
    (λ b, mkGB true (serializeToString b).1).

Definition getLightBlock (c : ControllerImpl) (chainid blockid : Z) (timeoutms : option Z) : rpc GetBlockResponse :=
  fetch c chainid blockid timeoutms (mkGB false "Failed to get block within timeout.")
    (λ b, mkGB true (out light_codec (header b, body b, transactionFilter (executeResult b)))).

Definition getTop (c : ControllerImpl) (chainid : Z) : rpc GetTopResponse :=
  if (chainid <? 0)%Z then Crash else
  match getMaxStoredBlockNumber (_storage c) (Z.to_nat chainid) with
  | None => Crash
  | Some blockId => Answer c (mkTop true chainid blockId)
  end.

Definition getBlockHeader (c : ControllerImpl) (chainid blockid : Z) (timeoutms : option Z) : rpc GetBlockHeaderResponse :=
  fetch c chainid blockid timeoutms (mkGH false 0 0 EmptyString EmptyString)
    (λ b, mkGH true chainid (wrap32 (number (header b))) (out c_header (header b)) (out c_metadata (metadata b))).

(** ** Queries for blocks: the client *)

(** [ClientSDK::getBlock] and [NeuChainStatus::getBlock] on the response. *)
Definition client_getBlock (r : GetBlockResponse) : option Block :=
  if negb (gb_success r) then None else
  let x := deserializeFromString (gb_payload r) newBlock in
  if valid x.1 then Some x.2 else None.

(** [ClientSDK::getChainHeight]: -1 without an answer. *)
Definition client_getChainHeight (r : option GetTopResponse) : Z :=
  match r with
  | Some r => if top_success r then top_blockid r else (-1)%Z
  | None => (-1)%Z
  end.

Record BlockHeaderProof := mkBHP { p_header : Header; p_metadata : Metadata }.

Definition client_getBlockHeader (r : GetBlockHeaderResponse) : option BlockHeaderProof :=
  if negb (gh_success r) then None else
  h ← read c_header (gh_header r);
  m ← read c_metadata (gh_metadata r);
  Some (mkBHP h m).

(** [NeuChainStatus::getLightBlock]: a block without read-write sets and
    metadata. *)
Definition client_getLightBlock (r : GetBlockResponse) : option Block :=
  if negb (gb_success r) then None else
  x ← read light_codec (gb_payload r);
  Some (mkBlock x.1.1 x.1.2 (mkExecuteResult [] x.2) (mkMetadata [] [])).
End handlers.

(** ** Counting transactions *)

(** [Measurements]: when the transactions that are under way were sent. *)
Abbreviation Pending := (gmap DigestString Z).

Definition beginTransaction (m : Pending) (digest : DigestString) (timeNowMs : Z) : Pending := <[digest := timeNowMs]> m.

(** [getTxnLatency]: a span per request, 0 for a transaction of somebody else. *)
Fixpoint getTxnLatency (m : Pending) (reqs : list Envelop) (timeMsWhenReturn : Z) : Pending * list Z :=
  match reqs with
  | [] => (m, [])
  | e :: reqs =>
      let d := digest (signature e) in
      let x := getTxnLatency (delete d m) reqs timeMsWhenReturn in
      (x.1, match m !! d with Some t => wrap64u (timeMsWhenReturn - t) | None => 0%Z end :: x.2)
  end.

(** [StatusThread]: the next block and the counters. *)
Record Monitor := mkMonitor {
  blockHeight : Z; txCountCommit : Z; txCountAbort : Z; latencySum : Z; pending : Pending
}.

(** The start of [doMonitor]: the block after the top one. *)
Definition newMonitor (top : option Z) (m : Pending) : Monitor := mkMonitor (default 0%Z top + 1) 0 0 0 m.

(** The loop over the transactions of a block. *)
Fixpoint count (spans filterList : list Z) (commit abort sum : Z) : Z * Z * Z :=
  match spans, filterList with
  | sp :: spans, f :: filterList =>
      if (sp =? 0)%Z then count spans filterList commit abort sum
      else if (f =? 0)%Z then count spans filterList commit (wrap64u (abort + 1)) sum
      else count spans filterList (wrap64u (commit + 1)) abort (wrap64u (sum + sp))
  | _, _ => (commit, abort, sum)
  end.

(** One turn of [doMonitor] with the block it polled. *)
Definition doMonitor (s : Monitor) (block : Block) (timeMsWhenReturn : Z) : option Monitor :=
  let reqs := userRequests (body block) in
  let filterList := transactionFilter (executeResult block) in
  let x := getTxnLatency (pending s) reqs timeMsWhenReturn in
  CHECK (length reqs =? length x.2) ;;
  CHECK (length reqs =? length filterList) ;;
  let '(c, a, l) := count x.2 filterList (txCountCommit s) (txCountAbort s) (latencySum s) in
  Some (mkMonitor (blockHeight s + 1) c a l x.1).

Fixpoint monitor_all (s : Monitor) (polled : list (Block * Z)) : option Monitor :=
  match polled with
  | [] => Some s
  | p :: polled => s' ← doMonitor s p.1 p.2; monitor_all s' polled
  end.

(** ** Requests reach the peer *)
Section requests.
Context `{ZP : Zpp} `{HZ : !ZppLaws ZP} (sign : string → option DigestString) (server_ski : string).

Lemma firstNonce_range random k :
  (0 ≤ k < 2 ^ 32)%Z → in_int64 (firstNonce random + k).
Proof.
  intros Hk. unfold firstNonce, wrap64u, in_int64.
  assert ((random * 2 ^ 32) mod 2 ^ 64 = (random mod 2 ^ 32) * 2 ^ 32)%Z as ->.
  { change (2 ^ 64)%Z with (2 ^ 32 * 2 ^ 32)%Z. apply Z.mul_mod_distr_r; lia. }
  pose proof (Z.mod_pos_bound random (2 ^ 32) ltac:(lia)) as Ha. revert Ha. generalize (random mod 2 ^ 32)%Z as a.
  intros a Ha. destruct (Z.ltb_spec (a * 2 ^ 32) (2 ^ 63)); lia.
Qed.

Lemma send_all_lookup n reqs k r :
  reqs !! k = Some r →
  send_all sign server_ski n reqs !! k =
    Some (sendInvokeRequest sign server_ski (n + Z.of_nat k) r.1.1 r.1.2 r.2).2.
Proof.
  revert n k. induction reqs as [|r0 reqs IH]; intros n [|k] H; simplify_eq/=.
  - by rewrite Z.add_0_r.
  - rewrite (IH _ _ H). by replace (n + 1 + Z.of_nat k)%Z with (n + Z.of_nat (S k))%Z by lia.
Qed.

Definition request_fits (n : Z) (r : string * string * string) : Prop :=
  sv_ok r.1.1 ∧ sv_ok r.1.2 ∧ sv_ok r.2 ∧
  sv_ok (out c_userRequest (mkUserRequest r.1.1 r.1.2 r.2 n)).

(** A client that has drawn its first nonce can send 2^32 requests: the
    nonces stay 64-bit integers and all differ, and the peer that reads the k-th
    message finds the chaincode, the function, the arguments and the nonce it was
    sent with, in a transaction identified by the signature the client was given
    as its digest. *)
Theorem requests_reach_peer random reqs k r d msg :
  (Z.of_nat (length reqs) ≤ 2 ^ 32)%Z → sv_ok server_ski →
  (∀ data x, sign data = Some x → arr_ok x) →
  reqs !! k = Some r → request_fits (firstNonce random + Z.of_nat k) r →
  send_all sign server_ski (firstNonce random) reqs !! k = Some (Some (msg, d)) →
  ∃ t, peer_reads msg = Some t ∧
    userRequest t = mkUserRequest r.1.1 r.1.2 r.2 (firstNonce random + Z.of_nat k) ∧
    tid t = d ∧ sign (payload (envelop t)) = Some d ∧ ski (signature (envelop t)) = server_ski ∧
    in_int64 (firstNonce random + Z.of_nat k).
Proof using HZ.
  intros Hlen Hski Hsig Hr (H1 & H2 & H3 & H4) Hs. rewrite (send_all_lookup _ _ _ _ Hr) in Hs.
  unfold sendInvokeRequest in Hs. cbn [snd] in Hs.
  set (u := mkUserRequest r.1.1 r.1.2 r.2 (firstNonce random + Z.of_nat k)) in *.
  destruct (sign (out c_userRequest u)) as [x|] eqn:Hx; [|done]. 
  assert (x = d) as -> by (by injection Hs).
  assert (msg = out c_envelop (mkEnvelop (out c_userRequest u) (mkSignature server_ski d))) as -> by (by injection Hs).
  clear Hs.
  apply lookup_lt_Some in Hr.
  assert (in_int64 (firstNonce random + Z.of_nat k)) as Hn by (apply firstNonce_range; lia).
  assert (envelop_ok (mkEnvelop (out c_userRequest u) (mkSignature server_ski d))) as He
    by (split; [exact H4|split; [exact Hski|by eapply Hsig]]).
  assert (userRequest_ok u) as Hu by (split; [split; [split|]|]; done).
  unfold peer_reads. rewrite (read_out envelop_ok) by eauto with mass.
  cbn [mbind option_bind]. unfold NewTransactionFromEnvelop. cbn [payload].
  rewrite (read_out userRequest_ok) by eauto with mass.
  eexists. split; [done|]. by split_and!.
Qed.
End requests.

(** ** Queries are answered *)
Section queries.
Context `{ZP : Zpp} `{HZ : !ZppLaws ZP}.

(** A peer whose caches are in order, that holds block [i] of group [r], whose top
    block is [m]. *)
Record serves (c : ControllerImpl) (r : nat) (m i : Z) (b : Block) : Prop := {
  sv_storage : storage_ok lru_ok (_storage c);
  sv_top : newBlockFutexList (_storage c) !! r = Some m;
  sv_range : (0 ≤ i ≤ m)%Z;
  sv_fits : (m < 2 ^ 31)%Z;
  sv_holds : holds (_storage c) r i b
}.

(** Answering a query leaves a peer that serves the same blocks. *)
Lemma fetch_found {R} c r m i b tmo (missing : R) found :
  serves c r m i b →
  ∃ c', fetch c (Z.of_nat r) i tmo missing found = Answer c' (found b) ∧
    ∀ j b', serves c r m j b' → serves c' r m j b'.
Proof.
  intros [Hst Hm Hi Hf Hh]. unfold fetch. rewrite (proj2 (Z.ltb_ge _ _)) by lia. rewrite Nat2Z.id.
  assert (wrap64u i = i) as -> by (unfold wrap64u; rewrite Z.mod_small; lia).
  destruct (wait_touch (_storage c) r i m Hst Hm Hi Hf) as (s & x & -> & Hok & Hfl & Hheld & Hx).
  rewrite (proj2 (Hx b) Hh). eexists. split; [done|].
  intros j b' [_ _ Hj _ Hhj]. split; cbn; [done|by rewrite Hfl|done|done|by apply Hheld].
Qed.

(** What [getLightBlock] sends of a block. *)
Definition light (b : Block) : Block :=
  mkBlock (header b) (body b) (mkExecuteResult [] (transactionFilter (executeResult b))) (mkMetadata [] []).

Lemma light_codec_ok :
  codec_ok (λ x : Header * Body * list Z, (header_ok x.1.1 ∧ vec_ok envelop_ok (userRequests x.1.2)) ∧ vec_ok (in_uint 8) x.2)
    light_codec.
Proof using HZ.
  apply (seq_codec_ok (λ x : Header * Body, header_ok x.1 ∧ vec_ok envelop_ok (userRequests x.2)) (vec_ok (in_uint 8))).
  - apply (seq_codec_ok header_ok (λ y, vec_ok envelop_ok (userRequests y))); [apply header_codec_ok|apply body_codec_ok].
  - apply vec_law, byte_law.
Qed.

(** A user who asks a peer for a block it holds, in full, without read-write
    sets, or for its header with the signatures, reads back exactly that block or
    these parts of it, and the height of the chain is the number of the top block;
    no answer changes which blocks the peer holds. *)
Theorem user_reads_chain c r m i b tmo :
  serves c r m i b → block_ok b →
  (∃ c' x, getBlock c (Z.of_nat r) i tmo = Answer c' x ∧ client_getBlock x = Some b ∧
     ∀ j b', serves c r m j b' → serves c' r m j b') ∧
  (∃ c' x, getLightBlock c (Z.of_nat r) i tmo = Answer c' x ∧ client_getLightBlock x = Some (light b) ∧
     ∀ j b', serves c r m j b' → serves c' r m j b') ∧
  (∃ c' x, getBlockHeader c (Z.of_nat r) i tmo = Answer c' x ∧
     client_getBlockHeader x = Some (mkBHP (header b) (metadata b)) ∧
     ∀ j b', serves c r m j b' → serves c' r m j b') ∧
  (∃ x, getTop c (Z.of_nat r) = Answer c x ∧ client_getChainHeight (Some x) = m).
Proof using HZ.
  intros Hs Hb. pose proof Hb as (Hh & Hy & (Hrw & Hf) & Hm). split_and!.
  - destruct (fetch_found c r m i b tmo (mkGB false "Failed to get block within timeout.")
      (λ b, mkGB true (serializeToString b).1) Hs) as (c' & He & Hk).
    exists c', (mkGB true (serializeToString b).1). split_and!; [exact He| |done].
    unfold client_getBlock. cbn [gb_success gb_payload negb]. by rewrite deserialize_serialize.
  - destruct (fetch_found c r m i b tmo (mkGB false "Failed to get block within timeout.")
      (λ b, mkGB true (out light_codec (header b, body b, transactionFilter (executeResult b)))) Hs) as (c' & He & Hk).
    eexists c', _. split_and!; [exact He| |done]. unfold client_getLightBlock. cbn [gb_success gb_payload negb].
    by rewrite (read_out _ _ _ light_codec_ok).
  - destruct (fetch_found c r m i b tmo (mkGH false 0 0 EmptyString EmptyString)
      (λ b, mkGH true (Z.of_nat r) (wrap32 (number (header b))) (out c_header (header b)) (out c_metadata (metadata b))) Hs)
      as (c' & He & Hk).
    eexists c', _. split_and!; [exact He| |done]. unfold client_getBlockHeader. cbn [gh_success gh_header gh_metadata negb].
    rewrite (read_out _ _ _ header_codec_ok) by done. cbn [mbind option_bind].
    by rewrite (read_out _ _ _ metadata_codec_ok).
  - unfold getTop. rewrite (proj2 (Z.ltb_ge _ _)) by lia. rewrite Nat2Z.id. unfold getMaxStoredBlockNumber.
    rewrite (sv_top _ _ _ _ _ Hs). by eexists.
Qed.

(** A block that is not there: a positive timeout is answered with a failure,
    which the clients report; without one the call does not return. *)
Lemma missing_block c r m i tmo :
  newBlockFutexList (_storage c) !! r = Some m → is_Some (regions (_storage c) !! r) → (m < i < 2 ^ 31)%Z → (0 ≤ i)%Z →
  if (0 <? default (-1)%Z tmo)%Z
  then ∃ x, getBlock c (Z.of_nat r) i tmo = Answer c x ∧ client_getBlock x = None
  else getBlock c (Z.of_nat r) i tmo = NoAnswer.
Proof.
  intros Hm [reg Hreg] Hi Hi0. unfold getBlock, fetch. rewrite (proj2 (Z.ltb_ge (Z.of_nat r) 0)) by lia. rewrite Nat2Z.id.
  assert (wrap64u i = i) as -> by (unfold wrap64u; rewrite Z.mod_small; lia).
  unfold waitForBlock. rewrite bool_decide_false by (apply lookup_lt_Some in Hm; unfold regionCount; lia).
  rewrite Hm, Hreg, wrap32_id by (unfold in_int32; lia). rewrite (proj2 (Z.ltb_lt m i)) by lia.
  destruct (0 <? _)%Z; [by eexists|done].
Qed.

(** A query with a negative group number, which the client chooses, reads in front
    of the list of groups. *)
Lemma negative_group_crashes c chainid i tmo :
  (chainid < 0)%Z → getBlock c chainid i tmo = Crash ∧ getTop c chainid = Crash.
Proof. intros H. unfold getBlock, getTop, fetch. by rewrite (proj2 (Z.ltb_lt _ _)). Qed.
End queries.

(** ** The monitor counts the user's transactions *)

(** A request of a polled block: its digest, its filter element and the time. *)
Record seen := mkSeen { s_digest : DigestString; s_filter : Z; s_time : Z }.

Definition seen_of (p : Block * Z) : list seen :=
  zip_with (λ e f, mkSeen (digest (signature e)) f p.2)
    (userRequests (body p.1)) (transactionFilter (executeResult p.1)).

Definition mine (m : Pending) (x : seen) : bool := bool_decide (is_Some (m !! s_digest x)).
Definition span (m : Pending) (x : seen) : Z := (s_time x - default 0 (m !! s_digest x))%Z.
Definition committed (m : Pending) (l : list seen) : list seen := List.filter (λ x, mine m x && negb (s_filter x =? 0)%Z) l.
Definition aborted (m : Pending) (l : list seen) : list seen := List.filter (λ x, mine m x && (s_filter x =? 0)%Z) l.
Definition total_span (m : Pending) (l : list seen) : Z := foldr Z.add 0%Z (span m <$> l).

(** Somebody else's transactions aside, answers come after the requests. *)
Definition timely (m : Pending) (l : list seen) : Prop :=
  Forall (λ x, mine m x = true → 0 < span m x < 2 ^ 64)%Z l.

Definition forget (m : Pending) (l : list seen) : Pending := foldl (λ m x, delete (s_digest x) m) m l.

Lemma forget_lookup m l d : forget m l !! d = if bool_decide (d ∈ s_digest <$> l) then None else m !! d.
Proof.
  revert m. induction l as [|x l IH]; intros m; [done|]. cbn [forget foldl fmap list_fmap].
  change (foldl _ _ l) with (forget (delete (s_digest x) m) l). rewrite IH.
  destruct (decide (d = s_digest x)) as [->|Hne].
  - rewrite lookup_delete_eq. rewrite (bool_decide_true (_ ∈ _ :: _)) by left. by case_bool_decide.
  - rewrite lookup_delete_ne by done. do 2 case_bool_decide; try done; set_solver.
Qed.

(** Forgetting a transaction does not concern the others. *)
Lemma mine_delete m d x : s_digest x ≠ d → mine (delete d m) x = mine m x ∧ span (delete d m) x = span m x.
Proof. intros. unfold mine, span. by rewrite lookup_delete_ne. Qed.

Lemma others_delete m d l :
  d ∉ s_digest <$> l →
  committed (delete d m) l = committed m l ∧ aborted (delete d m) l = aborted m l ∧
  total_span (delete d m) (committed m l) = total_span m (committed m l) ∧
  (timely m l → timely (delete d m) l).
Proof.
  intros Hd. assert (∀ x, x ∈ l → mine (delete d m) x = mine m x ∧ span (delete d m) x = span m x) as Hx.
  { intros x Hin. apply mine_delete. intros <-. apply Hd. by apply list_elem_of_fmap_2. }
  unfold committed, aborted, total_span, timely. split_and!.
  - apply List.filter_ext_in. intros x ?%list_elem_of_In. by rewrite (proj1 (Hx x ltac:(done))).
  - apply List.filter_ext_in. intros x ?%list_elem_of_In. by rewrite (proj1 (Hx x ltac:(done))).
  - f_equal. apply list_fmap_ext. intros i x Hi. apply Hx. apply list_elem_of_lookup_2 in Hi.
    apply list_elem_of_In, List.filter_In in Hi as [Hi _]. by apply list_elem_of_In.
  - intros H. apply Forall_forall. intros x Hin. destruct (Hx x Hin) as [-> ->].
    by apply (proj1 (Forall_forall _ _) H).
Qed.

Lemma wrap64u_add a b : wrap64u (wrap64u a + b) = wrap64u (a + b).
Proof. unfold wrap64u. by rewrite Zplus_mod_idemp_l. Qed.

Lemma getTxnLatency_length m reqs t : length (getTxnLatency m reqs t).2 = length reqs.
Proof. revert m. induction reqs as [|e reqs IH]; intros m; [done|]. cbn. by rewrite IH. Qed.

(** One block: its transactions are taken off the list of pending ones and
    counted by their filter. *)
Lemma count_block t reqs fs : ∀ m c a s,
  length reqs = length fs →
  let l := zip_with (λ e f, mkSeen (digest (signature e)) f t) reqs fs in
  NoDup (s_digest <$> l) → timely m l →
  let x := getTxnLatency m reqs t in
  x.1 = forget m l ∧
  count x.2 fs (wrap64u c) (wrap64u a) (wrap64u s) =
    (wrap64u (c + Z.of_nat (length (committed m l))), wrap64u (a + Z.of_nat (length (aborted m l))),
     wrap64u (s + total_span m (committed m l))).
Proof.
  revert fs. induction reqs as [|e reqs IH]; intros [|f fs] m c a s Hlen; try done; cbv zeta.
  { intros _ _. cbn. by rewrite !Z.add_0_r. }
  cbn [zip_with]. set (l := zip_with _ reqs fs). set (d := digest (signature e)).
  set (x0 := mkSeen d f t). rewrite fmap_cons. intros [Hd Hn]%NoDup_cons Hti.
  apply Forall_cons in Hti as [Hx Hti]. destruct (others_delete m d l Hd) as (Hc & Ha & Hs & Ht).
  assert (length reqs = length fs) as Hlen' by (simpl in Hlen; lia).
  assert (∀ c a s, (getTxnLatency (delete d m) reqs t).1 = forget (delete d m) l ∧
    count (getTxnLatency (delete d m) reqs t).2 fs (wrap64u c) (wrap64u a) (wrap64u s) =
    (wrap64u (c + Z.of_nat (length (committed m l))), wrap64u (a + Z.of_nat (length (aborted m l))),
     wrap64u (s + total_span m (committed m l)))) as IH'.
  { intros c' a' s'. rewrite <-Ha. rewrite <-Hs, <-Hc at 1. rewrite <-Hc. apply IH; auto. }
  cbn [getTxnLatency fst snd count]. fold d. split; [apply (IH' 0 0 0)%Z|].
  unfold mine, span in Hx. cbn [s_digest s_time x0] in Hx.
  assert (mine m x0 = bool_decide (is_Some (m !! d))) as Hmine by done.
  unfold committed, aborted. cbn [List.filter]. rewrite Hmine. cbn [s_filter x0].
  destruct (m !! d) as [t0|] eqn:Hm.
  - rewrite bool_decide_true in Hx |- * by by eexists. cbn [default from_option id andb] in *. specialize (Hx eq_refl).
    assert (wrap64u (t - t0) = t - t0)%Z as -> by (unfold wrap64u; rewrite Z.mod_small; lia).
    rewrite (proj2 (Z.eqb_neq (t - t0) 0)) by lia.
    destruct (Z.eqb_spec f 0) as [->|Hf]; cbn [negb length].
    + rewrite wrap64u_add, (proj2 (IH' _ _ _)). fold (committed m l) (aborted m l). rewrite Nat2Z.inj_succ.
      by replace (a + 1 + Z.of_nat (length (aborted m l)))%Z
        with (a + Z.succ (Z.of_nat (length (aborted m l))))%Z by lia.
    + rewrite !wrap64u_add, (proj2 (IH' _ _ _)). fold (committed m l) (aborted m l). rewrite Nat2Z.inj_succ.
      replace (total_span m (x0 :: committed m l)) with (t - t0 + total_span m (committed m l))%Z
        by (unfold total_span; rewrite fmap_cons; cbn [foldr]; unfold span at 2; cbn [s_digest s_time x0]; by rewrite Hm).
      rewrite Z.add_assoc. by replace (c + 1 + Z.of_nat (length (committed m l)))%Z
        with (c + Z.succ (Z.of_nat (length (committed m l))))%Z by lia.
  - rewrite bool_decide_false in Hx |- * by by intros []. cbn [andb]. cbn [Z.eqb]. apply IH'.
Qed.

Lemma others_forget l1 : ∀ m l,
  NoDup (s_digest <$> l1 ++ l) →
  committed (forget m l1) l = committed m l ∧ aborted (forget m l1) l = aborted m l ∧
  total_span (forget m l1) (committed m l) = total_span m (committed m l) ∧
  (timely m l → timely (forget m l1) l).
Proof.
  induction l1 as [|x l1 IH]; intros m l; [done|]. cbn [app]. rewrite fmap_cons. intros [Hx Hn]%NoDup_cons.
  rewrite fmap_app in Hx. apply not_elem_of_app in Hx as [_ Hx].
  destruct (others_delete m (s_digest x) l Hx) as (Hc & Ha & Hs & Ht).
  destruct (IH (delete (s_digest x) m) l Hn) as (IHc & IHa & IHs & IHt).
  cbn [forget foldl]. fold (forget (delete (s_digest x) m) l1). rewrite IHc, IHa, Hc, Ha. rewrite Hc in IHs.
  rewrite IHs, Hs. split_and!; [done..|]. auto.
Qed.

Definition well_formed (p : Block * Z) : Prop :=
  length (userRequests (body p.1)) = length (transactionFilter (executeResult p.1)).

Lemma monitor_run polled : ∀ h c a s m,
  let l := concat (seen_of <$> polled) in
  Forall well_formed polled → NoDup (s_digest <$> l) → timely m l →
  monitor_all (mkMonitor h (wrap64u c) (wrap64u a) (wrap64u s) m) polled =
    Some (mkMonitor (h + Z.of_nat (length polled)) (wrap64u (c + Z.of_nat (length (committed m l))))
      (wrap64u (a + Z.of_nat (length (aborted m l)))) (wrap64u (s + total_span m (committed m l))) (forget m l)).
Proof.
  induction polled as [|p polled IH]; intros h c a s m; cbv zeta.
  { intros _ _ _. cbn. by rewrite !Z.add_0_r. }
  rewrite fmap_cons. cbn [concat]. set (l := concat (seen_of <$> polled)).
  intros [Hw Hall]%Forall_cons Hn [Ht1 Ht2]%Forall_app. unfold well_formed in Hw.
  pose proof Hn as Hn'. rewrite fmap_app in Hn'. apply NoDup_app in Hn' as (Hn1 & _ & Hn2).
  destruct (others_forget (seen_of p) m l Hn) as (Hc & Ha & Hs & Ht).
  destruct (count_block p.2 (userRequests (body p.1)) (transactionFilter (executeResult p.1)) m c a s Hw Hn1 Ht1) as [Hf Hcnt].
  cbn [monitor_all]. unfold doMonitor. cbn [pending txCountCommit txCountAbort latencySum blockHeight].
  rewrite getTxnLatency_length, Nat.eqb_refl, (proj2 (Nat.eqb_eq _ _) Hw), Hcnt, Hf.
  cbn [mbind option_bind]. fold (seen_of p). rewrite (IH _ _ _ _ _ Hall Hn2 (Ht Ht2)). fold l.
  rewrite Hc, Ha, Hs. unfold committed, aborted, total_span, forget. rewrite !List.filter_app, fmap_app, foldr_app, foldl_app.
  rewrite !length_app. f_equal. cbn [length]. f_equal; [lia|f_equal; lia|f_equal; lia|].
  f_equal. rewrite <-Z.add_assoc. f_equal. generalize (span m <$> List.filter (λ x, mine m x && negb (s_filter x =? 0)%Z) (seen_of p)).
  intros l1. generalize (foldr Z.add 0%Z (span m <$> List.filter (λ x, mine m x && negb (s_filter x =? 0)%Z) l)) as z.
  intros z. induction l1 as [|y l1 IHl]; simpl; lia.
Qed.

(** Whatever blocks the monitor polls, once every transaction appears in one
    of them only and with an element of the filter, it returns; it has then
    counted as committed exactly the user's transactions that committed and as
    aborted exactly those that did not, has summed the times the committed ones
    took, keeps the others as pending, and asks for the next block. *)
Theorem monitor_counts top m polled :
  let l := concat (seen_of <$> polled) in
  Forall well_formed polled → NoDup (s_digest <$> l) → timely m l →
  ∃ s, monitor_all (newMonitor top m) polled = Some s ∧
    blockHeight s = (default 0 top + 1 + Z.of_nat (length polled))%Z ∧
    txCountCommit s = wrap64u (Z.of_nat (length (committed m l))) ∧
    txCountAbort s = wrap64u (Z.of_nat (length (aborted m l))) ∧
    latencySum s = wrap64u (total_span m (committed m l)) ∧
    ∀ d, pending s !! d = if bool_decide (d ∈ s_digest <$> l) then None else m !! d.
Proof.
  intros l Hw Hn Ht. pose proof (monitor_run polled (default 0%Z top + 1) 0 0 0 m Hw Hn Ht) as Hr.
  eexists. split; [exact Hr|]. cbn [blockHeight txCountCommit txCountAbort latencySum pending].
  split_and!; [done..|]. intros d. apply forget_lookup.
Qed.

(** When the height of the chain cannot be asked for, the monitor says that it
    starts from block 0 and starts from block 1. *)
Lemma monitor_skips_first_block m : blockHeight (newMonitor None m) = 1%Z ∧ newMonitor None m = newMonitor (Some 0%Z) m.
Proof. done. Qed.

(** ** Concrete inputs *)
#[local] Existing Instance LE.zpp.
#[local] Existing Instance LE.zpp_laws.

Definition toy_sign (s : string) : option DigestString := Some (vreplicate 64 (Z.of_nat (String.length s) mod 256)%Z).
Definition toy_requests : list (string * string * string) := [("bank", "pay", "3"); ("bank", "balance", EmptyString)]%string.

Definition toy_message : string :=
  out c_envelop (mkEnvelop (out c_userRequest (mkUserRequest "bank" "balance" EmptyString (firstNonce 5000000000 + 1)))
    (mkSignature "server" (vreplicate 64 31%Z))).

Lemma requests_reach_peer_witness :
  send_all toy_sign "server" (firstNonce 5000000000) toy_requests !! 1 = Some (Some (toy_message, vreplicate 64 31%Z)) ∧
  ∃ t, peer_reads toy_message = Some t ∧
    userRequest t = mkUserRequest "bank" "balance" EmptyString (firstNonce 5000000000 + 1).
Proof.
  split; [vm_compute; reflexivity|].
  destruct (requests_reach_peer toy_sign "server" 5000000000 toy_requests 1 ("bank", "balance", EmptyString)%string
    (vreplicate 64 31%Z) toy_message) as (t & Ht & Hu & _).
  - vm_compute. discriminate.
  - vm_compute. reflexivity.
  - intros data x Hx. unfold toy_sign in Hx. apply (inj Some) in Hx as <-. unfold arr_ok.
    rewrite vec_to_list_replicate. apply Forall_replicate.
    unfold in_uint. pose proof (Z.mod_pos_bound (Z.of_nat (String.length data)) 256). lia.
  - reflexivity.
  - split_and!; vm_compute; reflexivity.
  - vm_compute. reflexivity.
  - exists t. split; [exact Ht|exact Hu].
Defined.

(** A peer with the blocks of [LightClient]'s examples. *)
Definition toy_peer : ControllerImpl :=
  mkCtl (mkStorage [0%Z] [] [mkLRU [(0%Z, sample_block)] {[0%Z]} 256 10]) (newLRU 64 10) (newLRU 64 10).

Lemma toy_serves : serves toy_peer 0 0 0 sample_block.
Proof.
  split; cbn; [|done|lia|lia|].
  - split; [done|]. apply Forall_singleton. split; [apply NoDup_singleton|done].
  - eexists. split; [done|]. by apply list_elem_of_singleton.
Qed.

Lemma user_reads_chain_witness :
  (∃ c' x, getBlock toy_peer 0 0 (Some 100%Z) = Answer c' x ∧ client_getBlock x = Some sample_block) ∧
  (∃ x, getTop toy_peer 0 = Answer toy_peer x ∧ client_getChainHeight (Some x) = 0%Z).
Proof.
  destruct (user_reads_chain toy_peer 0 0 0 sample_block (Some 100%Z) toy_serves sample_block_ok)
    as ((c' & x & Hg & Hc & _) & _ & _ & Ht).
  split; [exists c', x; split; [exact Hg|exact Hc]|exact Ht].
Defined.

(** Two of the user's transactions and one of somebody else, in two blocks. *)
Section toy_monitor.
Context (dg : Z → DigestString).

Definition toy_polled : list (Block * Z) :=
  let blk ds fs := mkBlock newHeader (mkBody ((λ n, mkEnvelop EmptyString (mkSignature EmptyString (dg n))) <$> ds))
    (mkExecuteResult [] fs) (mkMetadata [] []) in
  [(blk [1; 2] [1; 1], 130); (blk [3] [0], 170)]%Z.
Definition toy_seen : list seen := [mkSeen (dg 1) 1 130; mkSeen (dg 2) 1 130; mkSeen (dg 3) 0 170]%Z.
Definition toy_pending : Pending := <[dg 1 := 100%Z]> (<[dg 3 := 150%Z]> (<[dg 4 := 160%Z]> ∅)).

Hypothesis dg_inj : ∀ a b, dg a = dg b → a = b.

Lemma toy_lookup : toy_pending !! dg 1 = Some 100%Z ∧ toy_pending !! dg 2 = None ∧ toy_pending !! dg 3 = Some 150%Z.
Proof using dg_inj.
  unfold toy_pending. split_and!.
  - by rewrite lookup_insert_eq.
  - rewrite !lookup_insert_ne by (intros ?%dg_inj; lia). apply lookup_empty.
  - by rewrite lookup_insert_ne, lookup_insert_eq by (intros ?%dg_inj; lia).
Qed.

Lemma toy_nodup : NoDup (s_digest <$> toy_seen).
Proof using dg_inj.
  change (s_digest <$> toy_seen) with (dg <$> [1; 2; 3]%Z). apply NoDup_fmap_2; [by intros ???; apply dg_inj|].
  repeat (constructor; [set_solver|]). constructor.
Qed.

Lemma toy_timely : timely toy_pending toy_seen.
Proof using dg_inj.
  destruct toy_lookup as (H1 & H2 & H3). unfold timely, toy_seen.
  repeat apply Forall_cons_2; [..|apply Forall_nil_2]; unfold span; cbn [s_digest s_time];
    rewrite ?H1, ?H2, ?H3; cbn; lia.
Qed.

Lemma toy_counts :
  length (committed toy_pending toy_seen) = 1 ∧ length (aborted toy_pending toy_seen) = 1 ∧
  total_span toy_pending (committed toy_pending toy_seen) = 30%Z.
Proof using dg_inj.
  destruct toy_lookup as (H1 & H2 & H3). unfold committed, aborted, total_span, toy_seen, mine. cbn [List.filter s_digest].
  rewrite H1, H2, H3. cbn. unfold span. cbn. by rewrite H1.
Qed.
End toy_monitor.

Definition toy_digest (n : Z) : DigestString := vreplicate 64 n.

Lemma toy_digest_inj a b : toy_digest a = toy_digest b → a = b.
Proof. intros He. exact (f_equal (Vector.hd (n := 63)) He). Qed.

Lemma monitor_counts_witness :
  ∃ s, monitor_all (newMonitor (Some 6%Z) (toy_pending toy_digest)) (toy_polled toy_digest) = Some s ∧
    txCountCommit s = 1%Z ∧ txCountAbort s = 1%Z ∧ latencySum s = 30%Z ∧ blockHeight s = 9%Z.
Proof.
  destruct (monitor_counts (Some 6%Z) (toy_pending toy_digest) (toy_polled toy_digest)) as (s & Hs & Hh & Hc & Ha & Hl & _).
  - repeat constructor.
  - exact (toy_nodup toy_digest toy_digest_inj).
  - exact (toy_timely toy_digest toy_digest_inj).
  - destruct (toy_counts toy_digest toy_digest_inj) as (E1 & E2 & E3).
    change (concat _) with (toy_seen toy_digest) in Hc, Ha, Hl. rewrite E1 in Hc. rewrite E2 in Ha. rewrite E3 in Hl.
    exists s. split; [exact Hs|]. rewrite Hc, Ha, Hl, Hh. split_and!; reflexivity.
Defined.
