(* ===== verification/LocalConsensus.v ===== *)
(** * Local consensus

    [LocalConsensus] (include/peer/consensus/pbft/local_consensus.h and
    src/peer/consensus/pbft/local_consensus.cpp), the state machine a group's
    BFT engine drives, with its [PBFTBlockCache]
    (include/peer/consensus/pbft/pbft_block_cache.h) and [SignatureCache].

    The engine (a separate program behind RPC) is the environment: it calls the
    handlers.  Blocks are shared objects that the queue, the cache and the two
    block pointers refer to, and the handlers change their headers in place: a
    node has a heap of blocks and references are indices.  The waits of
    [loadCachedBlock] and of the request queue end with a timeout or the stop of
    the service when the block is not there; [OnVerifyProposal] is split at the
    wait, so that batches may arrive in between.  Keys are the parameters [sign]
    and [verifySig]; [log] records the calls of the deliver callback. *)

From S2P Require Import Prelude Zpp Proto Merkle MerkleProofs ProofGenerator.

(** ** SignatureCache: a ring of ten signatures *)

Record SignatureCache := mkSigs { front : nat; back : nat; ring : list (option SignaturePair) }.

Definition newSignatureCache : SignatureCache := mkSigs 0 0 (replicate 10 None).

Definition sig_pop (c : SignatureCache) : SignatureCache * option SignaturePair :=
  match ring c !! (front c mod 10) with
  | Some (Some s) => (mkSigs (S (front c)) (back c) (<[front c mod 10 := None]> (ring c)), Some s)
  | _ => (c, None)
  end.

Definition sig_push (c : SignatureCache) (s : SignaturePair) : SignatureCache :=
  mkSigs (front c) (S (back c)) (<[back c mod 10 := Some s]> (ring c)).

(** ** The node *)

Record Node := mkNode {
  isLeader : bool;
  heap : list Block;
  cache : gmap HashString nat;
  queue : list nat;
  deliveredBlock : option nat;
  proposedLastBlock : option nat;
  sigs : SignatureCache;
  log : list Block
}.

Definition newNode (leader : bool) : Node := mkNode leader [] ∅ [] None None newSignatureCache [].

Definition set_header (h : Header) (b : Block) : Block := mkBlock h (body b) (executeResult b) (metadata b).
Definition set_signatures (s : list SignaturePair) (b : Block) : Block :=
  mkBlock (header b) (body b) (executeResult b) (mkMetadata s (validateSignatures (metadata b))).

Section consensus.
Context `{ZP : Zpp} (sha : string → HashString).
(** [GetKey] and [Sign] with the node's private key; [GetKey] and [VerifyRaw]
    with the key of the signer. *)
Context (ski : string) (sign : string → option DigestString)
  (verifySig : SignatureString → HashString → bool).

Definition pushUnorderedBlock (n : Node) (batch : list Envelop) : Node * bool :=
  let validateHandle : ValidateHandleType := if isLeader n then None else Some verifySig in
  match UserRequest_GenerateMerkleTree sha batch validateHandle ModeProofGenAndTreeBuild with
  | None => (n, false)
  | Some mt =>
      let block := mkBlock (mkHeader 0 (vreplicate 32 0%Z) (Root mt)) (mkBody batch)
        (mkExecuteResult [] []) (mkMetadata [] []) in
      let ref := length (heap n) in
      (mkNode (isLeader n) (heap n ++ [block]) (<[Root mt := ref]> (cache n))
         (if isLeader n then queue n ++ [ref] else queue n)
         (deliveredBlock n) (proposedLastBlock n) (sigs n) (log n), true)
  end.

Definition OnSignProposal (n : Node) : Node * option SignaturePair :=
  let '(c, s) := sig_pop (sigs n) in
  (mkNode (isLeader n) (heap n) (cache n) (queue n) (deliveredBlock n) (proposedLastBlock n) c (log n), s).

Definition CalculatePreviousHash (h : Header) : HashString := sha (out c_header h).

Definition isDeliveredBlockHeaderValid (n : Node) (h : Header) : bool :=
  match deliveredBlock n ≫= (λ r, heap n !! r) with
  | None => true
  | Some b =>
      bool_decide (CalculatePreviousHash (header b) = previousHash h) &&
      (wrap64u (number (header b) + 1) =? number h)%Z
  end.

(** A signature of the serialized header goes to the signature cache. *)
Definition push_signature (n : Node) (s : string) : option Node :=
  d ← sign s;
  Some (mkNode (isLeader n) (heap n) (cache n) (queue n) (deliveredBlock n) (proposedLastBlock n)
    (sig_push (sigs n) (EmptyString, mkSignature ski d)) (log n)).

(** [OnVerifyProposal] up to the wait for the block. *)
Definition verify_begin (n : Node) (serializedHeader : string) : Node * bool :=
  match read c_header serializedHeader with
  | None => (n, false)
  | Some h =>
      if isDeliveredBlockHeaderValid n h then
        match push_signature n serializedHeader with
        | Some n' => (n', true)
        | None => (n, false)
        end
      else (n, false)
  end.

(** The rest: the block is in the cache, or the wait has timed out. *)
Definition verify_end (n : Node) (serializedHeader : string) : Node * bool :=
  match read c_header serializedHeader with
  | None => (n, false)
  | Some h =>
      match cache n !! dataHash h with
      | None => (n, false)
      | Some ref =>
          (mkNode (isLeader n) (alter (set_header h) ref (heap n)) (cache n) (queue n)
             (deliveredBlock n) (proposedLastBlock n) (sigs n) (log n), true)
      end
  end.

Definition OnVerifyProposal (n : Node) (serializedHeader : string) : Node * bool :=
  match verify_begin n serializedHeader with
  | (n', true) => verify_end n' serializedHeader
  | r => r
  end.

(** [None]: the [CHECK] fails. *)
Definition OnDeliver (n : Node) (context : string) (signatures : list SignaturePair) : option (Node * bool) :=
  match read c_header context with
  | None => Some (n, false)
  | Some h =>
      ref ← cache n !! dataHash h;
      let hp := alter (set_signatures signatures) ref (heap n) in
      block ← hp !! ref;
      Some (mkNode (isLeader n) hp (delete (dataHash h) (cache n)) (queue n)
              (Some ref) (proposedLastBlock n) (sigs n) (log n ++ [block]), true)
  end.

Definition OnLeaderStart (n : Node) : Node :=
  mkNode true (heap n) (cache n) (queue n) (deliveredBlock n) (deliveredBlock n) newSignatureCache (log n).

Definition OnLeaderChange (n : Node) : Node :=
  mkNode false (heap n) (cache n) (queue n) (deliveredBlock n) None newSignatureCache (log n).

Definition updateBlockHeaderWithProposedBlock (n : Node) (h : Header) : Header :=
  match proposedLastBlock n ≫= (λ r, heap n !! r) with
  | None => h
  | Some b => mkHeader (wrap64u (number (header b) + 1)) (CalculatePreviousHash (header b)) (dataHash h)
  end.

(** [None]: no proposal (not the leader, no batch before the stop of the
    service, no key). *)
Definition OnRequestProposal (n : Node) : Node * option string :=
  if negb (isLeader n) then (n, None) else
  match queue n with
  | [] => (n, None)
  | ref :: q =>
      match heap n !! ref with
      | None => (n, None)
      | Some b =>
          let h := updateBlockHeaderWithProposedBlock n (header b) in
          let n1 := mkNode (isLeader n) (alter (set_header h) ref (heap n)) (cache n) q
            (deliveredBlock n) (Some ref) (sigs n) (log n) in
          let serializedHeader := out c_header h in
          match push_signature n1 serializedHeader with
          | Some n2 => (n2, Some serializedHeader)
          | None => (n1, None)
          end
      end
  end.

(** ** One node in a group *)

(** Where the node is with the engine: nothing proposed, waiting for the block
    of a proposal, or ready for the delivery of a header. *)
Inductive phase := Idle | Verifying (s : string) | Ready (h : Header).

Definition root_of (leader : bool) (batch : list Envelop) : option HashString :=
  Root <$> UserRequest_GenerateMerkleTree sha batch (if leader then None else Some verifySig)
    ModeProofGenAndTreeBuild.

(** The engine handles one proposal at a time, and a batch is not pushed while a
    batch with the same requests waits to be delivered. *)
Inductive node_step : Node * phase → Node * phase → Prop :=
| step_push n p batch :
    (∀ k, root_of (isLeader n) batch = Some k → cache n !! k = None) →
    node_step (n, p) ((pushUnorderedBlock n batch).1, p)
| step_sign n p : node_step (n, p) ((OnSignProposal n).1, p)
| step_verify n s :
    isLeader n = false →
    node_step (n, Idle)
      ((verify_begin n s).1, if (verify_begin n s).2 then Verifying s else Idle)
| step_load n s h :
    read c_header s = Some h →
    (∀ ref, cache n !! dataHash h = Some ref → ref ∉ queue n) →
    node_step (n, Verifying s) ((verify_end n s).1, if (verify_end n s).2 then Ready h else Idle)
| step_request n s h n' :
    OnRequestProposal n = (n', Some s) → read c_header s = Some h →
    node_step (n, Idle) (n', Ready h)
| step_deliver n s h sigs n' :
    read c_header s = Some h → OnDeliver n s sigs = Some (n', true) →
    node_step (n, Ready h) (n', Idle)
| step_leader_start n : node_step (n, Idle) (OnLeaderStart n, Idle)
| step_leader_change n : node_step (n, Idle) (OnLeaderChange n, Idle).

(** A header follows another one in the chain. *)
Definition linked (h h' : Header) : Prop :=
  number h' = wrap64u (number h + 1) ∧ previousHash h' = CalculatePreviousHash h.

Definition chain (l : list Block) : Prop :=
  ∀ i b b', l !! i = Some b → l !! S i = Some b' → linked (header b) (header b').

(** The data hash is the root of the block's own requests. *)
Definition hashes_body (b : Block) : Prop :=
  ∃ leader, root_of leader (userRequests (body b)) = Some (dataHash (header b)).

Lemma chain_snoc l b :
  chain l → (∀ b', last l = Some b' → linked (header b') (header b)) → chain (l ++ [b]).
Proof.
  intros Hc Hl i x y Hx Hy.
  apply lookup_snoc_Some in Hy as [[Hi Hy]|[Hi <-]].
  - rewrite lookup_app_l in Hx by lia. by eapply Hc.
  - rewrite lookup_app_l in Hx by lia. apply Hl. rewrite last_lookup.
    by replace (pred (length l)) with i by lia.
Qed.

Record core_inv (n : Node) : Prop := {
  inv_chain : chain (log n);
  inv_body : Forall hashes_body (log n);
  inv_cache k r : cache n !! k = Some r →
    ∃ b, heap n !! r = Some b ∧ dataHash (header b) = k ∧ hashes_body b;
  inv_queue_nodup : NoDup (queue n);
  inv_queue r : r ∈ queue n → ∃ k b, cache n !! k = Some r ∧ heap n !! r = Some b ∧
    header b = mkHeader 0 (vreplicate 32 0%Z) k ∧ arr_ok k;
  inv_delivered : match deliveredBlock n with
    | None => log n = []
    | Some r => (∀ k, cache n !! k ≠ Some r) ∧
        ∃ b b', heap n !! r = Some b ∧ last (log n) = Some b' ∧ header b = header b'
    end
}.

Context `{HZ : !ZppLaws ZP} (sha_ok : ∀ s, arr_ok (sha s)).

Lemma root_arr_ok batch vh mode mt :
  UserRequest_GenerateMerkleTree sha batch vh mode = Some mt → arr_ok (Root mt).
Proof using sha_ok.
  intros (leaves & Hn & Hl & Hs & _)%New_inv. pose proof (ts_root _ _ _ Hs) as Hr.
  pose proof (ts_depth _ _ _ Hs) as Hd. destruct (Depth mt) as [|d]; [simpl in Hd; lia|].
  assert (Root mt ∈ level (HashFunc sha) (S d) leaves) as Hin by (rewrite Hr; by left).
  apply elem_of_pairs_hash in Hin as (a & b & _ & _ & _ & ->). apply sha_ok.
Qed.

Definition phase_inv (n : Node) (p : phase) : Prop :=
  match p with
  | Idle => isLeader n = true → proposedLastBlock n = deliveredBlock n
  | Verifying s => isLeader n = false ∧
      ∀ h, read c_header s = Some h → isDeliveredBlockHeaderValid n h = true
  | Ready h => isDeliveredBlockHeaderValid n h = true ∧
      ∃ r b, cache n !! dataHash h = Some r ∧ r ∉ queue n ∧ heap n !! r = Some b ∧ header b = h ∧
        (isLeader n = true → proposedLastBlock n = Some r)
  end.

(** Delivered headers are compared with the last one of the log. *)
Lemma valid_linked n h b' :
  core_inv n → isDeliveredBlockHeaderValid n h = true → last (log n) = Some b' →
  linked (header b') h.
Proof.
  intros Hi Hv Hl. pose proof (inv_delivered _ Hi) as Hd. unfold isDeliveredBlockHeaderValid in Hv.
  destruct (deliveredBlock n) as [r|]; [|by rewrite Hd in Hl].
  destruct Hd as (_ & b & b1 & Hb & Hb1 & E). rewrite Hl in Hb1. injection Hb1 as <-.
  cbn [mbind option_bind] in Hv. rewrite Hb in Hv. bool_cases. rewrite <-E. by split.
Qed.

(** What the invariant says of validity depends on the delivered block only. *)
Lemma valid_same n n' h :
  deliveredBlock n' = deliveredBlock n →
  (∀ r b, deliveredBlock n = Some r → heap n !! r = Some b → heap n' !! r = Some b) →
  (∀ r, deliveredBlock n = Some r → is_Some (heap n !! r)) →
  isDeliveredBlockHeaderValid n' h = isDeliveredBlockHeaderValid n h.
Proof.
  intros Hd Hh Hs. unfold isDeliveredBlockHeaderValid. rewrite Hd.
  destruct (deliveredBlock n) as [r|]; [|done]. cbn [mbind option_bind].
  destruct (Hs r eq_refl) as [b Hb]. by rewrite Hb, (Hh r b eq_refl Hb).
Qed.

Lemma delivered_in_heap n r : core_inv n → deliveredBlock n = Some r → is_Some (heap n !! r).
Proof.
  intros Hi Hr. pose proof (inv_delivered _ Hi) as Hd. rewrite Hr in Hd.
  destruct Hd as (_ & b & _ & Hb & _). by exists b.
Qed.

(** ** Preservation *)

(** A header is written into a cached block: nothing else sees it. *)
Lemma update_core n k r h q pr sg :
  core_inv n → cache n !! k = Some r → dataHash h = k → NoDup q → r ∉ q → (∀ x, x ∈ q → x ∈ queue n) →
  core_inv (mkNode (isLeader n) (alter (set_header h) r (heap n)) (cache n) q (deliveredBlock n) pr sg (log n)).
Proof.
  intros [Hch Hb Hc Hqn Hq Hd] Hr Hk Hnd Hrq Hsub. split; cbn [heap cache queue deliveredBlock log]; [done..| | | |].
  - intros k' r' Hr'. destruct (Hc k' r' Hr') as (b & Hbk & Hkb & Hbody).
    destruct (decide (r' = r)) as [->|Hne]; [|rewrite list_lookup_alter_ne by done; eauto].
    destruct (Hc k r Hr) as (b1 & Hb1 & Hk1 & _). assert (k' = k) as -> by congruence.
    rewrite list_lookup_alter_eq, Hbk. eexists. split; [done|]. split; [done|].
    destruct Hbody as [ld Hld]. exists ld. cbn. by rewrite Hk, <-Hkb.
  - done.
  - intros x Hx. destruct (Hq x (Hsub x Hx)) as (k1 & b & ? & ? & ?). exists k1, b.
    rewrite list_lookup_alter_ne by congruence. done.
  - destruct (deliveredBlock n) as [r0|]; [|done]. destruct Hd as (Hne & b & b' & Hb0 & Hl & E).
    split; [done|]. exists b, b'. rewrite list_lookup_alter_ne; [done|].
    intros ->. by apply (Hne k).
Qed.

(** Validity sees the delivered block, which no cached block is. *)
Lemma update_valid n k r h q pr sg ld h' :
  core_inv n → cache n !! k = Some r →
  isDeliveredBlockHeaderValid (mkNode ld (alter (set_header h) r (heap n)) (cache n) q (deliveredBlock n) pr sg (log n)) h'
  = isDeliveredBlockHeaderValid n h'.
Proof.
  intros Hi Hr. apply valid_same; cbn [deliveredBlock heap]; [done| |intros ?; by apply delivered_in_heap].
  intros r0 b Hr0 Hb. rewrite list_lookup_alter_ne; [done|]. intros ->.
  pose proof (inv_delivered _ Hi) as Hd. rewrite Hr0 in Hd. by apply (proj1 Hd k).
Qed.

Lemma push_inv n p batch :
  core_inv n → phase_inv n p → (∀ k, root_of (isLeader n) batch = Some k → cache n !! k = None) →
  core_inv (pushUnorderedBlock n batch).1 ∧ phase_inv (pushUnorderedBlock n batch).1 p.
Proof using sha_ok.
  intros Hi Hp Hfresh. pose proof Hi as [Hch Hb Hc Hqn Hq Hd].
  unfold pushUnorderedBlock. unfold root_of in Hfresh.
  destruct (UserRequest_GenerateMerkleTree _ _ _ _) as [mt|] eqn:Hmt; [|done].
  specialize (Hfresh _ eq_refl). cbn [fst].
  set (blk := mkBlock _ _ _ _). 
  assert (∀ r b, heap n !! r = Some b → (heap n ++ [blk]) !! r = Some b) as Hext
    by (intros; by apply lookup_app_l_Some).
  assert (∀ k, cache n !! k ≠ Some (length (heap n))) as Hnew.
  { intros k Hk. destruct (Hc _ _ Hk) as (b & Hbk%lookup_lt_Some & _). lia. }
  split.
  - split; cbn [heap cache queue deliveredBlock log]; [done..| | | |].
    + intros k r [[<- <-]|[Hne Hk]]%lookup_insert_Some.
      * exists blk. rewrite list_lookup_middle by done. split; [done|]. split; [done|].
        exists (isLeader n). cbn. unfold root_of. by rewrite Hmt.
      * destruct (Hc _ _ Hk) as (b & ? & ?). exists b. auto.
    + destruct (isLeader n); [|done]. apply NoDup_app. split; [done|]. split; [|apply NoDup_singleton].
      intros x Hx ->%list_elem_of_singleton. destruct (Hq _ Hx) as (k & b & Hk & _). by apply (Hnew k).
    + intros r Hr. assert (r ∈ queue n ∨ r = length (heap n)) as [Hr'| ->].
      { destruct (isLeader n); [|by left]. apply elem_of_app in Hr as [?|?%list_elem_of_singleton]; auto. }
      * destruct (Hq _ Hr') as (k & b & Hk & ? & ?). exists k, b.
        rewrite lookup_insert_ne by congruence. auto.
      * exists (Root mt), blk. rewrite lookup_insert_eq, list_lookup_middle by done.
        split; [done|]. split; [done|]. split; [done|]. by eapply root_arr_ok.
    + destruct (deliveredBlock n) as [r|] eqn:Hdb; [|done]. destruct Hd as (Hne & b & b' & Hb0 & ? & ?).
      split; [|eauto 10]. intros k [[<- <-]|[_ Hk]]%lookup_insert_Some; [|by apply (Hne k)].
      apply lookup_lt_Some in Hb0. lia.
  - assert (∀ h, isDeliveredBlockHeaderValid
      (mkNode (isLeader n) (heap n ++ [blk]) (<[Root mt := length (heap n)]> (cache n))
        (if isLeader n then queue n ++ [length (heap n)] else queue n)
        (deliveredBlock n) (proposedLastBlock n) (sigs n) (log n)) h = isDeliveredBlockHeaderValid n h) as Hv.
    { intros h. apply valid_same; cbn [deliveredBlock heap]; [done|auto|intros ?; by apply delivered_in_heap]. }
    destruct p as [|s|h]; cbn [phase_inv isLeader proposedLastBlock deliveredBlock cache queue heap]; [done|..].
    + destruct Hp as [? Hp]. split; [done|]. intros h Hh. rewrite Hv. auto.
    + rewrite Hv. destruct Hp as (? & r & b & Hk & Hnq & Hb0 & ? & ?). split; [done|]. exists r, b.
      split; [rewrite lookup_insert_ne by congruence; done|]. split; [|auto].
      destruct (isLeader n); [|done]. intros [?|Hr%list_elem_of_singleton]%elem_of_app; [done|].
      subst r. by apply (Hnew (dataHash h)).
Qed.

(** Roles, proposals and signatures are outside the core. *)
Lemma core_other n ld pr sg :
  core_inv n →
  core_inv (mkNode ld (heap n) (cache n) (queue n) (deliveredBlock n) pr sg (log n)).
Proof. by intros []; split. Qed.

Lemma request_header_ok n r b h :
  core_inv n → isLeader n = true → proposedLastBlock n = deliveredBlock n →
  r ∈ queue n → heap n !! r = Some b → h = updateBlockHeaderWithProposedBlock n (header b) →
  header_ok h ∧ cache n !! dataHash h = Some r ∧ isDeliveredBlockHeaderValid n h = true.
Proof using sha_ok.
  intros Hi Hl Hp Hr Hb ->. destruct (inv_queue _ Hi r Hr) as (k & b' & Hk & Hb' & E & Hok).
  rewrite Hb in Hb'. injection Hb' as <-.
  assert (arr_ok (vreplicate 32 0%Z)) as Hz.
  { unfold arr_ok. rewrite vec_to_list_replicate. by apply Forall_replicate. }
  unfold updateBlockHeaderWithProposedBlock, isDeliveredBlockHeaderValid. rewrite Hp.
  destruct (deliveredBlock n ≫= λ r, heap n !! r) as [b'|]; rewrite E; cbn [dataHash number previousHash].
  - split; [|split; [done|]].
    + split; [split|]; [|apply sha_ok|done]. apply Z.mod_pos_bound. lia.
    + rewrite bool_decide_true by done. by rewrite Z.eqb_refl.
  - split; [|done]. by split; [split|].
Qed.

Lemma request_inv n n' s h :
  core_inv n → phase_inv n Idle → OnRequestProposal n = (n', Some s) → read c_header s = Some h →
  core_inv n' ∧ phase_inv n' (Ready h).
Proof using HZ sha_ok.
  intros Hi Hp. unfold OnRequestProposal. destruct (isLeader n) eqn:Hl; [|done]. cbn [negb].
  destruct (queue n) as [|r q] eqn:Hq; [done|].
  destruct (heap n !! r) as [b|] eqn:Hb; [|done]. unfold push_signature.
  destruct (sign _) as [d|]; [|done]. cbn [mbind option_bind]. intros [= <- <-] Hs.
  assert (r ∈ queue n) as Hr by (rewrite Hq; by left).
  destruct (request_header_ok n r b _ Hi Hl (Hp Hl) Hr Hb eq_refl) as (Hok & Hk & Hv).
  set (h0 := updateBlockHeaderWithProposedBlock n (header b)) in *.
  change (read c_header (out c_header h0) = Some h) in Hs.
  rewrite (read_out header_ok) in Hs by (done || apply header_codec_ok). injection Hs as <-.
  pose proof (inv_queue_nodup _ Hi) as Hn. rewrite Hq in Hn. apply NoDup_cons in Hn as [Hrq Hn].
  cbn [isLeader heap cache queue deliveredBlock proposedLastBlock sigs log].
  pose proof (update_core n (dataHash h0) r h0 q (Some r) (sig_push (sigs n) (EmptyString, mkSignature ski d))
    Hi Hk eq_refl Hn Hrq) as Hc. rewrite Hl in Hc. split.
  - apply Hc. intros x Hx. rewrite Hq. by right.
  - cbn [phase_inv cache queue heap isLeader proposedLastBlock].
    split; [by rewrite (update_valid n (dataHash h0))|]. exists r, (set_header h0 b).
    rewrite list_lookup_alter_eq, Hb. done.
Qed.

Lemma load_inv n s h :
  core_inv n → phase_inv n (Verifying s) → read c_header s = Some h →
  (∀ ref, cache n !! dataHash h = Some ref → ref ∉ queue n) →
  core_inv (verify_end n s).1 ∧
  phase_inv (verify_end n s).1 (if (verify_end n s).2 then Ready h else Idle).
Proof.
  intros Hi [Hl Hv] Hs Hq. unfold verify_end. rewrite Hs.
  destruct (cache n !! dataHash h) as [r|] eqn:Hk; cbn [fst snd];
    [|split; [done|]; cbn; by rewrite Hl].
  destruct (inv_cache _ Hi _ _ Hk) as (b & Hb & _). specialize (Hq r eq_refl). split.
  - apply (update_core n (dataHash h)); [done..|apply inv_queue_nodup; done|done|done].
  - cbn [phase_inv cache queue heap isLeader proposedLastBlock].
    split; [rewrite (update_valid n (dataHash h)) by done; auto|].
    exists r, (set_header h b). rewrite list_lookup_alter_eq, Hb, Hl. done.
Qed.

(** A node that is ready delivers the header it is ready for. *)
Lemma deliver_ready n h s ss :
  core_inv n → phase_inv n (Ready h) → read c_header s = Some h →
  ∃ n' b, OnDeliver n s ss = Some (n', true) ∧ log n' = log n ++ [b] ∧ header b = h ∧
    core_inv n' ∧ phase_inv n' Idle.
Proof.
  intros Hi (Hv & r & b & Hk & Hrq & Hb & Hh & Hp) Hs. unfold OnDeliver. rewrite Hs, Hk.
  cbn [mbind option_bind]. rewrite list_lookup_alter_eq, Hb. cbn [fmap option_fmap option_map mbind option_bind].
  eexists _, (set_signatures ss b). split; [done|]. split; [done|]. split; [done|].
  destruct (inv_cache _ Hi _ _ Hk) as (b0 & Hb0 & Hkb & Hbody). rewrite Hb in Hb0. injection Hb0 as <-.
  pose proof Hi as [Hch Hbd Hc Hqn Hq Hd]. split.
  - split; cbn [log cache heap queue deliveredBlock].
    + apply chain_snoc; [done|]. intros b' Hb'. cbn. rewrite Hh. by eapply valid_linked.
    + apply Forall_app. split; [done|]. by apply Forall_singleton.
    + intros k r' [Hne Hk']%lookup_delete_Some. destruct (Hc _ _ Hk') as (b' & Hb' & ? & ?).
      exists b'. rewrite list_lookup_alter_ne; [done|]. intros ->. congruence.
    + done.
    + intros x Hx. destruct (Hq x Hx) as (k & b' & Hk' & Hb' & Eb & Hak). exists k, b'.
      assert (x ≠ r) by (by intros ->). rewrite list_lookup_alter_ne by congruence.
      rewrite lookup_delete_ne; [done|]. congruence.
    + split.
      * intros k [Hne Hk']%lookup_delete_Some. destruct (Hc _ _ Hk') as (b' & Hb' & ? & _). congruence.
      * exists (set_signatures ss b), (set_signatures ss b).
        rewrite list_lookup_alter_eq, Hb, last_snoc. done.
  - cbn. intros Hl. by rewrite Hp.
Qed.

Lemma node_step_inv x y :
  node_step x y → core_inv x.1 → phase_inv x.1 x.2 → core_inv y.1 ∧ phase_inv y.1 y.2.
Proof using HZ sha_ok.
  destruct 1 as [n p batch Hf|n p|n s Hl|n s h Hs Hq|n s h n' Hr Hs|n s h ss n' Hs Hd|n|n]; cbn [fst snd];
    intros Hi Hp.
  - by apply push_inv.
  - unfold OnSignProposal. destruct (sig_pop (sigs n)) as [c o]. cbn [fst]. split; [by apply core_other|].
    destruct p; exact Hp.
  - unfold verify_begin. destruct (read c_header s) as [h|] eqn:Hs; [|done].
    destruct (isDeliveredBlockHeaderValid n h) eqn:Hv; [|done].
    unfold push_signature. destruct (sign s) as [d|]; cbn [mbind option_bind fst snd]; [|done].
    split; [by apply core_other|]. cbn [phase_inv isLeader]. split; [done|].
    intros h' Hh'. rewrite Hs in Hh'. injection Hh' as <-. exact Hv.
  - by apply load_inv.
  - by eapply request_inv.
  - destruct (deliver_ready n h s ss Hi Hp Hs) as (n1 & b & Hd1 & _ & _ & ? & ?).
    rewrite Hd in Hd1. by injection Hd1 as <-.
  - split; [by apply core_other|done].
  - split; [by apply core_other|done].
Qed.

Lemma new_inv ld : core_inv (newNode ld) ∧ phase_inv (newNode ld) Idle.
Proof.
  split; [|done]. split; cbn; [by intros ???|constructor|by intros ??|constructor|by intros ? ?%elem_of_nil|done].
Qed.

Lemma reachable_inv ld n p :
  rtc node_step (newNode ld, Idle) (n, p) → core_inv n ∧ phase_inv n p.
Proof using HZ sha_ok.
  intros Hr. change (core_inv (n, p).1 ∧ phase_inv (n, p).1 (n, p).2). revert Hr.
  apply (rtc_ind_r (λ x, core_inv x.1 ∧ phase_inv x.1 x.2)); [apply new_inv|].
  intros x y _ Hs []. by eapply node_step_inv.
Qed.


(** ** Leader and follower *)

(** The delivered block's header is the header of the last logged block. *)
Lemma delivered_log n :
  core_inv n → header <$> (deliveredBlock n ≫= λ r, heap n !! r) = header <$> last (log n).
Proof.
  intros Hi. pose proof (inv_delivered _ Hi) as Hd. destruct (deliveredBlock n) as [r|].
  - destruct Hd as (_ & b & b' & Hb & Hl & E). cbn [mbind option_bind]. rewrite Hb, Hl. cbn. by rewrite E.
  - by rewrite Hd.
Qed.

Lemma valid_log n h :
  core_inv n →
  isDeliveredBlockHeaderValid n h =
  match header <$> last (log n) with
  | None => true
  | Some h0 => bool_decide (CalculatePreviousHash h0 = previousHash h) &&
      (wrap64u (number h0 + 1) =? number h)%Z
  end.
Proof.
  intros Hi. rewrite <-delivered_log by done. unfold isDeliveredBlockHeaderValid.
  by destruct (deliveredBlock n ≫= λ r, heap n !! r).
Qed.

(** A follower follows an honest leader: when the two have delivered chains
    that end with the same header and the follower holds the batch at the head
    of the leader's queue, the leader's proposal passes the follower's
    verification, and both then deliver a block with the proposed header. *)
Theorem follower_accepts_leader ld fd n1 n2 r q b r2 ss ss' :
  rtc node_step (newNode ld, Idle) (n1, Idle) → rtc node_step (newNode fd, Idle) (n2, Idle) →
  isLeader n1 = true → isLeader n2 = false →
  header <$> last (log n1) = header <$> last (log n2) →
  queue n1 = r :: q → heap n1 !! r = Some b →
  cache n2 !! dataHash (header b) = Some r2 → r2 ∉ queue n2 →
  (∀ s, is_Some (sign s)) →
  ∃ s h n1' n2' n1'' n2'' b1 b2,
    OnRequestProposal n1 = (n1', Some s) ∧ OnVerifyProposal n2 s = (n2', true) ∧
    OnDeliver n1' s ss = Some (n1'', true) ∧ OnDeliver n2' s ss' = Some (n2'', true) ∧
    log n1'' = log n1 ++ [b1] ∧ log n2'' = log n2 ++ [b2] ∧
    header b1 = h ∧ header b2 = h ∧ dataHash h = dataHash (header b).
Proof using HZ sha_ok.
  intros [Hi1 Hp1]%reachable_inv [Hi2 Hp2]%reachable_inv Hl1 Hl2 Hlast Hq Hb Hc2 Hr2 Hsign.
  assert (r ∈ queue n1) as Hr by (rewrite Hq; by left).
  set (h := updateBlockHeaderWithProposedBlock n1 (header b)).
  destruct (request_header_ok n1 r b h Hi1 Hl1 (Hp1 Hl1) Hr Hb eq_refl) as (Hok & Hk & Hv).
  pose proof (read_out header_ok c_header h header_codec_ok Hok) as Hread.
  assert (dataHash h = dataHash (header b)) as Hdh
    by (unfold h, updateBlockHeaderWithProposedBlock; by destruct (_ ≫= _)).
  destruct (OnRequestProposal n1) as [n1' o] eqn:Hreq.
  assert (o = Some (out c_header h) ∧ log n1' = log n1) as [-> Hlog1].
  { unfold OnRequestProposal in Hreq. rewrite Hl1 in Hreq. cbn [negb] in Hreq. rewrite Hq, Hb in Hreq.
    unfold push_signature in Hreq. destruct (Hsign (out c_header h)) as [d Hd].
    fold h in Hreq. rewrite Hd in Hreq. by injection Hreq as <- <-. }
  destruct (request_inv n1 n1' _ h Hi1 Hp1 Hreq Hread) as [Hi1' Hp1'].
  destruct (deliver_ready n1' h (out c_header h) ss Hi1' Hp1' Hread) as (n1'' & b1 & Hd1 & Hg1 & Hh1 & _).
  assert (isDeliveredBlockHeaderValid n2 h = true) as Hv2.
  { rewrite valid_log, <-Hlast, <-valid_log by done. done. }
  destruct (Hsign (out c_header h)) as [d Hd].
  set (n2a := mkNode (isLeader n2) (heap n2) (cache n2) (queue n2) (deliveredBlock n2) (proposedLastBlock n2)
    (sig_push (sigs n2) (EmptyString, mkSignature ski d)) (log n2)).
  assert (verify_begin n2 (out c_header h) = (n2a, true)) as Hvb.
  { unfold verify_begin. rewrite Hread, Hv2. unfold push_signature. by rewrite Hd. }
  assert (phase_inv n2a (Verifying (out c_header h))) as Hpa.
  { split; [done|]. intros h' Hh'. rewrite Hread in Hh'. by injection Hh' as <-. }
  assert (core_inv n2a) as Hia by (by apply core_other).
  destruct (load_inv n2a (out c_header h) h Hia Hpa Hread) as [Hi2' Hp2'].
  { cbn. rewrite Hdh, Hc2. by intros ? [= <-]. }
  destruct (verify_end n2a (out c_header h)) as [n2' o2] eqn:Hve. cbn [fst snd] in Hi2', Hp2'.
  assert (o2 = true ∧ log n2' = log n2) as [-> Hlog2].
  { unfold verify_end in Hve. rewrite Hread in Hve. cbn in Hve. rewrite Hdh, Hc2 in Hve.
    by injection Hve as <- <-. }
  destruct (deliver_ready n2' h (out c_header h) ss' Hi2' Hp2' Hread) as (n2'' & b2 & Hd2 & Hg2 & Hh2 & _).
  exists (out c_header h), h, n1', n2', n1'', n2'', b1, b2.
  split; [done|]. split; [by unfold OnVerifyProposal; rewrite Hvb, Hve|].
  rewrite Hg1, Hg2, Hlog1, Hlog2. done.
Qed.

(** ** What the restrictions are for *)

(** A node that has a batch but has not verified the proposal (its own
    verification timed out, or it was not asked) delivers the block with the
    default header, number 0 and no previous hash, whatever header the group
    decided on: [OnDeliver] does not take the header from the decision. *)
Theorem unverified_delivery_default_header n batch k h s ss :
  root_of (isLeader n) batch = Some k → dataHash h = k → read c_header s = Some h →
  ∃ n' b, OnDeliver (pushUnorderedBlock n batch).1 s ss = Some (n', true) ∧
    log n' = log n ++ [b] ∧ header b = mkHeader 0 (vreplicate 32 0%Z) k.
Proof.
  unfold root_of, pushUnorderedBlock. intros (mt & Hmt & ->)%fmap_Some Hk Hs. cbv zeta. rewrite Hmt.
  unfold OnDeliver. cbn [fst cache heap]. rewrite Hs, Hk, lookup_insert_eq. cbn [mbind option_bind].
  rewrite list_lookup_alter_eq, list_lookup_middle by done.
  cbn [fmap option_fmap option_map mbind option_bind log]. by eexists _, _.
Qed.

Lemma update_first n h :
  proposedLastBlock n = None → updateBlockHeaderWithProposedBlock n h = h.
Proof. unfold updateBlockHeaderWithProposedBlock. by intros ->. Qed.

Lemma request_eq n r q b d :
  isLeader n = true → queue n = r :: q → heap n !! r = Some b →
  sign (out c_header (updateBlockHeaderWithProposedBlock n (header b))) = Some d →
  OnRequestProposal n =
    (mkNode (isLeader n) (alter (set_header (updateBlockHeaderWithProposedBlock n (header b))) r (heap n))
       (cache n) q (deliveredBlock n) (Some r) (sig_push (sigs n) (EmptyString, mkSignature ski d)) (log n),
     Some (out c_header (updateBlockHeaderWithProposedBlock n (header b)))).
Proof.
  intros Hl Hq Hb Hd. unfold OnRequestProposal. rewrite Hl, Hq, Hb. cbn [negb].
  unfold push_signature. by rewrite Hd.
Qed.

Lemma deliver_eq n s h r b ss :
  read c_header s = Some h → cache n !! dataHash h = Some r → heap n !! r = Some b →
  OnDeliver n s ss = Some (mkNode (isLeader n) (alter (set_signatures ss) r (heap n))
    (delete (dataHash h) (cache n)) (queue n) (Some r) (proposedLastBlock n) (sigs n)
    (log n ++ [set_signatures ss b]), true).
Proof.
  intros Hs Hk Hb. unfold OnDeliver. rewrite Hs, Hk. cbn [mbind option_bind].
  by rewrite list_lookup_alter_eq, Hb.
Qed.

(** When a leader is given the same batch twice before the first is
    delivered, the second delivery fails the CHECK: the cache has one entry per
    data hash. *)
Theorem duplicate_batch_dies batch k ss ss' :
  root_of true batch = Some k → arr_ok k → (∀ s, is_Some (sign s)) →
  let n := (pushUnorderedBlock (pushUnorderedBlock (newNode true) batch).1 batch).1 in
  ∃ n1 s1 n2 n3 s2, OnRequestProposal n = (n1, Some s1) ∧ OnDeliver n1 s1 ss = Some (n2, true) ∧
    OnRequestProposal n2 = (n3, Some s2) ∧ OnDeliver n3 s2 ss' = None.
Proof using HZ sha_ok.
  intros Hr Ha Hsign. unfold root_of in Hr. apply fmap_Some in Hr as (mt & Hmt & ->).
  assert (pushUnorderedBlock (newNode true) batch = (mkNode true
    [mkBlock (mkHeader 0 (vreplicate 32 0%Z) (Root mt)) (mkBody batch) (mkExecuteResult [] []) (mkMetadata [] [])]
    {[Root mt := 0]} [0] None None newSignatureCache [], true)) as E.
  { unfold pushUnorderedBlock. cbn [isLeader newNode]. by rewrite Hmt. }
  cbv zeta. rewrite E. unfold pushUnorderedBlock. cbn [fst isLeader]. rewrite Hmt.
  cbn [fst heap cache queue deliveredBlock proposedLastBlock sigs log app length].
  rewrite insert_singleton_eq.
  set (b := mkBlock _ _ _ _).
  assert (arr_ok (vreplicate 32 0%Z)) as Hz.
  { unfold arr_ok. rewrite vec_to_list_replicate. by apply Forall_replicate. }
  destruct (Hsign (out c_header (header b))) as [d Hd].
  set (n1 := mkNode true [b; b] {[Root mt := 1]} [0; 1] None None newSignatureCache []).
  assert (header_ok (header b)) as Hok by (by split; [split|]).
  pose proof (request_eq n1 0 [1] b d eq_refl eq_refl eq_refl Hd) as R1.
  rewrite update_first in R1 by done.
  pose proof (deliver_eq (mkNode true [b; b] {[Root mt := 1]} [1] None (Some 0)
    (sig_push newSignatureCache (EmptyString, mkSignature ski d)) []) _ (header b) 1 b ss
    (read_out header_ok c_header _ header_codec_ok Hok) (lookup_singleton_eq _ _) eq_refl) as D1.
  set (n2 := mkNode _ _ (delete _ _) _ _ _ _ _) in D1.
  set (h2 := updateBlockHeaderWithProposedBlock n2 (header b)).
  destruct (Hsign (out c_header h2)) as [d2 Hd2].
  pose proof (request_eq n2 1 [] (set_signatures ss b) d2 eq_refl eq_refl eq_refl Hd2) as R2.
  eexists _, _, n2, _, _. split; [exact R1|]. split; [exact D1|]. split; [exact R2|].
  unfold OnDeliver. change (updateBlockHeaderWithProposedBlock n2 (header (set_signatures ss b))) with h2.
  rewrite (read_out header_ok c_header); [|apply header_codec_ok|].
  - cbn [cache n2]. change (dataHash h2) with (Root mt). change (dataHash (header b)) with (Root mt).
    by rewrite delete_singleton_eq, lookup_empty.
  - split; [split|]; [|apply sha_ok|done]. apply Z.mod_pos_bound. lia.
Qed.

(** A verification that times out leaves its signature behind: after it, the
    signature handed out for the next proposal is the one of the proposal that
    was refused. *)
Theorem stale_signature batch k s1 h1 s2 h2 d1 d2 :
  root_of false batch = Some k → read c_header s1 = Some h1 → read c_header s2 = Some h2 →
  dataHash h1 ≠ k → dataHash h2 = k → sign s1 = Some d1 → sign s2 = Some d2 →
  let n := (pushUnorderedBlock (newNode false) batch).1 in
  ∃ n1 n2 n3, OnVerifyProposal n s1 = (n1, false) ∧ OnVerifyProposal n1 s2 = (n2, true) ∧
    OnSignProposal n2 = (n3, Some (EmptyString, mkSignature ski d1)).
Proof.
  unfold root_of. intros (mt & Hmt & ->)%fmap_Some Hr1 Hr2 Hk1 Hk2 Hs1 Hs2.
  cbv zeta. unfold pushUnorderedBlock. cbn [isLeader newNode]. rewrite Hmt.
  cbn [fst heap cache queue deliveredBlock proposedLastBlock sigs log app length newNode].
  rewrite insert_empty. unfold OnVerifyProposal at 1, verify_begin. rewrite Hr1.
  unfold isDeliveredBlockHeaderValid, push_signature. cbn [deliveredBlock mbind option_bind].
  rewrite Hs1. cbn [mbind option_bind]. unfold verify_end. rewrite Hr1. cbn [cache].
  rewrite lookup_singleton_ne by congruence. do 3 eexists. split; [done|].
  unfold OnVerifyProposal, verify_begin. rewrite Hr2.
  unfold isDeliveredBlockHeaderValid, push_signature. cbn [deliveredBlock mbind option_bind].
  rewrite Hs2. cbn [mbind option_bind]. unfold verify_end. rewrite Hr2. cbn [cache].
  rewrite Hk2, lookup_singleton_eq. split; [done|]. done.
Qed.
End consensus.

(** ** Concrete nodes *)

#[local] Existing Instance LE.zpp.
#[local] Existing Instance LE.zpp_laws.

Definition any_sign (s : string) : option DigestString := Some (vreplicate 64 1%Z).
Definition any_verify (s : SignatureString) (h : HashString) : bool := true.
Definition one_batch : list Envelop := [sample_envelop].
Definition one_root : HashString := default zero_digest (root_of toy_sha any_verify true one_batch).
Definition one_block : Block :=
  mkBlock (mkHeader 0 (vreplicate 32 0%Z) one_root) (mkBody one_batch) (mkExecuteResult [] []) (mkMetadata [] []).
Definition one_node (leader : bool) : Node := (pushUnorderedBlock toy_sha any_verify (newNode leader) one_batch).1.


Lemma one_node_reachable leader :
  rtc (node_step toy_sha "ski" any_sign any_verify) (newNode leader, Idle) (one_node leader, Idle).
Proof.
  apply rtc_once.
  apply (step_push toy_sha "ski" any_sign any_verify (newNode leader) Idle one_batch).
  intros. apply lookup_empty.
Qed.


Lemma follower_accepts_leader_witness :
  ∃ s n1 n2, OnRequestProposal toy_sha "ski" any_sign (one_node true) = (n1, Some s) ∧
    OnVerifyProposal toy_sha "ski" any_sign (one_node false) s = (n2, true).
Proof.
  destruct (follower_accepts_leader toy_sha "ski" any_sign any_verify toy_sha_ok true false
    (one_node true) (one_node false) 0 [] one_block 0 [] []) as (s & h & n1 & n2 & n1' & n2' & b1 & b2 & H1 & H2 & _);
    [apply one_node_reachable|apply one_node_reachable|vm_compute; reflexivity..| |by intros s; eexists|].
  - intros ?%elem_of_nil. done.
  - exists s, n1, n2. split; [exact H1|exact H2].
Defined.
