(* ===== verification/RequestReplicator.v ===== *)
(** * Batches of requests

    [RequestReplicator] (include/peer/consensus/pbft/request_replicator.h): the
    leader collects requests into batches and sends every batch to the
    followers, which put it together again and hand it to the callback,
    [LocalConsensus::pushUnorderedBlock].

    ZeroMQ delivers the leader's messages in order.  The leader's batching loop
    is described by what each of its waits returns.  The callback changes a
    state [U]. *)

From S2P Require Import Prelude Zpp Proto Merkle MerkleProofs ProofGenerator LocalConsensus.

Section replicator.
Context `{ZP : Zpp} (maxBatchSize : nat).

(** ** The leader *)

(** The inner loop of [batchingFunction] over the results of the waits: the
    requests a wait returned, and whether the time is up after it.  [None] when
    the results end before the batch is complete. *)
Fixpoint batching_loop (batch : list Envelop) (serialized : string) (waits : list (list Envelop * bool))
    : option (list Envelop * string * list (list Envelop * bool)) :=
  match waits with
  | [] => None
  | (ret, timeUp) :: waits =>
      let batch := batch ++ ret in
      let serialized := fold_left (λ s e, s +:+ out c_envelop e) ret serialized in
      if bool_decide (length batch = 0) then batching_loop batch serialized waits
      else if bool_decide (length batch = maxBatchSize) then Some (batch, serialized, waits)
      else if timeUp then Some (batch, serialized, waits)
      else batching_loop batch serialized waits
  end.

(** Bulk dequeues never return more than there is room for. *)
Fixpoint waits_fit (n : nat) (waits : list (list Envelop * bool)) : Prop :=
  match waits with
  | [] => True
  | (ret, timeUp) :: waits =>
      n + length ret ≤ maxBatchSize ∧
      if bool_decide (n + length ret = 0) then waits_fit 0 waits
      else if bool_decide (n + length ret = maxBatchSize) then True
      else if timeUp then True
      else waits_fit (n + length ret) waits
  end.

(** ** The follower *)

Context {U : Type} (callback : U → list Envelop → U * bool).

(** [unordered] holds the first [currentBatchSize] requests; [listening] is
    false once the receive loop has returned. *)
Record Follower := mkFollower { listening : bool; unordered : list Envelop; user : U }.

Definition batchingFunc (f : Follower) : Follower :=
  if bool_decide (length (unordered f) = 0) then f else
  match callback (user f) (unordered f) with
  | (s, true) => mkFollower (listening f) [] s
  | (s, false) => mkFollower false (unordered f) s
  end.

(** The loop over a message; [room] is what is left of the batch. *)
Fixpoint message_loop (room : nat) (msg : string) (f : Follower) : Follower :=
  match msg with
  | EmptyString => batchingFunc f
  | _ =>
      match room with
      | 0 => f
      | S room =>
          match inp c_envelop msg with
          | None => f
          | Some (e, rest) => message_loop room rest (mkFollower (listening f) (unordered f ++ [e]) (user f))
          end
      end
  end.

Definition receive (f : Follower) (msg : string) : Follower :=
  if listening f then message_loop (maxBatchSize - length (unordered f)) msg f else f.

(** ** The follower sees the leader's batches *)

Definition batch_message (batch : list Envelop) : string :=
  foldr (λ e s, out c_envelop e +:+ s) EmptyString batch.

Lemma fold_message batch s :
  fold_left (λ s e, s +:+ out c_envelop e) batch s = s +:+ batch_message batch.
Proof.
  revert s. induction batch as [|e batch IH]; intros s; cbn [fold_left batch_message foldr];
    [by rewrite string_app_nil_r|]. by rewrite IH, string_app_assoc.
Qed.

Lemma batch_message_app a b : batch_message (a ++ b) = batch_message a +:+ batch_message b.
Proof.
  induction a as [|e a IH]; [done|]. cbn [app batch_message foldr].
  unfold batch_message in IH. by rewrite IH, string_app_assoc.
Qed.

(** What the leader sends: a batch that is neither empty nor too large, and its
    requests one after the other. *)
Lemma batching_loop_spec waits : ∀ batch batch' s' waits',
  waits_fit (length batch) waits →
  batching_loop batch (batch_message batch) waits = Some (batch', s', waits') →
  batch' ≠ [] ∧ length batch' ≤ maxBatchSize ∧ s' = batch_message batch'.
Proof.
  induction waits as [|[ret up] waits IH]; intros batch batch' s' waits'; [done|].
  cbn [batching_loop waits_fit]. intros [Hfit Hrest].
  rewrite fold_message, <-batch_message_app. rewrite <-length_app in Hfit, Hrest.
  destruct (decide (length (batch ++ ret) = 0)) as [H0|H0].
  - rewrite (bool_decide_true _ H0) in *. apply IH. by rewrite H0.
  - rewrite (bool_decide_false _ H0) in *.
    assert (batch ++ ret ≠ []) by (by intros E; rewrite E in H0).
    destruct (decide (length (batch ++ ret) = maxBatchSize)) as [Hm|Hm].
    + rewrite (bool_decide_true _ Hm). intros [= <- <- <-]. auto.
    + rewrite (bool_decide_false _ Hm) in *.
      destruct up; [intros [= <- <- <-]; auto|]. by apply IH.
Qed.

Section follow.
Context `{HZ : !ZppLaws ZP}.

Lemma envelop_out_nonempty e : envelop_ok e → out c_envelop e ≠ EmptyString.
Proof.
  intros He. assert (∃ e', envelop_ok e' ∧ e ≠ e') as (e' & He' & Hne).
  { destruct He as [Hp Hs]. destruct (decide (payload e = EmptyString)) as [E|E].
    - exists (mkEnvelop "x" (signature e)). split; [by split; [vm_compute|]|].
      intros E'. by rewrite E' in E.
    - exists (mkEnvelop EmptyString (signature e)). split; [by split; [vm_compute|]|].
      intros E'. by rewrite E' in E. }
  by eapply (out_nonempty envelop_ok); [apply envelop_codec_ok|..].
Qed.

Lemma message_loop_batch batch : ∀ room f,
  Forall envelop_ok batch → length batch ≤ room →
  message_loop room (batch_message batch) f =
  batchingFunc (mkFollower (listening f) (unordered f ++ batch) (user f)).
Proof using HZ.
  induction batch as [|e batch IH]; intros room f Hok Hl.
  - cbn. destruct room; cbn; rewrite app_nil_r; by destruct f.
  - apply Forall_cons in Hok as [He Hok]. destruct room as [|room]; [simpl in Hl; lia|].
    cbn [message_loop]. destruct (batch_message (e :: batch)) as [|a r] eqn:Hm.
    { exfalso. apply (envelop_out_nonempty e He). cbn [batch_message foldr] in Hm.
      by destruct (out c_envelop e). }
    rewrite <-Hm. cbn [batch_message foldr]. rewrite (envelop_codec_ok e _ He).
    cbn [length] in Hl. rewrite IH by (done || lia). cbn [listening unordered user].
    by rewrite <-app_assoc.
Qed.

(** One message with a batch: the callback is called with it. *)
Lemma receive_batch s batch :
  Forall envelop_ok batch → batch ≠ [] → length batch ≤ maxBatchSize →
  receive (mkFollower true [] s) (batch_message batch) =
  match callback s batch with
  | (s', true) => mkFollower true [] s'
  | (s', false) => mkFollower false batch s'
  end.
Proof using HZ.
  intros Hok Hne Hl. unfold receive. cbn [listening unordered length]. rewrite Nat.sub_0_r.
  rewrite message_loop_batch by done. unfold batchingFunc. cbn [listening unordered user app].
  rewrite bool_decide_false; [done|]. by destruct batch.
Qed.

Lemma receive_deaf f msgs : listening f = false → fold_left receive msgs f = f.
Proof.
  intros Hf. induction msgs as [|m msgs IH]; [done|]. cbn [fold_left]. unfold receive at 2. by rewrite Hf.
Qed.
End follow.
End replicator.
Arguments Follower U : clear implicits.
Arguments mkFollower {U}.

(** ** With local consensus *)

Section group.
Context `{ZP : Zpp} `{HZ : !ZppLaws ZP} (sha : string → HashString) (maxBatchSize : nat).
Context (verifySig : SignatureString → HashString → bool).

Notation push := (pushUnorderedBlock sha verifySig).
Notation root_of := (root_of sha verifySig).

(** The callback of the node. *)
Definition batchCallback (n : Node) (batch : list Envelop) : Node * bool := push n batch.

Definition signed (batch : list Envelop) : Prop :=
  ∀ e, e ∈ batch → verifySig (signature e) (sha (payload e)) = true.

Definition good_batch (batch : list Envelop) : Prop :=
  batch ≠ [] ∧ length batch ≤ maxBatchSize ∧ Forall envelop_ok batch.

Lemma digests_same batch :
  signed batch →
  mapM (envelop_Digest sha) ((λ e, mkEDB e (Some verifySig)) <$> batch) =
  mapM (envelop_Digest sha) ((λ e, mkEDB e None) <$> batch).
Proof.
  induction batch as [|e batch IH]; intros Hs; [done|]. rewrite !fmap_cons. cbn [mapM].
  assert (envelop_Digest sha (mkEDB e (Some verifySig)) = Some (sha (payload e))) as ->.
  { unfold envelop_Digest. cbn. by rewrite (Hs e) by left. }
  cbn [mbind option_bind]. rewrite IH; [done|]. intros x Hx. apply Hs. by right.
Qed.

(** Leader and follower compute one root. *)
Lemma root_same batch : signed batch → root_of false batch = root_of true batch.
Proof.
  intros Hs. unfold LocalConsensus.root_of, UserRequest_GenerateMerkleTree. f_equal. unfold New.
  assert (leafGen (envelop_Digest sha) (request_blocks batch (Some verifySig)) =
          leafGen (envelop_Digest sha) (request_blocks batch None)) as El.
  { unfold leafGen, request_blocks. pose proof (digests_same batch Hs) as E.
    destruct batch as [|e [|e' batch]]; [done| |exact E].
    csimpl in *. unfold envelop_Digest at 1. cbn. by rewrite (Hs e) by left. }
  assert (length (request_blocks batch (Some verifySig)) = length (request_blocks batch None)) as El2
    by (by destruct batch as [|e [|e' batch]]; csimpl; rewrite ?length_fmap).
  by rewrite El, El2.
Qed.

Lemma push_good n batch :
  good_batch batch → (isLeader n = false → signed batch) →
  ∃ k, root_of true batch = Some k ∧ (push n batch).2 = true ∧ is_Some (cache (push n batch).1 !! k) ∧
    isLeader (push n batch).1 = isLeader n.
Proof.
  intros (Hne & _ & _) Hs.
  destruct (request_tree_exists sha batch None ModeProofGenAndTreeBuild Hne) as (mt & Hmt & _); [done|].
  assert (root_of (isLeader n) batch = Some (Root mt)) as Hr.
  { destruct (isLeader n); [|rewrite root_same by auto]; unfold LocalConsensus.root_of; by rewrite Hmt. }
  exists (Root mt). split; [unfold LocalConsensus.root_of; by rewrite Hmt|].
  unfold pushUnorderedBlock. unfold LocalConsensus.root_of in Hr.
  destruct (UserRequest_GenerateMerkleTree sha batch (if isLeader n then None else Some verifySig) _) as [mt'|];
    [|done]. injection Hr as Hr. cbn [fst snd cache isLeader]. rewrite Hr.
  split; [done|]. split; [|done]. rewrite lookup_insert_eq. done.
Qed.





(** One request with a bad signature silences the group: the leader, which
    does not check signatures, accepts the batch, but every follower that
    receives it leaves its receive loop, and no later message changes it. *)
Theorem bad_signature_silences nl nf batch e msgs :
  isLeader nl = true → isLeader nf = false → good_batch batch → e ∈ batch →
  verifySig (signature e) (sha (payload e)) = false →
  (push nl batch).2 = true ∧
  fold_left (receive maxBatchSize batchCallback) (batch_message batch :: msgs) (mkFollower true [] nf) =
    mkFollower false batch nf.
Proof using HZ.
  intros Hl Hf Hb He Hv. split.
  { destruct (push_good nl batch Hb) as (k & _ & ? & _); [congruence|done]. }
  cbn [fold_left].
  rewrite (receive_batch maxBatchSize batchCallback nf batch) by apply Hb. unfold batchCallback, pushUnorderedBlock. rewrite Hf.
  assert (UserRequest_GenerateMerkleTree sha batch (Some verifySig) ModeProofGenAndTreeBuild = None) as ->.
  { unfold UserRequest_GenerateMerkleTree. apply eq_None_not_Some. intros [_ Hd]%merkle_new_total.
    destruct (Hd (mkEDB e (Some verifySig)) (request_block_in _ _ _ He)) as [d Hd'].
    unfold envelop_Digest in Hd'. cbn in Hd'. by rewrite Hv in Hd'. }
  by apply receive_deaf.
Qed.
End group.

(** ** A concrete group *)

#[local] Existing Instance LE.zpp.
#[local] Existing Instance LE.zpp_laws.

Definition other_envelop : Envelop := mkEnvelop "other" (mkSignature "ski" (vreplicate 64 6%Z)).

Lemma sample_good : good_batch 5 [sample_envelop; other_envelop] ∧ good_batch 5 [other_envelop].
Proof. split; (split; [done|]; split; [simpl; lia|]; ok_solve). Qed.


Lemma bad_signature_silences_witness :
  (pushUnorderedBlock toy_sha (λ _ _, false) (newNode true) [other_envelop]).2 = true ∧
  fold_left (receive 5 (batchCallback toy_sha (λ _ _, false)))
    [batch_message [other_envelop]; batch_message [sample_envelop]] (mkFollower true [] (newNode false)) =
  mkFollower false [other_envelop] (newNode false).
Proof.
  apply (bad_signature_silences toy_sha 5 (λ _ _, false) (newNode true) (newNode false) [other_envelop]
    other_envelop); [done|done|apply sample_good|by left|done].
Defined.
