(* ===== verification/Fragments.v ===== *)
(** * Sharing out fragments between groups

    [FragmentUtil] (include/peer/replicator/v2/fragment_util.h): into how many
    erasure-coded fragments a block is cut for a remote group, which node sends
    which fragments to which remote node, and how many of them are parity.

    Node counts and fragment numbers are natural numbers; the product of two
    node counts fits an [int].  The loop of [LCM] takes a bound on its number of
    iterations, and the sum of the counts is enough. *)

From S2P Require Import Prelude.

(** ** Operations *)

Fixpoint lcm_loop (fuel hcf temp : nat) : option nat :=
  if bool_decide (hcf = temp) then Some hcf else
  match fuel with
  | 0 => None
  | S fuel =>
      if bool_decide (temp < hcf) then lcm_loop fuel (hcf - temp) temp
      else lcm_loop fuel hcf (temp - hcf)
  end.

Definition LCM (n1 n2 : nat) : option nat := hcf ← lcm_loop (n1 + n2) n1 n2; Some (n1 * n2 / hcf).

Record FragmentUtil := mkFU {
  _localServerCount : nat;
  _remoteServerCount : nat;
  _totalFragments : nat;
  _localFPS : nat;
  _remoteFPS : nat
}.

Definition fu_reset (localServerCount remoteServerCount : nat) : option FragmentUtil :=
  total ← LCM localServerCount remoteServerCount;
  Some (mkFU localServerCount remoteServerCount total
    (total / localServerCount) (total / remoteServerCount)).

Record FragmentConfig := mkFC {
  startFragmentId : nat; endFragmentId : nat; fc_localId : nat; fc_remoteId : nat
}.

Definition sender_step (fu : FragmentUtil) (localId : nat) (s : nat * list FragmentConfig) (i : nat)
    : nat * list FragmentConfig :=
  if bool_decide (i mod _remoteFPS fu = _remoteFPS fu - 1)
  then (i + 1, s.2 ++ [mkFC s.1 (i + 1) localId ((i + 1 - 1) / _remoteFPS fu)])
  else s.

Definition getSenderConfig (fu : FragmentUtil) (localId : nat) : list FragmentConfig :=
  let start := _localFPS fu * localId in
  let stop := _localFPS fu * (localId + 1) in
  let s := fold_left (sender_step fu localId) (seq start (stop - start)) (start, []) in
  if bool_decide (s.1 ≠ stop) then s.2 ++ [mkFC s.1 stop localId ((stop - 1) / _remoteFPS fu)] else s.2.

Record BFGConfig := mkBFG { dataShardCnt : nat; parityShardCnt : nat }.

Definition getBFGConfig (fu : FragmentUtil) : BFGConfig :=
  let localByzantine := (_localServerCount fu - 1) / 3 in
  let remoteByzantine := (_remoteServerCount fu - 1) / 3 in
  let parity := remoteByzantine * _remoteFPS fu + localByzantine * _localFPS fu in
  mkBFG (_totalFragments fu - parity) parity.

(** [GenerateAllConfig] for the regions with their node counts. *)
Definition GenerateAllConfig (regionNodesCount : list (nat * nat)) (localRegionId localId : nat)
    : option (list (nat * (BFGConfig * list FragmentConfig))) :=
  n ← snd <$> head (filter (λ x, x.1 = localRegionId) regionNodesCount);
  mapM (λ x, fu ← fu_reset n x.2; Some (x.1, (getBFGConfig fu, getSenderConfig fu localId)))
    (filter (λ x, x.1 ≠ localRegionId) regionNodesCount).

(** The fragments of a configuration. *)
Definition fragments (c : FragmentConfig) : list nat :=
  seq (startFragmentId c) (endFragmentId c - startFragmentId c).

(** ** The least common multiple *)

Lemma lcm_loop_gcd fuel : ∀ a b,
  0 < a → 0 < b → a + b ≤ fuel → lcm_loop fuel a b = Some (Nat.gcd a b).
Proof.
  induction fuel as [|fuel IH]; intros a b Ha Hb Hf; [lia|]. cbn [lcm_loop].
  destruct (decide (a = b)) as [->|Hne]; [by rewrite bool_decide_true, Nat.gcd_diag|].
  rewrite bool_decide_false by done. case_bool_decide as Hlt.
  - rewrite IH by lia. f_equal. rewrite (Nat.gcd_comm (a - b)), (Nat.gcd_comm a).
    replace a with (a - b + 1 * b) at 2 by lia. by rewrite Nat.gcd_add_mult_diag_r.
  - rewrite IH by lia. f_equal. replace b with (b - a + 1 * a) at 2 by lia.
    by rewrite Nat.gcd_add_mult_diag_r.
Qed.

Lemma LCM_lcm n1 n2 : 0 < n1 → 0 < n2 → LCM n1 n2 = Some (Nat.lcm n1 n2).
Proof.
  intros H1 H2. unfold LCM. rewrite lcm_loop_gcd by lia. cbn [mbind option_bind].
  unfold Nat.lcm. f_equal. symmetry.
  destruct (Nat.gcd_divide_r n1 n2) as [k Hk].
  assert (Nat.gcd n1 n2 ≠ 0) as Hg by (intros ?%Nat.gcd_eq_0_l; lia).
  rewrite Hk at 1 3. rewrite Nat.div_mul, Nat.mul_assoc, Nat.div_mul; done.
Qed.

(** The subtraction loop of [LCM] ends for positive node counts, after at
    most as many iterations as the counts add up to, and gives the least common
    multiple; when exactly one count is zero it never ends. *)
Theorem LCM_terminates n1 n2 :
  (0 < n1 → 0 < n2 → LCM n1 n2 = Some (Nat.lcm n1 n2)) ∧
  (∀ fuel, 0 < n1 → lcm_loop fuel n1 0 = None ∧ lcm_loop fuel 0 n1 = None).
Proof.
  split; [apply LCM_lcm|]. intros fuel Hn. induction fuel as [|fuel [IH1 IH2]]; cbn [lcm_loop].
  - by rewrite !bool_decide_false by lia.
  - rewrite !(bool_decide_false (n1 = 0)), !(bool_decide_false (0 = n1)) by lia.
    rewrite bool_decide_true by lia. rewrite bool_decide_false by lia.
    by rewrite !Nat.sub_0_r.
Qed.

(** ** Shares *)

(** A set-up with positive node counts. *)
Record fu_ok (fu : FragmentUtil) : Prop := {
  fu_local : 0 < _localFPS fu;
  fu_remote : 0 < _remoteFPS fu;
  fu_total_local : _localServerCount fu * _localFPS fu = _totalFragments fu;
  fu_total_remote : _remoteServerCount fu * _remoteFPS fu = _totalFragments fu
}.

Lemma fu_reset_ok n1 n2 :
  0 < n1 → 0 < n2 → ∃ fu, fu_reset n1 n2 = Some fu ∧ fu_ok fu ∧
    _localServerCount fu = n1 ∧ _remoteServerCount fu = n2 ∧ _totalFragments fu = Nat.lcm n1 n2.
Proof.
  intros H1 H2. unfold fu_reset. rewrite LCM_lcm by done. cbn [mbind option_bind].
  eexists. split; [done|]. split; [|done].
  destruct (Nat.divide_lcm_l n1 n2) as [k Hk]. destruct (Nat.divide_lcm_r n1 n2) as [j Hj].
  assert (Nat.lcm n1 n2 ≠ 0) as Hl by (intros ?%Nat.lcm_eq_0; lia).
  split; cbn.
  - rewrite Hk, Nat.div_mul by lia. destruct k; lia.
  - rewrite Hj, Nat.div_mul by lia. destruct j; lia.
  - rewrite Hk at 1. rewrite Nat.div_mul by lia. lia.
  - rewrite Hj at 1. rewrite Nat.div_mul by lia. lia.
Qed.

Section share.
Context (fu : FragmentUtil) (Hfu : fu_ok fu).
Notation R := (_remoteFPS fu).

(** Every fragment of the configuration belongs to its remote node. *)
Definition config_ok (localId : nat) (c : FragmentConfig) : Prop :=
  startFragmentId c < endFragmentId c ∧ fc_localId c = localId ∧
  ∀ i, i ∈ fragments c → i / R = fc_remoteId c.

Lemma same_block i : i mod R ≠ R - 1 → (i + 1) / R = i / R.
Proof using Hfu.
  intros Hm. pose proof (fu_remote _ Hfu). pose proof (Nat.div_mod_eq i R).
  pose proof (Nat.mod_upper_bound i R ltac:(lia)).
  symmetry. apply (Nat.div_unique _ _ _ (i mod R + 1)); lia.
Qed.

Lemma seq_split a n m : n ≤ m → seq a m = seq a n ++ seq (a + n) (m - n).
Proof. intros. rewrite <-seq_app. f_equal. lia. Qed.

(** The loop after [k] fragments: what has been given out is a partition, and
    the rest belongs to one remote node. *)
Lemma sender_loop localId start k :
  let s := fold_left (sender_step fu localId) (seq start k) (start, []) in
  start ≤ s.1 ≤ start + k ∧ concat (fragments <$> s.2) = seq start (s.1 - start) ∧
  Forall (config_ok localId) s.2 ∧ ∀ i, s.1 ≤ i ≤ start + k → i / R = s.1 / R.
Proof using Hfu.
  induction k as [|k IH]; cbv zeta in *.
  - cbn [seq fold_left fst snd fmap list_fmap concat]. rewrite Nat.sub_diag.
    split; [lia|]. split; [done|]. split; [constructor|]. intros i Hi. f_equal. lia.
  - rewrite seq_S, fold_left_app. cbn [fold_left].
    destruct (fold_left (sender_step fu localId) (seq start k) (start, [])) as [ns cs].
    cbn [fst snd] in IH. destruct IH as (Hb & Hc & Hok & Hr). unfold sender_step. cbn [fst snd].
    case_bool_decide as Hm; cbn [fst snd].
    + split; [lia|]. split.
      { rewrite fmap_app, concat_app, Hc. cbn [fmap list_fmap concat fragments startFragmentId endFragmentId].
        rewrite app_nil_r. rewrite (seq_split start (ns - start) (start + k + 1 - start)) by lia.
        unfold fragments. cbn [startFragmentId endFragmentId]. f_equal. f_equal; lia. }
      split.
      { apply Forall_app. split; [done|]. apply Forall_singleton. split; cbn; [lia|]. split; [done|].
        intros i Hi%elem_of_seq. cbn in Hi. replace (start + k + 1 - 1) with (start + k) by lia.
        rewrite (Hr i), (Hr (start + k)) by lia. done. }
      intros i Hi. f_equal. lia.
    + split; [lia|]. split; [done|]. split; [done|]. intros i Hi.
      destruct (decide (i = start + S k)) as [->|]; [|apply Hr; lia].
      rewrite Nat.add_succ_r, <-Nat.add_1_r, same_block by done. apply Hr. lia.
Qed.

Lemma sender_config localId :
  concat (fragments <$> getSenderConfig fu localId) = seq (_localFPS fu * localId) (_localFPS fu) ∧
  Forall (config_ok localId) (getSenderConfig fu localId).
Proof using Hfu.
  unfold getSenderConfig. cbv zeta. set (start := _localFPS fu * localId).
  set (stop := _localFPS fu * (localId + 1)). pose proof (fu_local _ Hfu) as HL.
  assert (stop = start + _localFPS fu) as Hs by (unfold stop, start; lia).
  pose proof (sender_loop localId start (stop - start)) as Hl. cbv zeta in Hl.
  destruct (fold_left _ _ _) as [ns cs]. cbn [fst snd] in Hl |- *. destruct Hl as (Hb & Hc & Hok & Hr).
  case_bool_decide as Hn.
  - split.
    + rewrite fmap_app, concat_app, Hc. cbn [fmap list_fmap concat]. rewrite app_nil_r.
      rewrite (seq_split start (ns - start) (_localFPS fu)) by lia.
      unfold fragments. cbn [startFragmentId endFragmentId]. f_equal. f_equal; lia.
    + apply Forall_app. split; [done|]. apply Forall_singleton. split; cbn; [lia|]. split; [done|].
      intros i Hi%elem_of_seq. cbn in Hi. rewrite (Hr i), (Hr (stop - 1)) by lia. done.
  - split; [|done]. rewrite Hc, Hn. f_equal. lia.
Qed.

Lemma all_shares k :
  concat ((λ localId, concat (fragments <$> getSenderConfig fu localId)) <$> seq 0 k) = seq 0 (k * _localFPS fu).
Proof using Hfu.
  induction k as [|k IH]; [done|]. rewrite seq_S, fmap_app, concat_app, IH.
  cbn [fmap list_fmap concat Nat.add]. rewrite (proj1 (sender_config k)), app_nil_r.
  rewrite Nat.mul_succ_l, seq_app. f_equal. f_equal; lia.
Qed.

(** ** Loss *)

Lemma NoDup_incl_length (l l' : list nat) : NoDup l → (∀ x, x ∈ l → x ∈ l') → length l ≤ length l'.
Proof. intros Hn Hi. apply submseteq_length, NoDup_submseteq; auto. Qed.

(** The fragments of the given nodes, at [fps] per node. *)
Lemma share_size fps nodes : length (nodes ≫= λ b, seq (b * fps) fps) = length nodes * fps.
Proof.
  induction nodes as [|b nodes IH]; [done|]. cbn [mbind list_bind]. rewrite length_app, length_seq.
  cbn [length]. rewrite IH. lia.
Qed.

Lemma in_share fps nodes i : 0 < fps → i / fps ∈ nodes → i ∈ nodes ≫= λ b, seq (b * fps) fps.
Proof.
  intros Hf Hi. apply list_elem_of_bind. exists (i / fps). split; [|done]. apply elem_of_seq.
  pose proof (Nat.div_mod_eq i fps). pose proof (Nat.mod_upper_bound i fps ltac:(lia)). lia.
Qed.

(** The fragments that neither a bad sender nor a bad receiver handles. *)
Definition surviving (badLocal badRemote : list nat) : list nat :=
  filter (λ i, i / _localFPS fu ∉ badLocal ∧ i / R ∉ badRemote) (seq 0 (_totalFragments fu)).

Lemma surviving_size badLocal badRemote :
  _totalFragments fu ≤
  length (surviving badLocal badRemote) + length badLocal * _localFPS fu + length badRemote * R.
Proof using Hfu.
  rewrite <-(length_seq (_totalFragments fu) 0) at 1.
  rewrite <-(share_size (_localFPS fu) badLocal), <-(share_size R badRemote), <-!length_app.
  apply NoDup_incl_length; [apply NoDup_seq|]. intros i Hi. rewrite !elem_of_app.
  destruct (decide (i / _localFPS fu ∈ badLocal)) as [H1|H1];
    [left; right; apply in_share; [apply Hfu|done]|].
  destruct (decide (i / R ∈ badRemote)) as [H2|H2]; [right; apply in_share; [apply Hfu|done]|].
  left. left. by apply list_elem_of_filter.
Qed.
Lemma surviving_data badLocal badRemote : 0 < _totalFragments fu →
  length badLocal ≤ (_localServerCount fu - 1) / 3 → length badRemote ≤ (_remoteServerCount fu - 1) / 3 →
  dataShardCnt (getBFGConfig fu) ≤ length (surviving badLocal badRemote) ∧
  1 ≤ dataShardCnt (getBFGConfig fu) ∧
  dataShardCnt (getBFGConfig fu) + parityShardCnt (getBFGConfig fu) = _totalFragments fu.
Proof using Hfu.
  intros Ht HbL HbR.
  pose proof (fu_local _ Hfu) as HL. pose proof (fu_remote _ Hfu) as HR.
  pose proof (fu_total_local _ Hfu) as HTL. pose proof (fu_total_remote _ Hfu) as HTR.
  pose proof (surviving_size badLocal badRemote) as Hs.
  unfold getBFGConfig. cbn [dataShardCnt parityShardCnt].
  pose proof (Nat.Div0.mul_div_le (_localServerCount fu - 1) 3).
  pose proof (Nat.Div0.mul_div_le (_remoteServerCount fu - 1) 3).
  set (x := (_localServerCount fu - 1) / 3) in *. set (y := (_remoteServerCount fu - 1) / 3) in *.
  assert (0 < _localServerCount fu ∧ 0 < _remoteServerCount fu) as [? ?] by (split; apply Nat.neq_0_lt_0; intros E; rewrite E in *; lia).
  assert (3 * (x * _localFPS fu) + _localFPS fu ≤ _totalFragments fu) by nia.
  assert (3 * (y * _remoteFPS fu) + _remoteFPS fu ≤ _totalFragments fu) by nia.
  assert (length badLocal * _localFPS fu ≤ x * _localFPS fu) by (by apply Nat.mul_le_mono_r).
  assert (length badRemote * _remoteFPS fu ≤ y * _remoteFPS fu) by (by apply Nat.mul_le_mono_r).
  lia.
Qed.

(** The shares of the correct senders that go to correct receivers. *)
Definition surviving_configs (badLocal badRemote : list nat) : list FragmentConfig :=
  filter (λ c, fc_remoteId c ∉ badRemote)
    (filter (λ l, l ∉ badLocal) (seq 0 (_localServerCount fu)) ≫= getSenderConfig fu).

Lemma bind_filter_sublist {A B} (P : A → Prop) `{!∀ x, Decision (P x)} (f : A → list B) l :
  (filter P l ≫= f) `sublist_of` (l ≫= f).
Proof using Type.
  induction l as [|x l IH]; [done|]. rewrite filter_cons. case_decide; cbn [mbind list_bind].
  - by apply sublist_app.
  - by apply sublist_inserts_l.
Qed.

Lemma bind_bind {A B C} (f : A → list B) (h : B → list C) l : (l ≫= f) ≫= h = l ≫= λ x, f x ≫= h.
Proof using Type. induction l as [|x l IH]; [done|]. cbn [mbind list_bind]. by rewrite bind_app, IH. Qed.

Lemma surviving_configs_spec badLocal badRemote :
  NoDup (surviving_configs badLocal badRemote ≫= fragments) ∧
  length (surviving badLocal badRemote) ≤ length (surviving_configs badLocal badRemote ≫= fragments) ∧
  Forall (λ c, startFragmentId c < endFragmentId c ≤ _totalFragments fu) (surviving_configs badLocal badRemote).
Proof using Hfu.
  pose proof (fu_local _ Hfu) as HL. pose proof (fu_total_local _ Hfu) as HTL.
  assert (∀ l, concat (fragments <$> l) = l ≫= fragments) as Hcat.
  { intros l. induction l as [|c l IH]; [done|]. cbn [fmap list_fmap concat mbind list_bind]. by rewrite IH. }
  assert (NoDup (surviving_configs badLocal badRemote ≫= fragments)) as Hnd.
  { eapply sublist_NoDup; [|apply bind_filter_sublist]. rewrite bind_bind.
    eapply sublist_NoDup; [|apply bind_filter_sublist]. pose proof (NoDup_seq 0 (_localServerCount fu * _localFPS fu)) as Hn.
    rewrite <-all_shares in Hn. revert Hn. generalize (seq 0 (_localServerCount fu)) as l. intros l.
    cut (concat ((λ localId, concat (fragments <$> getSenderConfig fu localId)) <$> l) =
      l ≫= λ x, getSenderConfig fu x ≫= fragments); [by intros ->|].
    induction l as [|x l IH]; [done|]. cbn [fmap list_fmap concat mbind list_bind]. by rewrite IH, Hcat. }
  split; [done|]. split.
  - apply NoDup_incl_length; [apply NoDup_filter, NoDup_seq|].
    intros i ([HnL HnR] & Hi%elem_of_seq)%list_elem_of_filter.
    set (l := i / _localFPS fu). pose proof (Nat.div_mod_eq i (_localFPS fu)).
    pose proof (Nat.mod_upper_bound i (_localFPS fu) ltac:(lia)).
    assert (l < _localServerCount fu) as Hl by (subst l; apply Nat.Div0.div_lt_upper_bound; lia).
    destruct (sender_config l) as [Hc Hall]. rewrite Hcat in Hc.
    assert (i ∈ getSenderConfig fu l ≫= fragments) as (c & Hic & Hcl)%list_elem_of_bind.
    { rewrite Hc. apply elem_of_seq. subst l. lia. }
    rewrite Forall_forall in Hall. destruct (Hall c Hcl) as (_ & _ & Hr).
    apply list_elem_of_bind. exists c. split; [done|]. apply list_elem_of_filter.
    split; [by rewrite <-(Hr i Hic)|]. apply list_elem_of_bind. exists l. split; [done|].
    apply list_elem_of_filter. split; [done|]. apply elem_of_seq. lia.
  - apply Forall_forall. intros c (_ & (l & Hcl & [_ Hl%elem_of_seq]%list_elem_of_filter)%list_elem_of_bind)%list_elem_of_filter.
    destruct (sender_config l) as [Hc Hall]. rewrite Hcat in Hc. rewrite Forall_forall in Hall.
    destruct (Hall c Hcl) as (Hlt & _ & _). split; [done|].
    assert (endFragmentId c - 1 ∈ getSenderConfig fu l ≫= fragments) as Hin.
    { apply list_elem_of_bind. exists c. split; [|done]. apply elem_of_seq. lia. }
    rewrite Hc in Hin. apply elem_of_seq in Hin. nia.
Qed.
End share.

(** The shares of the nodes of the local group partition the fragments: the
    nodes' configurations, in order, list every fragment exactly once; no
    configuration is empty, and each goes to the remote node that owns all of
    its fragments. *)
Theorem shares_partition n1 n2 fu :
  0 < n1 → 0 < n2 → fu_reset n1 n2 = Some fu →
  concat ((λ localId, concat (fragments <$> getSenderConfig fu localId)) <$> seq 0 n1) =
    seq 0 (Nat.lcm n1 n2) ∧
  ∀ localId c, localId < n1 → c ∈ getSenderConfig fu localId →
    startFragmentId c < endFragmentId c ∧ fc_localId c = localId ∧ fc_remoteId c < n2 ∧
    ∀ i, i ∈ fragments c → i / _remoteFPS fu = fc_remoteId c.
Proof.
  intros H1 H2 Hf. destruct (fu_reset_ok n1 n2 H1 H2) as (fu' & E & Hok & EL & ER & ET).
  rewrite Hf in E. injection E as <-.
  pose proof (fu_local _ Hok) as HL. pose proof (fu_remote _ Hok) as HR.
  pose proof (fu_total_local _ Hok) as HTL. pose proof (fu_total_remote _ Hok) as HTR. split.
  - by rewrite (all_shares fu Hok), <-ET, <-HTL, EL.
  - intros localId c Hl Hc. destruct (sender_config fu Hok localId) as [Hcat Hall].
    rewrite Forall_forall in Hall. destruct (Hall c Hc) as (Hne & Hid & Hr).
    split; [done|]. split; [done|]. split; [|done].
    assert (startFragmentId c ∈ fragments c) as Hs by (apply elem_of_seq; lia).
    rewrite <-(Hr _ Hs). apply Nat.Div0.div_lt_upper_bound.
    assert (startFragmentId c ∈ seq (_localFPS fu * localId) (_localFPS fu)) as Hin.
    { rewrite <-Hcat. apply concat_fmap_elem. eauto. }
    apply elem_of_seq in Hin. rewrite (Nat.mul_comm _ n2), <-ER, HTR, <-HTL, EL. nia.
Qed.

(** With at most a third of the nodes of either group faulty, at least
    [dataShardCnt] fragments are sent by a correct node to a correct node;
    there is at least one data fragment, and data and parity fragments add up
    to all of them. *)
Theorem enough_fragments_survive n1 n2 fu badLocal badRemote :
  0 < n1 → 0 < n2 → fu_reset n1 n2 = Some fu →
  length badLocal ≤ (n1 - 1) / 3 → length badRemote ≤ (n2 - 1) / 3 →
  dataShardCnt (getBFGConfig fu) ≤ length (surviving fu badLocal badRemote) ∧
  1 ≤ dataShardCnt (getBFGConfig fu) ∧
  dataShardCnt (getBFGConfig fu) + parityShardCnt (getBFGConfig fu) = _totalFragments fu.
Proof.
  intros H1 H2 Hf HbL HbR. destruct (fu_reset_ok n1 n2 H1 H2) as (fu' & E & Hok & EL & ER & ET).
  rewrite Hf in E. injection E as <-.
  destruct (surviving_data fu Hok badLocal badRemote) as (? & ? & ?); rewrite ?EL, ?ER; try done.
  rewrite ET. apply Nat.neq_0_lt_0. intros ?%Nat.lcm_eq_0. lia.
Qed.

(** ** A group of four and a group of seven *)

Lemma LCM_terminates_witness : LCM 4 7 = Some 28 ∧ lcm_loop 100 4 0 = None.
Proof.
  split; [apply (proj1 (LCM_terminates 4 7)); lia|apply (proj2 (LCM_terminates 4 7) 100); lia].
Defined.

Definition fu47 : FragmentUtil := mkFU 4 7 28 7 4.

Lemma shares_partition_witness :
  concat ((λ localId, concat (fragments <$> getSenderConfig fu47 localId)) <$> seq 0 4) = seq 0 28.
Proof. apply (shares_partition 4 7 fu47); [lia|lia|reflexivity]. Defined.

Lemma enough_fragments_survive_witness :
  dataShardCnt (getBFGConfig fu47) = 13 ∧ 13 ≤ length (surviving fu47 [2] [0; 6]).
Proof.
  split; [reflexivity|].
  apply (enough_fragments_survive 4 7 fu47 [2] [0; 6]); [lia|lia|reflexivity|vm_compute; lia|vm_compute; lia].
Defined.
