(* ===== verification/BFG.v ===== *)
(** * Fragments of blocks

    [BlockFragmentGenerator] (include/peer/replicator/block_fragment_generator.h,
    src/peer/replicator/block_fragment_generator.cpp): a block is erasure-coded
    into fragments, the fragments are the leaves of a Merkle tree, and every
    fragment travels with its proof, compressed against the proof before it.

    One erasure-code instance per context ([instanceCount] is 1 in every
    configuration the replicator makes).  The erasure code (liberasurecode, or
    the Go library behind libgrc) is the parameters [encode] and [decode]; a
    missing fragment is the empty string.  [max_alloc] is the number of digests
    the allocator can provide.  Contexts are used by one thread; the Merkle tree
    is built by workers, which gives the tree of [New] under every schedule
    (MerkleParallel). *)

From S2P Require Import Prelude Zpp Proto Merkle MerkleProofs ProofGenerator Fragments.

(** ** Data *)

(** One element of [decodeStorageList]: [None] is a vector that has not been
    resized yet, [Some] of the empty string one without a fragment. *)
Record DecodeStorage := mkDS { cacheGuard : bool; encodeFragment : option string }.

Record Context := mkCtx {
  fragmentCnt : nat;
  mt : option (MerkleTree (H := HashString));
  ecEncodeResult : list string;
  decodeStorageList : list DecodeStorage
}.

(** A handler's end: its result, an exception, or undefined behaviour. *)
Inductive outcome := Result (c : Context) (b : bool) | Exception | Undefined.

Definition newContext (cfg : BFGConfig) : Context :=
  let n := dataShardCnt cfg + parityShardCnt cfg in
  mkCtx n None [] (replicate n (mkDS false None)).

Section bfg.
Context `{ZP : Zpp} (sha : string → HashString) (max_alloc : Z).
Context (encode : BFGConfig → string → option (list string)).
Context (decode : BFGConfig → list string → nat → option string).

(** ** Generation *)

Definition fragment_Digest (f : string) : option HashString := Some (sha f).

Definition initWithMessage (cfg : BFGConfig) (c : Context) (message : string) : Context * bool :=
  match mt c with
  | Some _ => (c, false)
  | None =>
      match encode cfg message with
      | None => (c, false)
      | Some frs =>
          let tree := New (HashFunc sha) zero_digest fragment_Digest ModeProofGenAndTreeBuild frs in
          (mkCtx (fragmentCnt c) tree frs (decodeStorageList c), bool_decide (is_Some tree))
      end
  end.

(** The number of siblings written: [depth] without the levels on top that are
    the same as in the proof before; arguments from the top down. *)
Fixpoint changed (prev cur : list HashString) : nat :=
  match prev, cur with
  | p :: prev, c :: cur' => if decide (p = c) then changed prev cur' else length cur
  | _, _ => length cur
  end.

Definition written (prev : option (list HashString)) (cur : list HashString) : nat :=
  match prev with
  | None => length cur
  | Some p => changed (rev p) (rev cur)
  end.

Definition write_entry (prev : option (list HashString)) (p : MProof (H := HashString)) (fr : string) : string :=
  let k := written prev (Siblings p) in
  out (seq_codec c_u32 c_i64) (Path p, Z.of_nat k) +:+
  foldr (λ h s, out (c_arr 32) h +:+ s) (out c_sv fr) (take k (Siblings p)).

Fixpoint write_entries (prev : option (list HashString)) (es : list (MProof (H := HashString) * string)) : string :=
  match es with
  | [] => EmptyString
  | (p, fr) :: es => write_entry prev p fr +:+ write_entries (Some (Siblings p)) es
  end.

(** [serializeFragments] for an empty buffer. *)
Definition serializeFragments (c : Context) (start stop : nat) : option string :=
  t ← mt c;
  if bool_decide (stop ≤ start ∨ fragmentCnt c < stop) then None else
  if bool_decide (ecEncodeResult c = []) then None else
  p ← Proofs t !! start;
  Some (out c_i64 (Z.of_nat (length (Siblings p))) +:+
    write_entries None (drop start (take stop (zip (Proofs t) (ecEncodeResult c))))).

(** ** Validation *)

(** Reading [n] digests. *)
Fixpoint read_digests (n : nat) (s : string) : option (list HashString * string) :=
  match n with
  | 0 => Some ([], s)
  | S n => x ← inp (c_arr 32) s; y ← read_digests n x.2; Some (x.1 :: y.1, y.2)
  end.

(** The variables of the loop over the fragments. *)
Record vars := mkVars {
  previousProof : option (list HashString);
  cacheWhenGuard : list HashString;
  cacheWhenGuardFlag : bool;
  input : string
}.

Inductive entry := Next (v : vars) (d : DecodeStorage) | Failed (d : DecodeStorage) | Raise | Bad.

(** A fragment whose storage is taken: its proof is only read to keep track of
    the compression.  The path is stepped over without a test that it is there,
    so a message that ends inside it is read past its end. *)
Definition skip_entry (depth : nat) (v : vars) (d : DecodeStorage) : entry :=
  let copied := match previousProof v with
    | None => Some (cacheWhenGuard v)
    | Some ss => if bool_decide (length ss < depth) then None else Some (take depth ss)
    end in
  match copied with
  | None => Bad
  | Some cg =>
      match inp c_u32 (input v) with
      | None => Bad
      | Some (_, r) =>
          match inp c_i64 r with
          | None => Raise
          | Some (size, r) =>
              match read_digests (Z.to_nat (Z.min size (Z.of_nat depth))) r with
              | None => Raise
              | Some (ds, r) =>
                  if (Z.of_nat depth <? size)%Z then Bad else
                  match inp c_sv r with
                  | None => Raise
                  | Some (_, r) => Next (mkVars (previousProof v) (ds ++ drop (length ds) cg) true r) d
                  end
              end
          end
      end
  end.

(** The siblings of a fragment that is read: the new ones and the kept ones. *)
Definition entry_siblings (depth : nat) (v : vars) (ds : list HashString) : option (list HashString) :=
  if cacheWhenGuardFlag v then Some (ds ++ drop (length ds) (cacheWhenGuard v))
  else match previousProof v with
  | None => Some ds
  | Some ss =>
      if bool_decide (length ss < depth ∧ length ds < depth) then None
      else Some (ds ++ drop (length ds) (take depth ss))
  end.

(** Reading the announced number of digests: into a new vector of that size, or
    into one of [depth] elements. *)
Definition entry_digests (depth : nat) (v : vars) (size : Z) (r : string)
    : (list HashString * string) + entry :=
  if cacheWhenGuardFlag v then
    if (size <? 0)%Z then inr Bad else
    match read_digests (Z.to_nat (Z.min size (Z.of_nat depth))) r with
    | None => inr Raise
    | Some x => if (Z.of_nat depth <? size)%Z then inr Bad else inl x
    end
  else
    if (max_alloc <? wrap64u size)%Z then inr Raise else
    match read_digests (Z.to_nat size) r with
    | None => inr Raise
    | Some x => inl x
    end.

Definition read_entry (root : HashString) (depth : nat) (v : vars) : entry :=
  match inp (seq_codec c_u32 c_i64) (input v) with
  | None => Raise
  | Some ((path, size), r) =>
      match entry_digests depth v size r with
      | inr e => e
      | inl (ds, r) =>
          match entry_siblings depth v ds with
          | None => Bad
          | Some ss =>
              match inp c_sv r with
              | None => Raise
              | Some (fragment, r) =>
                  if bool_decide (Verify (HashFunc sha) fragment_Digest fragment (mkProof ss path) root = Some true)
                  then Next (mkVars (Some ss) (cacheWhenGuard v) false r) (mkDS true (Some fragment))
                  else Failed (mkDS true (Some EmptyString))
              end
          end
      end
  end.

(** The loop over [start .. end - 1]. *)
Inductive loop_end := Ended (dsl : list DecodeStorage) (b : bool) | Throws | Broken.

Fixpoint validate_loop (k i : nat) (root : HashString) (depth : nat) (v : vars) (dsl : list DecodeStorage)
    : loop_end :=
  match k with
  | 0 => Ended dsl true
  | S k =>
      match dsl !! i with
      | None => Broken
      | Some d =>
          match (if cacheGuard d then skip_entry depth v d else read_entry root depth v) with
          | Next v' d' => validate_loop k (S i) root depth v' (<[i := d']> dsl)
          | Failed d' => Ended (<[i := d']> dsl) false
          | Raise => Throws
          | Bad => Broken
          end
      end
  end.

Definition validateAndDeserializeFragments (c : Context) (root : HashString) (raw : string) (start stop : nat)
    : outcome :=
  if bool_decide (stop ≤ start ∨ fragmentCnt c < stop) then Result c false else
  match inp c_i64 raw with
  | None => Exception
  | Some (depth, r) =>
      if (max_alloc <? wrap64u depth)%Z then Exception else
      let n := Z.to_nat depth in
      match validate_loop (stop - start) start root n (mkVars None (replicate n zero_digest) false r)
              (decodeStorageList c) with
      | Ended dsl b => Result (mkCtx (fragmentCnt c) (mt c) (ecEncodeResult c) dsl) b
      | Throws => Exception
      | Broken => Undefined
      end
  end.

(** [regenerateMessage] into an empty buffer. *)
Definition regenerateMessage (cfg : BFGConfig) (c : Context) (actualMessageSize : Z) : option string :=
  decode cfg ((λ d, default EmptyString (encodeFragment d)) <$> decodeStorageList c) (Z.to_nat actualMessageSize).

(** ** Rejected fragments *)

(** A slot that a rejected fragment has taken. *)
Definition taken : DecodeStorage := mkDS true (Some EmptyString).

Definition keeps_guarded (dsl dsl' : list DecodeStorage) : Prop :=
  ∀ j d, dsl !! j = Some d → cacheGuard d = true → dsl' !! j = Some d.

Lemma skip_entry_slot depth v d e :
  skip_entry depth v d = e → (∀ d', e ≠ Failed d') ∧ ∀ v' d', e = Next v' d' → d' = d.
Proof using Type. intros <-. unfold skip_entry. split; intros; repeat case_match; by simplify_eq. Qed.

Lemma read_entry_failed root depth v d' : read_entry root depth v = Failed d' → d' = taken.
Proof using Type.
  unfold read_entry, entry_digests. intros. repeat case_match; by simplify_eq.
Qed.

Lemma validate_loop_slots root depth k : ∀ i v dsl dsl' b,
  validate_loop k i root depth v dsl = Ended dsl' b →
  keeps_guarded dsl dsl' ∧ (b = false → ∃ j, i ≤ j < i + k ∧ dsl' !! j = Some taken).
Proof using Type.
  induction k as [|k IH]; intros i v dsl dsl' b; cbn [validate_loop].
  { intros [= <- <-]. split; [by intros ?|done]. }
  destruct (dsl !! i) as [d|] eqn:Hd; [|done]. pose proof (lookup_lt_Some _ _ _ Hd) as Hi.
  assert (∀ d', (cacheGuard d = true → d' = d) → keeps_guarded dsl (<[i := d']> dsl)) as Hkeep.
  { intros d' He j x Hj Hg. destruct (decide (j = i)) as [->|]; [|by rewrite list_lookup_insert_ne].
    rewrite Hd in Hj. injection Hj as ->. by rewrite He, list_lookup_insert_eq. }
  destruct (if cacheGuard d then _ else _) as [v' d'|d'| |] eqn:He; [| |done..].
  - intros [Hk Hf]%IH. split.
    + intros j x Hj Hg. apply Hk; [|done]. apply Hkeep; [|done..].
      intros Hg'. rewrite Hg' in He. by apply (proj2 (skip_entry_slot _ _ _ _ He) v').
    + intros Hb. destruct (Hf Hb) as (j & ? & ?). exists j. split; [lia|done].
  - intros [= <- <-]. destruct (cacheGuard d) eqn:Hg.
    + by destruct (proj1 (skip_entry_slot _ _ _ _ He) d').
    + apply read_entry_failed in He as ->. split; [by apply Hkeep|]. intros _. exists i.
      split; [lia|by apply list_lookup_insert_eq].
Qed.

(** Some message is handled by the context. *)
Definition handles (c c' : Context) : Prop :=
  ∃ root raw start stop b, validateAndDeserializeFragments c root raw start stop = Result c' b.

Lemma handles_keeps c c' : handles c c' → keeps_guarded (decodeStorageList c) (decodeStorageList c').
Proof using Type.
  intros (root & raw & start & stop & b & Hv). unfold validateAndDeserializeFragments in Hv.
  repeat case_match; simplify_eq; [by intros ?|].
  by eapply validate_loop_slots.
Qed.

Lemma handles_rtc_keeps c c' : rtc handles c c' → keeps_guarded (decodeStorageList c) (decodeStorageList c').
Proof using Type.
  induction 1 as [|c1 c2 c3 H12 _ IH]; [by intros ?|].
  intros j d Hj Hg. apply IH; [|done]. by apply (handles_keeps _ _ H12).
Qed.

(** A fragment that fails verification takes its index for good: after a
    message in the index range is rejected, one of its indices is marked as
    present and empty, and no sequence of later messages, correct ones
    included, ever stores a fragment there. *)
Theorem rejected_fragment_takes_index c root raw start stop c' :
  start < stop ≤ fragmentCnt c →
  validateAndDeserializeFragments c root raw start stop = Result c' false →
  ∃ i, start ≤ i < stop ∧ ∀ c'', rtc handles c' c'' → decodeStorageList c'' !! i = Some taken.
Proof using Type.
  intros Hr Hv. unfold validateAndDeserializeFragments in Hv.
  rewrite bool_decide_false in Hv by lia. repeat case_match; simplify_eq.
  match goal with H : validate_loop _ _ _ _ _ _ = _ |- _ => apply validate_loop_slots in H as [_ Hf] end.
  destruct (Hf eq_refl) as (i & Hi & Ht). exists i. split; [lia|].
  intros c'' Hs. by eapply handles_rtc_keeps.
Qed.
(** ** What is written is read *)

Section roundtrip.
Context `{HZ : !ZppLaws ZP} (Hmax : (max_alloc < 2 ^ 31)%Z).

Lemma read_digests_out ds r :
  Forall arr_ok ds →
  read_digests (length ds) (foldr (λ h s, out (c_arr 32) h +:+ s) r ds) = Some (ds, r).
Proof using HZ.
  induction 1 as [|h ds Hh _ IH]; [done|]. cbn [length read_digests foldr].
  rewrite (arr_law 32 h _ Hh). cbn [mbind option_bind fst snd]. by rewrite IH.
Qed.

Lemma changed_le prev cur : changed prev cur ≤ length cur.
Proof using Type.
  revert prev. induction cur as [|c cur IH]; intros [|p prev]; cbn [changed length]; [lia..|].
  case_decide; [|simpl; lia]. specialize (IH prev). lia.
Qed.

Lemma changed_take prev cur :
  length prev = length cur →
  take (length cur - changed prev cur) prev = take (length cur - changed prev cur) cur.
Proof using Type.
  revert prev. induction cur as [|c cur IH]; intros [|p prev] Hl; try done.
  injection Hl as Hl. cbn [changed length]. case_decide as Hd.
  - pose proof (changed_le prev cur). rewrite !Nat.sub_succ_l by lia. cbn [take].
    by rewrite Hd, IH.
  - by rewrite Nat.sub_diag.
Qed.

Lemma written_le prev cur : written prev cur ≤ length cur.
Proof using Type.
  destruct prev as [p|]; cbn [written]; [|done].
  pose proof (changed_le (rev p) (rev cur)). by rewrite length_rev in *.
Qed.

(** The levels that are not written are those of the proof before. *)
Lemma written_drop p cur :
  length p = length cur → drop (written (Some p) cur) p = drop (written (Some p) cur) cur.
Proof using Type.
  intros Hl. cbn [written]. pose proof (changed_le (rev p) (rev cur)) as Hle.
  pose proof (changed_take (rev p) (rev cur)) as Ht. rewrite !length_rev in *.
  specialize (Ht Hl). apply (f_equal (@rev _)) in Ht. revert Ht.
  rewrite !firstn_rev, !rev_involutive, Hl.
  by replace (length cur - (length cur - changed (rev p) (rev cur))) with (changed (rev p) (rev cur)) by lia.
Qed.

(** A fragment with its proof, as a generator makes them. *)
Record entry_ok (root : HashString) (depth : nat) (e : MProof (H := HashString) * string) : Prop := {
  eo_proof : proof_ok max_alloc e.1;
  eo_depth : length (Siblings e.1) = depth;
  eo_fragment : sv_ok e.2;
  eo_verifies : Verify (HashFunc sha) fragment_Digest e.2 e.1 root = Some true
}.

Definition prev_ok (depth : nat) (prev : option (list HashString)) : Prop :=
  ∀ ss, prev = Some ss → length ss = depth.

Lemma read_write_entry root depth prev p fr cg r :
  entry_ok root depth (p, fr) → prev_ok depth prev →
  read_entry root depth (mkVars prev cg false (write_entry prev p fr +:+ r)) =
  Next (mkVars (Some (Siblings p)) cg false r) (mkDS true (Some fr)).
Proof using HZ Hmax.
  intros [(Hpath & Harr & Halloc) Hd Hf Hv] Hprev. cbn [fst snd] in *.
  unfold read_entry, write_entry. cbn [input].
  set (k := written prev (Siblings p)).
  assert (k ≤ length (Siblings p)) as Hk by apply written_le.
  rewrite string_app_assoc, (seq_codec_ok _ _ _ _ u32_law i64_law (Path p, Z.of_nat k)).
  2: { split; [done|]. unfold in_int64. cbn [snd]. lia. }
  unfold entry_digests. cbn [cacheWhenGuardFlag]. unfold wrap64u.
  rewrite Z.mod_small by lia.
  replace (max_alloc <? Z.of_nat k)%Z with false by (symmetry; apply Z.ltb_ge; lia).
  assert (∀ (ds : list HashString) x y,
    foldr (λ h s, out (c_arr 32) h +:+ s) x ds +:+ y = foldr (λ h s, out (c_arr 32) h +:+ s) (x +:+ y) ds) as Hfold.
  { intros ds x y. induction ds as [|h ds IH]; [done|]. cbn [foldr]. by rewrite string_app_assoc, IH. }
  rewrite Hfold, Nat2Z.id.
  assert (length (take k (Siblings p)) = k) as Hlk by (rewrite length_take; lia).
  rewrite <-Hlk at 1. rewrite read_digests_out by (by apply Forall_take).
  assert (entry_siblings depth (mkVars prev cg false
    (out (seq_codec c_u32 c_i64) (Path p, Z.of_nat k) +:+
      foldr (λ h s, out (c_arr 32) h +:+ s) (out c_sv fr +:+ r) (take k (Siblings p))))
    (take k (Siblings p)) = Some (Siblings p)) as ->.
  { unfold entry_siblings. cbn [cacheWhenGuardFlag previousProof]. destruct prev as [ss|].
    - pose proof (Hprev ss eq_refl) as Hss. rewrite bool_decide_false by lia. f_equal.
      rewrite Hlk, (take_ge ss) by lia. subst k. rewrite written_drop by lia. apply take_drop.
    - subst k. cbn [written]. by rewrite take_ge by done. }
  rewrite (sv_law fr r Hf). destruct p as [ss path]. cbn [Siblings Path] in *.
  rewrite bool_decide_true by done. done.
Qed.

(** The storage after the fragments [es] have been read from index [i] on. *)
Fixpoint store_at (i : nat) (frs : list string) (dsl : list DecodeStorage) : list DecodeStorage :=
  match frs with
  | [] => dsl
  | fr :: frs => store_at (S i) frs (<[i := mkDS true (Some fr)]> dsl)
  end.

Definition unguarded (dsl : list DecodeStorage) (i : nat) : Prop := cacheGuard <$> dsl !! i = Some false.

Lemma validate_loop_written root depth es : ∀ i prev cg dsl,
  Forall (entry_ok root depth) es → prev_ok depth prev →
  (∀ j, i ≤ j < i + length es → unguarded dsl j) →
  validate_loop (length es) i root depth (mkVars prev cg false (write_entries prev es)) dsl =
  Ended (store_at i es.*2 dsl) true.
Proof using HZ Hmax.
  induction es as [|[p fr] es IH]; intros i prev cg dsl Hes Hprev Hun; [done|].
  apply Forall_cons in Hes as [He Hes]. cbn [length validate_loop write_entries fmap list_fmap store_at snd].
  pose proof (Hun i) as Hi. cbn [length] in Hun. specialize (Hi ltac:(simpl; lia)).
  unfold unguarded in Hi. destruct (dsl !! i) as [d|] eqn:Hd; [|done].
  injection Hi as Hg. rewrite Hg, (read_write_entry root depth) by done.
  apply IH; [done| |].
  - intros ss [= <-]. apply (eo_depth _ _ _ He).
  - intros j Hj. unfold unguarded. rewrite list_lookup_insert_ne by lia. apply Hun. lia.
Qed.

(** ** Generators *)

Section generated.
Context (sha_ok : ∀ s, arr_ok (sha s)) (Hmin : (32 ≤ max_alloc)%Z).

Lemma init_inv cfg c m g :
  initWithMessage cfg c m = (g, true) →
  ∃ frs t, encode cfg m = Some frs ∧ g = mkCtx (fragmentCnt c) (Some t) frs (decodeStorageList c) ∧
    New (HashFunc sha) zero_digest fragment_Digest ModeProofGenAndTreeBuild frs = Some t.
Proof using Type.
  unfold initWithMessage. destruct (mt c); [done|].
  destruct (encode cfg m) as [frs|]; [|done].
  destruct (New _ _ _ _ frs) as [t|] eqn:Ht; [|by rewrite bool_decide_false by (by intros [? [=]])].
  intros [= <-]. by exists frs, t.
Qed.

Lemma leafGen_fragments frs : leafGen fragment_Digest frs = Some (sha <$> frs).
Proof using Type. unfold leafGen. induction frs as [|f frs IH]; [done|]. cbn. by rewrite IH. Qed.

(** Every fragment of a generated tree has its proof, which fits a message. *)
Lemma generated_entries frs t :
  New (HashFunc sha) zero_digest fragment_Digest ModeProofGenAndTreeBuild frs = Some t →
  Forall sv_ok frs → (Z.of_nat (length frs) ≤ 2 ^ 31)%Z →
  length (Proofs t) = length frs ∧ Forall (entry_ok (Root t) (Depth t)) (zip (Proofs t) frs).
Proof using sha_ok Hmin.
  intros HN Hsv Hlen. pose proof HN as (leaves & _ & Hl & Hs & Hm)%New_inv.
  rewrite leafGen_fragments in Hl. injection Hl as <-.
  destruct (ts_proofs _ _ _ Hs) as [Hpl Hps]; [by rewrite Hm|]. rewrite length_fmap in *.
  split; [done|]. apply Forall_lookup. intros i e (p & fr & -> & Hp & Hf)%lookup_zip_with_Some.
  pose proof (lookup_lt_Some _ _ _ Hf) as Hi. rewrite Hps in Hp by done.
  assert ((sha <$> frs) !! i = Some (sha fr)) as Hleaf by (by rewrite list_lookup_fmap, Hf).
  destruct (tree_proof_verifies _ fragment_Digest t _ fr (sha fr) i p Hs eq_refl Hleaf Hp) as (Hv & Hd & _).
  split; cbn [fst snd]; [|done| |done].
  - eapply tree_proof_ok; [exact sha_ok|exact Hs| |by rewrite length_fmap|done|exact Hp].
    apply Forall_fmap, Forall_true. intros x. apply sha_ok.
  - by eapply Forall_lookup_1.
Qed.

Definition stored (c : Context) (dsl : list DecodeStorage) : Context :=
  mkCtx (fragmentCnt c) (mt c) (ecEncodeResult c) dsl.

(** The indices a message is read at need not be the ones it was written for. *)
Lemma write_then_validate frs t c start stop at_ raw :
  Forall (entry_ok (Root t) (Depth t)) (zip (Proofs t) frs) → length (Proofs t) = length frs →
  start < stop ≤ length frs → at_ + (stop - start) ≤ fragmentCnt c →
  (∀ i, at_ ≤ i < at_ + (stop - start) → unguarded (decodeStorageList c) i) →
  raw = out c_i64 (Z.of_nat (Depth t)) +:+ write_entries None (drop start (take stop (zip (Proofs t) frs))) →
  validateAndDeserializeFragments c (Root t) raw at_ (at_ + (stop - start)) =
  Result (stored c (store_at at_ (drop start (take stop frs)) (decodeStorageList c))) true.
Proof using HZ Hmax.
  intros Hes Hlen Hr Hc Hun ->. unfold validateAndDeserializeFragments, stored.
  rewrite bool_decide_false by lia.
  assert ((Z.of_nat (Depth t) ≤ max_alloc)%Z) as Hd.
  { destruct (lookup_lt_is_Some_2 (zip (Proofs t) frs) 0) as [e He].
    { rewrite length_zip_with. lia. }
    rewrite Forall_lookup in Hes. destruct (Hes _ _ He) as [(_ & _ & ?) <- _ _]. done. }
  rewrite (i64_law (Z.of_nat (Depth t))) by (unfold in_int64; lia).
  unfold wrap64u. rewrite Z.mod_small by lia.
  replace (max_alloc <? Z.of_nat (Depth t))%Z with false by (symmetry; apply Z.ltb_ge; lia).
  rewrite Nat2Z.id.
  set (es := drop start (take stop (zip (Proofs t) frs))).
  assert (length es = stop - start) as Hles.
  { subst es. rewrite length_drop, length_take, length_zip_with. lia. }
  assert (es.*2 = drop start (take stop frs)) as <-.
  { subst es. rewrite fmap_drop, fmap_take, snd_zip; [done|lia]. }
  replace (at_ + (stop - start) - at_) with (length es) by lia. rewrite validate_loop_written; [done| |by intros ?|].
  - by apply Forall_drop, Forall_take.
  - intros j Hj. apply Hun. lia.
Qed.

Lemma store_at_lookup frs : ∀ i dsl j,
  i + length frs ≤ length dsl →
  store_at i frs dsl !! j =
  match frs !! (j - i) with
  | Some fr => if bool_decide (i ≤ j) then Some (mkDS true (Some fr)) else dsl !! j
  | None => dsl !! j
  end.
Proof using Type.
  induction frs as [|fr frs IH]; intros i dsl j Hl; [done|]. cbn [store_at length] in *.
  rewrite IH by (rewrite length_insert; lia).
  destruct (lt_eq_lt_dec j i) as [[Hj|Hj]|Hj].
  - rewrite !bool_decide_false by lia. rewrite list_lookup_insert_ne by lia. by do 2 case_match.
  - subst j. rewrite Nat.sub_diag. cbn [lookup list_lookup]. rewrite (bool_decide_true (i ≤ i)) by done.
    rewrite list_lookup_insert_eq by lia. rewrite bool_decide_false by lia. by case_match.
  - replace (j - i) with (S (j - S i)) by lia. cbn [lookup list_lookup].
    rewrite !bool_decide_true by lia. rewrite list_lookup_insert_ne by lia. done.
Qed.

Lemma serialize_generated cfg frs t start stop :
  Forall (entry_ok (Root t) (Depth t)) (zip (Proofs t) frs) → length (Proofs t) = length frs →
  start < stop ≤ length frs → length frs = dataShardCnt cfg + parityShardCnt cfg →
  ∃ raw, serializeFragments
    (mkCtx (fragmentCnt (newContext cfg)) (Some t) frs (decodeStorageList (newContext cfg))) start stop = Some raw ∧
    raw = out c_i64 (Z.of_nat (Depth t)) +:+ write_entries None (drop start (take stop (zip (Proofs t) frs))).
Proof using Type.
  intros Hes Hpl Hr Hlen.
  destruct (lookup_lt_is_Some_2 (Proofs t) start) as [p Hp]; [lia|].
  destruct (lookup_lt_is_Some_2 frs start) as [f Hfs]; [lia|].
  assert (length (Siblings p) = Depth t) as Hd.
  { rewrite Forall_lookup in Hes. apply (eo_depth _ _ _ (Hes start (p, f) ltac:(
      apply lookup_zip_with_Some; eauto))). }
  eexists. split; [|reflexivity].
  unfold serializeFragments. cbn [mt fragmentCnt ecEncodeResult newContext mbind option_bind].
  rewrite bool_decide_false by lia. rewrite bool_decide_false by (by intros ->; simpl in *; lia).
  rewrite Hp. cbn [mbind option_bind]. rewrite Hd. reflexivity.
Qed.

Lemma generated_range cfg frs t c start stop :
  Forall (entry_ok (Root t) (Depth t)) (zip (Proofs t) frs) → length (Proofs t) = length frs →
  length frs = dataShardCnt cfg + parityShardCnt cfg →
  start < stop ≤ length frs → fragmentCnt c = length frs → length (decodeStorageList c) = length frs →
  (∀ i, start ≤ i < stop → unguarded (decodeStorageList c) i) →
  ∃ raw dsl, serializeFragments
    (mkCtx (fragmentCnt (newContext cfg)) (Some t) frs (decodeStorageList (newContext cfg))) start stop = Some raw ∧
    validateAndDeserializeFragments c (Root t) raw start stop = Result (stored c dsl) true ∧
    ∀ i, dsl !! i = (if bool_decide (start ≤ i < stop) then (λ f, mkDS true (Some f)) <$> frs !! i
                     else decodeStorageList c !! i).
Proof using HZ Hmax.
  intros Hes Hpl Hlen Hr Hc Hcl Hun.
  destruct (serialize_generated cfg frs t start stop) as (raw & Hraw & ->); [done..|lia|done|].
  eexists _, _. split; [exact Hraw|]. split.
  - replace stop with (start + (stop - start)) at 2 by lia.
    apply (write_then_validate frs); [done..|lia| |done]. intros i Hi. apply Hun. lia.
  - intros i. rewrite store_at_lookup by (rewrite length_drop, length_take; lia).
    destruct (decide (start ≤ i < stop)) as [Hi|Hi]; [rewrite (bool_decide_true (_ ∧ _)) by done
      |rewrite (bool_decide_false (_ ∧ _)) by done]; rewrite lookup_drop.
    + replace (start + (i - start)) with i by lia.
      rewrite lookup_take_lt by lia. destruct (lookup_lt_is_Some_2 frs i) as [x ->]; [lia|].
      by rewrite bool_decide_true by lia.
    + destruct (decide (start ≤ i)).
      * rewrite lookup_take_ge by lia. done.
      * rewrite bool_decide_false by lia. by case_match.
Qed.
(** C32: What a generator writes for a range of fragments, a receiver whose
    storage for the range is free accepts against the generator's root, although
    proofs are compressed against each other: the receiver then holds exactly
    the erasure code's fragments at these indices, and its other fragments. *)
Theorem fragments_roundtrip cfg m g frs t c start stop :
  initWithMessage cfg (newContext cfg) m = (g, true) → encode cfg m = Some frs → mt g = Some t →
  length frs = dataShardCnt cfg + parityShardCnt cfg → Forall sv_ok frs → (Z.of_nat (length frs) ≤ 2 ^ 31)%Z →
  start < stop ≤ length frs → fragmentCnt c = length frs → length (decodeStorageList c) = length frs →
  (∀ i, start ≤ i < stop → unguarded (decodeStorageList c) i) →
  ∃ raw dsl, serializeFragments g start stop = Some raw ∧
    validateAndDeserializeFragments c (Root t) raw start stop = Result (stored c dsl) true ∧
    ∀ i, dsl !! i = (if bool_decide (start ≤ i < stop) then (λ f, mkDS true (Some f)) <$> frs !! i
                     else decodeStorageList c !! i).
Proof using HZ Hmax sha_ok Hmin.
  intros (frs' & t' & Hf & -> & HN)%init_inv Hf' [= <-] Hlen Hsv H31 Hr Hc Hcl Hun.
  rewrite Hf in Hf'. injection Hf' as <-.
  destruct (generated_entries frs' t' HN Hsv H31) as [Hpl Hes]. by apply generated_range.
Qed.

(** The index of a fragment is not checked: the message a generator writes
    for fragment [j] is accepted at every free index [i], where the receiver
    then keeps fragment [j] for good. *)
Theorem fragment_accepted_anywhere cfg m g frs t f c j i :
  initWithMessage cfg (newContext cfg) m = (g, true) → encode cfg m = Some frs → mt g = Some t →
  length frs = dataShardCnt cfg + parityShardCnt cfg → Forall sv_ok frs → (Z.of_nat (length frs) ≤ 2 ^ 31)%Z →
  frs !! j = Some f → fragmentCnt c = length (decodeStorageList c) → unguarded (decodeStorageList c) i →
  ∃ raw c', serializeFragments g j (S j) = Some raw ∧
    validateAndDeserializeFragments c (Root t) raw i (S i) = Result c' true ∧
    ∀ c'', rtc handles c' c'' → decodeStorageList c'' !! i = Some (mkDS true (Some f)).
Proof using HZ Hmax sha_ok Hmin.
  intros (frs' & t' & Hf & -> & HN)%init_inv Hf' [= <-] Hlen Hsv H31 Hj Hc Hun.
  rewrite Hf in Hf'. injection Hf' as <-. pose proof (lookup_lt_Some _ _ _ Hj) as Hjl.
  destruct (generated_entries frs' t' HN Hsv H31) as [Hpl Hes].
  assert (i < length (decodeStorageList c)) as Hi.
  { unfold unguarded in Hun. by apply lookup_lt_is_Some; destruct (decodeStorageList c !! i). }
  destruct (serialize_generated cfg frs' t' j (S j)) as (raw & Hraw & ->); [done..|lia|done|].
  eexists _, _. split; [exact Hraw|]. split.
  - replace (S i) with (i + (S j - j)) by lia.
    apply (write_then_validate frs'); [done..|lia|lia| |done]. intros k Hk. by replace k with i by lia.
  - intros c'' Hs. eapply handles_rtc_keeps; [exact Hs| |done]. cbn [stored decodeStorageList].
    rewrite store_at_lookup by (rewrite length_drop, length_take; lia).
    rewrite Nat.sub_diag, lookup_drop, Nat.add_0_r, lookup_take_lt, Hj by lia.
    by rewrite bool_decide_true by lia.
Qed.
End generated.
End roundtrip.

End bfg.

(** ** The erasure code *)

(** What was received of the fragments: each one, or nothing. *)
Definition received (frs got : list string) : Prop :=
  Forall2 (λ f g, g = f ∨ g = EmptyString) frs got.

Definition present (got : list string) : nat := length (filter (λ g, g ≠ EmptyString) got).

(** A systematic code with [dataShardCnt] data and [parityShardCnt] parity
    fragments: as many fragments as asked for, none of them empty, and any
    [dataShardCnt] of them give back the message. *)
Class ECLaws (encode : BFGConfig → string → option (list string))
    (decode : BFGConfig → list string → nat → option string) : Prop := {
  ec_count cfg m frs : encode cfg m = Some frs → length frs = dataShardCnt cfg + parityShardCnt cfg;
  ec_nonempty cfg m frs : encode cfg m = Some frs → Forall (λ f, f ≠ EmptyString) frs;
  ec_decode cfg m frs got :
    encode cfg m = Some frs → received frs got → dataShardCnt cfg ≤ present got →
    decode cfg got (String.length m) = Some m
}.

(** ** Concrete inputs *)

#[local] Existing Instance LE.zpp.
#[local] Existing Instance LE.zpp_laws.

(** A code whose fragments are the message behind their index. *)
Definition toy_encode (cfg : BFGConfig) (m : string) : option (list string) :=
  if bool_decide (dataShardCnt cfg = 0) then None else
  Some ((λ i, String (Ascii.ascii_of_nat i) m) <$> seq 0 (dataShardCnt cfg + parityShardCnt cfg)).

Definition toy_decode (cfg : BFGConfig) (got : list string) (size : nat) : option string :=
  match filter (λ g, g ≠ EmptyString) got with
  | String _ m :: _ => Some m
  | _ => None
  end.

#[export] Instance toy_ec : ECLaws toy_encode toy_decode.
Proof.
  split; unfold toy_encode; intros cfg m frs; [..|intros got]; case_bool_decide; try done; intros [= <-].
  - by rewrite length_fmap, length_seq.
  - apply Forall_fmap, Forall_true. done.
  - unfold received, toy_decode, present. intros Hr%Forall2_fmap_l. intros Hp.
    destruct (filter (λ g, g ≠ EmptyString) got) as [|g l] eqn:E; [simpl in Hp; lia|].
    assert (g ∈ filter (λ g, g ≠ EmptyString) got) as [Hg Hin]%list_elem_of_filter
      by (rewrite E; left).
    apply list_elem_of_lookup in Hin as [i Hi].
    destruct (Forall2_lookup_r _ _ _ _ _ Hr Hi) as (j & _ & [-> |?]); done.
Qed.

Definition toy_cfg : BFGConfig := mkBFG 5 3.
Definition toy_block : string := "blk"%string.
Definition toy_generator : Context := (initWithMessage toy_sha toy_encode toy_cfg (newContext toy_cfg) toy_block).1.
Definition toy_tree : MerkleTree :=
  default (mkTree ModeTreeBuild ∅ [] zero_digest [] [] 0) (mt toy_generator).
Definition toy_fragments : list string := default [] (toy_encode toy_cfg toy_block).
Definition toy_message (start stop : nat) : string :=
  default EmptyString (serializeFragments toy_generator start stop).
Definition toy_validate (c : Context) (raw : string) (start stop : nat) : outcome :=
  validateAndDeserializeFragments toy_sha 1000 c (Root toy_tree) raw start stop.

Lemma toy_init :
  initWithMessage toy_sha toy_encode toy_cfg (newContext toy_cfg) toy_block = (toy_generator, true).
Proof.
  rewrite (surjective_pairing (initWithMessage _ _ _ _ _)). f_equal.
Qed.

Lemma toy_mt : mt toy_generator = Some toy_tree.
Proof.
  unfold toy_tree. destruct (init_inv _ _ _ _ _ _ toy_init) as (frs & t & _ & -> & _). done.
Qed.

Lemma fragments_roundtrip_witness :
  ∃ raw dsl, serializeFragments toy_generator 2 6 = Some raw ∧
    validateAndDeserializeFragments toy_sha 1000 (newContext toy_cfg) (Root toy_tree) raw 2 6 =
      Result (stored (newContext toy_cfg) dsl) true ∧
    ∀ i, dsl !! i = (if bool_decide (2 ≤ i < 6) then (λ f, mkDS true (Some f)) <$> toy_fragments !! i
                     else decodeStorageList (newContext toy_cfg) !! i).
Proof.
  apply (fragments_roundtrip toy_sha 1000 toy_encode ltac:(done) toy_sha_ok ltac:(done)
    toy_cfg toy_block toy_generator toy_fragments toy_tree); [exact toy_init|reflexivity|exact toy_mt|reflexivity|..]; try reflexivity.
  - repeat apply Forall_cons_2; try apply Forall_nil_2; reflexivity.
  - vm_compute. intros [=].
  - change (2 < 6 ≤ 8). lia.
  - intros i Hi. change (newContext toy_cfg) with (mkCtx 8 None [] (replicate 8 (mkDS false None))).
    unfold unguarded. cbn [decodeStorageList]. by rewrite lookup_replicate_2 by lia.
Defined.

Definition bad_message : string :=
  out c_i64 0%Z +:+ (out (seq_codec c_u32 c_i64) (0, 0)%Z +:+ out c_sv toy_block).
Definition after_bad : Context := mkCtx 8 None [] (<[2 := taken]> (replicate 8 (mkDS false None))).

Lemma rejected_fragment_takes_index_witness :
  ∃ i, 2 ≤ i < 3 ∧ ∀ c'', rtc (handles toy_sha 1000) after_bad c'' → decodeStorageList c'' !! i = Some taken.
Proof.
  apply (rejected_fragment_takes_index toy_sha 1000 (newContext toy_cfg) (Root toy_tree) bad_message).
  - change (2 < 3 ≤ 8). lia.
  - vm_compute. reflexivity.
Defined.

Lemma fragment_accepted_anywhere_witness :
  ∃ raw c', serializeFragments toy_generator 3 4 = Some raw ∧
    validateAndDeserializeFragments toy_sha 1000 (newContext toy_cfg) (Root toy_tree) raw 0 1 = Result c' true ∧
    ∀ c'', rtc (handles toy_sha 1000) c' c'' →
      decodeStorageList c'' !! 0 = Some (mkDS true (Some (String (Ascii.ascii_of_nat 3) toy_block))).
Proof.
  apply (fragment_accepted_anywhere toy_sha 1000 toy_encode ltac:(done) toy_sha_ok ltac:(done)
    toy_cfg toy_block toy_generator toy_fragments toy_tree);
    [exact toy_init|reflexivity|exact toy_mt|reflexivity|..]; try reflexivity.
  - repeat apply Forall_cons_2; try apply Forall_nil_2; reflexivity.
  - vm_compute. intros [=].
Defined.

Definition result_of (o : outcome) : option bool := match o with Result _ b => Some b | _ => None end.
Definition context_of (o : outcome) : Context := match o with Result c _ => c | _ => newContext toy_cfg end.

(** Two correct messages that overlap: when fragments 4 and 5 are there already,
    the proofs the message for 3 to 6 leaves out are completed from the proof of
    fragment 3 instead of those of 4 and 5, and the correct fragment 6 is rejected. *)
Theorem overlapping_range_rejected :
  result_of (toy_validate (newContext toy_cfg) (toy_message 4 6) 4 6) = Some true ∧
  result_of (toy_validate (newContext toy_cfg) (toy_message 3 7) 3 7) = Some true ∧
  result_of (toy_validate (context_of (toy_validate (newContext toy_cfg) (toy_message 4 6) 4 6))
    (toy_message 3 7) 3 7) = Some false.
Proof. vm_compute. done. Qed.

(** A message that ends early ends the receiver with an exception; one that
    announces more digests than the depth for an index that is taken is written
    past the end of a vector. *)
Theorem malformed_message_unsafe :
  toy_validate (newContext toy_cfg) EmptyString 0 1 = Exception ∧
  toy_validate (context_of (toy_validate (newContext toy_cfg) (toy_message 0 1) 0 1))
    (out c_i64 1%Z +:+ (out (seq_codec c_u32 c_i64) (0, 2)%Z +:+ foldr (λ h s, out (c_arr 32) h +:+ s)
      EmptyString [zero_digest; zero_digest])) 0 1 = Undefined.
Proof. vm_compute. done. Qed.
