(* ===== verification/ErasureCode.v ===== *)
(** * ErasureCode: common/erasure_code.h

    The two erasure codes behind the fragment generator: [GoErasureCode], over
    the Reed-Solomon library of Go (libgrc), which the generator uses, and
    [LibErasureCode], over liberasurecode.  The libraries are parameters
    ([GoLib], [LibEC]) with what their documentation promises as laws; the
    wrappers around them are translated.  The theorems show that both wrappers
    give the fragment generator what it relies on ([BFG.ECLaws]) and that the
    variants that write into a buffer of the caller produce the same fragments.

    A buffer of the caller is the list of its bytes; a fragment that is missing
    is an empty view.  [None] stands for a null pointer, an empty optional or
    [false]; undefined behaviour is a constructor of its own where it can occur. *)

From Stdlib Require Import Ascii.
From S2P Require Import Prelude Fragments BFG.

Abbreviation bytes := (list ascii).
Definition to_bytes : string → bytes := String.list_ascii_of_string.

(** [memcpy] to offset [at_] of a buffer. *)
Definition write_at (buf : bytes) (at_ : nat) (s : bytes) : bytes :=
  take at_ buf ++ s ++ drop (at_ + length s) buf.

(** Fragment after fragment, [len] bytes apart. *)
Fixpoint write_all (buf : bytes) (len i : nat) (frs : list string) : bytes :=
  match frs with
  | [] => buf
  | f :: frs => write_all (write_at buf (i * len) (to_bytes f)) len (S i) frs
  end.

(** The length of the first view that is not empty. *)
Fixpoint first_length (frs : list string) : nat :=
  match frs with
  | [] => 0
  | f :: frs => if 0 <? String.length f then String.length f else first_length frs
  end.

(** ** The Go library *)

(** [instanceCreate], [encodeFirst] (length and number of the shards),
    [encodeNext] (the shards) and [decode] (of the shards there are, with their
    length and the length of the data). *)
Class GoLib := {
  instanceCreate : nat → nat → Z;
  encodeFirst : nat → nat → string → option (nat * nat);
  encodeNext : nat → nat → string → nat → option (list string);
  go_decode : nat → nat → list (option string) → nat → nat → option string
}.

Section go.
Context `{GL : GoLib}.

Record GoErasureCode := mkGo { go_dataNum : nat; go_parityNum : nat }.

Definition newGoErasureCode (dataNum parityNum : nat) : option GoErasureCode :=
  CHECK negb (instanceCreate dataNum parityNum <? 0)%Z ;; Some (mkGo dataNum parityNum).

Record GoEncodeResult := mkGoResult { _fragmentLen : nat; _shardLen : nat; shardsRaw : list string }.

(** [GoEncodeResult::encode(data)]. *)
Definition GoEncodeResult_encode (ec : GoErasureCode) (data : string) : option GoEncodeResult :=
  x ← encodeFirst (go_dataNum ec) (go_parityNum ec) data;
  shards ← encodeNext (go_dataNum ec) (go_parityNum ec) data x.2;
  Some (mkGoResult x.1 x.2 shards).

Definition Go_get (r : GoEncodeResult) (index : nat) : option string :=
  if index <? _shardLen r then shardsRaw r !! index else None.

Definition Go_getAll (r : GoEncodeResult) : option (list string) := mapM (Go_get r) (seq 0 (_shardLen r)).

(** [encodeWithBuffer]: the buffer, the number of shards and their length. *)
Definition Go_encodeWithBuffer (ec : GoErasureCode) (data : string) (buffer : bytes) : option (bytes * nat * nat) :=
  x ← encodeFirst (go_dataNum ec) (go_parityNum ec) data;
  if length buffer <? x.1 * x.2 then None else
  shards ← encodeNext (go_dataNum ec) (go_parityNum ec) data x.2;
  Some (write_all buffer x.1 0 shards, x.2, x.1).

(** The pointers of the views: null for an empty one. *)
Definition rawFL (frs : list string) : list (option string) :=
  (λ f, if 0 <? String.length f then Some f else None) <$> frs.

(** [GoErasureCode::decode] and [getData]. *)
Definition Go_decode (ec : GoErasureCode) (fragmentList : list string) (dataLen : nat) : option string :=
  if negb (length fragmentList =? go_parityNum ec + go_dataNum ec) then None else
  go_decode (go_dataNum ec) (go_parityNum ec) (rawFL fragmentList) (first_length fragmentList) dataLen.

Definition Go_decodeWithBuffer (ec : GoErasureCode) (fragmentList : list string) (dataLen : nat) (buffer : bytes)
    : option bytes :=
  if negb (length fragmentList =? go_parityNum ec + go_dataNum ec) then None else
  if length buffer <? dataLen then None else
  s ← go_decode (go_dataNum ec) (go_parityNum ec) (rawFL fragmentList) (first_length fragmentList) dataLen;
  Some (write_at buffer 0 (to_bytes s)).
End go.

(** What the library promises: an instance has data shards; encoding gives as many
    shards as the instance has, all of the length announced, none of it empty; and
    any [k] shards of a message give the message back. *)
Class GoLaws (GL : GoLib) : Prop := {
  go_instance k m : (0 <= instanceCreate k m)%Z → 0 < k;
  go_shards k m d fl sl shards :
    encodeFirst k m d = Some (fl, sl) → encodeNext k m d sl = Some shards →
    sl = k + m ∧ length shards = sl ∧ 0 < fl ∧ Forall (λ f, String.length f = fl) shards;
  go_recovers k m d fl sl shards (raw : list (option string)) :
    encodeFirst k m d = Some (fl, sl) → encodeNext k m d sl = Some shards →
    Forall2 (λ f r, r = Some f ∨ r = None) shards raw → k ≤ length (filter is_Some raw) →
    go_decode k m raw fl (String.length d) = Some d
}.

(** ** liberasurecode *)

(** [liberasurecode_encode]: the data fragments and the parity fragments, which
    carry a header; [liberasurecode_decode]: the data from a list of fragments. *)
Class LibEC := {
  backend_available : nat → bool;
  instance_create : nat → nat → nat → Z;
  lib_encode : nat → nat → string → option (list string * list string * nat);
  lib_decode : nat → nat → list string → nat → option string
}.

Section lib.
Context `{LL : LibEC}.

Record LibErasureCode := mkLib { lib_dataNum : nat; lib_parityNum : nat }.

(** The constructor: [bt], or [rs_vand] when it is not available. *)
Definition newLibErasureCode (rs_vand bt dataNum parityNum : nat) : option LibErasureCode :=
  let bt := if backend_available bt then bt else rs_vand in
  CHECK backend_available bt ;;
  CHECK negb (instance_create bt dataNum parityNum <=? 0)%Z ;;
  Some (mkLib dataNum parityNum).

Record LibECEncodeResult := mkLibResult { encodedData : list string; encodedParity : list string; lib_fragmentLen : nat }.

Definition LibECEncodeResult_encode (ec : LibErasureCode) (data : string) : option LibECEncodeResult :=
  x ← lib_encode (lib_dataNum ec) (lib_parityNum ec) data;
  Some (mkLibResult x.1.1 x.1.2 x.2).

Definition Lib_get (ec : LibErasureCode) (r : LibECEncodeResult) (index : nat) : option string :=
  if index <? lib_dataNum ec then encodedData r !! index
  else if index - lib_dataNum ec <? lib_parityNum ec then encodedParity r !! (index - lib_dataNum ec)
  else None.

Definition Lib_getAll (ec : LibErasureCode) (r : LibECEncodeResult) : option (list string) :=
  ds ← mapM (λ i, encodedData r !! i) (seq 0 (lib_dataNum ec));
  ps ← mapM (λ i, encodedParity r !! i) (seq 0 (lib_parityNum ec));
  Some (ds ++ ps).

Definition Lib_encodeWithBuffer (ec : LibErasureCode) (data : string) (buffer : bytes) : option (bytes * nat * nat) :=
  r ← LibECEncodeResult_encode ec data;
  frs ← Lib_getAll ec r;
  let size := lib_dataNum ec + lib_parityNum ec in
  if length buffer <? lib_fragmentLen r * size then None else
  Some (write_all buffer (lib_fragmentLen r) 0 frs, size, lib_fragmentLen r).

(** [LibECDecodeResult::decode]: the views as long as the first that is not
    empty. *)
Definition LibECDecodeResult_decode (ec : LibErasureCode) (fragmentList : list string) : option string :=
  let fragmentLen := first_length fragmentList in
  lib_decode (lib_dataNum ec) (lib_parityNum ec)
    (List.filter (λ f, fragmentLen =? String.length f) fragmentList) fragmentLen.

Definition Lib_decode (ec : LibErasureCode) (fragmentList : list string) : option string :=
  if length fragmentList =? 0 then None else
  s ← LibECDecodeResult_decode ec fragmentList;
  if String.length s =? 0 then None else Some s.

(** [decodeWithBuffer] copies [dataLen] bytes whatever the library decoded and
    however long the buffer is. *)
Inductive buffered := Failed | Overrun | Buffer (b : bytes).

Definition Lib_decodeWithBuffer (ec : LibErasureCode) (fragmentList : list string) (dataLen : nat) (buffer : bytes)
    : buffered :=
  if length fragmentList =? 0 then Failed else
  match LibECDecodeResult_decode ec fragmentList with
  | None => Failed
  | Some s =>
      if (String.length s <? dataLen) || (length buffer <? dataLen) then Overrun
      else Buffer (write_at buffer 0 (take dataLen (to_bytes s)))
  end.
End lib.

Class LibLaws (LL : LibEC) : Prop := {
  lib_instance bt k m : (0 < instance_create bt k m)%Z → 0 < k;
  lib_fragments k m d ds ps fl :
    lib_encode k m d = Some (ds, ps, fl) →
    length ds = k ∧ length ps = m ∧ 0 < fl ∧ Forall (λ f, String.length f = fl) (ds ++ ps);
  lib_recovers k m d ds ps fl frs :
    lib_encode k m d = Some (ds, ps, fl) → sublist frs (ds ++ ps) → k ≤ length frs →
    lib_decode k m frs fl = Some d
}.

(** ** What the fragment generator calls *)

(** [encode] and [getAll] in [initWithMessage]; [decodeWithBuffer] into a buffer of
    the message's size in [regenerateMessage]. *)
Definition empty_buffer (n : nat) : bytes := replicate n Ascii.zero.

Definition go_bfg_encode `{GoLib} (cfg : BFGConfig) (m : string) : option (list string) :=
  ec ← newGoErasureCode (dataShardCnt cfg) (parityShardCnt cfg);
  r ← GoEncodeResult_encode ec m;
  Go_getAll r.

Definition go_bfg_decode `{GoLib} (cfg : BFGConfig) (frs : list string) (size : nat) : option string :=
  ec ← newGoErasureCode (dataShardCnt cfg) (parityShardCnt cfg);
  b ← Go_decodeWithBuffer ec frs size (empty_buffer size);
  Some (String.string_of_list_ascii b).

Definition lib_bfg_encode `{LibEC} (rs_vand bt : nat) (cfg : BFGConfig) (m : string) : option (list string) :=
  ec ← newLibErasureCode rs_vand bt (dataShardCnt cfg) (parityShardCnt cfg);
  r ← LibECEncodeResult_encode ec m;
  Lib_getAll ec r.

Definition lib_bfg_decode `{LibEC} (rs_vand bt : nat) (cfg : BFGConfig) (frs : list string) (size : nat) : option string :=
  ec ← newLibErasureCode rs_vand bt (dataShardCnt cfg) (parityShardCnt cfg);
  match Lib_decodeWithBuffer ec frs size (empty_buffer size) with
  | Buffer b => Some (String.string_of_list_ascii b)
  | _ => None
  end.

(** ** Lemmas on views and buffers *)
Lemma to_bytes_length s : length (to_bytes s) = String.length s.
Proof. unfold to_bytes. induction s as [|c s IH]; simpl; [done|]. by rewrite IH. Qed.

Lemma mapM_lookup_seq {A} (l : list A) : mapM (λ i, l !! i) (seq 0 (length l)) = Some l.
Proof.
  apply mapM_Some, Forall2_same_length_lookup. rewrite length_seq. split; [done|].
  intros i j x Hj Hx. by apply lookup_seq in Hj as [-> _].
Qed.

Lemma write_whole (n : nat) (s : string) :
  String.length s = n → write_at (empty_buffer n) 0 (to_bytes s) = to_bytes s.
Proof.
  intros <-. unfold write_at, empty_buffer. cbn [take app]. rewrite to_bytes_length.
  by rewrite drop_ge, app_nil_r by (rewrite length_replicate; lia).
Qed.

Lemma empty_iff (s : string) : 0 < String.length s ↔ s ≠ EmptyString.
Proof. destruct s; simpl; split; done || lia. Qed.

(** Of fragments of one length, received or not, the first view that is not empty
    has that length. *)
Lemma first_length_received fl frs got :
  0 < fl → Forall (λ f, String.length f = fl) frs → received frs got → 0 < present got →
  first_length got = fl.
Proof.
  intros Hfl Hf Hr. revert Hf. induction Hr as [|f g frs got Hg _ IH]; intros Hf Hp; [unfold present in Hp; simpl in Hp; lia|].
  apply Forall_cons in Hf as [Hlen Hf]. unfold present in Hp, IH. cbn [first_length filter list_filter].
  destruct Hg as [->| ->].
  - rewrite Hlen. by rewrite (proj2 (Nat.ltb_lt 0 fl)).
  - cbn [String.length Nat.ltb Nat.leb]. apply IH; [done|].
    by rewrite filter_cons_False in Hp by by intros [].
Qed.

Lemma rawFL_received frs got :
  Forall (λ f, f ≠ EmptyString) frs → received frs got →
  Forall2 (λ f r, r = Some f ∨ r = None) frs (rawFL got) ∧ length (filter is_Some (rawFL got)) = present got.
Proof.
  unfold rawFL, present. intros Hf Hr. induction Hr as [|f g frs got Hg _ IH]; [done|].
  apply Forall_cons in Hf as [Hne Hf]. destruct (IH Hf) as [IH1 IH2]. csimpl.
  destruct Hg as [->| ->].
  - rewrite (proj2 (Nat.ltb_lt _ _)) by (by apply empty_iff). split; [constructor; auto|].
    rewrite (filter_cons_True is_Some) by by eexists. rewrite (filter_cons_True (λ g, g ≠ EmptyString)) by done.
    simpl. by rewrite IH2.
  - cbn [String.length Nat.ltb Nat.leb]. split; [constructor; auto|].
    rewrite (filter_cons_False is_Some) by (by intros [? [=]]).
    by rewrite (filter_cons_False (λ g, g ≠ EmptyString)) by by intros [].
Qed.

(** Views of one length that were received are a sublist of the fragments. *)
Lemma filter_received fl frs got :
  0 < fl → Forall (λ f, String.length f = fl) frs → received frs got →
  sublist (List.filter (λ f, fl =? String.length f) got) frs ∧
  length (List.filter (λ f, fl =? String.length f) got) = present got.
Proof.
  unfold present. intros Hfl Hf Hr. induction Hr as [|f g frs got Hg _ IH]; [done|].
  apply Forall_cons in Hf as [Hlen Hf]. destruct (IH Hf) as [IH1 IH2]. cbn [List.filter].
  destruct Hg as [->| ->].
  - rewrite Hlen, Nat.eqb_refl. rewrite (filter_cons_True (λ g, g ≠ EmptyString)) by (apply empty_iff; lia).
    split; [by apply sublist_skip|]. simpl. by rewrite IH2.
  - rewrite (filter_cons_False (λ g, g ≠ EmptyString)) by by intros [].
    cbn [String.length]. rewrite (proj2 (Nat.eqb_neq fl 0)) by lia. split; [by apply sublist_cons|done].
Qed.

(** ** The wrappers meet the generator's interface *)
Section go_interface.
Context `{GL : GoLib} `{HG : !GoLaws GL}.

Lemma new_go_positive k m ec : newGoErasureCode k m = Some ec → ec = mkGo k m ∧ 0 < k.
Proof using HG.
  unfold newGoErasureCode. destruct (Z.ltb_spec (instanceCreate k m) 0); [done|]. cbn. intros [= <-].
  split; [done|]. by eapply go_instance.
Qed.

(** A successful encoding: the calls of the library behind it. *)
Lemma go_encode_inv cfg m frs :
  go_bfg_encode cfg m = Some frs →
  let k := dataShardCnt cfg in let q := parityShardCnt cfg in
  ∃ fl, newGoErasureCode k q = Some (mkGo k q) ∧ 0 < k ∧
    encodeFirst k q m = Some (fl, k + q) ∧ encodeNext k q m (k + q) = Some frs ∧
    length frs = k + q ∧ 0 < fl ∧ Forall (λ f, String.length f = fl) frs.
Proof using HG.
  intros H k q. unfold go_bfg_encode in H. fold k q in H.
  destruct (newGoErasureCode k q) as [ec|] eqn:E; [|done]. destruct (new_go_positive _ _ _ E) as [-> Hk].
  cbn [mbind option_bind] in H. unfold GoEncodeResult_encode in H. cbn [go_dataNum go_parityNum] in H.
  destruct (encodeFirst k q m) as [[fl sl]|] eqn:Ef; [|done]. cbn [mbind option_bind fst snd] in H.
  destruct (encodeNext k q m sl) as [shards|] eqn:En; [|done]. cbn [mbind option_bind] in H.
  destruct (go_shards _ _ _ _ _ _ Ef En) as (-> & Hl & Hfl & Hall).
  unfold Go_getAll in H. cbn [_shardLen] in H. rewrite <-Hl in H.
  rewrite (mapM_ext (Go_get _) (λ i, shards !! i)) in H.
  - rewrite mapM_lookup_seq in H. simplify_eq. exists fl. by split_and!.
  - intros i. unfold Go_get. cbn [_shardLen shardsRaw].
    destruct (Nat.ltb_spec i (length shards)); [done|]. symmetry. by apply lookup_ge_None.
Qed.

Lemma go_decodes cfg m frs got :
  go_bfg_encode cfg m = Some frs → received frs got → dataShardCnt cfg ≤ present got →
  go_bfg_decode cfg got (String.length m) = Some m.
Proof using HG.
  intros (fl & Hnew & Hk & Ef & En & Hl & Hfl & Hall)%go_encode_inv Hr Hp.
  unfold go_bfg_decode. rewrite Hnew. cbn [mbind option_bind]. unfold Go_decodeWithBuffer.
  cbn [go_dataNum go_parityNum].
  pose proof (Forall2_length _ _ _ Hr) as Hlen. rewrite (proj2 (Nat.eqb_eq _ _)) by lia. cbn [negb].
  rewrite (proj2 (Nat.ltb_ge _ _)) by (unfold empty_buffer; rewrite length_replicate; lia).
  rewrite (first_length_received fl frs got) by (done || lia).
  destruct (rawFL_received frs got) as [Hraw Hc]; [|done|].
  { eapply Forall_impl; [exact Hall|]. cbn. intros f Hf. apply empty_iff. lia. }
  rewrite (go_recovers _ _ _ _ _ _ _ Ef En Hraw) by lia. cbn [mbind option_bind].
  rewrite write_whole by done. f_equal. apply String.string_of_list_ascii_of_string.
Qed.

Lemma go_buffer ec m frs fl n buf :
  encodeFirst (go_dataNum ec) (go_parityNum ec) m = Some (fl, n) →
  encodeNext (go_dataNum ec) (go_parityNum ec) m n = Some frs → fl * n ≤ length buf →
  Go_encodeWithBuffer ec m buf = Some (write_all buf fl 0 frs, n, fl).
Proof.
  intros Ef En Hb. unfold Go_encodeWithBuffer. rewrite Ef. cbn [mbind option_bind fst snd].
  rewrite (proj2 (Nat.ltb_ge _ _)) by lia. by rewrite En.
Qed.
End go_interface.

#[export] Instance go_code_laws `{GL : GoLib} `{!GoLaws GL} : ECLaws go_bfg_encode go_bfg_decode.
Proof.
  split.
  - intros cfg m frs (fl & _ & _ & _ & _ & Hl & _)%go_encode_inv. done.
  - intros cfg m frs (fl & _ & _ & _ & _ & _ & Hfl & Hall)%go_encode_inv.
    eapply Forall_impl; [exact Hall|]. cbn. intros f Hf. apply empty_iff. lia.
  - intros. by eapply go_decodes.
Qed.

Section lib_interface.
Context `{LL : LibEC} `{HL : !LibLaws LL} (rs_vand bt : nat).

Lemma lib_encode_inv cfg m frs :
  lib_bfg_encode rs_vand bt cfg m = Some frs →
  let k := dataShardCnt cfg in let q := parityShardCnt cfg in
  ∃ ds ps fl, newLibErasureCode rs_vand bt k q = Some (mkLib k q) ∧ 0 < k ∧
    lib_encode k q m = Some (ds, ps, fl) ∧ frs = ds ++ ps ∧
    length frs = k + q ∧ 0 < fl ∧ Forall (λ f, String.length f = fl) frs.
Proof using HL.
  intros H k q. unfold lib_bfg_encode in H. fold k q in H.
  destruct (newLibErasureCode rs_vand bt k q) as [ec|] eqn:E; [|done].
  assert (ec = mkLib k q ∧ 0 < k) as [-> Hk].
  { unfold newLibErasureCode in E. destruct (backend_available _); [|done].
    destruct (Z.leb_spec (instance_create (if backend_available bt then bt else rs_vand) k q) 0); [done|].
    cbn in E. simplify_eq. split; [done|]. by eapply lib_instance. }
  cbn [mbind option_bind] in H. unfold LibECEncodeResult_encode in H. cbn [lib_dataNum lib_parityNum] in H.
  destruct (lib_encode k q m) as [[[ds ps] fl]|] eqn:Ee; [|done]. cbn [mbind option_bind fst snd] in H.
  destruct (lib_fragments _ _ _ _ _ _ Ee) as (Hd & Hp & Hfl & Hall).
  unfold Lib_getAll in H. cbn [lib_dataNum lib_parityNum encodedData encodedParity] in H.
  rewrite <-Hd, <-Hp, !mapM_lookup_seq in H. cbn in H. simplify_eq.
  exists ds, ps, fl. split_and!; try done. rewrite length_app. lia.
Qed.

Lemma lib_decodes cfg m frs got :
  lib_bfg_encode rs_vand bt cfg m = Some frs → received frs got → dataShardCnt cfg ≤ present got →
  lib_bfg_decode rs_vand bt cfg got (String.length m) = Some m.
Proof using HL.
  intros (ds & ps & fl & Hnew & Hk & Ee & -> & Hl & Hfl & Hall)%lib_encode_inv Hr Hp.
  unfold lib_bfg_decode. rewrite Hnew. cbn [mbind option_bind]. unfold Lib_decodeWithBuffer, LibECDecodeResult_decode.
  cbn [lib_dataNum lib_parityNum].
  pose proof (Forall2_length _ _ _ Hr) as Hlen. rewrite (proj2 (Nat.eqb_neq _ _)) by lia.
  rewrite (first_length_received fl (ds ++ ps) got) by (done || lia).
  destruct (filter_received fl (ds ++ ps) got) as [Hsub Hc]; [done..|].
  rewrite (lib_recovers _ _ _ _ _ _ _ Ee Hsub) by lia.
  rewrite (proj2 (Nat.ltb_ge _ _)) by lia.
  rewrite (proj2 (Nat.ltb_ge _ _)) by (unfold empty_buffer; rewrite length_replicate; lia). cbn [orb].
  rewrite take_ge by (rewrite to_bytes_length; lia). rewrite write_whole by done. f_equal.
  apply String.string_of_list_ascii_of_string.
Qed.
End lib_interface.

#[export] Instance lib_code_laws `{LL : LibEC} `{!LibLaws LL} rs_vand bt :
  ECLaws (lib_bfg_encode rs_vand bt) (lib_bfg_decode rs_vand bt).
Proof.
  split.
  - intros cfg m frs (ds & ps & fl & _ & _ & _ & _ & Hl & _)%lib_encode_inv. done.
  - intros cfg m frs (ds & ps & fl & _ & _ & _ & _ & _ & Hfl & Hall)%lib_encode_inv.
    eapply Forall_impl; [exact Hall|]. cbn. intros f Hf. apply empty_iff. lia.
  - intros. by eapply lib_decodes.
Qed.

(** ** Buffers hold the fragments *)
Lemma write_at_length buf p s : p + length s ≤ length buf → length (write_at buf p s) = length buf.
Proof. intros. unfold write_at. rewrite !length_app, length_take, length_drop. lia. Qed.

Lemma write_at_before buf p s : p ≤ length buf → take p (write_at buf p s) = take p buf.
Proof. intros. unfold write_at. rewrite take_app_le, take_take by (rewrite length_take; lia). f_equal. lia. Qed.

Lemma write_at_read buf p s : p ≤ length buf → take (length s) (drop p (write_at buf p s)) = s.
Proof.
  intros. unfold write_at. rewrite drop_app_ge by (rewrite length_take; lia).
  rewrite length_take, Nat.min_l, Nat.sub_diag, drop_0 by lia. by rewrite take_app_length.
Qed.

(** Later fragments do not touch earlier ones. *)
Lemma write_all_before fl frs : ∀ buf i,
  Forall (λ f, String.length f = fl) frs → (i + length frs) * fl ≤ length buf →
  take (i * fl) (write_all buf fl i frs) = take (i * fl) buf.
Proof.
  induction frs as [|f frs IH]; intros buf i Hf Hb; [done|]. apply Forall_cons in Hf as [Hlen Hf].
  cbn [write_all length] in *.
  specialize (IH (write_at buf (i * fl) (to_bytes f)) (S i) Hf).
  rewrite write_at_length in IH by (rewrite to_bytes_length; nia).
  specialize (IH ltac:(lia)). apply (f_equal (take (i * fl))) in IH.
  rewrite !take_take, Nat.min_l in IH by lia. rewrite IH. apply write_at_before. nia.
Qed.

Lemma write_all_read fl frs : ∀ buf i j f,
  Forall (λ f, String.length f = fl) frs → (i + length frs) * fl ≤ length buf →
  frs !! j = Some f → take fl (drop ((i + j) * fl) (write_all buf fl i frs)) = to_bytes f.
Proof.
  induction frs as [|f0 frs IH]; intros buf i j f Hf Hb Hj; [done|]. apply Forall_cons in Hf as [Hlen Hf].
  cbn [write_all length] in *.
  destruct j as [|j]; simplify_eq/=.
  - rewrite Nat.add_0_r.
    pose proof (write_all_before (String.length f) frs (write_at buf (i * String.length f) (to_bytes f)) (S i) Hf) as Hp.
    rewrite write_at_length in Hp by (rewrite to_bytes_length; nia). specialize (Hp ltac:(lia)).
    pose proof (write_at_read buf (i * String.length f) (to_bytes f) ltac:(nia)) as Hw. rewrite to_bytes_length in Hw.
    rewrite take_drop_commute in Hw |- *. replace (i * String.length f + String.length f) with (S i * String.length f) in * by lia.
    by rewrite Hp.
  - replace (i + S j) with (S i + j) by lia. apply IH; [done| |done].
    rewrite write_at_length by (rewrite to_bytes_length; nia). lia.
Qed.

(** C33: With a Reed-Solomon library that keeps its promises, the erasure code of
    the fragment generator gives as many fragments as configured, none of them
    empty; any [dataShardCnt] of them, the others missing, give the message back
    in a buffer of its size; and encoding into a large enough buffer of the
    caller lays the same fragments out one after the other. *)
Theorem go_code_recovers `{GL : GoLib} `{HG : !GoLaws GL} cfg m frs got buf :
  go_bfg_encode cfg m = Some frs → received frs got → dataShardCnt cfg ≤ present got →
  length frs = dataShardCnt cfg + parityShardCnt cfg ∧
  Forall (λ f, f ≠ EmptyString) frs ∧
  go_bfg_decode cfg got (String.length m) = Some m ∧
  ∃ fl, ∀ ec, newGoErasureCode (dataShardCnt cfg) (parityShardCnt cfg) = Some ec →
    fl * length frs ≤ length buf → ∃ buf',
    Go_encodeWithBuffer ec m buf = Some (buf', length frs, fl) ∧
    ∀ i f, frs !! i = Some f → take fl (drop (i * fl) buf') = to_bytes f.
Proof.
  intros He Hr Hp. destruct go_code_laws as [Hc Hn Hd]. split_and!; [by eapply Hc|by eapply Hn|by eapply Hd|].
  apply go_encode_inv in He as (fl & Hnew & Hk & Ef & En & Hl & Hfl & Hall). exists fl.
  intros ec Hec Hb. rewrite Hnew in Hec. injection Hec as <-. eexists. rewrite Hl in *. split.
  - eapply go_buffer; [exact Ef|exact En|done].
  - intros i f Hi. apply (write_all_read fl frs buf 0 i f Hall); [lia|done].
Qed.

(** The same of the code over liberasurecode. *)
Theorem lib_code_recovers `{LL : LibEC} `{HL : !LibLaws LL} rs_vand bt cfg m frs got :
  lib_bfg_encode rs_vand bt cfg m = Some frs → received frs got → dataShardCnt cfg ≤ present got →
  length frs = dataShardCnt cfg + parityShardCnt cfg ∧
  Forall (λ f, f ≠ EmptyString) frs ∧
  lib_bfg_decode rs_vand bt cfg got (String.length m) = Some m.
Proof. intros He Hr Hp. destruct (lib_code_laws rs_vand bt) as [Hc Hn Hd]. split_and!; eauto. Qed.

(** ** Concrete libraries *)

(** A library whose shards are the message behind their index. *)
Definition toy_shards (k m : nat) (d : string) : list string :=
  (λ i, String (ascii_of_nat i) d) <$> seq 0 (k + m).

#[local] Instance toy_go : GoLib := {
  instanceCreate k m := if bool_decide (k = 0) then (-1)%Z else 0%Z;
  encodeFirst k m d := if bool_decide (k = 0) then None else Some (S (String.length d), k + m);
  encodeNext k m d n := if bool_decide (n = k + m) then Some (toy_shards k m d) else None;
  go_decode k m raw fl n := match omap id raw with String _ d :: _ => Some d | _ => None end
}.

Lemma omap_first (l : list (option string)) : 0 < length (filter is_Some l) → ∃ s, Some s ∈ l ∧ head (omap id l) = Some s.
Proof.
  induction l as [|[s|] l IH]; intros H; [simpl in H; lia| |].
  - exists s. split; [left|done].
  - rewrite filter_cons_False in H by (by intros [? [=]]). destruct (IH H) as (s & Hs & He).
    exists s. split; [by right|done].
Qed.

#[local] Instance toy_go_laws : GoLaws toy_go.
Proof.
  split.
  - intros k m. cbn. case_bool_decide; lia.
  - intros k m d fl sl shards. cbn. intros H1 H2. repeat case_bool_decide; simplify_eq.
    unfold toy_shards. split_and!; [done|by rewrite length_fmap, length_seq|lia|]. apply Forall_fmap, Forall_true. done.
  - intros k m d fl sl shards raw. cbn. intros H1 H2 Hr Hk. repeat case_bool_decide; simplify_eq.
    destruct (omap_first raw) as (s & Hin & Hh); [lia|]. destruct (omap id raw) as [|s' l]; simplify_eq/=.
    apply list_elem_of_lookup in Hin as [i Hi].
    destruct (Forall2_lookup_r _ _ _ _ _ Hr Hi) as (f & Hf & [[= ->]|]); [|done].
    unfold toy_shards in Hf. rewrite list_lookup_fmap in Hf.
    destruct (seq 0 (k + m) !! i); simplify_eq/=. done.
Qed.

(** Five data and three parity fragments, three of them lost. *)
Definition lossy : list string :=
  imap (λ i f, if bool_decide (i = 0 ∨ i = 4 ∨ i = 6) then EmptyString else f) (toy_shards 5 3 "block").

Lemma lossy_received : received (toy_shards 5 3 "block") lossy.
Proof. repeat (constructor; [vm_compute; auto|]). constructor. Qed.

Lemma go_code_recovers_witness :
  go_bfg_encode (mkBFG 5 3) "block" = Some (toy_shards 5 3 "block") ∧
  go_bfg_decode (mkBFG 5 3) lossy 5 = Some "block"%string.
Proof.
  split; [vm_compute; reflexivity|].
  destruct (go_code_recovers (mkBFG 5 3) "block" (toy_shards 5 3 "block") lossy []) as (_ & _ & Hd & _).
  - vm_compute. reflexivity.
  - exact lossy_received.
  - vm_compute. lia.
  - exact Hd.
Defined.

(** [LibErasureCode::decodeWithBuffer] copies as many bytes as it is told to: when
    the library decodes fewer, it reads behind them. *)
Theorem lib_decode_overruns `{LL : LibEC} ec frs s buf :
  frs ≠ [] → LibECDecodeResult_decode ec frs = Some s →
  Lib_decodeWithBuffer ec frs (S (String.length s)) buf = Overrun.
Proof.
  intros Hne Hd. unfold Lib_decodeWithBuffer. destruct frs; [done|]. cbn [length Nat.eqb]. rewrite Hd.
  by rewrite (proj2 (Nat.ltb_lt _ _)) by lia.
Qed.

#[local] Instance toy_lib : LibEC := {
  backend_available bt := bool_decide (bt = 1);
  instance_create bt k m := if bool_decide (k = 0) then 0%Z else 1%Z;
  lib_encode k m d :=
    if bool_decide (k = 0) then None
    else Some (take k (toy_shards k m d), drop k (toy_shards k m d), S (String.length d));
  lib_decode k m frs fl := match frs with String _ d :: _ => Some d | _ => None end
}.

#[local] Instance toy_lib_laws : LibLaws toy_lib.
Proof.
  split.
  - intros bt k m. cbn. case_bool_decide; lia.
  - intros k m d ds ps fl. cbn. case_bool_decide; [done|]. intros [= <- <- <-]. rewrite take_drop. unfold toy_shards.
    rewrite length_take, length_drop, length_fmap, length_seq. split_and!; [lia..|].
    apply Forall_fmap, Forall_true. done.
  - intros k m d ds ps fl frs. cbn. case_bool_decide; [done|]. intros [= <- <- <-] Hs Hk. rewrite take_drop in Hs.
    destruct frs as [|f frs]; [simpl in Hk; lia|].
    assert (f ∈ toy_shards k m d) as (i & -> & _)%list_elem_of_fmap; [|done].
    apply (elem_of_sublist (f :: frs)); [left|done].
Qed.

(** A back end that is not there is replaced. *)
Lemma lib_code_recovers_witness :
  lib_bfg_encode 1 7 (mkBFG 5 3) "block" = Some (toy_shards 5 3 "block") ∧
  lib_bfg_decode 1 7 (mkBFG 5 3) lossy 5 = Some "block"%string.
Proof.
  split; [vm_compute; reflexivity|].
  apply (lib_code_recovers 1 7 (mkBFG 5 3) "block" (toy_shards 5 3 "block") lossy);
    [vm_compute; reflexivity|exact lossy_received|vm_compute; lia].
Defined.
