(* ===== verification/BlockReceiver.v ===== *)
(** * Sending and receiving blocks between groups

    [EncodeBlockFragment] (include/proto/fragment.h), the sender
    (include/peer/replicator/v2/block_sender.h) and the receiver of the blocks
    of one remote group (include/peer/replicator/v2/block_receiver.h,
    include/peer/replicator/v2/mr_block_receiver.h).

    The sender cuts a block into fragments with [BFG] and sends a range of them
    to every remote node of its share; the receiver keeps the messages of 256
    consecutive blocks in a ring of queues, and the consumer of the next block
    collects verified fragments per Merkle root until the block can be decoded
    and its signatures pass.

    Block numbers are 64-bit, shard indices 32-bit.  A queue is the list of the
    messages in it; a consumer that has handled all of them waits for more.
    [verify ski digest data] is the result of the crypto provider: [None] when
    there is no key for [ski].  The node a message came from is not used. *)

From S2P Require Import Prelude Zpp Proto Merkle MerkleProofs ProofGenerator Fragments BFG LRU Storage.

(** ** Messages *)

Record EncodeBlockFragment := mkEBF {
  blockSignatures : list SignaturePair;
  ebf_blockNumber : Z;
  ebf_root : HashString;
  ebf_size : Z;
  ebf_start : Z;
  ebf_end : Z;
  encodeMessage : string
}.

Section codec.
Context `{ZP : Zpp}.

Definition c_ebf : codec (list SignaturePair * Z * HashString * Z * Z * Z) :=
  seq_codec (seq_codec (seq_codec (seq_codec (seq_codec
    (c_vec (seq_codec c_sv c_signature)) c_u64) (c_arr 32)) c_u64) c_u32) c_u32.

Definition ebf_head (e : EncodeBlockFragment) : list SignaturePair * Z * HashString * Z * Z * Z :=
  (blockSignatures e, ebf_blockNumber e, ebf_root e, ebf_size e, ebf_start e, ebf_end e).

Definition ebf_serializeToString (e : EncodeBlockFragment) (withBody : bool) : string :=
  out c_ebf (ebf_head e) +:+ if withBody then encodeMessage e else EmptyString.

Definition ebf_deserializeFromString (raw : string) : option EncodeBlockFragment :=
  match inp c_ebf raw with
  | None => None
  | Some ((sigs, number, root, size, start, stop), r) => Some (mkEBF sigs number root size start stop r)
  end.

Definition ebf_ok (e : EncodeBlockFragment) : Prop :=
  (((((vec_ok sigpair_ok (blockSignatures e) ∧ in_uint 64 (ebf_blockNumber e)) ∧ arr_ok (ebf_root e)) ∧
    in_uint 64 (ebf_size e)) ∧ in_uint 32 (ebf_start e)) ∧ in_uint 32 (ebf_end e)).

Lemma ebf_read_back `{!ZppLaws ZP} e :
  ebf_ok e → ebf_deserializeFromString (ebf_serializeToString e true) = Some e.
Proof.
  intros He. unfold ebf_deserializeFromString, ebf_serializeToString.
  assert (codec_ok (λ p, (((((vec_ok sigpair_ok p.1.1.1.1.1 ∧ in_uint 64 p.1.1.1.1.2) ∧ arr_ok p.1.1.1.2) ∧
    in_uint 64 p.1.1.2) ∧ in_uint 32 p.1.2) ∧ in_uint 32 p.2)) c_ebf) as Hc.
  { apply (seq_codec_ok (λ p : list SignaturePair * Z * HashString * Z * Z,
      ((((vec_ok sigpair_ok p.1.1.1.1 ∧ in_uint 64 p.1.1.1.2) ∧ arr_ok p.1.1.2) ∧ in_uint 64 p.1.2) ∧ in_uint 32 p.2)));
      [|apply u32_law].
    apply (seq_codec_ok (λ p : list SignaturePair * Z * HashString * Z,
      (((vec_ok sigpair_ok p.1.1.1 ∧ in_uint 64 p.1.1.2) ∧ arr_ok p.1.2) ∧ in_uint 64 p.2))); [|apply u32_law].
    apply (seq_codec_ok (λ p : list SignaturePair * Z * HashString,
      ((vec_ok sigpair_ok p.1.1 ∧ in_uint 64 p.1.2) ∧ arr_ok p.2))); [|apply u64_law].
    apply (seq_codec_ok (λ p : list SignaturePair * Z, vec_ok sigpair_ok p.1 ∧ in_uint 64 p.2)); [|apply arr_law].
    apply (seq_codec_ok (vec_ok sigpair_ok)); [|apply u64_law]. apply vec_law, sigpair_codec_ok. }
  rewrite (Hc (ebf_head e) _ He). by destruct e.
Qed.
End codec.

(** ** The ring of queues *)

Definition cap : nat := 256.

Record Buffer := mkBuffer { low : Z; data : list (list EncodeBlockFragment) }.

Definition newBuffer : Buffer := mkBuffer 0 (replicate cap []).

Definition slot (n : Z) : nat := Z.to_nat (Z.land n 255).

Definition push (b : Buffer) (n : Z) (e : EncodeBlockFragment) : Buffer * bool :=
  if (wrap64u (low b + 256) <=? n)%Z then (b, false) else
  if (n <? low b)%Z then (b, true) else
  (mkBuffer (low b) (alter (λ q, q ++ [e]) (slot n) (data b)), true).

(** [get]: [None] is the failed [CHECK]. *)
Definition get (b : Buffer) (n : Z) : option (list EncodeBlockFragment) :=
  if (wrap64u (low b + 256) <=? n)%Z || (n <? low b)%Z then None else data b !! slot n.

Definition clearBelow (checkLow : bool) (b : Buffer) (n : Z) : option Buffer :=
  if checkLow && negb (wrap64u (low b + 1) =? n)%Z then None else Some (mkBuffer n (data b)).

Section receiver.
Context `{ZP : Zpp} (sha : string → HashString) (max_alloc : Z).
Context (encode : BFGConfig → string → option (list string)).
Context (decode : BFGConfig → list string → nat → option string).

(** [addMessageToCache] of a local receiver, and of the remote one, which
    repeats the message to the group first. *)
Definition addMessageToCache (b : Buffer) (raw : string) : Buffer * bool :=
  match ebf_deserializeFromString raw with
  | None => (b, false)
  | Some e => ((push b (ebf_blockNumber e) e).1, true)
  end.

Definition addRemoteMessage (b : Buffer) (raw : string) : Buffer * list string * bool :=
  let x := addMessageToCache b raw in (x.1, if x.2 then [raw] else [], x.2).

(** ** Sending *)

(** [encodeAndSendFragment] for a range: the message, or failure. *)
Definition encodeAndSendFragment (g : Context) (blockNumber : Z) (blockSize : nat)
    (sigs : list SignaturePair) (start stop : nat) : option string :=
  t ← mt g;
  let e := mkEBF sigs blockNumber (Root t) (Z.of_nat blockSize) (Z.of_nat start) (Z.of_nat stop) EmptyString in
  raw ← serializeFragments g start stop;
  Some (ebf_serializeToString e false +:+ raw).

(** [encodeAndSendBlock] of a block whose serialized form, without signatures,
    is [blockRaw]: the messages in the order of the senders. *)
Definition encodeAndSendBlock (cfg : BFGConfig) (senders : list FragmentConfig) (blockRaw : string) (blk : Block)
    : option (list string) :=
  let x := initWithMessage sha encode cfg (newContext cfg) blockRaw in
  if x.2 then
    mapM (λ c, encodeAndSendFragment x.1 (number (header blk)) (String.length blockRaw)
      (consensusSignatures (metadata blk)) (startFragmentId c) (endFragmentId c)) senders
  else None.

(** ** Collecting fragments *)

Record BlockRegenerateOptions := mkOptions {
  currentShardCnt : nat;
  shardsValidated : list bool;
  context : option Context
}.

Section consume.
Context {W : Type} (validateCallback : W → string → list EncodeBlockFragment → option (option W)).

(** The local variables of [genBlockFromQueue], the free erasure-code instances
    of the configuration, and the state the callback works on.  The callback
    accepts with a new state, rejects ([Some None]) or ends the process. *)
Record gen := mkGen {
  blockMap : gmap HashString (list EncodeBlockFragment);
  haveShard : gmap HashString BlockRegenerateOptions;
  freeContexts : nat;
  owner : W
}.

(** One message: the loop goes on, a block is returned, an exception or a
    [CHECK] ends the process, the behaviour is undefined, or the consumer waits
    for an erasure-code instance. *)
Inductive gstep := Continue (s : gen) | Return (s : gen) | Terminate | UB | WaitContext.

Definition acquire (cfg : BFGConfig) (o : BlockRegenerateOptions) (free : nat)
    : option (BlockRegenerateOptions * nat) :=
  if bool_decide (currentShardCnt o = 0) then
    match free with
    | 0 => None
    | S n =>
        Some (mkOptions 0 (resize (dataShardCnt cfg + parityShardCnt cfg) false (shardsValidated o))
                (Some (newContext cfg)),
              match context o with Some _ => S n | None => n end)
    end
  else Some (o, free).

(** The loop that counts the new shards. *)
Definition mark (start stop : nat) (x : nat * list bool) : nat * list bool :=
  fold_left (λ x i, if bool_decide (x.2 !! i = Some false) then (S x.1, <[i := true]> x.2) else x)
    (seq start (stop - start)) x.

Definition gen_step (cfg : BFGConfig) (n : Z) (s : gen) (e : EncodeBlockFragment) : gstep :=
  if negb (ebf_blockNumber e =? n)%Z then Continue s else
  let r := ebf_root e in
  let total := Z.of_nat (dataShardCnt cfg + parityShardCnt cfg) in
  match acquire cfg (default (mkOptions 0 [] None) (haveShard s !! r)) (freeContexts s) with
  | None => WaitContext
  | Some (o, free) =>
      let s := mkGen (blockMap s) (<[r := o]> (haveShard s)) free (owner s) in
      if (total <? (ebf_start e + 1) mod 2 ^ 32)%Z || (total <? ebf_end e)%Z || (ebf_end e <=? ebf_start e)%Z
      then Continue s else
      match context o with
      | None => UB
      | Some c =>
          let start := Z.to_nat (ebf_start e) in
          let stop := Z.to_nat (ebf_end e) in
          match validateAndDeserializeFragments sha max_alloc c r (encodeMessage e) start stop with
          | Exception => Terminate
          | Undefined => UB
          | Result c false =>
              Continue (mkGen (blockMap s)
                (<[r := mkOptions (currentShardCnt o) (shardsValidated o) (Some c)]> (haveShard s)) free (owner s))
          | Result c true =>
              let peers := default [] (blockMap s !! r) ++ [e] in
              let x := mark start stop (currentShardCnt o, shardsValidated o) in
              let s := mkGen (<[r := peers]> (blockMap s))
                (<[r := mkOptions x.1 x.2 (Some c)]> (haveShard s)) free (owner s) in
              if bool_decide (dataShardCnt cfg ≤ x.1) then
                match regenerateMessage decode cfg c (wrap32 (ebf_size e)) with
                | None => Continue s
                | Some msg =>
                    match validateCallback (owner s) msg peers with
                    | None => Terminate
                    | Some None => Continue (mkGen (delete r (blockMap s)) (haveShard s) free (owner s))
                    | Some (Some w) => Return (mkGen (delete r (blockMap s)) (haveShard s) free w)
                    end
                end
              else Continue s
          end
      end
  end.

(** The loop over the messages of the queue, and the messages left in it. *)
Inductive gresult :=
  Waits (s : gen) | Returns (s : gen) (queue : list EncodeBlockFragment) | Terminates | Undefined_ | Blocks.

Fixpoint gen_queue (cfg : BFGConfig) (n : Z) (s : gen) (q : list EncodeBlockFragment) : gresult :=
  match q with
  | [] => Waits s
  | e :: q =>
      match gen_step cfg n s e with
      | Continue s => gen_queue cfg n s q
      | Return s => Returns s q
      | Terminate => Terminates
      | UB => Undefined_
      | WaitContext => Blocks
      end
  end.

(** [genBlockFromQueue]: [None] is the failed [CHECK] of the ring. *)
Definition genBlockFromQueue (cfg : BFGConfig) (n : Z) (free : nat) (b : Buffer) (w : W) : option gresult :=
  q ← get b n; Some (gen_queue cfg n (mkGen ∅ ∅ free w) q).

(** [passiveGet] once a block is there: the ring moves on. *)
Definition passiveGet (cfg : BFGConfig) (n : Z) (free : nat) (b : Buffer) (w : W) : option (Buffer * W) :=
  r ← genBlockFromQueue cfg n free b w;
  match r with
  | Returns s q =>
      b ← clearBelow true (mkBuffer (low b) (<[slot n := q]> (data b))) (wrap64u (n + 1));
      Some (b, owner s)
  | _ => None
  end.
End consume.

(** ** Accepting a block *)

Context (verify : string → DigestString → string → option bool).

Definition sig_valid (serHeader : string) (p : SignaturePair) : bool :=
  bool_decide (verify (ski p.2) (digest p.2) serHeader = Some true).

Definition getBlockFromRawString (raw : string) (peers : list EncodeBlockFragment) : option Block :=
  let x := deserializeFromString raw newBlock in
  if negb (valid x.1) then None else
  e ← head peers;
  let sigs := blockSignatures e in
  let serHeader := String.substring 0 (bodyPos x.1) raw in
  let verifiedSigCnt := length (filter (λ p, sig_valid serHeader p = true) sigs) in
  if bool_decide (verifiedSigCnt < (length sigs + 1) / 2) then None else
  Some (mkBlock (header x.2) (body x.2) (executeResult x.2)
    (mkMetadata sigs (validateSignatures (metadata x.2)))).

(** The callback [MRBlockReceiver] installs for region [idx]. *)
Definition validateFunc {C} `{BlockContainer C} (idx : nat) (st : Storage C) (raw : string)
    (peers : list EncodeBlockFragment) : option (option (Storage C)) :=
  match getBlockFromRawString raw peers with
  | None => Some None
  | Some blk =>
      if bool_decide (Forall (λ e, ebf_blockNumber e = number (header blk)) peers)
      then Some <$> insertBlockAndNotify st idx blk else Some None
  end.
End receiver.
