(* ===== verification/Replication.v ===== *)
(** * Blocks reach the other groups

    What the sender and the receiver of [BlockReceiver] achieve together: the
    fragments that correct nodes send and repeat are enough to rebuild a block,
    in whatever order they arrive; and what a faulty node can do to a receiver. *)

From S2P Require Import Prelude Zpp Proto Merkle MerkleProofs ProofGenerator Fragments BFG LRU Storage BlockReceiver.

(** ** Counting shards *)

Definition count (v : list bool) : nat := length (filter (λ b, b = true) v).

Lemma count_insert v i : v !! i = Some false → count (<[i := true]> v) = S (count v).
Proof.
  revert i. induction v as [|b v IH]; intros [|i] Hi; try done.
  - injection Hi as ->. done.
  - specialize (IH i Hi). change (<[S i := true]> (b :: v)) with (b :: <[i := true]> v).
    unfold count in *. rewrite !filter_cons. destruct (decide (b = true)); cbn [length]; lia.
Qed.

Lemma count_replicate n : count (replicate n false) = 0.
Proof. induction n as [|n IH]; [done|]. exact IH. Qed.

(** The shards with a range added. *)
Definition mark_range (a b : nat) (v : list bool) : list bool :=
  fold_left (λ v i, <[i := true]> v) (seq a (b - a)) v.

Lemma mark_range_lookup a b v i :
  mark_range a b v !! i = if bool_decide (a ≤ i < b) then (λ _, true) <$> v !! i else v !! i.
Proof.
  unfold mark_range. destruct (decide (b ≤ a)) as [Hle|Hle].
  { replace (b - a) with 0 by lia. by rewrite bool_decide_false by lia. }
  assert (∀ n a (v : list bool), fold_left (λ v i, <[i := true]> v) (seq a n) v !! i =
    if bool_decide (a ≤ i < a + n) then (λ _, true) <$> v !! i else v !! i) as Hf.
  { clear. induction n as [|n IH]; intros a v; cbn [seq fold_left]; [by rewrite bool_decide_false by lia|].
    rewrite IH. destruct (decide (i = a)) as [->|Hne].
    - rewrite bool_decide_false, bool_decide_true by lia. rewrite list_lookup_insert. case_decide as Hd.
      + destruct (lookup_lt_is_Some_2 v a) as [x ->]; [lia|done].
      + by rewrite lookup_ge_None_2 by lia.
    - rewrite list_lookup_insert_ne by done. by rewrite (bool_decide_ext (S a ≤ i < S a + n) (a ≤ i < a + S n)) by lia. }
  rewrite Hf. by replace (a + (b - a)) with b by lia.
Qed.

Lemma mark_range_length a b v : length (mark_range a b v) = length v.
Proof.
  unfold mark_range. generalize (seq a (b - a)) as l. intros l. revert v.
  induction l as [|i l IH]; intros v; [done|]. cbn [fold_left]. by rewrite IH, length_insert.
Qed.

Lemma mark_fresh a b v :
  (∀ i, a ≤ i < b → v !! i = Some false) →
  mark a b (count v, v) = (count v + (b - a), mark_range a b v) ∧
  count (mark_range a b v) = count v + (b - a).
Proof.
  unfold mark, mark_range. intros Hv.
  assert (∀ l, NoDup l → ∀ v, (∀ i, i ∈ l → v !! i = Some false) →
    fold_left (λ x i, if bool_decide (x.2 !! i = Some false) then (S x.1, <[i := true]> x.2) else x) l (count v, v)
      = (count v + length l, fold_left (λ v i, <[i := true]> v) l v) ∧
    count (fold_left (λ v i, <[i := true]> v) l v) = count v + length l) as Hl.
  { clear. intros l Hn. induction Hn as [|i l Hi Hn IH]; intros v Hf; cbn [fold_left length];
      [by rewrite Nat.add_0_r|].
    assert (v !! i = Some false) as Hvi by (apply Hf; left).
    rewrite bool_decide_true by done. cbn [fst snd]. rewrite <-(count_insert _ _ Hvi).
    destruct (IH (<[i := true]> v)) as [H1 H2].
    { intros j Hj. rewrite list_lookup_insert_ne; [apply Hf; by right|]. by intros ->. }
    rewrite H1, H2, (count_insert _ _ Hvi). split; [f_equal; lia|lia]. }
  destruct (Hl (seq a (b - a)) (NoDup_seq _ _) v) as [H1 H2].
  { intros i Hi%elem_of_seq. apply Hv. lia. }
  by rewrite H1, H2, length_seq.
Qed.

(** ** Correct fragments of one block *)

Section honest.
Context `{ZP : Zpp} `{HZ : !ZppLaws ZP} (sha : string → HashString) (max_alloc : Z).
Context (encode : BFGConfig → string → option (list string)).
Context (decode : BFGConfig → list string → nat → option string).
Context `{HE : !ECLaws encode decode}.
Context (Hmax : (max_alloc < 2 ^ 31)%Z) (Hmin : (32 ≤ max_alloc)%Z) (sha_ok : ∀ s, arr_ok (sha s)).
Context {W : Type} (cb : W → string → list EncodeBlockFragment → option (option W)).

(** A block whose serialized form [m] has been cut into [frs]. *)
Record cut (cfg : BFGConfig) (m : string) (g : Context) (frs : list string) (t : MerkleTree (H := HashString)) : Prop := {
  cut_init : initWithMessage sha encode cfg (newContext cfg) m = (g, true);
  cut_encode : encode cfg m = Some frs;
  cut_tree : mt g = Some t;
  cut_sv : Forall sv_ok frs;
  cut_31 : (Z.of_nat (length frs) ≤ 2 ^ 31)%Z;
  cut_size : (Z.of_nat (String.length m) < 2 ^ 31)%Z
}.

Context (cfg : BFGConfig) (m : string) (g : Context) (frs : list string) (t : MerkleTree (H := HashString)).
Context (Hcut : cut cfg m g frs t) (sigs : list SignaturePair) (n : Z).

(** The message a sender makes for a range, as the receiver reads it. *)
Definition fragment_message (r : nat * nat) : EncodeBlockFragment :=
  mkEBF sigs n (Root t) (Z.of_nat (String.length m)) (Z.of_nat r.1) (Z.of_nat r.2)
    (default EmptyString (serializeFragments g r.1 r.2)).

Definition range_ok (r : nat * nat) : Prop := r.1 < r.2 ≤ length frs.
Definition range (r : nat * nat) : list nat := seq r.1 (r.2 - r.1).

(** The storage that holds the marked shards. *)
Definition have (v : list bool) : list DecodeStorage :=
  zip_with (λ f (b : bool), if b then mkDS true (Some f) else mkDS false None) frs v.
Definition ctx_of (v : list bool) : Context := mkCtx (length frs) None [] (have v).

Lemma cut_length : length frs = dataShardCnt cfg + parityShardCnt cfg.
Proof using HE Hcut. eapply ec_count, Hcut. Qed.

Lemma newContext_ctx : newContext cfg = ctx_of (replicate (length frs) false).
Proof using HE Hcut.
  unfold newContext, ctx_of, have. rewrite <-cut_length. f_equal.
  clear. induction frs as [|f l IH]; [done|]. cbn. by rewrite IH.
Qed.

Lemma have_lookup v i : length v = length frs →
  have v !! i = (f ← frs !! i; b ← v !! i; Some (if b : bool then mkDS true (Some f) else mkDS false None)).
Proof using Type. intros Hv. unfold have. by rewrite lookup_zip_with. Qed.

Lemma have_unguarded v i : length v = length frs → v !! i = Some false → unguarded (have v) i.
Proof using Type.
  intros Hv Hi. unfold unguarded. rewrite have_lookup, Hi by done.
  destruct (lookup_lt_is_Some_2 frs i) as [f ->]; [|done]. rewrite <-Hv. by eapply lookup_lt_Some.
Qed.

Lemma validate_range v r :
  range_ok r → length v = length frs → (∀ i, r.1 ≤ i < r.2 → v !! i = Some false) →
  validateAndDeserializeFragments sha max_alloc (ctx_of v) (Root t) (encodeMessage (fragment_message r)) r.1 r.2 =
  Result (ctx_of (mark_range r.1 r.2 v)) true.
Proof using HZ HE Hmax Hmin sha_ok Hcut.
  intros Hr Hv Hf. pose proof cut_length as Hlen. destruct Hcut as [Hi He Ht Hsv H31 _].
  apply init_inv in Hi as (frs' & t' & He' & Hg & HN). rewrite He in He'. injection He' as <-.
  rewrite Hg in Ht. injection Ht as Ht'. subst t'. destruct (generated_entries sha max_alloc sha_ok Hmin frs t HN Hsv H31) as [Hpl Hes].
  destruct (generated_range sha max_alloc Hmax cfg frs t (ctx_of v) r.1 r.2) as (raw & dsl & Hs & Hval & Hd); try done.
  - cbn. unfold have. rewrite length_zip_with. lia.
  - intros i Hi'. apply have_unguarded; auto.
  - unfold fragment_message. cbn [encodeMessage]. rewrite Hg, Hs. cbn [default from_option id]. rewrite Hval.
    f_equal. unfold stored, ctx_of. cbn [fragmentCnt mt ecEncodeResult]. f_equal.
    apply list_eq. intros i. rewrite Hd, have_lookup by (by rewrite mark_range_length).
    rewrite mark_range_lookup. cbn [ctx_of decodeStorageList].
    case_bool_decide as Hri; [rewrite Hf by done|by rewrite have_lookup].
    by destruct (frs !! i).
Qed.

(** Decoding what is marked. *)
Lemma regenerate_marked v :
  length v = length frs → dataShardCnt cfg ≤ count v →
  regenerateMessage decode cfg (ctx_of v) (wrap32 (Z.of_nat (String.length m))) = Some m.
Proof using HE Hcut.
  intros Hv Hc. pose proof (cut_size _ _ _ _ _ Hcut) as Hsz.
  unfold regenerateMessage. rewrite wrap32_id by (unfold in_int32; lia). rewrite Nat2Z.id.
  assert (Forall2 (λ f x, x = f ∨ x = EmptyString) frs
    ((λ d, default EmptyString (encodeFragment d)) <$> decodeStorageList (ctx_of v)) ∧
    present ((λ d, default EmptyString (encodeFragment d)) <$> decodeStorageList (ctx_of v)) = count v) as [Hr Hp].
  { pose proof (ec_nonempty _ _ _ (cut_encode _ _ _ _ _ Hcut)) as Hne. revert Hv Hne.
    cbn [ctx_of decodeStorageList]. unfold have. clear. revert v.
    induction frs as [|f l IH]; intros v Hv Hne; destruct v as [|b v]; [split; [constructor|done]|done..|].
    injection Hv as Hv. apply Forall_cons in Hne as [Hf Hne]. destruct (IH v Hv Hne) as [H1 H2].
    unfold present, count in *. cbn [zip_with fmap list_fmap]. split.
    - constructor; [destruct b; [by left|by right]|done].
    - rewrite !filter_cons. destruct b; cbn [encodeFragment default from_option id].
      + rewrite decide_True by done. rewrite (decide_True (P := true = true)) by done. cbn [length]. by rewrite H2.
      + rewrite decide_False by (intros ?; done). by rewrite (decide_False (P := false = true)) by done. }
  eapply ec_decode; [apply Hcut|exact Hr|by rewrite Hp].
Qed.

(** ** The consumer of the block *)

Definition honest (e : EncodeBlockFragment) : Prop := ∃ r, range_ok r ∧ e = fragment_message r.

(** The state of the consumer after the marked shards have been collected. *)
Record gen_inv (v : list bool) (w : W) (s : gen (W := W)) : Prop := {
  gi_length : length v = length frs;
  gi_empty : count v = 0 → v = replicate (length frs) false ∧ haveShard s !! Root t = None ∧ 1 ≤ freeContexts s;
  gi_some : count v ≠ 0 → haveShard s !! Root t = Some (mkOptions (count v) v (Some (ctx_of v)));
  gi_peers : Forall honest (default [] (blockMap s !! Root t));
  gi_owner : owner s = w
}.

Lemma acquire_inv v w s :
  gen_inv v w s →
  ∃ free, acquire cfg (default (mkOptions 0 [] None) (haveShard s !! Root t)) (freeContexts s) =
    Some (mkOptions (count v) v (Some (ctx_of v)), free).
Proof using HE Hcut.
  intros [Hl H0 H1 _ _]. destruct (decide (count v = 0)) as [Hc|Hc].
  - destruct (H0 Hc) as (-> & -> & Hf). unfold acquire. cbn [default from_option id currentShardCnt].
    rewrite bool_decide_true by done. destruct (freeContexts s) as [|k]; [lia|].
    eexists. cbn [shardsValidated context]. rewrite count_replicate, resize_nil, <-newContext_ctx, <-cut_length. done.
  - rewrite (H1 Hc). unfold acquire. cbn [default from_option id currentShardCnt].
    rewrite bool_decide_false by done. by eexists.
Qed.

Lemma gen_step_fragment v w s r :
  gen_inv v w s → range_ok r → (∀ i, r.1 ≤ i < r.2 → v !! i = Some false) →
  (∀ peers, peers ≠ [] → Forall honest peers → ∃ w', cb w m peers = Some (Some w')) →
  let v' := mark_range r.1 r.2 v in
  (dataShardCnt cfg ≤ count v' ∧ ∃ s' peers, gen_step sha max_alloc decode cb cfg n s (fragment_message r) = Return s' ∧
      Forall honest peers ∧ peers ≠ [] ∧ cb w m peers = Some (Some (owner s'))) ∨
  (count v' < dataShardCnt cfg ∧
    ∃ s', gen_step sha max_alloc decode cb cfg n s (fragment_message r) = Continue s' ∧ gen_inv v' w s').
Proof using HZ HE Hmax Hmin sha_ok Hcut.
  intros Hinv Hr Hv Hcb. cbv zeta. unfold gen_step.
  destruct (acquire_inv _ _ _ Hinv) as [free Hacq]. destruct Hinv as [Hl _ _ Hpeers Ho].
  cbn [fragment_message ebf_blockNumber ebf_root ebf_start ebf_end ebf_size]. rewrite Z.eqb_refl. cbn [negb].
  rewrite Hacq. cbn [context currentShardCnt shardsValidated blockMap haveShard owner].
  pose proof cut_length as Hlen. pose proof (cut_31 _ _ _ _ _ Hcut) as H31. unfold range_ok in Hr.
  rewrite Z.mod_small by lia.
  replace (_ || _ || _) with false.
  2: { symmetry. rewrite !orb_false_iff, !Z.ltb_ge, Z.leb_gt. lia. }
  rewrite !Nat2Z.id, (validate_range v r Hr Hl Hv).
  destruct (mark_fresh r.1 r.2 v Hv) as [-> Hcnt]. cbn [fst snd].
  rewrite <-Hcnt. set (v' := mark_range r.1 r.2 v) in *.
  assert (length v' = length frs) as Hl' by (subst v'; by rewrite mark_range_length).
  set (peers := default [] (blockMap s !! Root t) ++ [_]).
  assert (Forall honest peers) as Hp.
  { subst peers. apply Forall_app. split; [done|]. apply Forall_singleton. by exists r. }
  assert (peers ≠ []) as Hpne by (subst peers; by destruct (default [] _)).
  destruct (decide (dataShardCnt cfg ≤ count v')) as [Hd|Hd].
  - left. split; [done|]. rewrite bool_decide_true, regenerate_marked by done.
    rewrite Ho. destruct (Hcb peers Hpne Hp) as [w' Hw']. rewrite Hw'.
    eexists _, peers. cbn [owner]. done.
  - right. split; [lia|]. rewrite bool_decide_false by done. eexists. split; [done|].
    split; cbn [haveShard blockMap freeContexts owner]; [done|lia| | |done].
    + intros _. by rewrite lookup_insert_eq.
    + by rewrite lookup_insert_eq.
Qed.

(** The messages of the queue that are about the block are correct, for ranges
    that do not overlap; together they have enough shards. *)
Lemma gen_queue_returns q : ∀ rs v w s,
  gen_inv v w s → filter (λ e, ebf_blockNumber e = n) q = fragment_message <$> rs →
  Forall range_ok rs → NoDup (rs ≫= range) → (∀ i, i ∈ rs ≫= range → v !! i = Some false) →
  count v < dataShardCnt cfg ≤ count v + length (rs ≫= range) →
  (∀ peers, peers ≠ [] → Forall honest peers → ∃ w', cb w m peers = Some (Some w')) →
  ∃ s' rest peers, gen_queue sha max_alloc decode cb cfg n s q = Returns s' rest ∧
    Forall honest peers ∧ peers ≠ [] ∧ cb w m peers = Some (Some (owner s')).
Proof using HZ HE Hmax Hmin sha_ok Hcut.
  induction q as [|e q IH]; intros rs v w s Hinv Hq Hok Hnd Hv Hc Hcb.
  - destruct rs; [cbn in Hc; lia|done].
  - rewrite filter_cons in Hq. cbn [gen_queue]. destruct (decide (ebf_blockNumber e = n)) as [He|He].
    + destruct rs as [|r rs]; [done|]. injection Hq as -> Hq.
      apply Forall_cons in Hok as [Hr Hok]. cbn [mbind list_bind] in Hnd, Hv, Hc.
      apply NoDup_app in Hnd as (_ & Hdis & Hnd). rewrite length_app in Hc.
      assert (∀ i, r.1 ≤ i < r.2 → v !! i = Some false) as Hvr.
      { intros i Hi. apply Hv, elem_of_app. left. apply elem_of_seq. lia. }
      destruct (mark_fresh r.1 r.2 v Hvr) as [_ Hcnt].
      destruct (gen_step_fragment v w s r Hinv Hr Hvr Hcb) as [(_ & s' & peers & -> & H)|(Hlt & s' & -> & Hinv')].
      * by exists s', q, peers.
      * apply (IH rs _ w s' Hinv'); try done.
        -- intros i Hi. rewrite mark_range_lookup, bool_decide_false.
           ++ apply Hv, elem_of_app. by right.
           ++ intros Hri. apply (Hdis i); [|done]. apply elem_of_seq. lia.
        -- unfold range in Hc at 1. rewrite length_seq in Hc. rewrite Hcnt in *. lia.
    + assert (gen_step sha max_alloc decode cb cfg n s e = Continue s) as ->; [|by apply (IH rs v w s)].
      unfold gen_step. apply Z.eqb_neq in He. by rewrite He.
Qed.
End honest.

(** ** From the sender's node to the ring *)

Section pipeline.
Context `{ZP : Zpp} `{HZ : !ZppLaws ZP}.

(** Messages are put into the ring as they arrive. *)
Definition deliver (b : Buffer) (raws : list string) : Buffer :=
  fold_left (λ b raw, (addMessageToCache b raw).1) raws b.

Definition about (n : Z) (q : list EncodeBlockFragment) : list EncodeBlockFragment :=
  filter (λ e, ebf_blockNumber e = n) q.

Lemma push_low b k e : low (push b k e).1 = low b.
Proof using Type. unfold push. by repeat case_match. Qed.

Lemma slot_bound n : slot n < cap.
Proof using Type.
  unfold slot, cap. change 255%Z with (Z.ones 8). rewrite Z.land_ones by lia.
  pose proof (Z.mod_pos_bound n (2 ^ 8)). lia.
Qed.

Lemma push_about b k e n q :
  ebf_blockNumber e = k → low b = n → (0 ≤ n < 2 ^ 64 - 256)%Z → length (data b) = cap →
  data b !! slot n = Some q →
  ∃ q', data (push b k e).1 !! slot n = Some q' ∧ about n q' = about n q ++ about n [e] ∧
    length (data (push b k e).1) = cap.
Proof using Type.
  intros He Hlow Hn Hcap Hq. unfold push, wrap64u. rewrite Hlow, Z.mod_small by lia.
  assert (∀ b', about n [e] = [] → data b' = data b →
    ∃ q', data b' !! slot n = Some q' ∧ about n q' = about n q ++ about n [e] ∧ length (data b') = cap) as Hskip.
  { intros b' Hem ->. exists q. rewrite Hem. by rewrite app_nil_r. }
  assert (k ≠ n → about n [e] = []) as Hne.
  { intros Hk. unfold about. rewrite filter_cons, decide_False by congruence. done. }
  destruct (n + 256 <=? k)%Z eqn:H1; bool_cases; [apply Hskip; [apply Hne; lia|done]|].
  destruct (k <? n)%Z eqn:H2; bool_cases; [apply Hskip; [apply Hne; lia|done]|]. cbn [fst data].
  rewrite length_alter. destruct (decide (slot k = slot n)) as [Hs|Hs].
  - rewrite Hs, list_lookup_alter_eq, Hq. exists (q ++ [e]). split; [done|]. split; [|done].
    unfold about. apply filter_app.
  - rewrite list_lookup_alter_ne by done. exists q. split; [done|]. split; [|done].
    rewrite Hne by (by intros ->). by rewrite app_nil_r.
Qed.

(** The queue of the next block holds the messages about it, in the order of
    their arrival. *)
Lemma deliver_about raws : ∀ b n q,
  low b = n → (0 ≤ n < 2 ^ 64 - 256)%Z → length (data b) = cap → data b !! slot n = Some q →
  low (deliver b raws) = n ∧
  ∃ q', get (deliver b raws) n = Some q' ∧
    about n q' = about n q ++ about n (omap ebf_deserializeFromString raws).
Proof using Type.
  induction raws as [|raw raws IH]; intros b n q Hlow Hn Hcap Hq.
  - split; [done|]. exists q. cbn. rewrite app_nil_r. split; [|done]. unfold get, wrap64u.
    rewrite Hlow, Z.mod_small by lia. replace (_ || _) with false; [done|].
    symmetry. rewrite orb_false_iff, Z.leb_gt, Z.ltb_ge. lia.
  - cbn [deliver fold_left omap list_omap]. unfold addMessageToCache.
    destruct (ebf_deserializeFromString raw) as [e|]; cbn [fst]; [|by apply IH].
    destruct (push_about b (ebf_blockNumber e) e n q) as (q' & Hq' & Ha & Hc); try done.
    destruct (IH (push b (ebf_blockNumber e) e).1 n q') as (Hl & q'' & Hg & Ha');
      [by rewrite push_low|done..|]. split; [done|]. exists q''. split; [done|].
    rewrite Ha', Ha, <-app_assoc. f_equal. unfold about. by rewrite <-filter_app.
Qed.

Lemma send_then_parse g t n size sigs start stop raw :
  mt g = Some t → arr_ok (Root t) → vec_ok sigpair_ok sigs → in_uint 64 n →
  (Z.of_nat size < 2 ^ 31)%Z → (Z.of_nat start < 2 ^ 32)%Z → (Z.of_nat stop < 2 ^ 32)%Z →
  encodeAndSendFragment g n size sigs start stop = Some raw →
  ebf_deserializeFromString raw =
    Some (mkEBF sigs n (Root t) (Z.of_nat size) (Z.of_nat start) (Z.of_nat stop)
      (default EmptyString (serializeFragments g start stop))).
Proof using HZ.
  intros Hmt Hroot Hsigs Hn Hsz Hst Hsp. unfold encodeAndSendFragment. rewrite Hmt. cbn [mbind option_bind].
  destruct (serializeFragments g start stop) as [enc|]; [|done]. cbn [mbind option_bind default from_option id].
  intros [= <-]. set (e := mkEBF sigs n (Root t) _ _ _ enc).
  transitivity (ebf_deserializeFromString (ebf_serializeToString e true)).
  - f_equal. unfold ebf_serializeToString. by rewrite string_app_nil_r.
  - apply ebf_read_back. unfold ebf_ok, in_uint in *. cbn [blockSignatures ebf_blockNumber ebf_root ebf_size ebf_start ebf_end e].
    split; [|lia]. split; [|lia]. split; [|lia]. done.
Qed.

(** ** Accepting a correct block *)

Context (verify : string → DigestString → string → option bool).

(** The bytes the group signs. *)
Definition header_bytes (blk : Block) : string := out c_header (header blk).

Definition with_signatures (blk : Block) (sigs : list SignaturePair) : Block :=
  mkBlock (header blk) (body blk) (executeResult blk) (mkMetadata sigs (validateSignatures (metadata blk))).

Definition enough_signatures (blk : Block) (sigs : list SignaturePair) : Prop :=
  (length sigs + 1) / 2 ≤ length (filter (λ p, sig_valid verify (header_bytes blk) p = true) sigs).

Lemma substring_prefix (a b : string) : String.substring 0 (String.length a) (a +:+ b) = a.
Proof using Type. induction a as [|c a IH]; [by destruct b|]. exact (f_equal (String c) IH). Qed.

Lemma getBlock_correct blk e peers :
  block_ok blk → enough_signatures blk (blockSignatures e) →
  getBlockFromRawString verify (serializeToString blk).1 (e :: peers) =
  Some (with_signatures blk (blockSignatures e)).
Proof using HZ.
  intros Hok Hs. unfold getBlockFromRawString. rewrite deserialize_serialize by done.
  cbn [fst snd serializeToString valid negb head mbind option_bind bodyPos].
  rewrite substring_prefix. rewrite bool_decide_false by (apply Nat.le_ngt; exact Hs).
  done.
Qed.
End pipeline.

(** ** A block reaches a group *)

Section group.
Context `{ZP : Zpp} `{HZ : !ZppLaws ZP} (sha : string → HashString) (max_alloc : Z).
Context (encode : BFGConfig → string → option (list string)).
Context (decode : BFGConfig → list string → nat → option string).
Context `{HE : !ECLaws encode decode}.
Context (Hmax : (max_alloc < 2 ^ 31)%Z) (Hmin : (32 ≤ max_alloc)%Z) (sha_ok : ∀ s, arr_ok (sha s)).
Context (verify : string → DigestString → string → option bool).
Context {C : Type} `{BlockContainer C} (inv : C → Prop) (holds : C → Z → Prop) `{HL : !BlockContainerLaws inv holds}.

Lemma cut_root_ok cfg m g frs t : cut sha encode cfg m g frs t → arr_ok (Root t).
Proof using sha_ok.
  intros [Hi _ Ht _ _ _]. apply init_inv in Hi as (frs' & t' & _ & -> & HN). injection Ht as ->.
  apply New_inv in HN as (leaves & _ & Hl & Hs & _). rewrite leafGen_fragments in Hl. injection Hl as <-.
  pose proof (level_arr_ok sha sha_ok (Depth t) (sha <$> frs')) as Hall.
  rewrite (ts_root _ _ _ Hs) in Hall. apply (Forall_lookup_1 _ _ 0 _ (Hall ltac:(
    apply Forall_fmap, Forall_true; intros x; apply sha_ok))). done.
Qed.

(** What a correct node parses of the message for a share. *)
Lemma share_message cfg m g frs t sigs n c :
  cut sha encode cfg m g frs t → vec_ok sigpair_ok sigs → in_uint 64 n →
  startFragmentId c < endFragmentId c ≤ length frs →
  (encodeAndSendFragment g n (String.length m) sigs (startFragmentId c) (endFragmentId c) ≫= ebf_deserializeFromString) =
  Some (fragment_message m g t sigs n (startFragmentId c, endFragmentId c)).
Proof using HZ HE Hmax Hmin sha_ok.
  intros Hcut Hsigs Hn Hc. pose proof (cut_root_ok _ _ _ _ _ Hcut) as Hroot.
  pose proof (cut_length _ encode decode _ _ _ _ _ Hcut) as Hlen.
  pose proof (cut_31 _ _ _ _ _ _ _ Hcut) as H31. pose proof (cut_size _ _ _ _ _ _ _ Hcut) as Hsz.
  assert (∃ raw, serializeFragments g (startFragmentId c) (endFragmentId c) = Some raw) as [raw Hraw].
  { destruct Hcut as [Hi He Ht Hsv _ _]. apply init_inv in Hi as (frs' & t' & He' & -> & HN).
    rewrite He in He'. injection He' as <-. injection Ht as ->.
    destruct (generated_entries sha max_alloc sha_ok Hmin frs t HN Hsv H31) as [Hpl Hes].
    destruct (serialize_generated sha max_alloc cfg frs t (startFragmentId c) (endFragmentId c)) as (raw & Hr & _); eauto. }
  destruct (encodeAndSendFragment g n (String.length m) sigs (startFragmentId c) (endFragmentId c)) as [msg|] eqn:He.
  - cbn [mbind option_bind]. eapply send_then_parse; try done; [apply Hcut|cbn [fst snd]; lia..].
  - unfold encodeAndSendFragment in He. rewrite (cut_tree _ _ _ _ _ _ _ Hcut) in He. cbn [mbind option_bind] in He.
    by rewrite Hraw in He.
Qed.

Lemma validateFunc_correct idx st blk sigs peers g t m :
  block_ok blk → enough_signatures verify blk sigs → storage_ok inv st → idx < regionCount st →
  peers ≠ [] → Forall (λ e, ∃ r, e = fragment_message m g t sigs (number (header blk)) r) peers →
  ∃ st', insertBlockAndNotify st idx (with_signatures blk sigs) = Some st' ∧
    validateFunc verify idx st (serializeToString blk).1 peers = Some (Some st').
Proof using HZ HL.
  intros Hok Hs Hst Hidx Hne Hp. destruct peers as [|e peers]; [done|].
  pose proof Hp as [[r He] _]%Forall_cons. unfold validateFunc.
  rewrite getBlock_correct by (subst e; done).
  replace (blockSignatures e) with sigs by (by subst e). cbn [with_signatures header].
  rewrite bool_decide_true by (eapply Forall_impl; [exact Hp|]; intros x [? ->]; done).
  destruct (insert_preserves inv holds st idx (with_signatures blk sigs) Hst) as (st' & Hi & _).
  exists st'. split; [done|]. by rewrite Hi.
Qed.

(** What the correct senders sent to correct receivers about a block, as parsed. *)
Definition surviving_messages (fu : FragmentUtil) (badLocal badRemote : list nat) (g : Context) (n : Z)
    (size : nat) (sigs : list SignaturePair) : list EncodeBlockFragment :=
  omap (λ c, encodeAndSendFragment g n size sigs (startFragmentId c) (endFragmentId c) ≫= ebf_deserializeFromString)
    (surviving_configs fu badLocal badRemote).

Lemma surviving_messages_eq fu badLocal badRemote cfg m g frs t sigs n :
  fu_ok fu → cut sha encode cfg m g frs t → vec_ok sigpair_ok sigs → in_uint 64 n →
  length frs = _totalFragments fu →
  surviving_messages fu badLocal badRemote g n (String.length m) sigs =
  fragment_message m g t sigs n <$>
    ((λ c, (startFragmentId c, endFragmentId c)) <$> surviving_configs fu badLocal badRemote).
Proof using HZ HE Hmax Hmin sha_ok.
  intros Hfu Hcut Hsigs Hn Hlen. unfold surviving_messages.
  destruct (surviving_configs_spec fu Hfu badLocal badRemote) as (_ & _ & Hall). rewrite <-Hlen in Hall.
  induction Hall as [|c cs Hc _ IH]; [done|]. cbn [omap list_omap fmap list_fmap].
  rewrite (share_message cfg m g frs t sigs n c Hcut Hsigs Hn Hc). by rewrite IH.
Qed.

(** The consumer stores a block whose fragments are in its queue, when their
    ranges are disjoint and enough. *)
Lemma passiveGet_collects cfg blk sigs g frs t idx (st : Storage C) buf q0 raws rs free :
  block_ok blk → enough_signatures verify blk sigs → cut sha encode cfg (serializeToString blk).1 g frs t →
  1 ≤ dataShardCnt cfg ≤ length (rs ≫= range) →
  let n := number (header blk) in
  (0 ≤ n < 2 ^ 64 - 256)%Z → low buf = n → length (data buf) = cap →
  data buf !! slot n = Some q0 → about n q0 = [] →
  about n (omap ebf_deserializeFromString raws) = fragment_message (serializeToString blk).1 g t sigs n <$> rs →
  Forall (range_ok frs) rs → NoDup (rs ≫= range) →
  storage_ok inv st → idx < regionCount st → 1 ≤ free →
  ∃ buf' st', passiveGet sha max_alloc decode (validateFunc verify idx) cfg n free (deliver buf raws) st =
      Some (buf', st') ∧ low buf' = (n + 1)%Z ∧
    insertBlockAndNotify st idx (with_signatures blk sigs) = Some st'.
Proof using HZ HE Hmax Hmin sha_ok HL.
  intros Hok Hen Hcut Hdata n Hn Hlow Hcap Hq0 Ha0 Hraws Hall Hnd Hst Hidx Hfree.
  destruct (deliver_about raws buf n q0 Hlow Hn Hcap Hq0) as (Hlow' & q & Hget & Habout).
  rewrite Ha0, Hraws in Habout. cbn [app] in Habout.
  destruct (gen_queue_returns sha max_alloc encode decode Hmax Hmin sha_ok (validateFunc verify idx)
    cfg (serializeToString blk).1 g frs t Hcut sigs n q rs (replicate (length frs) false) st
    (mkGen ∅ ∅ free st)) as (s' & rest & peers & Hgen & Hpeers & Hpne & Hcb); try done.
  - split; cbn [haveShard blockMap freeContexts owner]; [apply length_replicate|done| |constructor|done].
    by rewrite count_replicate.
  - intros i (r & Hi%elem_of_seq & Hr)%list_elem_of_bind. rewrite Forall_forall in Hall.
    destruct (Hall r Hr). apply lookup_replicate_2. lia.
  - rewrite count_replicate. lia.
  - intros ps Hps Hh. destruct (validateFunc_correct idx st blk sigs ps g t (serializeToString blk).1) as (st' & _ & Hv);
      try done; [|by eexists].
    eapply Forall_impl; [exact Hh|]. intros e (r & _ & ->). by exists r.
  - destruct (validateFunc_correct idx st blk sigs peers g t (serializeToString blk).1) as (st' & Hi & Hv); try done.
    { eapply Forall_impl; [exact Hpeers|]. intros e (r & _ & ->). by exists r. }
    rewrite Hv in Hcb. injection Hcb as ->. unfold passiveGet, genBlockFromQueue. rewrite Hget.
    cbn [mbind option_bind]. rewrite Hgen. unfold clearBelow. cbn [low]. rewrite Hlow', Z.eqb_refl.
    cbn [negb andb mbind option_bind]. eexists _, _. split; [done|]. split; [|done].
    cbn [low]. unfold wrap64u. rewrite Z.mod_small; lia.
Qed.

(** A block reaches a remote group: with at most a third of the nodes of
    either group silent, whatever the order in which the messages of the others
    arrive, and whatever messages about other blocks or unreadable messages are
    between them, the consumer of the block rebuilds it from its fragments,
    stores it with its signatures, and the ring moves on to the next block. *)
Theorem block_reaches_group n1 n2 fu badLocal badRemote blk sigs g frs t idx (st : Storage C) buf q0 raws free :
  0 < n1 → 0 < n2 → fu_reset n1 n2 = Some fu →
  length badLocal ≤ (n1 - 1) / 3 → length badRemote ≤ (n2 - 1) / 3 →
  block_ok blk → vec_ok sigpair_ok sigs → enough_signatures verify blk sigs →
  cut sha encode (getBFGConfig fu) (serializeToString blk).1 g frs t →
  let n := number (header blk) in
  (0 ≤ n < 2 ^ 64 - 256)%Z → low buf = n → length (data buf) = cap →
  data buf !! slot n = Some q0 → about n q0 = [] →
  about n (omap ebf_deserializeFromString raws) ≡ₚ
    surviving_messages fu badLocal badRemote g n (String.length (serializeToString blk).1) sigs →
  storage_ok inv st → idx < regionCount st → 1 ≤ free →
  ∃ buf' st', passiveGet sha max_alloc decode (validateFunc verify idx) (getBFGConfig fu) n free
      (deliver buf raws) st = Some (buf', st') ∧ low buf' = (n + 1)%Z ∧
    insertBlockAndNotify st idx (with_signatures blk sigs) = Some st'.
Proof using HZ HE Hmax Hmin sha_ok HL.
  intros H1 H2 Hf HbL HbR Hok Hsigs Hen Hcut n Hn Hlow Hcap Hq0 Ha0 Hraws Hst Hidx Hfree.
  destruct (fu_reset_ok n1 n2 H1 H2) as (fu' & E & Hfu & EL & ER & ET). rewrite Hf in E. injection E as <-.
  assert (0 < _totalFragments fu) as Htot.
  { rewrite ET. apply Nat.neq_0_lt_0. intros ?%Nat.lcm_eq_0. lia. }
  rewrite <-EL in HbL. rewrite <-ER in HbR.
  destruct (surviving_data fu Hfu badLocal badRemote Htot HbL HbR) as (Hdata & Hone & Hsum).
  destruct (surviving_configs_spec fu Hfu badLocal badRemote) as (Hnd & Hsurv & Hall).
  pose proof (cut_length _ encode decode _ _ _ _ _ Hcut) as Hlen. rewrite Hsum in Hlen.
  rewrite (surviving_messages_eq fu badLocal badRemote _ _ g frs t sigs n Hfu Hcut Hsigs) in Hraws
    by (done || (unfold in_uint; lia)).
  set (rs := (λ c, (startFragmentId c, endFragmentId c)) <$> surviving_configs fu badLocal badRemote) in *.
  assert (rs ≫= range = surviving_configs fu badLocal badRemote ≫= fragments) as Hrange.
  { subst rs. generalize (surviving_configs fu badLocal badRemote) as l. intros l.
    induction l as [|c l IH]; [done|]. cbn [fmap list_fmap mbind list_bind]. by rewrite IH. }
  apply Permutation_map_inv in Hraws as (rs' & Hraws & Hperm).
  assert (rs ≫= range ≡ₚ rs' ≫= range) as Hpr by (by rewrite Hperm).
  apply (passiveGet_collects _ blk sigs g frs t idx st buf q0 raws rs'); try done.
  - rewrite <-Hpr, Hrange. lia.
  - apply Forall_forall. intros r Hr. rewrite <-Hperm in Hr. subst rs.
    apply list_elem_of_fmap in Hr as (c & -> & Hc). rewrite Forall_forall in Hall.
    specialize (Hall c Hc). unfold range_ok. cbn [fst snd]. lia.
  - by rewrite <-Hpr, Hrange.
Qed.

(** ** Faulty senders *)

(** The number of signatures a block needs is counted on the message that
    brings it, so a single message without any, from any node that can reach
    the port, is enough: whatever the keys, the consumer rebuilds the block of
    the message and stores it. *)
Theorem unsigned_block_stored cfg blk g frs t idx (st : Storage C) buf free raw :
  block_ok blk → cut sha encode cfg (serializeToString blk).1 g frs t → 1 ≤ dataShardCnt cfg →
  let n := number (header blk) in
  (0 ≤ n < 2 ^ 64 - 256)%Z → low buf = n → length (data buf) = cap → data buf !! slot n = Some [] →
  encodeAndSendFragment g n (String.length (serializeToString blk).1) [] 0 (length frs) = Some raw →
  storage_ok inv st → idx < regionCount st → 1 ≤ free →
  ∃ buf' st', passiveGet sha max_alloc decode (validateFunc verify idx) cfg n free (deliver buf [raw]) st = Some (buf', st') ∧
    insertBlockAndNotify st idx (with_signatures blk []) = Some st'.
Proof using HZ HE Hmax Hmin sha_ok HL.
  intros Hok Hcut Hone n Hn Hlow Hcap Hq0 Hraw Hst Hidx Hfree.
  pose proof (cut_length _ encode decode _ _ _ _ _ Hcut) as Hlen.
  assert (vec_ok sigpair_ok []) as Hsigs by (split; [constructor|done]).
  assert (enough_signatures verify blk []) as Hen by (unfold enough_signatures; cbn; lia).
  pose proof (share_message cfg _ g frs t [] n (mkFC 0 (length frs) 0 0) Hcut Hsigs) as Hmsg.
  cbn [startFragmentId endFragmentId] in Hmsg. rewrite Hraw in Hmsg. cbn [mbind option_bind] in Hmsg.
  specialize (Hmsg ltac:(unfold in_uint; lia) ltac:(lia)).
  destruct (passiveGet_collects cfg blk [] g frs t idx st buf [] [raw] [(0, length frs)] free)
    as (buf' & st' & Hp & _ & Hi); try done; [..|by exists buf', st'].
  - unfold range, mbind, list_bind. cbn [fst snd]. rewrite app_nil_r, length_seq. lia.
  - cbn [omap list_omap]. rewrite Hmsg. unfold about. by rewrite filter_cons, decide_True.
  - apply Forall_singleton. unfold range_ok. cbn [fst snd]. lia.
  - unfold range, mbind, list_bind. cbn [fst snd]. rewrite app_nil_r. apply NoDup_seq.
Qed.
End group.

(** ** Messages that stop a receiver *)

Section attacks.
Context `{ZP : Zpp} (sha : string → HashString) (max_alloc : Z).
Context (decode : BFGConfig → list string → nat → option string).
Context {W : Type} (cb : W → string → list EncodeBlockFragment → option (option W)).

(** A message that names no fragment but a new root. *)
Definition empty_range (n : Z) (e : EncodeBlockFragment) : Prop :=
  ebf_blockNumber e = n ∧ (ebf_end e ≤ ebf_start e)%Z.

Lemma gen_step_new_root cfg n s e k :
  ebf_blockNumber e = n → haveShard s !! ebf_root e = None → freeContexts s = k →
  match k with
  | 0 => gen_step sha max_alloc decode cb cfg n s e = WaitContext
  | S k => (ebf_end e ≤ ebf_start e)%Z →
      ∃ o, gen_step sha max_alloc decode cb cfg n s e =
        Continue (mkGen (blockMap s) (<[ebf_root e := o]> (haveShard s)) k (owner s))
  end.
Proof using Type.
  intros Hn Hr Hk. unfold gen_step. rewrite Hn, Z.eqb_refl, Hr, Hk. cbn [negb default from_option id].
  unfold acquire. cbn [currentShardCnt]. rewrite bool_decide_true by done.
  destruct k as [|k]; [done|]. intros Hle. cbn [context]. eexists.
  apply Z.leb_le in Hle. by rewrite Hle, orb_true_r.
Qed.

(** Every root a message names takes an erasure-code instance before the
    message is looked at: as many messages with different roots and no fragment
    as there are instances make the consumer wait for an instance for ever,
    whatever message about the block with another root comes next. *)
Theorem roots_exhaust_contexts cfg n (w : W) es e q :
  Forall (empty_range n) es → NoDup (ebf_root <$> es) →
  ebf_blockNumber e = n → ebf_root e ∉ ebf_root <$> es →
  gen_queue sha max_alloc decode cb cfg n (mkGen ∅ ∅ (length es) w) (es ++ e :: q) = Blocks.
Proof using Type.
  intros Hes Hnd He Hne.
  assert (∀ s, freeContexts s = length es → haveShard s !! ebf_root e = None →
    (∀ x, x ∈ es → haveShard s !! ebf_root x = None) →
    gen_queue sha max_alloc decode cb cfg n s (es ++ e :: q) = Blocks) as Hgen.
  { induction Hes as [|x es [Hx Hle] _ IH]; intros s Hf Hse Hs; cbn [app gen_queue].
    - by rewrite (gen_step_new_root cfg n s e 0).
    - cbn [fmap list_fmap] in Hnd, Hne. apply NoDup_cons in Hnd as [Hxn Hnd]. apply not_elem_of_cons in Hne as [Hex Hne].
      destruct (gen_step_new_root cfg n s x (length (x :: es)) Hx) as [o ->]; [apply Hs; left|done|done|].
      apply IH; cbn [freeContexts haveShard]; [done..| |].
      + by rewrite lookup_insert_ne.
      + intros y Hy. rewrite lookup_insert_ne; [apply Hs; by right|].
        intros E. apply Hxn. rewrite E. by apply list_elem_of_fmap_2. }
  apply Hgen; cbn [freeContexts haveShard]; [done|apply lookup_empty|]. intros. apply lookup_empty.
Qed.

(** A fragment message that cannot be read ends the process: nothing
    catches the exception of the reader in the consumer of blocks. *)
Theorem unreadable_fragment_terminates cfg n (w : W) free e q :
  ebf_blockNumber e = n → (0 ≤ ebf_start e < ebf_end e)%Z →
  (ebf_end e ≤ Z.of_nat (dataShardCnt cfg + parityShardCnt cfg) < 2 ^ 31)%Z → inp c_i64 (encodeMessage e) = None →
  gen_queue sha max_alloc decode cb cfg n (mkGen ∅ ∅ (S free) w) (e :: q) = Terminates.
Proof using Type.
  intros He Hr Ht Hraw. cbn [gen_queue]. unfold gen_step. rewrite He, Z.eqb_refl.
  cbn [negb haveShard freeContexts]. rewrite lookup_empty. cbn [default from_option id].
  unfold acquire. cbn [currentShardCnt]. rewrite bool_decide_true by done. cbn [context blockMap haveShard owner].
  rewrite Z.mod_small by lia. replace (_ || _ || _) with false.
  2: { symmetry. rewrite !orb_false_iff, !Z.ltb_ge, Z.leb_gt. lia. }
  unfold validateAndDeserializeFragments. rewrite bool_decide_false by (cbn; lia). by rewrite Hraw.
Qed.
End attacks.

(** ** Two groups of four nodes *)

#[local] Existing Instance LE.zpp.
#[local] Existing Instance LE.zpp_laws.

Definition fu44 : FragmentUtil := mkFU 4 4 4 1 1.
Definition cfg44 : BFGConfig := getBFGConfig fu44.
Definition raw44 : string := (serializeToString sample_block).1.
Definition init44 : Context * bool := initWithMessage toy_sha toy_encode cfg44 (newContext cfg44) raw44.
Definition gen44 : Context := init44.1.
Definition tree44 : MerkleTree := default (mkTree ModeTreeBuild ∅ [] zero_digest [] [] 0) (mt gen44).
Definition frs44 : list string := default [] (toy_encode cfg44 raw44).
Definition sigs44 : list SignaturePair := [("h", mkSignature "ski" (vreplicate 64 5%Z))]%string.
Definition all_valid : string → DigestString → string → option bool := λ _ _ _, Some true.
Definition none_valid : string → DigestString → string → option bool := λ _ _ _, None.
Definition ring44 : Buffer := mkBuffer 3 (replicate cap []).
Definition msg44 (sigs : list SignaturePair) (start stop : nat) : string :=
  default EmptyString (encodeAndSendFragment gen44 3 (String.length raw44) sigs start stop).

Lemma cut44 : cut toy_sha toy_encode cfg44 raw44 gen44 frs44 tree44.
Proof.
  assert (init44 = (gen44, true)) as Hi by (rewrite (surjective_pairing init44); f_equal; vm_compute; reflexivity).
  split; [exact Hi|reflexivity| | | |].
  - unfold tree44. destruct (init_inv _ _ _ _ _ _ Hi) as (frs & t & _ & -> & _). reflexivity.
  - repeat apply Forall_cons_2; try apply Forall_nil_2; vm_compute; reflexivity.
  - vm_compute. intros [=].
  - vm_compute. reflexivity.
Qed.

Lemma block_reaches_group_witness :
  ∃ buf' st', passiveGet toy_sha 1000 toy_decode (validateFunc all_valid 1) (getBFGConfig fu44) 3 1
      (deliver ring44 [msg44 sigs44 2 3; "no"%string; msg44 sigs44 1 2]) two_regions = Some (buf', st') ∧
    low buf' = 4%Z ∧
    insertBlockAndNotify two_regions 1 (with_signatures sample_block sigs44) = Some st'.
Proof.
  apply (block_reaches_group toy_sha 1000 toy_encode toy_decode ltac:(done) ltac:(done) toy_sha_ok all_valid
    mr_ok (λ c b, is_Some (blockStorage c !! b)) 4 4 fu44 [3] [0] sample_block sigs44 gen44 frs44 tree44
    1 two_regions ring44 []); try reflexivity; try (cbn; lia).
  - apply sample_block_ok.
  - ok_solve.
  - vm_compute. lia.
  - apply cut44.
  - vm_compute. apply perm_swap.
  - apply two_regions_ok.
Defined.

Lemma unsigned_block_stored_witness :
  ∃ buf' st', passiveGet toy_sha 1000 toy_decode (validateFunc none_valid 1) cfg44 3 1
      (deliver ring44 [msg44 [] 0 (length frs44)]) two_regions = Some (buf', st') ∧
    insertBlockAndNotify two_regions 1 (with_signatures sample_block []) = Some st'.
Proof.
  apply (unsigned_block_stored toy_sha 1000 toy_encode toy_decode ltac:(done) ltac:(done) toy_sha_ok none_valid
    mr_ok (λ c b, is_Some (blockStorage c !! b)) cfg44 sample_block gen44 frs44 tree44
    1 two_regions ring44); try reflexivity; try (cbn; lia).
  - apply sample_block_ok.
  - apply cut44.
  - apply two_regions_ok.
Defined.

Definition root_message (k : Z) (start stop : Z) (raw : string) : EncodeBlockFragment :=
  mkEBF [] 3 (k ::: vreplicate 31 0%Z) 10 start stop raw.

Lemma roots_exhaust_contexts_witness :
  gen_queue toy_sha 1000 toy_decode (λ (_ : unit) _ _, None) cfg44 3 (mkGen ∅ ∅ 4 tt)
    ([root_message 0 0 0 EmptyString; root_message 1 0 0 EmptyString;
      root_message 2 0 0 EmptyString; root_message 3 0 0 EmptyString] ++
     root_message 4 0 1 (msg44 [] 0 1) :: []) = Blocks.
Proof.
  apply (roots_exhaust_contexts toy_sha 1000 toy_decode (λ (_ : unit) _ _, None) cfg44 3 tt
    [root_message 0 0 0 EmptyString; root_message 1 0 0 EmptyString;
     root_message 2 0 0 EmptyString; root_message 3 0 0 EmptyString]).
  - repeat apply Forall_cons_2; try apply Forall_nil_2; split; cbn; lia.
  - apply (bool_decide_unpack _). vm_compute. exact I.
  - reflexivity.
  - apply (bool_decide_unpack _). vm_compute. exact I.
Defined.

Lemma unreadable_fragment_terminates_witness :
  gen_queue toy_sha 1000 toy_decode (λ (_ : unit) _ _, None) cfg44 3 (mkGen ∅ ∅ 4 tt)
    [root_message 0 0 1 EmptyString] = Terminates.
Proof.
  apply (unreadable_fragment_terminates toy_sha 1000 toy_decode (λ (_ : unit) _ _, None) cfg44 3 tt 3
    (root_message 0 0 1 EmptyString)); [reflexivity|cbn; lia|vm_compute; split; [intros [=]|reflexivity]|reflexivity].
Defined.
