(* ===== verification/Replicator.v ===== *)
(** * The replicator of a node

    include/peer/replicator/replicator.h with the constructors it calls
    (v2/block_sender.h, v2/mr_block_receiver.h, v2/block_receiver.h): from the
    node lists and the port tables every node has, each node opens the ports it
    receives fragments on, connects to the nodes it sends its shares to and to
    the relays of its own group, and sets the erasure code of every connection.

    Hash maps that are iterated are association lists in the order of iteration;
    those that are looked up are finite maps.  Whether a socket can be opened is
    the parameter [opens_client]/[opens_server] (ZeroMQ).  [None] is a null
    pointer, a false return value or an exception: the replicator does not come
    up.  The concurrency of a generator does not change what it computes and is
    left out of its configuration. *)

From S2P Require Import Prelude Zpp Proto RaftFSM ZmqPorts Merkle ProofGenerator LRU Storage.
From S2P Require Import Fragments BFG BlockReceiver Replication.

Open Scope Z_scope.

(** ** Data *)

(** [RemoteFragmentSender]: a connection and the fragments sent over it. *)
Record RemoteFragmentSender := mkRFS { rfs_addr : string; rfs_port : Z; _start : nat; _end : nat }.

(** [BlockSender] for one remote group; the configuration is set afterwards,
    together with the generator. *)
Record BlockSender := mkBS { _remoteFragmentConfig : option BFGConfig; _senders : list RemoteFragmentSender }.

(** [v2::BlockReceiver] for one remote group: the port remote nodes send to, the
    port it repeats fragments on, the relays it listens to, and its ring. *)
Record BlockReceiver := mkBR {
  rfrPort : Z;
  frPort : Z;
  lfr : list InstanceConfig;
  _localFragmentConfig : option BFGConfig;
  _ringBuf : Buffer;
}.

Definition priAddr (c : InstanceConfig) : string := priIp (nodeConfig c).
Definition pubAddr (c : InstanceConfig) : string := pubIp (nodeConfig c).

(** A loop that fills a map from a list and gives up at the first failure. *)
Fixpoint build {V W} (f : Z → V → option W) (l : list (Z * V)) (m : gmap Z W) : option (gmap Z W) :=
  match l with
  | [] => Some m
  | (k, v) :: l => w ← f k v; build f l (<[k := w]> m)
  end.

Section replicator.
Context (opens_client : string → Z → bool) (opens_server : Z → bool).

(** ** Senders *)
Definition NewRFS (addr : string) (port : Z) (start stop : nat) : option RemoteFragmentSender :=
  if (stop <=? start)%nat || (stop <=? 0)%nat then None else Some (mkRFS addr port start stop).

Definition NewBlockSender (fragmentCfgList : list FragmentConfig) (getZMQConfigByRemoteId : Z → option InstanceConfig)
    : option BlockSender :=
  senders ← mapM (λ it,
    zmqConfig ← getZMQConfigByRemoteId (Z.of_nat (fc_remoteId it));
    if opens_client (pubAddr zmqConfig) (port zmqConfig)
    then NewRFS (pubAddr zmqConfig) (port zmqConfig) (startFragmentId it) (endFragmentId it)
    else None) fragmentCfgList;
  Some (mkBS None senders).

Definition getZMQConfigById (remoteRegionConfig : list InstanceConfig) (remoteId : Z) : option InstanceConfig :=
  List.find (λ nodeCfg, nodeId (nodeConfig nodeCfg) =? remoteId) remoteRegionConfig.

Definition NewMRBlockSender (regionConfig : list (Z * list InstanceConfig))
    (regionsFragmentConfig : gmap Z (list FragmentConfig)) (localRegionId : Z) : option (gmap Z BlockSender) :=
  if bool_decide (localRegionId ∈ regionConfig.*1) then
    build (λ g remoteRegionConfig,
        cfgs ← regionsFragmentConfig !! g; NewBlockSender cfgs (getZMQConfigById remoteRegionConfig))
      (filter (λ it, it.1 ≠ localRegionId) regionConfig) ∅
  else None.

Definition sender_setBFG (c : BFGConfig) (s : BlockSender) : BlockSender := mkBS (Some c) (_senders s).

(** Regions without a sender are skipped. *)
Definition sender_setBFGWithConfig (bfgCfgList : list (Z * BFGConfig)) (senderMap : gmap Z BlockSender)
    : gmap Z BlockSender :=
  fold_left (λ m it, alter (sender_setBFG it.2) it.1 m) bfgCfgList senderMap.

(** ** Receivers *)

(** The checks of the constructor: the first of the nodes against the others. *)
Definition same_listener (n0 n : InstanceConfig) : bool :=
  negb (groupId (nodeConfig n0) =? groupId (nodeConfig n))
  || (bool_decide (priAddr n0 = priAddr n) && (port n0 =? port n))
  || bool_decide (ski (nodeConfig n0) = ski (nodeConfig n)).

Definition NewBlockReceiver (rfrPort : Z) (lfrConfigList : list InstanceConfig) (frPort localId : Z)
    : option BlockReceiver :=
  match lfrConfigList with
  | [] => None
  | n0 :: rest =>
      if (Z.min rfrPort frPort <=? 0) || (rfrPort =? frPort) || existsb (same_listener n0) rest then None else
      let others := filter (λ it, nodeId (nodeConfig it) ≠ localId) lfrConfigList in
      if forallb (λ it, opens_client (priAddr it) (port it)) others && opens_server rfrPort && opens_server frPort
      then Some (mkBR rfrPort frPort others None newBuffer)
      else None
  end.

Definition NewMRBlockReceiver (me : NodeConfig) (frServerPorts rfrServerPorts : gmap Z Z)
    (regionConfig : gmap Z (list InstanceConfig)) : option (gmap Z BlockReceiver) :=
  build (λ g cfgs,
      let nodesConfig := filter (λ cfg, groupId (nodeConfig cfg) = groupId me) cfgs in
      if bool_decide (nodesConfig = []) then None else
      rfr ← rfrServerPorts !! g;
      fr ← frServerPorts !! g;
      NewBlockReceiver rfr nodesConfig fr (nodeId me))
    (filter (λ it, it.1 ≠ groupId me) (map_to_list regionConfig)) ∅.

Definition receiver_setBFG (c : BFGConfig) (r : BlockReceiver) : BlockReceiver :=
  mkBR (rfrPort r) (frPort r) (lfr r) (Some c) (_ringBuf r).

(** Stops at the first region without a configuration. *)
Fixpoint receiver_setBFGWithConfig (order : list Z) (bfgCfgList : gmap Z BFGConfig) (regions : gmap Z BlockReceiver)
    : gmap Z BlockReceiver * bool :=
  match order with
  | [] => (regions, true)
  | g :: order =>
      match bfgCfgList !! g with
      | None => (regions, false)
      | Some c => receiver_setBFGWithConfig order bfgCfgList (alter (receiver_setBFG c) g regions)
      end
  end.

(** [activeStart]: nothing runs without a generator. *)
Definition activeStart (startAt : Z) (r : BlockReceiver) : option BlockReceiver :=
  _ ← _localFragmentConfig r;
  b ← clearBelow false (_ringBuf r) startAt;
  Some (mkBR (rfrPort r) (frPort r) (lfr r) (_localFragmentConfig r) b).

Definition checkAndStartService (regionCount localRegionId : Z) (startAt : gmap Z Z) (regions : gmap Z BlockReceiver)
    : option (gmap Z BlockReceiver) :=
  let remote := filter (λ i, i ≠ localRegionId) (seqZ 0 regionCount) in
  if forallb (λ i, bool_decide (is_Some (regions !! i))) remote then
    fold_left (λ o i, m ← o; r ← m !! i; r' ← activeStart (default 0 (startAt !! i)) r; Some (<[i := r']> m))
      remote (Some regions)
  else None.

(** ** The replicator *)
Section node.
Context (_nodeConfigs : list (Z * list NodeConfig)) (_localNodeConfig : NodeConfig)
        (_zmqPortsConfig : gmap Z (list ZMQPortUtil)).

Notation me := _localNodeConfig.

(** [initBFG]: the configurations for the receivers and the shares to send. *)
Definition initBFG : option (list (Z * (BFGConfig * list FragmentConfig))) :=
  cfgs ← GenerateAllConfig ((λ it : Z * list NodeConfig, (Z.to_nat it.1, length it.2)) <$> _nodeConfigs)
           (Z.to_nat (groupId me)) (Z.to_nat (nodeId me));
  Some (map (prod_map Z.of_nat id) cfgs).

(** [initStorage]: the number of regions. *)
Definition initStorage : Z := foldr Z.max 0 _nodeConfigs.*1 + 1.

Definition remoteReceiverConfigs : option (list (Z * list InstanceConfig)) :=
  mapM (λ it,
    cs ← mapM (λ x,
           u ← node_util _zmqPortsConfig it.1 (Z.of_nat x.1);
           p ← getRemoteServicePort u REMOTE_FRAGMENT_RECEIVE (groupId me);
           Some (mkInstance x.2 p)) (imap (λ i n, (i, n)) it.2);
    Some (it.1, cs)) _nodeConfigs.

Definition initMRBlockSender (fragmentCfg : list (Z * (BFGConfig * list FragmentConfig))) : option (gmap Z BlockSender) :=
  cfgs ← remoteReceiverConfigs;
  sender ← NewMRBlockSender cfgs (list_to_map (prod_map id snd <$> fragmentCfg)) (groupId me);
  Some (sender_setBFGWithConfig (prod_map id fst <$> fragmentCfg) sender).

(** [localBroadcastConfigs[it.first].push_back(...)] for every port of a node. *)
Definition push_ports (m : gmap Z (list InstanceConfig)) (n : NodeConfig) (ports : gmap Z Z) : gmap Z (list InstanceConfig) :=
  merge (λ cs p, match p with Some p => Some (default [] cs ++ [mkInstance n p]) | None => cs end) m ports.

Definition localBroadcastConfigs (nodes : list NodeConfig) : option (gmap Z (list InstanceConfig)) :=
  fold_left (λ o x, m ← o;
      u ← node_util _zmqPortsConfig (groupId me) (Z.of_nat x.1);
      ports ← getRemoteServicePorts u LOCAL_FRAGMENT_BROADCAST;
      Some (push_ports m x.2 ports)) (imap (λ i n, (i, n)) nodes) (Some ∅).

Definition initMRBlockReceiver (fragmentCfg : list (Z * (BFGConfig * list FragmentConfig))) : option (gmap Z BlockReceiver) :=
  localZmqConfig ← node_util _zmqPortsConfig (groupId me) (nodeId me);
  frServerPorts ← getRemoteServicePorts localZmqConfig LOCAL_FRAGMENT_BROADCAST;
  rfrServerPorts ← getRemoteServicePorts localZmqConfig REMOTE_FRAGMENT_RECEIVE;
  nodes ← (list_to_map _nodeConfigs : gmap Z (list NodeConfig)) !! groupId me;
  cfgs ← localBroadcastConfigs nodes;
  receiver ← NewMRBlockReceiver me frServerPorts rfrServerPorts cfgs;
  Some (receiver_setBFGWithConfig (map_to_list receiver).*1 (list_to_map (prod_map id fst <$> fragmentCfg)) receiver).1.

(** [initialize], [startReceiver] and [startSender]. *)
Definition startReplicator (startAt : gmap Z Z) : option (gmap Z BlockSender * gmap Z BlockReceiver) :=
  if bool_decide (_nodeConfigs = []) then None else
  fragmentCfg ← initBFG;
  receiver ← initMRBlockReceiver fragmentCfg;
  receiver ← checkAndStartService initStorage (groupId me) startAt receiver;
  sender ← initMRBlockSender fragmentCfg;
  Some (sender, receiver).
End node.
End replicator.

(** ** Filling maps *)
Lemma build_spec {V W} (f : Z → V → option W) l : ∀ m : gmap Z W,
  NoDup l.*1 → (∀ k v, (k, v) ∈ l → is_Some (f k v)) →
  ∃ m', build f l m = Some m' ∧ (∀ k v, (k, v) ∈ l → m' !! k = f k v) ∧ (∀ k, k ∉ l.*1 → m' !! k = m !! k).
Proof.
  induction l as [|[k v] l IH]; intros m Hd Hf; [exists m; set_solver|].
  cbn in Hd. apply NoDup_cons in Hd as [Hk Hd]. destruct (Hf k v) as [w Hw]; [set_solver|].
  destruct (IH (<[k := w]> m)) as (m' & Hb & Hin & Hout); [done|set_solver|].
  exists m'. cbn [build]. rewrite Hw. split_and!; [exact Hb| |].
  - intros k' v' [[= -> ->]|H]%elem_of_cons; [|by apply Hin]. by rewrite Hout, lookup_insert_eq, Hw.
  - intros k' Hk'. cbn in Hk'. apply not_elem_of_cons in Hk' as [Hne Hk'].
    rewrite Hout, lookup_insert_ne by done. done.
Qed.

Lemma alter_all {A C} (f : C → A → A) (l : list (Z * C)) : ∀ m : gmap Z A,
  NoDup l.*1 →
  (∀ k c, (k, c) ∈ l → fold_left (λ m it, alter (f it.2) it.1 m) l m !! k = f c <$> m !! k) ∧
  (∀ k, k ∉ l.*1 → fold_left (λ m it, alter (f it.2) it.1 m) l m !! k = m !! k).
Proof.
  induction l as [|[k c] l IH]; intros m Hd; [set_solver|]. cbn in Hd. apply NoDup_cons in Hd as [Hk Hd].
  cbn [fold_left fst snd]. destruct (IH (alter (f c) k m) Hd) as [Hin Hout]. split.
  - intros k' c' [[= -> ->]|H]%elem_of_cons; [by rewrite Hout, lookup_alter_eq|].
    rewrite (Hin _ _ H), lookup_alter_ne; [done|]. intros ->. apply Hk, list_elem_of_fmap. by eexists (_, _).
  - intros k' Hk'. cbn in Hk'. apply not_elem_of_cons in Hk' as [Hne Hk'].
    rewrite Hout, lookup_alter_ne by done. done.
Qed.

Lemma receiver_configs cfg order : ∀ m,
  NoDup order → (∀ g, g ∈ order → is_Some (cfg !! g)) →
  ∀ g, (receiver_setBFGWithConfig order cfg m).1 !! g =
    if bool_decide (g ∈ order) then c ← cfg !! g; receiver_setBFG c <$> m !! g else m !! g.
Proof.
  induction order as [|k order IH]; intros m Hd Hc g.
  { rewrite bool_decide_false by set_solver. done. }
  apply NoDup_cons in Hd as [Hk Hd]. destruct (Hc k) as [c Hck]; [set_solver|].
  cbn [receiver_setBFGWithConfig]. rewrite Hck, IH by (done || set_solver).
  destruct (decide (g = k)) as [->|Hne].
  - rewrite bool_decide_false by done. rewrite bool_decide_true by set_solver.
    rewrite lookup_alter_eq, Hck. done.
  - rewrite lookup_alter_ne by done. destruct (decide (g ∈ order)).
    + by rewrite !bool_decide_true by set_solver.
    + by rewrite !bool_decide_false by set_solver.
Qed.

Lemma started_services (startAt : gmap Z Z) (ks : list Z) : ∀ m : gmap Z BlockReceiver,
  NoDup ks → (∀ i, i ∈ ks → is_Some (r ← m !! i; activeStart (default 0 (startAt !! i)) r)) →
  ∃ m', fold_left (λ o i, m ← o; r ← m !! i; r' ← activeStart (default 0 (startAt !! i)) r; Some (<[i := r']> m))
      ks (Some m) = Some m' ∧
    (∀ i, i ∈ ks → m' !! i = (r ← m !! i; activeStart (default 0 (startAt !! i)) r)) ∧
    (∀ i, i ∉ ks → m' !! i = m !! i).
Proof.
  induction ks as [|i ks IH]; intros m Hd Hs; [exists m; set_solver|].
  apply NoDup_cons in Hd as [Hi Hd]. destruct (Hs i) as [r' Hr]; [set_solver|].
  destruct (m !! i) as [r|] eqn:Hm; [|done]. cbn [mbind option_bind] in Hr.
  destruct (IH (<[i := r']> m)) as (m' & Hf & Hin & Hout); [done| |].
  { intros j Hj. rewrite lookup_insert_ne by set_solver. apply Hs. set_solver. }
  exists m'. cbn [fold_left mbind option_bind]. rewrite Hm. cbn [mbind option_bind]. rewrite Hr. split_and!; [exact Hf| |].
  - intros j [->|Hj]%elem_of_cons; [by rewrite Hout, lookup_insert_eq, Hm by done|].
    rewrite Hin, lookup_insert_ne by set_solver. done.
  - intros j Hj. rewrite Hout, lookup_insert_ne by set_solver. done.
Qed.

Lemma filter_true {A} (P : A → Prop) `{!∀ x, Decision (P x)} (l : list A) : Forall P l → filter P l = l.
Proof. induction 1 as [|x l Hx _ IH]; [done|]. by rewrite filter_cons_True, IH. Qed.

Lemma mapM_all {A B} (f : A → option B) (h : A → B) l :
  (∀ x, x ∈ l → f x = Some (h x)) → mapM f l = Some (h <$> l).
Proof.
  intros H. apply mapM_Some, Forall2_fmap_r, Forall_Forall2_diag, Forall_forall. intros x Hx. by apply H.
Qed.

Lemma foldr_max (M : Z) xs : M ∈ xs → (∀ x, x ∈ xs → 0 <= x <= M) → foldr Z.max 0 xs = M.
Proof.
  intros Hin Hb. assert (Forall (λ y, 0 <= y <= M) xs) as Hf by by apply Forall_forall.
  clear Hb. induction Hf as [|x xs Hx Hf IH]; [by apply not_elem_of_nil in Hin|]. cbn [foldr].
  assert (foldr Z.max 0 xs <= M) by (clear -Hf Hx; induction Hf; cbn; lia).
  apply elem_of_cons in Hin as [->|Hin]; [lia|]. rewrite IH by done. lia.
Qed.

(** ** Configurations *)

Lemma filter_keys {A} (P : Z * A → Prop) `{!∀ x, Decision (P x)} (l : list (Z * A)) :
  NoDup l.*1 → NoDup (filter P l).*1.
Proof. intros Hn. eapply sublist_NoDup; [exact Hn|]. apply fmap_sublist, sublist_filter. Qed.

(** Both ends of a connection compute one erasure code. *)
Lemma bfg_config_sym n1 n2 fu fu' :
  (0 < n1)%nat → (0 < n2)%nat → fu_reset n1 n2 = Some fu → fu_reset n2 n1 = Some fu' →
  getBFGConfig fu = getBFGConfig fu'.
Proof.
  intros H1 H2 H H'. unfold fu_reset in H, H'. rewrite LCM_lcm in H, H' by done.
  cbn [mbind option_bind] in H, H'. apply (inj Some) in H, H'. subst fu fu'.
  rewrite (Nat.lcm_comm n2 n1). unfold getBFGConfig. cbn.
  rewrite (Nat.add_comm (_ * (Nat.lcm n1 n2 / n1))). done.
Qed.

Lemma generate_all (l : list (nat * nat)) (r n id : nat) :
  NoDup l.*1 → (r, n) ∈ l → (∀ it, it ∈ l → (0 < it.2)%nat) →
  ∃ cfgs, GenerateAllConfig l r id = Some cfgs ∧ NoDup cfgs.*1 ∧
    ∀ g x, (g, x) ∈ cfgs ↔ ∃ n2 fu, (g, n2) ∈ l ∧ g ≠ r ∧ fu_reset n n2 = Some fu ∧
      x = (getBFGConfig fu, getSenderConfig fu id).
Proof.
  intros Hd Hr Hpos. unfold GenerateAllConfig.
  assert (filter (λ x : nat * nat, x.1 = r) l ≡ₚ [(r, n)]) as Hone.
  { apply NoDup_Permutation; [apply NoDup_filter; by eapply NoDup_fmap_1|apply NoDup_singleton|].
    intros [a b]. rewrite list_elem_of_filter, list_elem_of_singleton. cbn. split.
    - intros [-> Hab]. assert ((list_to_map l : gmap nat nat) !! r = Some b) as E by by apply elem_of_list_to_map.
      apply (elem_of_list_to_map (M := gmap nat)) in Hr; [|done]. congruence.
    - by intros [= -> ->]. }
  apply Permutation_singleton_r in Hone as ->. cbn [head fmap option_fmap option_map snd mbind option_bind].
  assert (is_Some (mapM (λ x : nat * nat, fu ← fu_reset n x.2;
    Some (x.1, (getBFGConfig fu, getSenderConfig fu id))) (filter (λ x : nat * nat, x.1 ≠ r) l))) as [cfgs Hc].
  { apply mapM_is_Some, Forall_forall. intros it [_ Hit]%list_elem_of_filter.
    destruct (fu_reset_ok n it.2) as (fu & E & _); [by apply (Hpos (r, n))|by apply Hpos|].
    unfold compose. rewrite E. by eexists. }
  exists cfgs. split; [done|]. pose proof Hc as Hc'. apply mapM_Some in Hc.
  assert (cfgs.*1 = (filter (λ x : nat * nat, x.1 ≠ r) l).*1) as Hk.
  { clear Hc'. induction Hc as [|x y xs ys Hxy _ IH]; [done|]. cbn. f_equal; [|done].
    destruct (fu_reset n x.2); [|done]. cbn [mbind option_bind] in Hxy. by simplify_eq. }
  split.
  { rewrite Hk. eapply sublist_NoDup; [exact Hd|]. apply fmap_sublist, sublist_filter. }
  intros g x. split.
  - intros Hin. apply list_elem_of_lookup in Hin as [i Hi].
    destruct (Forall2_lookup_r _ _ _ _ _ Hc Hi) as ([g' n2] & Hx & Hf). cbn in Hf.
    apply list_elem_of_lookup_2, list_elem_of_filter in Hx as [Hne Hx].
    destruct (fu_reset n n2) as [fu|] eqn:E; [|done]. cbn [mbind option_bind] in Hf. simplify_eq. eauto 10.
  - intros (n2 & fu & Hin & Hne & Hf & ->).
    assert ((g, n2) ∈ filter (λ x : nat * nat, x.1 ≠ r) l) as [i Hi]%list_elem_of_lookup by by apply list_elem_of_filter.
    destruct (Forall2_lookup_l _ _ _ _ _ Hc Hi) as (y & Hy & Hfy). cbn in Hfy. rewrite Hf in Hfy.
    cbn [mbind option_bind] in Hfy. simplify_eq. by eapply list_elem_of_lookup_2.
Qed.

(** ** A deployment

    What every node is started with: the nodes of each group in the order of
    their ids, the port tables computed from the sizes of the groups, and
    different keys within a group.  On several hosts the nodes of a group have
    different addresses; on one host they have different ports. *)
Record deployment (nodes : list (Z * list NodeConfig)) (counts : list Z) (offset : Z) (distributed : bool)
    (ports : gmap Z (list ZMQPortUtil)) : Prop := {
  dep_sizes : (λ it : Z * list NodeConfig, (it.1, Z.of_nat (length it.2))) <$> nodes ≡ₚ region_map counts;
  dep_nonempty : Forall (Z.lt 0) counts;
  dep_offset : 0 < offset;
  dep_fits : fits counts offset distributed;
  dep_ports : ∀ g n, node_of counts g n →
    ∃ u, node_util ports g n = Some u ∧ remote_ports_are counts offset u distributed g n;
  dep_ids : ∀ g l k c, (g, l) ∈ nodes → l !! k = Some c → groupId c = g ∧ nodeId c = Z.of_nat k;
  dep_ski : ∀ g l, (g, l) ∈ nodes → NoDup (ski <$> l);
  dep_addr : distributed = true → ∀ g l, (g, l) ∈ nodes → NoDup (priIp <$> l) ∧ NoDup (pubIp <$> l);
}.

(** The port tables of [InitPortsConfig] are such tables. *)
Lemma deployment_ports nodes counts offset distributed regions :
  (λ it : Z * list NodeConfig, (it.1, Z.of_nat (length it.2))) <$> nodes ≡ₚ region_map counts →
  Forall (Z.lt 0) counts → 0 < offset → fits counts offset distributed →
  (∀ g l k c, (g, l) ∈ nodes → l !! k = Some c → groupId c = g ∧ nodeId c = Z.of_nat k) →
  (∀ g l, (g, l) ∈ nodes → NoDup (ski <$> l)) →
  (distributed = true → ∀ g l, (g, l) ∈ nodes → NoDup (priIp <$> l) ∧ NoDup (pubIp <$> l)) →
  regions ≡ₚ region_map counts →
  ∃ ports, InitPortsConfig offset regions distributed = Some ports ∧ deployment nodes counts offset distributed ports.
Proof.
  intros Hs Hpos Ho Hf Hi Hk Ha Hr.
  destruct (config_remote counts regions offset distributed) as (ports & Hc & Hp); [done| |done..|].
  { eapply Forall_impl; [exact Hpos|]. intros; lia. }
  exists ports. by split.
Qed.

Section deployed.
Context {nodes : list (Z * list NodeConfig)} {counts : list Z} {offset : Z} {distributed : bool}
        {ports : gmap Z (list ZMQPortUtil)} (D : deployment nodes counts offset distributed ports).
Notation G := (Z.of_nat (length counts)).
Notation rport := (remote_port counts offset distributed).

Lemma dep_count g l : (g, l) ∈ nodes → at_ counts g = Some (Z.of_nat (length l)).
Proof using D.
  intros H. change (at_ counts (g, Z.of_nat (length l)).1 = Some (g, Z.of_nat (length l)).2).
  apply region_map_elem. rewrite <-(dep_sizes _ _ _ _ _ D). apply list_elem_of_fmap. by exists (g, l).
Qed.

Lemma dep_group g : 0 <= g < G → ∃ l, (g, l) ∈ nodes.
Proof using D.
  intros Hg. destruct (lookup_lt_is_Some_2 counts (Z.to_nat g)) as [c Hc]; [lia|].
  assert ((g, c) ∈ region_map counts) as Hin by (apply region_map_elem, at_Some; cbn; split; [lia|done]).
  rewrite <-(dep_sizes _ _ _ _ _ D) in Hin. apply list_elem_of_fmap in Hin as ([g' l] & [= -> _] & Hl). by exists l.
Qed.

Lemma dep_range g l : (g, l) ∈ nodes → 0 <= g < G.
Proof using D. intros H%dep_count. apply at_Some in H as [? Hl%lookup_lt_Some]. lia. Qed.

Lemma dep_size g l : (g, l) ∈ nodes → (0 < length l)%nat.
Proof using D.
  intros H%dep_count. apply at_Some in H as [_ Hl].
  pose proof (Forall_lookup_1 _ _ _ _ (dep_nonempty _ _ _ _ _ D) Hl). cbn in *. lia.
Qed.

Lemma dep_keys : NoDup nodes.*1.
Proof using D.
  assert (nodes.*1 ≡ₚ (region_map counts).*1) as ->; [|apply region_map_keys].
  rewrite <-(dep_sizes _ _ _ _ _ D), <-list_fmap_compose. done.
Qed.

Lemma dep_unique g l l' : (g, l) ∈ nodes → (g, l') ∈ nodes → l = l'.
Proof using D.
  intros H H'. apply (elem_of_list_to_map (M := gmap Z)) in H, H'; [|apply dep_keys..]. congruence.
Qed.

Lemma dep_counts_nonneg : Forall (Z.le 0) counts.
Proof using D. eapply Forall_impl; [exact (dep_nonempty _ _ _ _ _ D)|]. intros; lia. Qed.

Lemma dep_node g l k c : (g, l) ∈ nodes → l !! k = Some c → node_of counts g (Z.of_nat k).
Proof using D. intros Hl Hk%lookup_lt_Some. split; [lia|]. exists (Z.of_nat (length l)). split; [by apply dep_count|lia]. Qed.

(** The port of a service of a node, from the tables. *)
Lemma dep_port g l k c i s t :
  (g, l) ∈ nodes → l !! k = Some c → remote_map !! t = Some (7 + s) → 0 <= s < 2 → 0 <= i < G →
  (u ← node_util ports g (Z.of_nat k); getRemoteServicePort u t i) = Some (rport g (Z.of_nat k) s i).
Proof using D.
  intros Hl Hk Ht Hs Hi. destruct (dep_ports _ _ _ _ _ D g (Z.of_nat k)) as (u & -> & Hu); [by eapply dep_node|].
  cbn [mbind option_bind]. rewrite (Hu t s i Ht Hs). by rewrite bool_decide_true.
Qed.

(** ** One node of the deployment *)
Context (opens_client : string → Z → bool) (opens_server : Z → bool).
Hypothesis Hclient : ∀ a p, opens_client a p = true.
Hypothesis Hserver : ∀ p, opens_server p = true.

Section one.
Context (g : Z) (l : list NodeConfig) (k : nat) (me : NodeConfig).
Hypothesis Hg : (g, l) ∈ nodes.
Hypothesis Hk : l !! k = Some me.

Lemma me_group : groupId me = g.
Proof using D Hg Hk. by destruct (dep_ids _ _ _ _ _ D g l k me Hg Hk). Qed.
Lemma me_id : nodeId me = Z.of_nat k.
Proof using D Hg Hk. by destruct (dep_ids _ _ _ _ _ D g l k me Hg Hk). Qed.

Lemma initBFG_spec :
  ∃ frag, initBFG nodes me = Some frag ∧ NoDup frag.*1 ∧
    ∀ g' x, (g', x) ∈ frag ↔ ∃ l' fu, (g', l') ∈ nodes ∧ g' ≠ g ∧ fu_reset (length l) (length l') = Some fu ∧
      x = (getBFGConfig fu, getSenderConfig fu k).
Proof using D Hg Hk.
  pose proof dep_keys as Hkeys. pose proof (dep_range g l Hg) as Hrg.
  set (cs := (λ it : Z * list NodeConfig, (Z.to_nat it.1, length it.2)) <$> nodes).
  assert (∀ a n, (a, n) ∈ cs ↔ ∃ l', (Z.of_nat a, l') ∈ nodes ∧ n = length l') as Hcs.
  { intros a n. unfold cs. rewrite list_elem_of_fmap. split.
    - intros ([g' l'] & [= -> ->] & Hin). exists l'. pose proof (dep_range _ _ Hin). rewrite Z2Nat.id by lia. done.
    - intros (l' & Hin & ->). exists (Z.of_nat a, l'). cbn. by rewrite Nat2Z.id. }
  destruct (generate_all cs (Z.to_nat g) (length l) k) as (cfgs & Hc & Hd & Hin).
  - unfold cs. rewrite <-list_fmap_compose.
    replace (fst ∘ _) with (Z.to_nat ∘ fst (A := Z) (B := list NodeConfig)) by done.
    rewrite list_fmap_compose. apply NoDup_fmap_2_strong; [|done].
    intros x y (p & -> & Hp)%list_elem_of_fmap (q & -> & Hq)%list_elem_of_fmap E.
    destruct p, q. pose proof (dep_range _ _ Hp). pose proof (dep_range _ _ Hq). cbn in *. lia.
  - apply Hcs. exists l. rewrite Z2Nat.id by lia. done.
  - intros [a n] (l' & Hl' & ->)%Hcs. by eapply dep_size.
  - exists (map (prod_map Z.of_nat id) cfgs). unfold initBFG. rewrite me_group, me_id, Nat2Z.id. fold cs. rewrite Hc.
    split; [done|]. split.
    + change (map ?f ?x) with (f <$> x). rewrite <-list_fmap_compose.
      replace (fst ∘ _) with (Z.of_nat ∘ fst (A := nat) (B := BFGConfig * list FragmentConfig)) by done.
      rewrite list_fmap_compose. by apply (NoDup_fmap_2 Z.of_nat).
    + intros g' x. change (map ?f ?y) with (f <$> y). rewrite list_elem_of_fmap. split.
      * intros ([a y] & [= -> ->] & (n2 & fu & Ha & Hne & Hf & ->)%Hin). apply Hcs in Ha as (l' & Hl' & ->).
        exists l', fu. split_and!; [done|lia|done|done].
      * intros (l' & fu & Hl' & Hne & Hf & ->). pose proof (dep_range _ _ Hl') as Hr.
        exists (Z.to_nat g', (getBFGConfig fu, getSenderConfig fu k)). cbn. split; [by rewrite Z2Nat.id by lia|].
        apply Hin. exists (length l'), fu. split_and!; [|lia|done|done]. apply Hcs. exists l'. rewrite Z2Nat.id by lia. done.
Qed.

Lemma fragment_configs frag :
  initBFG nodes me = Some frag →
  NoDup frag.*1 ∧ g ∉ frag.*1 ∧
  ∀ g' l', (g', l') ∈ nodes → g' ≠ g → ∃ fu, fu_reset (length l) (length l') = Some fu ∧
    (g', (getBFGConfig fu, getSenderConfig fu k)) ∈ frag.
Proof using D Hg Hk.
  intros Hfrag. destruct initBFG_spec as (frag' & Hf & Hd & Hin). rewrite Hfrag in Hf. apply (inj Some) in Hf.
  subst frag'. split_and!; [done| |].
  - intros ([g' x] & -> & (l' & fu & _ & Hne & _)%Hin)%list_elem_of_fmap. done.
  - intros g' l' Hl' Hne. destruct (fu_reset_ok (length l) (length l')) as (fu & Hfu & _); [by eapply dep_size..|].
    exists fu. split; [done|]. apply Hin. eauto 10.
Qed.

(** The nodes of a group as a remote node addresses them. *)
Definition remote_instances (g' : Z) (l' : list NodeConfig) : list InstanceConfig :=
  imap (λ i n, mkInstance n (rport g' (Z.of_nat i) 1 g)) l'.

Lemma remote_configs :
  remoteReceiverConfigs nodes me ports = Some ((λ it, (it.1, remote_instances it.1 it.2)) <$> nodes).
Proof using D Hg Hk.
  unfold remoteReceiverConfigs. apply mapM_all. intros [g' l'] Hin. cbn [fst snd].
  rewrite (mapM_all _ (λ x, mkInstance x.2 (rport g' (Z.of_nat x.1) 1 g))).
  - cbn [mbind option_bind]. unfold remote_instances. by rewrite fmap_imap.
  - intros [i n] (j & x & [= -> ->] & Hj)%elem_of_lookup_imap. cbn [fst snd].
    pose proof (dep_port g' l' j x g 1 REMOTE_FRAGMENT_RECEIVE Hin Hj eq_refl ltac:(lia) (dep_range _ _ Hg)) as Hp.
    destruct (node_util ports g' (Z.of_nat j)) as [u|]; [|done]. cbn [mbind option_bind] in *.
    rewrite me_group. by rewrite Hp.
Qed.

Lemma find_instance g' l' j c :
  (g', l') ∈ nodes → l' !! j = Some c →
  getZMQConfigById (remote_instances g' l') (Z.of_nat j) = Some (mkInstance c (rport g' (Z.of_nat j) 1 g)).
Proof using D.
  intros Hin Hj. unfold getZMQConfigById, remote_instances.
  assert (∀ a c, l' !! a = Some c → nodeId c = Z.of_nat a) as Hid.
  { intros a c' Ha. by destruct (dep_ids _ _ _ _ _ D g' l' a c' Hin Ha). }
  cut (∀ o m, (∀ a c, m !! a = Some c → nodeId c = Z.of_nat (o + a)%nat) → ∀ b, m !! b = Some c →
    List.find (λ nodeCfg, nodeId (nodeConfig nodeCfg) =? Z.of_nat (o + b)%nat)
      (imap (λ i n, mkInstance n (rport g' (Z.of_nat (o + i)%nat) 1 g)) m) =
    Some (mkInstance c (rport g' (Z.of_nat (o + b)%nat) 1 g))).
  { intros Hcut. exact (Hcut 0%nat l' Hid j Hj). }
  clear Hid Hj. intros o m. revert o. induction m as [|x m IH]; intros o Hm b Hb; [done|].
  cbn [imap List.find nodeConfig]. rewrite (Hm 0%nat x) by done. destruct b as [|b].
  - simpl in Hb. simplify_eq. rewrite Z.eqb_refl. done.
  - rewrite (proj2 (Z.eqb_neq _ _)) by lia. simpl in Hb.
    specialize (IH (S o) ltac:(intros a c' Ha; rewrite (Hm (S a) c' Ha); f_equal; lia) b Hb).
    replace (o + S b)%nat with (S o + b)%nat by lia. rewrite <-IH. f_equal.
    apply imap_ext. intros i y _. unfold compose. do 3 f_equal. lia.
Qed.

(** The connection for a share: the address of the node it goes to, and the port
    on which that node receives from this group. *)
Definition connection (g' : Z) (l' : list NodeConfig) (c : FragmentConfig) : RemoteFragmentSender :=
  mkRFS (default EmptyString (pubIp <$> l' !! fc_remoteId c)) (rport g' (Z.of_nat (fc_remoteId c)) 1 g)
    (startFragmentId c) (endFragmentId c).

Lemma new_sender g' l' fu :
  (g', l') ∈ nodes → fu_reset (length l) (length l') = Some fu →
  NewBlockSender opens_client (getSenderConfig fu k) (getZMQConfigById (remote_instances g' l')) =
    Some (mkBS None (connection g' l' <$> getSenderConfig fu k)).
Proof using D Hg Hk Hclient.
  intros Hin Hf. unfold NewBlockSender.
  destruct (shares_partition (length l) (length l') fu) as [_ Hs]; [by eapply dep_size..|done|].
  rewrite (mapM_all _ (connection g' l')); [done|]. intros c Hc.
  destruct (Hs k c) as (Hlt & _ & Hr & _); [by eapply lookup_lt_Some|done|].
  destruct (lookup_lt_is_Some_2 l' (fc_remoteId c) Hr) as [n Hn].
  rewrite (find_instance g' l' _ n Hin Hn). cbn [mbind option_bind]. rewrite Hclient.
  unfold NewRFS, connection, pubAddr. cbn [nodeConfig port].
  rewrite (proj2 (Nat.leb_gt _ _)), (proj2 (Nat.leb_gt _ _)) by lia. cbn [orb]. by rewrite Hn.
Qed.

Lemma sender_spec frag :
  initBFG nodes me = Some frag →
  ∃ senders, initMRBlockSender opens_client nodes me ports frag = Some senders ∧ senders !! g = None ∧
    ∀ g' l', (g', l') ∈ nodes → g' ≠ g → ∃ fu, fu_reset (length l) (length l') = Some fu ∧
      senders !! g' = Some (mkBS (Some (getBFGConfig fu)) (connection g' l' <$> getSenderConfig fu k)).
Proof using D Hg Hk Hclient.
  intros Hfrag. destruct (fragment_configs frag Hfrag) as (Hd & Hout' & Hcfg).
  unfold initMRBlockSender. rewrite remote_configs. cbn [mbind option_bind]. unfold NewMRBlockSender.
  set (cfgs := (λ it : Z * list NodeConfig, (it.1, remote_instances it.1 it.2)) <$> nodes).
  assert (cfgs.*1 = nodes.*1) as Hkeys by (unfold cfgs; rewrite <-list_fmap_compose; done).
  rewrite bool_decide_true.
  2: { rewrite Hkeys, me_group. apply list_elem_of_fmap. by exists (g, l). }
  assert (NoDup (prod_map id snd <$> frag).*1) as Hd2 by (rewrite <-list_fmap_compose; exact Hd).
  assert (NoDup (prod_map id fst <$> frag).*1) as Hd1 by (rewrite <-list_fmap_compose; exact Hd).
  assert (∀ g' cs, (g', cs) ∈ filter (λ it : Z * list InstanceConfig, it.1 ≠ g) cfgs →
    ∃ l' fu, (g', l') ∈ nodes ∧ g' ≠ g ∧ cs = remote_instances g' l' ∧ fu_reset (length l) (length l') = Some fu ∧
      (g', (getBFGConfig fu, getSenderConfig fu k)) ∈ frag) as Hfilt.
  { intros g' cs [Hne ([g'' l'] & [= -> ->] & Hl')%list_elem_of_fmap]%list_elem_of_filter.
    cbn in *. destruct (Hcfg g'' l' Hl' Hne) as (fu & ? & ?). eauto 10. }
  set (f := λ (g0 : Z) (rc : list InstanceConfig), _ ≫= _).
  assert (∀ g' l' fu, (g', l') ∈ nodes → fu_reset (length l) (length l') = Some fu →
    (g', (getBFGConfig fu, getSenderConfig fu k)) ∈ frag →
    f g' (remote_instances g' l') = Some (mkBS None (connection g' l' <$> getSenderConfig fu k))) as Hfe.
  { intros g' l' fu Hl' Hfu Hx. unfold f.
    rewrite (proj1 (elem_of_list_to_map (M := gmap Z) _ g' (getSenderConfig fu k) Hd2)).
    - cbn [mbind option_bind]. by apply new_sender.
    - apply list_elem_of_fmap. by exists (g', (getBFGConfig fu, getSenderConfig fu k)). }
  rewrite me_group. destruct (build_spec f (filter (λ it : Z * list InstanceConfig, it.1 ≠ g) cfgs) ∅) as (m & Hb & Hm & Hout).
  { apply filter_keys. rewrite Hkeys. apply dep_keys. }
  { intros g' cs (l' & fu & Hl' & Hne & -> & Hfu & Hx)%Hfilt. rewrite (Hfe _ _ fu) by done. by eexists. }
  rewrite Hb. cbn [mbind option_bind]. eexists. split; [done|]. unfold sender_setBFGWithConfig.
  destruct (alter_all sender_setBFG (prod_map id fst <$> frag) m Hd1) as [Ha Ha']. split.
  - rewrite Ha'.
    + rewrite Hout; [done|]. intros (x & -> & [Hx _]%list_elem_of_filter)%list_elem_of_fmap. done.
    + by rewrite <-list_fmap_compose.
  - intros g' l' Hl' Hne. destruct (Hcfg g' l' Hl' Hne) as (fu & Hfu & Hx). exists fu. split; [done|].
    rewrite (Ha g' (getBFGConfig fu)).
    2: { apply list_elem_of_fmap. by exists (g', (getBFGConfig fu, getSenderConfig fu k)). }
    rewrite (Hm g' (remote_instances g' l')).
    2: { apply list_elem_of_filter. split; [done|]. apply list_elem_of_fmap. by exists (g', l'). }
    by rewrite (Hfe g' l' fu).
Qed.

(** The relays of this group for the fragments of group [i]. *)
Definition relays (pre : list NodeConfig) (i : Z) : list InstanceConfig :=
  imap (λ j n, mkInstance n (rport g (Z.of_nat j) 0 i)) pre.

Lemma groups_pos : 0 < G.
Proof using D Hg. pose proof (dep_range g l Hg). lia. Qed.

Lemma broadcast_configs pre :
  pre `prefix_of` l →
  ∃ m, localBroadcastConfigs me ports pre = Some m ∧
    ∀ i, m !! i = if bool_decide (0 <= i < G ∧ pre ≠ []) then Some (relays pre i) else None.
Proof using D Hg Hk.
  unfold localBroadcastConfigs. induction pre as [|n pre IH] using rev_ind; intros Hpre.
  { exists ∅. split; [done|]. intros i. rewrite bool_decide_false by (intros []; done). apply lookup_empty. }
  destruct IH as (m & Hm & Hl); [by etrans; [apply prefix_app_r; reflexivity|]|].
  assert (l !! length pre = Some n) as Hn.
  { eapply prefix_lookup_Some; [|exact Hpre]. by apply list_lookup_middle. }
  rewrite imap_app, fold_left_app, Hm. cbn [imap fold_left mbind option_bind fst snd].
  rewrite me_group, Nat.add_0_r.
  destruct (dep_ports _ _ _ _ _ D g (Z.of_nat (length pre))) as (u & -> & Hu); [by eapply dep_node|].
  cbn [mbind option_bind].
  destruct (remote_ports_map counts offset u distributed g (Z.of_nat (length pre)) LOCAL_FRAGMENT_BROADCAST 0
    groups_pos Hu eq_refl ltac:(lia)) as (ps & -> & Hps).
  cbn [mbind option_bind]. eexists. split; [done|]. intros i. unfold push_ports. rewrite lookup_merge, Hl, Hps.
  destruct (decide (0 <= i < G)) as [Hi|Hi].
  - rewrite !(bool_decide_true (0 <= i < G)) by done.
    rewrite (bool_decide_true (0 <= i < G ∧ pre ++ [n] ≠ [])) by (split; [done|by destruct pre]).
    unfold relays. rewrite imap_app. cbn [imap]. rewrite Nat.add_0_r.
    destruct pre as [|x pre]; [rewrite bool_decide_false by (intros []; done); done|].
    by rewrite bool_decide_true.
  - rewrite !bool_decide_false by tauto. done.
Qed.

Lemma relays_lookup i j : relays l i !! j = (λ n, mkInstance n (rport g (Z.of_nat j) 0 i)) <$> l !! j.
Proof using. apply list_lookup_imap. Qed.

(** The checks of the constructor pass. *)
Lemma distinct_listeners i n0 rest :
  relays l i = n0 :: rest → existsb (same_listener n0) rest = false.
Proof using D Hg.
  intros Hr. apply not_true_is_false. intros ([c p] & Hin%list_elem_of_In & Hs)%existsb_exists.
  apply list_elem_of_lookup in Hin as [j Hj].
  pose proof (relays_lookup i 0) as H0. rewrite Hr in H0. cbn in H0.
  pose proof (relays_lookup i (S j)) as H1. rewrite Hr in H1. change ((n0 :: rest) !! S j) with (rest !! j) in H1. rewrite Hj in H1.
  destruct (l !! 0%nat) as [c0|] eqn:E0; [|done]. destruct (l !! S j) as [c1|] eqn:E1; [|done]. simplify_eq/=.
  destruct (dep_ids _ _ _ _ _ D g l 0 c0 Hg E0) as [Eg0 _]. destruct (dep_ids _ _ _ _ _ D g l (S j) c1 Hg E1) as [Eg1 _].
  assert (∀ f : NodeConfig → string, NoDup (f <$> l) → f c0 ≠ f c1) as Hne.
  { intros f Hf E. assert ((f <$> l) !! 0%nat = (f <$> l) !! S j) as E' by (rewrite !list_lookup_fmap, E0, E1; cbn; congruence).
    assert (is_Some ((f <$> l) !! 0%nat)) as [x Hx] by (rewrite list_lookup_fmap, E0; by eexists).
    rewrite Hx in E'. symmetry in E'. pose proof (NoDup_lookup _ _ _ _ Hf Hx E'). done. }
  unfold same_listener, priAddr in Hs. cbn [nodeConfig port] in Hs. rewrite Eg0, Eg1, Z.eqb_refl in Hs.
  rewrite (bool_decide_false (ski c0 = ski c1)) in Hs by (by apply Hne, (dep_ski _ _ _ _ _ D g)).
  rewrite orb_false_r in Hs. cbn [negb orb] in Hs. apply andb_true_iff in Hs as [Hip%bool_decide_eq_true Hport%Z.eqb_eq].
  destruct (decide (distributed = true)) as [Ed|Ed].
  - apply (Hne priIp); [|done]. by apply (dep_addr _ _ _ _ _ D Ed g).
  - apply not_true_is_false in Ed. rewrite Ed in Hport. apply remote_port_inj in Hport; [lia|apply groups_pos].
Qed.

(** The receiver of this node for group [i]. *)
Definition receiver_of (i : Z) (cfg : option BFGConfig) (buf : Buffer) : BlockReceiver :=
  mkBR (rport g (Z.of_nat k) 1 i) (rport g (Z.of_nat k) 0 i)
    (filter (λ it, nodeId (nodeConfig it) ≠ nodeId me) (relays l i)) cfg buf.

Lemma new_receiver i :
  0 <= i < G →
  NewBlockReceiver opens_client opens_server (rport g (Z.of_nat k) 1 i) (relays l i) (rport g (Z.of_nat k) 0 i) (nodeId me) =
    Some (receiver_of i None newBuffer).
Proof using D Hg Hk Hclient Hserver.
  intros Hi. pose proof dep_counts_nonneg as Hnn. pose proof (dep_node g l k me Hg Hk) as Hno.
  pose proof (remote_port_facts _ _ _ g _ Hnn (dep_offset _ _ _ _ _ D) (dep_fits _ _ _ _ _ D) Hno) as Hr.
  pose proof (Hr 0 i ltac:(lia) Hi). pose proof (Hr 1 i ltac:(lia) Hi).
  pose proof (remote_port_services counts offset distributed g (Z.of_nat k) i Hnn Hno Hi).
  unfold NewBlockReceiver, receiver_of. destruct (relays l i) as [|n0 rest] eqn:E.
  { pose proof (relays_lookup i k) as E'. rewrite E, Hk in E'. done. }
  rewrite (proj2 (Z.leb_gt _ _)), (proj2 (Z.eqb_neq _ _)) by lia. cbn [orb].
  rewrite (distinct_listeners i n0 rest E), !Hserver, !andb_true_r.
  rewrite (proj2 (forallb_forall _ _)); [done|]. intros; apply Hclient.
Qed.

Lemma relays_group i : filter (λ cfg, groupId (nodeConfig cfg) = g) (relays l i) = relays l i.
Proof using D Hg.
  apply filter_true, Forall_forall. intros c [j Hj]%list_elem_of_lookup. rewrite relays_lookup in Hj.
  destruct (l !! j) as [n|] eqn:E; [|done]. cbn in Hj. simplify_eq. cbn.
  by destruct (dep_ids _ _ _ _ _ D g l j n Hg E).
Qed.

Lemma receivers_built fr rfr bc :
  (∀ i, fr !! i = if bool_decide (0 <= i < G) then Some (rport g (Z.of_nat k) 0 i) else None) →
  (∀ i, rfr !! i = if bool_decide (0 <= i < G) then Some (rport g (Z.of_nat k) 1 i) else None) →
  (∀ i, bc !! i = if bool_decide (0 <= i < G ∧ l ≠ []) then Some (relays l i) else None) →
  ∃ m, NewMRBlockReceiver opens_client opens_server me fr rfr bc = Some m ∧
    (∀ g' l', (g', l') ∈ nodes → g' ≠ g → m !! g' = Some (receiver_of g' None newBuffer)) ∧
    (∀ i, is_Some (m !! i) → i ≠ g ∧ 0 <= i < G).
Proof using D Hg Hk Hclient Hserver.
  intros Hfr Hrfr Hbc. unfold NewMRBlockReceiver. rewrite me_group.
  assert (l ≠ []) as Hne by (intros ->; done).
  set (f := λ (g0 : Z) (cfgs : list InstanceConfig), if bool_decide _ then None else _).
  assert (∀ i, 0 <= i < G → f i (relays l i) = Some (receiver_of i None newBuffer)) as Hf.
  { intros i Hi. unfold f. rewrite relays_group, bool_decide_false.
    - rewrite Hrfr, Hfr, !bool_decide_true by done. cbn [mbind option_bind]. by apply new_receiver.
    - intros E. pose proof (relays_lookup i k) as E'. by rewrite E, Hk in E'. }
  assert (∀ i cs, bc !! i = Some cs → 0 <= i < G ∧ cs = relays l i) as Hbc'.
  { intros i cs E. rewrite Hbc in E. case_bool_decide; [|done]. simplify_eq. tauto. }
  destruct (build_spec f (filter (λ it : Z * list InstanceConfig, it.1 ≠ g) (map_to_list bc)) ∅) as (m & -> & Hm & Hout).
  { apply filter_keys, NoDup_fst_map_to_list. }
  { intros i cs [_ Hi%elem_of_map_to_list]%list_elem_of_filter. apply Hbc' in Hi as [Hi ->]. rewrite Hf by done. by eexists. }
  exists m. split_and!; [done| |].
  - intros g' l' Hl' Hn. pose proof (dep_range _ _ Hl') as Hr. rewrite (Hm g' (relays l g')); [by apply Hf|].
    apply list_elem_of_filter. split; [done|]. apply elem_of_map_to_list. rewrite Hbc. by rewrite bool_decide_true.
  - intros i [r Hi]. destruct (decide (i ∈ (filter (λ it : Z * list InstanceConfig, it.1 ≠ g) (map_to_list bc)).*1)) as [Hin|Hnin].
    + apply list_elem_of_fmap in Hin as ([i' cs] & -> & [Hne' Hb%elem_of_map_to_list]%list_elem_of_filter).
      split; [done|]. by apply Hbc' in Hb as [Hr _].
    + by rewrite Hout in Hi.
Qed.

Lemma receiver_spec frag :
  initBFG nodes me = Some frag →
  ∃ receivers, initMRBlockReceiver opens_client opens_server nodes me ports frag = Some receivers ∧
    ∀ g' l', (g', l') ∈ nodes → g' ≠ g → ∃ fu, fu_reset (length l) (length l') = Some fu ∧
      receivers !! g' = Some (receiver_of g' (Some (getBFGConfig fu)) newBuffer).
Proof using D Hg Hk Hclient Hserver.
  intros Hfrag. destruct (fragment_configs frag Hfrag) as (Hd & _ & Hcfg). unfold initMRBlockReceiver.
  rewrite me_group, me_id. destruct (dep_ports _ _ _ _ _ D g (Z.of_nat k)) as (u & -> & Hu); [by eapply dep_node|].
  cbn [mbind option_bind].
  destruct (remote_ports_map _ _ _ _ _ _ LOCAL_FRAGMENT_BROADCAST 0 groups_pos Hu eq_refl ltac:(lia)) as (fr & -> & Hfr).
  destruct (remote_ports_map _ _ _ _ _ _ REMOTE_FRAGMENT_RECEIVE 1 groups_pos Hu eq_refl ltac:(lia)) as (rfr & -> & Hrfr).
  cbn [mbind option_bind]. rewrite (proj1 (elem_of_list_to_map (M := gmap Z) nodes g l dep_keys) Hg).
  cbn [mbind option_bind]. destruct (broadcast_configs l) as (bc & -> & Hbc); [done|].
  cbn [mbind option_bind]. destruct (receivers_built fr rfr bc) as (m & -> & Hmg & Hkeys); [done..|].
  cbn [mbind option_bind]. eexists. split; [done|].
  assert (NoDup (prod_map id fst <$> frag).*1) as Hd1 by (rewrite <-list_fmap_compose; exact Hd).
  assert (∀ g' fu, (g', (getBFGConfig fu, getSenderConfig fu k)) ∈ frag →
    (list_to_map (prod_map id fst <$> frag) : gmap Z BFGConfig) !! g' = Some (getBFGConfig fu)) as Hlk.
  { intros g' fu Hx. apply elem_of_list_to_map; [done|]. apply list_elem_of_fmap.
    by exists (g', (getBFGConfig fu, getSenderConfig fu k)). }
  intros g' l' Hl' Hn. destruct (Hcfg g' l' Hl' Hn) as (fu & Hfu & Hx). exists fu. split; [done|].
  rewrite receiver_configs; [|apply NoDup_fst_map_to_list|].
  - rewrite bool_decide_true; [by rewrite (Hlk _ _ Hx), (Hmg g' l' Hl' Hn)|].
    apply list_elem_of_fmap. exists (g', receiver_of g' None newBuffer). split; [done|].
    apply elem_of_map_to_list. by eapply Hmg.
  - intros i ([i' r] & -> & Hi%elem_of_map_to_list)%list_elem_of_fmap. cbn [fst].
    destruct (Hkeys i') as [Hne Hr]; [by eexists|]. destruct (dep_group i' Hr) as [li Hli].
    destruct (Hcfg i' li Hli Hne) as (fu' & _ & Hx'). rewrite (Hlk _ _ Hx'). by eexists.
Qed.

Lemma storage_regions : initStorage nodes = G.
Proof using D Hg.
  unfold initStorage. pose proof groups_pos. assert (G - 1 ∈ nodes.*1) as Hin.
  { destruct (dep_group (G - 1) ltac:(lia)) as [l' Hl']. apply list_elem_of_fmap. by exists (G - 1, l'). }
  assert (∀ x, x ∈ nodes.*1 → 0 <= x <= G - 1) as Hb.
  { intros x ([g' l'] & -> & H'%dep_range)%list_elem_of_fmap. cbn. lia. }
  rewrite (foldr_max (G - 1)) by done. lia.
Qed.

(** The node comes up with its senders and its receivers. *)
Lemma start_spec startAt :
  ∃ senders receivers, startReplicator opens_client opens_server nodes me ports startAt = Some (senders, receivers) ∧
    ∀ g' l', (g', l') ∈ nodes → g' ≠ g → ∃ fu, fu_reset (length l) (length l') = Some fu ∧
      senders !! g' = Some (mkBS (Some (getBFGConfig fu)) (connection g' l' <$> getSenderConfig fu k)) ∧
      receivers !! g' = Some (receiver_of g' (Some (getBFGConfig fu)) (mkBuffer (default 0 (startAt !! g')) (replicate cap []))).
Proof using D Hg Hk Hclient Hserver.
  destruct initBFG_spec as (frag & Hfrag & _). unfold startReplicator.
  rewrite bool_decide_false by (intros E; rewrite E in Hg; by apply not_elem_of_nil in Hg).
  rewrite Hfrag. cbn [mbind option_bind]. destruct (receiver_spec frag Hfrag) as (rs & -> & Hrs).
  destruct (sender_spec frag Hfrag) as (ss & -> & _ & Hss). cbn [mbind option_bind].
  unfold checkAndStartService. rewrite storage_regions, me_group.
  assert (∀ i, i ∈ filter (λ i, i ≠ g) (seqZ 0 G) → ∃ l' fu, (i, l') ∈ nodes ∧ fu_reset (length l) (length l') = Some fu ∧
    rs !! i = Some (receiver_of i (Some (getBFGConfig fu)) newBuffer)) as Hi.
  { intros i [Hne Hr%elem_of_seqZ]%list_elem_of_filter. destruct (dep_group i) as [l' Hl']; [lia|].
    destruct (Hrs i l' Hl' Hne) as (fu & ? & ?). eauto 10. }
  rewrite (proj2 (forallb_forall _ _)).
  2: { intros i Hin%list_elem_of_In. destruct (Hi i Hin) as (l' & fu & _ & _ & E). apply bool_decide_eq_true. rewrite E. by eexists. }
  destruct (started_services startAt (filter (λ i, i ≠ g) (seqZ 0 G)) rs) as (m & -> & Hm & _).
  - apply NoDup_filter, NoDup_seqZ.
  - intros i Hin. destruct (Hi i Hin) as (l' & fu & _ & _ & E). rewrite E. by eexists.
  - cbn [mbind option_bind]. exists ss, m. split; [done|]. intros g' l' Hl' Hne.
    destruct (Hss g' l' Hl' Hne) as (fu & Hfu & Hs). exists fu. split_and!; [done..|].
    rewrite Hm.
    + destruct (Hrs g' l' Hl' Hne) as (fu' & Hfu' & E). rewrite Hfu in Hfu'. apply (inj Some) in Hfu'. subst fu'.
      rewrite E. done.
    + apply list_elem_of_filter. split; [done|]. apply elem_of_seqZ. pose proof (dep_range _ _ Hl'). lia.
Qed.
End one.
End deployed.

(** ** All nodes of a deployment *)
Section system.
Context (opens_client : string → Z → bool) (opens_server : Z → bool) (nodes : list (Z * list NodeConfig))
        (ports : gmap Z (list ZMQPortUtil)) (startAt : gmap Z Z).

(** The replicator of node [k] of group [g], its sender to a group and its
    receiver from a group. *)
Definition replicator (g : Z) (k : nat) : option (gmap Z BlockSender * gmap Z BlockReceiver) :=
  l ← (list_to_map nodes : gmap Z (list NodeConfig)) !! g; me ← l !! k;
  startReplicator opens_client opens_server nodes me ports startAt.
Definition sender_to (g : Z) (k : nat) (g' : Z) : option BlockSender := x ← replicator g k; x.1 !! g'.
Definition receiver_from (g : Z) (k : nat) (g' : Z) : option BlockReceiver := x ← replicator g k; x.2 !! g'.

Context {counts : list Z} {offset : Z} {distributed : bool} (D : deployment nodes counts offset distributed ports).
Context (Hclient : ∀ a p, opens_client a p = true) (Hserver : ∀ p, opens_server p = true).
Notation rport := (remote_port counts offset distributed).
Notation link := (connection (counts := counts) (offset := offset) (distributed := distributed)).

Lemma replicator_spec g l k me g' l' :
  (g, l) ∈ nodes → l !! k = Some me → (g', l') ∈ nodes → g' ≠ g →
  ∃ fu, fu_reset (length l) (length l') = Some fu ∧
    sender_to g k g' = Some (mkBS (Some (getBFGConfig fu))
      (link g g' l' <$> getSenderConfig fu k)) ∧
    receiver_from g k g' = Some (receiver_of (counts := counts) (offset := offset) (distributed := distributed) g l k me g'
      (Some (getBFGConfig fu)) (mkBuffer (default 0 (startAt !! g')) (replicate cap []))).
Proof using D Hclient Hserver.
  intros Hg Hk Hg' Hne. destruct (start_spec D opens_client opens_server Hclient Hserver g l k me Hg Hk startAt)
    as (ss & rs & E & H). destruct (H g' l' Hg' Hne) as (fu & Hfu & Hs & Hr). exists fu. split; [done|].
  unfold sender_to, receiver_from, replicator.
  rewrite (proj1 (elem_of_list_to_map (M := gmap Z) nodes g l (dep_keys D)) Hg).
  cbn [mbind option_bind]. rewrite Hk. cbn [mbind option_bind]. by rewrite E.
Qed.

(** What one relay connection needs: its port is where the other node of the
    group repeats the fragments of the same remote group. *)
Definition relay_of (g : Z) (l : list NodeConfig) (j : nat) (from : Z) (c : InstanceConfig) : Prop :=
  ∃ i n r, i ≠ j ∧ l !! i = Some n ∧ receiver_from g i from = Some r ∧ c = mkInstance n (frPort r).

Lemma relays_answered g l k me from lf :
  (g, l) ∈ nodes → l !! k = Some me → (from, lf) ∈ nodes → from ≠ g →
  ∀ r c, receiver_from g k from = Some r → c ∈ lfr r ↔ relay_of g l k from c.
Proof using D Hclient Hserver.
  intros Hg Hk Hf Hne r c Hr.
  destruct (replicator_spec g l k me from lf Hg Hk Hf Hne) as (fu & _ & _ & E). rewrite Hr in E.
  apply (inj Some) in E. subst r. cbn [receiver_of lfr]. rewrite list_elem_of_filter. split.
  - intros [Hid [i Hi]%list_elem_of_lookup]. rewrite relays_lookup in Hi.
    destruct (l !! i) as [n|] eqn:En; [|done]. cbn in Hi. simplify_eq. cbn [nodeConfig] in Hid.
    destruct (replicator_spec g l i n from lf Hg En Hf Hne) as (fu' & _ & _ & E').
    eexists i, n, _. split_and!; [|done|exact E'|done]. intros ->. by rewrite Hk in En; simplify_eq.
  - intros (i & n & r & Hij & Hn & Hri & ->).
    destruct (replicator_spec g l i n from lf Hg Hn Hf Hne) as (fu' & _ & _ & E'). rewrite Hri in E'.
    apply (inj Some) in E'. subst r. cbn [receiver_of frPort nodeConfig]. split.
    + destruct (dep_ids _ _ _ _ _ D g l i n Hg Hn) as [_ ->]. destruct (dep_ids _ _ _ _ _ D g l k me Hg Hk) as [_ ->]. lia.
    + apply list_elem_of_lookup. exists i. rewrite relays_lookup, Hn. done.
Qed.

(** C18: In a deployment whose sockets open, every node comes up, and its
    connections fit those of the others: for every share of its fragments it is
    connected to the address of the node the share goes to, on the port where
    that node receives from this group; both ends use one erasure code; and the
    relays a node listens to are exactly the other nodes of its group, on the
    ports where they repeat the fragments of the same remote group. *)
Theorem replicators_connect :
  (∀ g l k, (g, l) ∈ nodes → (k < length l)%nat → is_Some (replicator g k)) ∧
  ∀ g l k g' l', (g, l) ∈ nodes → (k < length l)%nat → (g', l') ∈ nodes → g' ≠ g →
  ∃ fu s r, fu_reset (length l) (length l') = Some fu ∧
    sender_to g k g' = Some s ∧ receiver_from g k g' = Some r ∧
    Forall2 (λ c x, ∃ n r', l' !! fc_remoteId c = Some n ∧ receiver_from g' (fc_remoteId c) g = Some r' ∧
        x = mkRFS (pubIp n) (rfrPort r') (startFragmentId c) (endFragmentId c) ∧
        _localFragmentConfig r' = _remoteFragmentConfig s)
      (getSenderConfig fu k) (_senders s) ∧
    ∀ c, c ∈ lfr r ↔ relay_of g l k g' c.
Proof using D Hclient Hserver.
  split.
  - intros g l k Hg [me Hk]%lookup_lt_is_Some_2.
    destruct (start_spec D opens_client opens_server Hclient Hserver g l k me Hg Hk startAt) as (ss & rs & E & _).
    unfold replicator. rewrite (proj1 (elem_of_list_to_map (M := gmap Z) nodes g l (dep_keys D)) Hg).
    cbn [mbind option_bind]. rewrite Hk. cbn [mbind option_bind]. rewrite E. by eexists.
  - intros g l k g' l' Hg Hlt Hg' Hne. destruct (lookup_lt_is_Some_2 _ _ Hlt) as [me Hk].
    destruct (replicator_spec g l k me g' l' Hg Hk Hg' Hne) as (fu & Hfu & Hs & Hr).
    eexists fu, _, _. split_and!; [done|exact Hs|exact Hr| |intros c; by apply (relays_answered g l k me g' l' Hg Hk Hg' Hne)].
    cbn [_senders _remoteFragmentConfig]. apply Forall2_fmap_r, Forall_Forall2_diag, Forall_forall. intros c Hc.
    destruct (shares_partition (length l) (length l') fu) as [_ Hsh]; [by eapply (dep_size D)..|done|].
    destruct (Hsh k c Hlt Hc) as (_ & _ & Hrem & _). destruct (lookup_lt_is_Some_2 _ _ Hrem) as [n Hn].
    destruct (replicator_spec g' l' (fc_remoteId c) n g l Hg' Hn Hg ltac:(done)) as (fu' & Hfu' & _ & Hr').
    eexists n, _. split_and!; [done|exact Hr'| |].
    + unfold connection. rewrite Hn. done.
    + cbn [receiver_of _localFragmentConfig]. f_equal. eapply bfg_config_sym; [| |exact Hfu'|exact Hfu];
        by eapply (dep_size D).
Qed.

(** ** A block on its way to a group *)
Context `{ZP : Zpp} `{HZ : !ZppLaws ZP} (sha : string → HashString) (max_alloc : Z).
Context (encode : BFGConfig → string → option (list string)).
Context (decode : BFGConfig → list string → nat → option string).
Context `{HE : !ECLaws encode decode}.
Context (Hmax : max_alloc < 2 ^ 31) (Hmin : 32 <= max_alloc) (sha_ok : ∀ s, arr_ok (sha s)).

(** The messages a [BlockSender] makes of a block, with their destinations. *)
Definition share_of (x : RemoteFragmentSender) : FragmentConfig := mkFC (_start x) (_end x) 0 0.

Definition send (s : BlockSender) (blockRaw : string) (blk : Block) : option (list (string * Z * string)) :=
  cfg ← _remoteFragmentConfig s;
  msgs ← encodeAndSendBlock sha encode cfg (share_of <$> _senders s) blockRaw blk;
  Some (zip_with (λ x m, (rfs_addr x, rfs_port x, m)) (_senders s) msgs).

(** What the nodes of [g] that are not in [bad] send to [g'], and where the nodes
    of [g'] that are not in [bad] receive it. *)
Definition all_sent (g : Z) (l : list NodeConfig) (g' : Z) (bad : list nat) (blockRaw : string) (blk : Block)
    : list (string * Z * string) :=
  filter (λ k, k ∉ bad) (seq 0 (length l)) ≫= λ k, default [] (s ← sender_to g k g'; send s blockRaw blk).

Definition listening (g' : Z) (l' : list NodeConfig) (g : Z) (bad : list nat) : list (string * Z) :=
  omap (λ j, n ← l' !! j; r ← receiver_from g' j g; Some (pubIp n, rfrPort r)) (filter (λ j, j ∉ bad) (seq 0 (length l'))).

Definition reached (g : Z) (l : list NodeConfig) (g' : Z) (l' : list NodeConfig) (badLocal badRemote : list nat)
    (blockRaw : string) (blk : Block) : list string :=
  snd <$> filter (λ x, x.1 ∈ listening g' l' g badRemote) (all_sent g l g' badLocal blockRaw blk).

Section flow.
Context (g : Z) (l : list NodeConfig) (g' : Z) (l' : list NodeConfig) (fu : FragmentUtil).
Context (Hg : (g, l) ∈ nodes) (Hg' : (g', l') ∈ nodes) (Hne : g' ≠ g).
Context (Hfu : fu_reset (length l) (length l') = Some fu).
Context (blk : Block) (sigs : list SignaturePair) (ctx : Context) (frs : list string) (t : MerkleTree (H := HashString)).
Notation raw := (serializeToString blk).1.
Notation n := (number (header blk)).
Context (Hcut : cut sha encode (getBFGConfig fu) raw ctx frs t) (Hsigs : vec_ok sigpair_ok sigs) (Hn : in_uint 64 n).

Definition message_for (c : FragmentConfig) : string :=
  default EmptyString (encodeAndSendFragment ctx n (String.length raw) sigs (startFragmentId c) (endFragmentId c)).
Definition destination (c : FragmentConfig) : string * Z :=
  (default EmptyString (pubIp <$> l' !! fc_remoteId c), rport g' (Z.of_nat (fc_remoteId c)) 1 g).

Lemma share_bounds k c : (k < length l)%nat → c ∈ getSenderConfig fu k →
  (startFragmentId c < endFragmentId c ≤ length frs)%nat ∧ (fc_remoteId c < length l')%nat.
Proof using D Hg Hg' Hfu Hcut HE.
  intros Hk Hc. pose proof (dep_size D g l Hg). pose proof (dep_size D g' l' Hg').
  destruct (shares_partition (length l) (length l') fu) as [Hcat Hs]; [done..|].
  destruct (Hs k c Hk Hc) as (Hlt & _ & Hr & _). split; [|done]. split; [done|].
  destruct (fu_reset_ok (length l) (length l')) as (fu' & E & Hok & EL & ER & ET); [done..|].
  rewrite Hfu in E. apply (inj Some) in E. subst fu'.
  destruct (surviving_data fu Hok [] []) as (_ & _ & Hsum); [|cbn; lia..|].
  { rewrite ET. apply Nat.neq_0_lt_0. intros ?%Nat.lcm_eq_0. lia. }
  rewrite (cut_length _ encode decode _ _ _ _ _ Hcut), Hsum, ET.
  assert ((endFragmentId c - 1)%nat ∈ seq 0 (Nat.lcm (length l) (length l'))) as Hin%elem_of_seq; [|lia].
  rewrite <-Hcat. apply concat_fmap_elem. exists k. split; [apply elem_of_seq; lia|].
  apply concat_fmap_elem. exists c. split; [done|]. apply elem_of_seq. lia.
Qed.

Lemma message_sent k c : (k < length l)%nat → c ∈ getSenderConfig fu k →
  encodeAndSendFragment ctx n (String.length raw) sigs (startFragmentId c) (endFragmentId c) = Some (message_for c).
Proof using D Hg Hg' Hfu Hcut HE HZ Hmax Hmin sha_ok Hsigs Hn.
  intros Hk Hc. destruct (share_bounds k c Hk Hc) as [Hb _].
  pose proof (share_message sha max_alloc encode decode Hmax Hmin sha_ok _ raw ctx frs t sigs n c Hcut Hsigs Hn Hb) as E.
  unfold message_for. by destruct (encodeAndSendFragment _ _ _ _ _ _).
Qed.

Lemma node_sends k : (k < length l)%nat →
  (s ← sender_to g k g'; send s raw (with_signatures blk sigs)) =
    Some ((λ c, (destination c, message_for c)) <$> getSenderConfig fu k).
Proof using D Hclient Hserver Hg Hg' Hne Hfu Hcut HE HZ Hmax Hmin sha_ok Hsigs Hn.
  intros Hk. destruct (lookup_lt_is_Some_2 _ _ Hk) as [me Hme].
  destruct (replicator_spec g l k me g' l' Hg Hme Hg' Hne) as (fu' & Hfu' & -> & _).
  rewrite Hfu in Hfu'. apply (inj Some) in Hfu'. subst fu'. cbn [mbind option_bind]. unfold send.
  cbn [_remoteFragmentConfig _senders mbind option_bind]. unfold encodeAndSendBlock.
  rewrite (cut_init _ _ _ _ _ _ _ Hcut). cbn [fst snd].
  rewrite (mapM_all _ message_for).
  - cbn [mbind option_bind]. f_equal. rewrite <-list_fmap_compose.
    assert (∀ cs, zip_with (λ x m, (rfs_addr x, rfs_port x, m)) (link g g' l' <$> cs)
        (message_for ∘ share_of <$> (link g g' l' <$> cs)) =
      (λ c, (destination c, message_for c)) <$> cs) as Hz; [|apply Hz].
    induction cs as [|c cs IH]; [done|]. cbn [fmap list_fmap zip_with]. by rewrite IH.
  - intros c (x & -> & (c' & -> & Hc')%list_elem_of_fmap)%list_elem_of_fmap. by apply (message_sent k c').
Qed.

(** A destination is a correct node's exactly when the share goes to one. *)
Lemma destination_listening c badRemote : (fc_remoteId c < length l')%nat →
  destination c ∈ listening g' l' g badRemote ↔ fc_remoteId c ∉ badRemote.
Proof using D Hclient Hserver Hg Hg' Hne.
  intros Hr. unfold listening. rewrite list_elem_of_omap.
  assert (∀ j x, l' !! j = Some x → ∃ r, receiver_from g' j g = Some r ∧ rfrPort r = rport g' (Z.of_nat j) 1 g) as Hrec.
  { intros j x Hj. destruct (replicator_spec g' l' j x g l Hg' Hj Hg ltac:(done)) as (fu' & _ & _ & E).
    eexists. split; [exact E|done]. }
  destruct (lookup_lt_is_Some_2 _ _ Hr) as [x Hx]. 
  assert (destination c = (pubIp x, rport g' (Z.of_nat (fc_remoteId c)) 1 g)) as -> by (unfold destination; by rewrite Hx).
  split.
  - intros (j & [Hj Hlt%elem_of_seq]%list_elem_of_filter & E).
    destruct (lookup_lt_is_Some_2 l' j) as [y Hy]; [lia|]. rewrite Hy in E. cbn [mbind option_bind] in E.
    destruct (Hrec j y Hy) as (r & Hj' & Hp). rewrite Hj' in E. cbn [mbind option_bind] in E.
    apply (inj Some), pair_eq in E as [Eip Eport]. rewrite Hp in Eport.
    assert (j = fc_remoteId c) as <-; [|done]. destruct (decide (distributed = true)) as [Ed|Ed%not_true_is_false].
    + destruct (dep_addr _ _ _ _ _ D Ed g' l' Hg') as [_ Hnd].
      apply (NoDup_lookup _ _ _ (pubIp x) Hnd); rewrite list_lookup_fmap; [rewrite Hy|rewrite Hx]; cbn; congruence.
    + rewrite Ed in Eport. apply remote_port_inj in Eport; [lia|]. pose proof (dep_range D g l Hg). lia.
  - intros Hb. exists (fc_remoteId c). split; [apply list_elem_of_filter; split; [done|apply elem_of_seq; lia]|].
    rewrite Hx. cbn [mbind option_bind]. destruct (Hrec _ x Hx) as (r & -> & Hp). cbn [mbind option_bind]. by rewrite Hp.
Qed.

(** What reaches correct nodes, as parsed, is what the shares between correct
    nodes say. *)
Lemma reached_messages badLocal badRemote :
  omap ebf_deserializeFromString (reached g l g' l' badLocal badRemote raw (with_signatures blk sigs)) =
  surviving_messages fu badLocal badRemote ctx n (String.length raw) sigs.
Proof using D Hclient Hserver Hg Hg' Hne Hfu Hcut HE HZ Hmax Hmin sha_ok Hsigs Hn.
  destruct (fu_reset_ok (length l) (length l')) as (fu' & E & _ & EL & _); [by eapply (dep_size D)..|].
  rewrite Hfu in E. apply (inj Some) in E. subst fu'.
  unfold reached, all_sent, surviving_messages, surviving_configs. rewrite EL.
  assert (∀ k, k ∈ filter (λ l0, l0 ∉ badLocal) (seq 0 (length l)) → (k < length l)%nat) as Hks.
  { intros k [_ Hk%elem_of_seq]%list_elem_of_filter. lia. }
  revert Hks. generalize (filter (λ l0, l0 ∉ badLocal) (seq 0 (length l))) as ks. intros ks Hks.
  induction ks as [|k ks IH]; [done|]. cbn [mbind list_bind].
  rewrite !filter_app, fmap_app, !omap_app, IH by set_solver. f_equal.
  rewrite (node_sends k) by set_solver. cbn [default from_option]. unfold id.
  assert (∀ c, c ∈ getSenderConfig fu k → (fc_remoteId c < length l')%nat ∧
    encodeAndSendFragment ctx n (String.length raw) sigs (startFragmentId c) (endFragmentId c) = Some (message_for c)) as Hc.
  { intros c Hin. split; [apply (share_bounds k c)|apply (message_sent k c)]; set_solver. }
  revert Hc. generalize (getSenderConfig fu k) as cs. intros cs Hc.
  induction cs as [|c cs IHc]; [done|]. destruct (Hc c ltac:(left)) as [Hr He].
  cbn [fmap list_fmap].
  destruct (decide (fc_remoteId c ∉ badRemote)) as [Hb|Hb].
  - rewrite filter_cons_True by (cbn [fst]; by apply destination_listening).
    rewrite filter_cons_True by done. cbn [fmap list_fmap omap list_omap snd].
    rewrite He. cbn [mbind option_bind]. rewrite IHc by set_solver. done.
  - rewrite filter_cons_False by (cbn [fst]; by rewrite destination_listening).
    rewrite filter_cons_False by done. apply IHc. set_solver.
Qed.
End flow.

Context (verify : string → DigestString → string → option bool).
Context {C : Type} `{BlockContainer C} (inv : C → Prop) (holds : C → Z → Prop) `{HL : !BlockContainerLaws inv holds}.

(** C9: From the storage of one group to the storage of another: in a deployment
    whose sockets open, with at most a third of the nodes of either group silent,
    let the messages of the other nodes of the sending group that are addressed
    to where the other nodes of the receiving group listen come in, in any order
    and mixed with messages about other blocks or unreadable ones; then the
    receiver of every node of the receiving group, started at the number of the
    block, rebuilds the block, stores it with its signatures and moves on. *)
Theorem replicators_deliver g l g' l' j fu badLocal badRemote blk sigs ctx frs t (st : Storage C) raws free :
  (g, l) ∈ nodes → (g', l') ∈ nodes → g' ≠ g → (j < length l')%nat → fu_reset (length l) (length l') = Some fu →
  (length badLocal ≤ (length l - 1) / 3)%nat → (length badRemote ≤ (length l' - 1) / 3)%nat →
  block_ok blk → vec_ok sigpair_ok sigs → enough_signatures verify blk sigs →
  let raw := (serializeToString blk).1 in
  let n := number (header blk) in
  cut sha encode (getBFGConfig fu) raw ctx frs t →
  0 <= n < 2 ^ 64 - 256 → startAt !! g = Some n →
  about n (omap ebf_deserializeFromString raws) ≡ₚ
    omap ebf_deserializeFromString (reached g l g' l' badLocal badRemote raw (with_signatures blk sigs)) →
  storage_ok inv st → (Z.to_nat g < regionCount st)%nat → (1 ≤ free)%nat →
  ∃ r cfg buf' st', receiver_from g' j g = Some r ∧ _localFragmentConfig r = Some cfg ∧
    passiveGet sha max_alloc decode (validateFunc verify (Z.to_nat g)) cfg n free (deliver (_ringBuf r) raws) st =
      Some (buf', st') ∧ low buf' = n + 1 ∧
    insertBlockAndNotify st (Z.to_nat g) (with_signatures blk sigs) = Some st'.
Proof using D Hclient Hserver HE HZ Hmax Hmin sha_ok HL.
  intros Hg Hg' Hne Hj Hfu HbL HbR Hok Hsigs Hen raw n Hcut Hn Hst0 Hraws Hst Hidx Hfree.
  destruct (lookup_lt_is_Some_2 _ _ Hj) as [me Hme].
  destruct (replicator_spec g' l' j me g l Hg' Hme Hg ltac:(done)) as (fu' & Hfu' & _ & Hr).
  rewrite (reached_messages g l g' l' fu Hg Hg' Hne Hfu blk sigs ctx frs t) in Hraws
    by (done || (unfold in_uint; lia)).
  eexists _, (getBFGConfig fu). rewrite Hr.
  destruct (block_reaches_group sha max_alloc encode decode Hmax Hmin sha_ok verify inv holds (length l) (length l') fu
    badLocal badRemote blk sigs ctx frs t (Z.to_nat g) st (mkBuffer n (replicate cap [])) [] raws free)
    as (buf' & st' & Hp & Hlow & Hi); try done.
  - by eapply (dep_size D).
  - by eapply (dep_size D).
  - apply lookup_replicate_2, slot_bound.
  - exists buf', st'. split; [done|]. split.
    { cbn [receiver_of _localFragmentConfig]. f_equal.
      eapply bfg_config_sym; [| |exact Hfu'|exact Hfu]; by eapply (dep_size D). }
    cbn [receiver_of _ringBuf]. rewrite Hst0. done.
Qed.
End system.

(** ** Two groups of four on one host *)
#[local] Existing Instance LE.zpp.
#[local] Existing Instance LE.zpp_laws.

Definition host_node (g k : Z) (ski : string) : NodeConfig := mkNode k g ski "127.0.0.1" "127.0.0.1".
Definition nodes44 : list (Z * list NodeConfig) :=
  [(1, [host_node 1 0 "e"; host_node 1 1 "f"; host_node 1 2 "g"; host_node 1 3 "h"]);
   (0, [host_node 0 0 "a"; host_node 0 1 "b"; host_node 0 2 "c"; host_node 0 3 "d"])].
Definition regions44 : list (Z * Z) := [(0, 4); (1, 4)].
Definition ports44 : gmap Z (list ZMQPortUtil) := default ∅ (InitPortsConfig 51200 regions44 false).
Definition any_client (a : string) (p : Z) : bool := true.
Definition any_server (p : Z) : bool := true.

Lemma deployed44 : deployment nodes44 [4; 4] 51200 false ports44.
Proof.
  destruct (deployment_ports nodes44 [4; 4] 51200 false regions44) as (p & E & D).
  - apply perm_swap.
  - repeat constructor.
  - lia.
  - vm_compute. discriminate.
  - intros g l k c [[= -> ->]|[[= -> ->]|[]%not_elem_of_nil]%elem_of_cons]%elem_of_cons Hk;
      do 4 (destruct k as [|k]; [by injection Hk as <-|]); done.
  - intros g l [[= -> ->]|[[= -> ->]|[]%not_elem_of_nil]%elem_of_cons]%elem_of_cons;
      apply (bool_decide_unpack _); vm_compute; exact I.
  - done.
  - reflexivity.
  - unfold ports44. rewrite E. exact D.
Qed.

Lemma replicators_connect_witness :
  is_Some (replicator any_client any_server nodes44 ports44 ∅ 1 2) ∧
  ∃ s r, sender_to any_client any_server nodes44 ports44 ∅ 1 2 0 = Some s ∧
    receiver_from any_client any_server nodes44 ports44 ∅ 0 2 1 = Some r ∧
    mkRFS "127.0.0.1" (rfrPort r) 2 3 ∈ _senders s.
Proof.
  destruct (replicators_connect any_client any_server nodes44 ports44 ∅ deployed44 ltac:(done) ltac:(done)) as [Hup Hfit].
  split.
  - apply (Hup 1 (nodes44.*2 !!! 0%nat)); [left|cbn; lia].
  - destruct (Hfit 1 (nodes44.*2 !!! 0%nat) 2%nat 0 (nodes44.*2 !!! 1%nat)) as (fu & s & r & Hfu & Hs & _ & Hall & _);
      [left|cbn; lia|right; left|done|].
    assert (fu = mkFU 4 4 4 1 1) as -> by (vm_compute in Hfu; congruence).
    change (getSenderConfig (mkFU 4 4 4 1 1) 2) with [mkFC 2 3 2 2] in Hall.
    apply Forall2_cons_inv_l in Hall as (x & xs & (n & r' & Hn & Hr' & -> & _) & _ & Hx).
    exists s, r'. split_and!; [done..|]. rewrite Hx. vm_compute in Hn. apply (inj Some) in Hn. subst n. left.
Defined.

Lemma replicators_deliver_witness :
  ∃ r cfg buf' st', receiver_from any_client any_server nodes44 ports44 {[1 := 3]} 0 1 1 = Some r ∧
    _localFragmentConfig r = Some cfg ∧
    passiveGet toy_sha 1000 toy_decode (validateFunc all_valid 1) cfg 3 1
      (deliver (_ringBuf r) [msg44 sigs44 2 3; "no"%string; msg44 sigs44 1 2]) two_regions = Some (buf', st') ∧
    low buf' = 4 ∧ insertBlockAndNotify two_regions 1 (with_signatures sample_block sigs44) = Some st'.
Proof.
  apply (replicators_deliver any_client any_server nodes44 ports44 {[1 := 3]} deployed44 ltac:(done) ltac:(done)
    toy_sha 1000 toy_encode toy_decode ltac:(done) ltac:(done) toy_sha_ok all_valid
    mr_ok (λ c b, is_Some (blockStorage c !! b)) 1 (nodes44.*2 !!! 0%nat) 0 (nodes44.*2 !!! 1%nat) 1 fu44 [3%nat] [0%nat]
    sample_block sigs44 gen44 frs44 tree44 two_regions); try reflexivity; try (cbn; lia).
  - left.
  - right; left.
  - apply sample_block_ok.
  - ok_solve.
  - vm_compute. lia.
  - apply cut44.
  - vm_compute. apply perm_swap.
  - apply two_regions_ok.
Defined.
