(* ===== verification/Direct.v ===== *)
(** * Direct replication

    include/peer/replicator/direct: blocks are sent whole.  A node of the
    producing group sends every block to the first [f + 1] nodes of every other
    group ([MRBlockSender]); each of these relays what it receives to all nodes
    of its group ([BlockReceiver]), and every node checks the signatures and
    stores a block the first time it sees it ([MRBlockReceiver]).  Signature
    verification is the parameter [verify]. *)

From S2P Require Import Prelude Zpp Proto LRU Storage RoundBased BaselineOrders.
From S2P Require Import Fragments BFG BlockReceiver Replication.

Section direct.
Context `{ZP : Zpp} (verify : string → DigestString → string → option bool).

(** ** MRBlockSender *)

(** The nodes of a remote region the constructor connects to. *)
Definition direct_f (n : nat) : nat := Z.to_nat (Z.quot (Z.of_nat n - 1) 3).

Definition direct_receivers {A} (nodes : list A) : option (list A) :=
  CHECK bool_decide (1 ≤ direct_f (length nodes) + 1 ∧ direct_f (length nodes) + 1 ≤ length nodes) ;;
  Some (take (direct_f (length nodes) + 1) nodes).

(** One round of [run]: the next number and the message for every receiver; the
    thread keeps waiting while the block is not there. *)
Definition sender_step (s : Storage MRRegion) (localRegionId : nat) (nextBlockNumber : Z)
    : option (Z * option string) :=
  match waitForBlock s localRegionId nextBlockNumber with
  | Returned _ (Some block) =>
      CHECK negb (bool_decide (consensusSignatures (metadata block) = [])) ;;
      Some ((nextBlockNumber + 1)%Z, Some (serializeToString block).1)
  | _ => Some (nextBlockNumber, None)
  end.

Fixpoint sender_run (fuel : nat) (s : Storage MRRegion) (localRegionId : nat) (nextBlockNumber : Z)
    : option (list string) :=
  match fuel with
  | 0 => Some []
  | S fuel =>
      x ← sender_step s localRegionId nextBlockNumber;
      ms ← sender_run fuel s localRegionId x.1;
      Some (option_list x.2 ++ ms)
  end.

(** ** MRBlockReceiver *)

(** [getBlockFromRawString]: [None] when the process dies, [Some None] for the
    null pointer.  The threads verify the signatures independently. *)
Definition direct_getBlockFromRawString (raw : string) : option (option Block) :=
  let x := deserializeFromString raw newBlock in
  if negb (valid x.1) then Some None else
  let sigs := consensusSignatures (metadata x.2) in
  CHECK negb (bool_decide (sigs = [])) ;;
  let serHeader := String.substring 0 (bodyPos x.1) raw in
  let verifiedSigCnt := length (filter (λ p, sig_valid verify serHeader p = true) sigs) in
  if bool_decide (verifiedSigCnt < (length sigs + 1) / 2) then Some None else Some (Some x.2).

(** The callback of region [idx], under [storageMutex]. *)
Definition direct_validateFunc (idx : nat) (st : Storage MRRegion) (raw : string)
    : option (Storage MRRegion * bool) :=
  match direct_getBlockFromRawString raw with
  | None => None
  | Some None => Some (st, false)
  | Some (Some block) =>
      maxId ← getMaxStoredBlockNumber st idx;
      if (wrap32 (number (header block)) <=? maxId)%Z then Some (st, true) else
      st' ← insertBlockAndNotify st idx block; Some (st', true)
  end.

Fixpoint direct_receive (idx : nat) (st : Storage MRRegion) (raws : list string) : option (Storage MRRegion) :=
  match raws with
  | [] => Some st
  | raw :: raws => x ← direct_validateFunc idx st raw; direct_receive idx x.1 raws
  end.

(** A block whose list of signatures is empty ends every process it reaches;
    who sends it does not matter. *)
Theorem direct_unsigned_dies `{!ZppLaws ZP} blk idx st :
  block_ok blk → consensusSignatures (metadata blk) = [] →
  direct_validateFunc idx st (serializeToString blk).1 = None.
Proof.
  intros Hok Hs. unfold direct_validateFunc, direct_getBlockFromRawString. rewrite deserialize_serialize by done.
  cbn [fst snd serializeToString valid negb]. by rewrite Hs, bool_decide_true.
Qed.
End direct.

(** ** The relays of a group *)

Lemma direct_f_lt {A} (nodes : list A) : nodes ≠ [] → direct_f (length nodes) + 1 ≤ length nodes.
Proof.
  unfold direct_f. destruct nodes; [done|]. intros _. simpl length. rewrite Z.quot_div_nonneg by lia.
  assert ((Z.of_nat (S (length nodes)) - 1) / 3 ≤ Z.of_nat (length nodes))%Z; [|lia].
  apply Z.div_le_upper_bound; lia.
Qed.

(** Of the first [f + 1] nodes one is correct, when at most [f] of the group are
    faulty. *)
Lemma correct_relay {A} (nodes : list A) (faulty : A → bool) :
  nodes ≠ [] → length (List.filter faulty nodes) ≤ direct_f (length nodes) →
  ∃ rs, direct_receivers nodes = Some rs ∧ length rs = S (direct_f (length nodes)) ∧
    ∃ i x, rs !! i = Some x ∧ faulty x = false.
Proof.
  intros Hne Hf.
  pose proof (direct_f_lt nodes Hne) as Hlt.
  unfold direct_receivers. rewrite bool_decide_true by lia. eexists. split; [done|].
  split; [rewrite length_take; lia|].
  destruct (existsb (λ x, negb (faulty x)) (take (direct_f (length nodes) + 1) nodes)) eqn:Ex.
  - apply existsb_exists in Ex as (x & Hx & Hn). apply list_elem_of_In, list_elem_of_lookup in Hx as [i Hi].
    exists i, x. split; [done|]. by apply negb_true_iff.
  - exfalso. set (l := take (direct_f (length nodes) + 1) nodes) in *.
    assert (Hall : List.filter faulty l = l).
    { clear -Ex. induction l as [|x l IH]; [done|]. simpl in *. apply orb_false_iff in Ex as [E1 E2].
      apply negb_false_iff in E1. rewrite E1, IH by done. done. }
    assert (Hle : length (List.filter faulty l) ≤ length (List.filter faulty nodes)).
    { replace (List.filter faulty nodes) with
        (List.filter faulty (l ++ drop (direct_f (length nodes) + 1) nodes)) by (unfold l; by rewrite take_drop).
      rewrite List.filter_app, length_app. lia. }
    rewrite Hall in Hle. unfold l in Hle. rewrite length_take in Hle. lia.
Qed.

(** ** What a node stores *)

(** The greatest number of messages of a relay. *)
Definition furthest (r : nat) (arr : list (nat * Z)) : nat := foldr Nat.max 0 (arrived arr <$> seq 0 r).

Lemma furthest_ge r arr g : g < r → arrived arr g ≤ furthest r arr.
Proof.
  intros Hg. unfold furthest. assert (Hin : arrived arr g ∈ arrived arr <$> seq 0 r).
  { apply list_elem_of_fmap. exists g. split; [done|]. apply elem_of_seq. lia. }
  induction (arrived arr <$> seq 0 r) as [|x l IH]; [by apply elem_of_nil in Hin|]. simpl.
  apply elem_of_cons in Hin as [->|Hin]; [lia|]. specialize (IH Hin). lia.
Qed.

Lemma furthest_le r arr k : (∀ g, g < r → arrived arr g ≤ k) → furthest r arr ≤ k.
Proof.
  intros H. unfold furthest. assert (Hall : Forall (λ x, x ≤ k) (arrived arr <$> seq 0 r)).
  { apply Forall_fmap, Forall_forall. intros g Hg%elem_of_seq. apply H. lia. }
  induction Hall as [|x l Hx _ IH]; simpl; lia.
Qed.

Lemma furthest_snoc r arr g :
  g < r → furthest r (arr ++ [(g, Z.of_nat (arrived arr g))]) = Nat.max (furthest r arr) (S (arrived arr g)).
Proof.
  intros Hg. apply Nat.le_antisymm.
  - apply furthest_le. intros g' Hg'. rewrite arrived_snoc. pose proof (furthest_ge r arr g' Hg').
    destruct (decide (g' = g)) as [->|]; lia.
  - apply Nat.max_lub.
    + apply furthest_le. intros g' Hg'. etrans; [|by apply (furthest_ge _ _ g')]. rewrite arrived_snoc.
      destruct (decide (g' = g)); lia.
    + etrans; [|by apply (furthest_ge _ _ g)]. rewrite arrived_snoc, decide_True by done. done.
Qed.

Section node.
Context `{ZP : Zpp} `{HZ : !ZppLaws ZP} (verify : string → DigestString → string → option bool).
Context (bs : list Block).

(** Blocks that have gone through consensus. *)
Definition signed_block (blk : Block) : Prop :=
  block_ok blk ∧ consensusSignatures (metadata blk) ≠ [] ∧
  enough_signatures verify blk (consensusSignatures (metadata blk)).

Hypothesis numbered_blocks : ∀ j blk, bs !! j = Some blk → number (header blk) = Z.of_nat j ∧ signed_block blk.
Hypothesis few_blocks : (Z.of_nat (length bs) < 2 ^ 31)%Z.

Lemma signed_accepted blk :
  signed_block blk → direct_getBlockFromRawString verify (serializeToString blk).1 = Some (Some blk).
Proof using HZ.
  intros (Hok & Hne & Hs). unfold direct_getBlockFromRawString. rewrite deserialize_serialize by done.
  cbn [fst snd serializeToString valid negb bodyPos]. rewrite bool_decide_false by done. cbn [negb].
  rewrite substring_prefix. by rewrite bool_decide_false by (apply Nat.le_ngt; exact Hs).
Qed.

Lemma receive_signed idx st blk :
  signed_block blk →
  direct_validateFunc verify idx st (serializeToString blk).1 =
  (maxId ← getMaxStoredBlockNumber st idx;
   if (wrap32 (number (header blk)) <=? maxId)%Z then Some (st, true)
   else st' ← insertBlockAndNotify st idx blk; Some (st', true)).
Proof using HZ. intros H. unfold direct_validateFunc. by rewrite signed_accepted. Qed.

(** The message of a block number. *)
Definition message (k : Z) : string :=
  match bs !! Z.to_nat k with Some blk => (serializeToString blk).1 | None => EmptyString end.

(** What a node receives: the relays' messages, and among them messages its
    check refuses. *)
Inductive carries : list (nat * Z) → list string → Prop :=
| carries_nil : carries [] []
| carries_message arr raws x : carries arr raws → carries (arr ++ [x]) (raws ++ [message x.2])
| carries_junk arr raws raw :
    carries arr raws → direct_getBlockFromRawString verify raw = Some None → carries arr (raws ++ [raw]).

Lemma direct_receive_app idx st l1 l2 :
  direct_receive verify idx st (l1 ++ l2) = (st' ← direct_receive verify idx st l1; direct_receive verify idx st' l2).
Proof.
  revert st. induction l1 as [|x l1 IH]; intros st; simpl; [done|].
  destruct (direct_validateFunc verify idx st x) as [[st' b]|]; simpl; [apply IH|done].
Qed.

Lemma insert_all_app {C} `{BlockContainer C} (st : Storage C) l1 l2 :
  insert_all st (l1 ++ l2) = (st' ← insert_all st l1; insert_all st' l2).
Proof.
  revert st. induction l1 as [|x l1 IH]; intros st; simpl; [done|].
  destruct (insertBlockAndNotify st x.1 x.2); simpl; [apply IH|done].
Qed.

(** Storing an initial segment of the blocks in a fresh storage. *)
Context (w : Z) (regionsCount idx : nat).
Hypothesis window_pos : (0 < w < 2 ^ 31)%Z.
Hypothesis idx_ok : idx < regionsCount.

Definition fresh : Storage MRRegion := newStorage (mkMR w ∅) regionsCount.

Lemma stored_prefix m :
  m ≤ length bs → ∃ s, insert_all fresh ((λ b, (idx, b)) <$> take m bs) = Some s ∧
    getMaxStoredBlockNumber s idx = Some (Z.of_nat m - 1)%Z.
Proof using numbered_blocks few_blocks window_pos idx_ok.
  intros Hm. destruct (insert_consecutive fresh idx w [] (take m bs) (mkMR w ∅))
    as (s & c & E & _ & _ & _ & _ & Hmax).
  - split; [unfold regionCount; simpl; by rewrite !length_replicate|]. by apply Forall_replicate.
  - unfold regionCount. simpl. by rewrite length_replicate.
  - simpl. by rewrite lookup_replicate_2.
  - done.
  - intros i. simpl. rewrite lookup_empty, bool_decide_false; [done|lia].
  - simpl. rewrite length_take. lia.
  - intros j blk [Hj _]%lookup_take_Some. simpl. by apply numbered_blocks.
  - simpl. by rewrite lookup_replicate_2.
  - exists s. split; [done|]. unfold getMaxStoredBlockNumber. simpl in Hmax. rewrite length_take in Hmax.
    by replace (m `min` length bs) with m in Hmax by lia.
Qed.

(** One message at a node that holds the first [m] blocks. *)
Lemma receive_message s m k blk :
  insert_all fresh ((λ b, (idx, b)) <$> take m bs) = Some s → m ≤ length bs →
  bs !! k = Some blk → k ≤ m →
  ∃ s', direct_validateFunc verify idx s (message (Z.of_nat k)) = Some (s', true) ∧
    insert_all fresh ((λ b, (idx, b)) <$> take (Nat.max m (S k)) bs) = Some s'.
Proof using HZ numbered_blocks few_blocks window_pos idx_ok.
  intros Hs Hm Hk Hle. destruct (numbered_blocks k blk Hk) as [Hn Hsig].
  destruct (stored_prefix m Hm) as (s0 & E0 & Hmax). rewrite Hs in E0. injection E0 as <-.
  unfold message. rewrite Nat2Z.id, Hk, receive_signed by done.
  rewrite Hmax. cbn [mbind option_bind].
  pose proof (lookup_lt_Some _ _ _ Hk) as Hlt. rewrite Hn, wrap32_id by (unfold in_int32; lia).
  destruct (Z.leb_spec (Z.of_nat k) (Z.of_nat m - 1)) as [Hold|Hnew].
  - exists s. split; [done|]. by replace (Nat.max m (S k)) with m by lia.
  - assert (k = m) as -> by lia. replace (Nat.max m (S m)) with (S m) by lia.
    destruct (stored_prefix (S m)) as (s' & E' & _); [lia|].
    rewrite (take_S_r _ _ _ Hk), fmap_app, insert_all_app, Hs in E'. simpl in E'.
    destruct (insertBlockAndNotify s idx blk) as [s1|] eqn:Ei; [|done]. simpl in E'. injection E' as ->.
    exists s'. split; [done|]. rewrite (take_S_r _ _ _ Hk), fmap_app, insert_all_app, Hs. simpl. by rewrite Ei.
Qed.

Lemma relayed_stored r arr raws :
  carries arr raws → streams r arr → Forall (λ x : nat * Z, (x.2 < Z.of_nat (length bs))%Z) arr →
  ∃ s, direct_receive verify idx fresh raws = Some s ∧
    insert_all fresh ((λ b, (idx, b)) <$> take (furthest r arr) bs) = Some s ∧ furthest r arr ≤ length bs.
Proof using HZ numbered_blocks few_blocks window_pos idx_ok.
  induction 1 as [|arr raws x Hc IH|arr raws raw Hc IH Hj]; intros Hst Hlt.
  - exists fresh. assert (Hf : furthest r [] = 0).
    { apply Nat.le_antisymm; [|lia]. apply furthest_le. done. }
    rewrite Hf. split; [done|]. split; [done|lia].
  - inversion Hst as [Hnil|arr' g Hst' Hg Hmax Heq]; [by destruct arr|].
    apply app_inj_tail in Heq as [-> <-]. apply Forall_app in Hlt as [Hlt Hx].
    apply Forall_cons in Hx as [Hx _]. simpl in Hx.
    destruct (IH Hst' Hlt) as (s & E & Hs & Hle).
    destruct (lookup_lt_is_Some_2 bs (arrived arr g)) as [blk Hblk]; [lia|].
    destruct (receive_message s (furthest r arr) (arrived arr g) blk Hs Hle Hblk) as (s' & E' & Hs');
      [by apply furthest_ge|].
    exists s'. rewrite direct_receive_app, E. cbn [mbind option_bind direct_receive fst snd]. rewrite E'.
    split; [done|]. rewrite furthest_snoc by done. split; [done|lia].
  - destruct (IH Hst Hlt) as (s & E & Hs & Hle). exists s. rewrite direct_receive_app, E.
    cbn [mbind option_bind direct_receive]. unfold direct_validateFunc. by rewrite Hj.
Qed.

(** Direct replication.  A group has at most [f] faulty nodes; the sender sends to
    its first [f + 1] nodes, of which the faulty ones may stop relaying at any
    point and send messages that the check refuses, and the correct ones relay
    everything.  Whatever the interleaving in which the relays' messages reach
    a node, the node does not die and ends with every block stored, each once,
    in order and without gaps. *)
Theorem direct_replicates {A} (nodes : list A) (faulty : A → bool) arr raws :
  nodes ≠ [] → length (List.filter faulty nodes) ≤ direct_f (length nodes) →
  carries arr raws → streams (S (direct_f (length nodes))) arr →
  Forall (λ x : nat * Z, (x.2 < Z.of_nat (length bs))%Z) arr →
  (∀ rs i x, direct_receivers nodes = Some rs → rs !! i = Some x → faulty x = false → arrived arr i = length bs) →
  ∃ s, direct_receive verify idx fresh raws = Some s ∧
    insert_all fresh ((λ b, (idx, b)) <$> bs) = Some s.
Proof using HZ numbered_blocks few_blocks window_pos idx_ok.
  intros Hne Hf Hc Hst Hlt Hcorrect.
  destruct (relayed_stored _ arr raws Hc Hst Hlt) as (s & E & Hs & Hle). exists s. split; [done|].
  destruct (correct_relay nodes faulty Hne Hf) as (rs & Ers & Hlen & i & x & Hi & Hx).
  pose proof (Hcorrect rs i x Ers Hi Hx) as Harr. pose proof (lookup_lt_Some _ _ _ Hi) as Hilt.
  pose proof (furthest_ge (S (direct_f (length nodes))) arr i ltac:(lia)) as Hge.
  replace (furthest _ arr) with (length bs) in Hs by lia. by rewrite firstn_all in Hs.
Qed.

(** The sender: started at block 0 of a storage that holds the blocks, it sends
    every block, in order, and then waits. *)
Lemma sender_sends s k m :
  (∀ b, b < length bs → ∃ s', waitForBlock s idx (Z.of_nat b) = Returned s' (bs !! b)) →
  m + k ≤ length bs →
  sender_run k s idx (Z.of_nat m) = Some ((λ b, message (Z.of_nat b)) <$> seq m k).
Proof using numbered_blocks idx_ok.
  intros Hw. revert m. induction k as [|k IH]; intros m Hle; [done|]. cbn [sender_run]. unfold sender_step.
  destruct (Hw m) as [s' ->]; [lia|]. destruct (lookup_lt_is_Some_2 bs m) as [blk Hblk]; [lia|]. rewrite Hblk.
  destruct (numbered_blocks m blk Hblk) as [_ (_ & Hne & _)]. rewrite bool_decide_false by done.
  cbn [negb mbind option_bind fst snd]. replace (Z.of_nat m + 1)%Z with (Z.of_nat (S m)) by lia.
  rewrite IH by lia. simpl. unfold message at 2. by rewrite Nat2Z.id, Hblk.
Qed.

(** A relay that skips a block loses it: a node that is given block 1 before
    block 0 stores it and then takes block 0 for a repetition; whoever waits for
    block 0 gets the null pointer. *)
Theorem direct_gap_loses_block :
  1 < length bs →
  ∃ s s', direct_receive verify idx fresh [message 1; message 0] = Some s ∧
    waitForBlock s idx 0 = Returned s' None.
Proof using HZ numbered_blocks few_blocks window_pos idx_ok.
  intros Hlen. destruct (lookup_lt_is_Some_2 bs 0) as [b0 H0]; [lia|].
  destruct (lookup_lt_is_Some_2 bs 1) as [b1 H1]; [lia|].
  destruct (numbered_blocks _ _ H0) as [N0 S0], (numbered_blocks _ _ H1) as [N1 S1].
  assert (M0 : message 0 = (serializeToString b0).1) by (unfold message; change (Z.to_nat 0) with 0; by rewrite H0).
  assert (M1 : message 1 = (serializeToString b1).1) by (unfold message; change (Z.to_nat 1) with 1; by rewrite H1).
  assert (HF : newBlockFutexList fresh !! idx = Some (-1)%Z) by (simpl; by rewrite lookup_replicate_2).
  assert (HR : regions fresh !! idx = Some (mkMR w ∅)) by (simpl; by rewrite lookup_replicate_2).
  destruct (insert_preserves mr_ok _ fresh idx b1) as (s1 & E1 & Hok1 & Hcnt).
  { split; [unfold regionCount; simpl; by rewrite !length_replicate|]. by apply Forall_replicate. }
  pose proof E1 as Es. unfold insertBlockAndNotify in Es.
  rewrite bool_decide_false in Es by (unfold regionCount; simpl; rewrite length_replicate; lia).
  rewrite HR in Es. cbn in Es. rewrite lookup_empty, N1 in Es. injection Es as Es.
  assert (HF1 : newBlockFutexList s1 !! idx = Some 1%Z).
  { rewrite <-Es. simpl. rewrite list_lookup_insert_eq; [done|]. rewrite length_replicate. lia. }
  assert (HR1 : regions s1 !! idx = Some (mkMR w (delete (wrap64u (1 - w)) (<[1%Z := b1]> ∅)))).
  { rewrite <-Es. simpl. rewrite list_lookup_insert_eq; [done|]. rewrite length_replicate. lia. }
  exists s1. cbn [direct_receive]. rewrite M1, M0, receive_signed by done.
  unfold getMaxStoredBlockNumber at 1. rewrite HF, N1. cbn [mbind option_bind].
  change (wrap32 (Z.of_nat 1) <=? -1)%Z with false. cbn iota. rewrite E1. cbn [mbind option_bind fst].
  rewrite receive_signed by done. unfold getMaxStoredBlockNumber. rewrite HF1, N0. cbn [mbind option_bind].
  change (wrap32 (Z.of_nat 0) <=? 1)%Z with true. cbn iota. cbn [mbind option_bind fst].
  eexists. split; [done|]. unfold waitForBlock.
  rewrite bool_decide_false by (rewrite Hcnt; unfold regionCount; simpl; rewrite length_replicate; lia).
  rewrite HF1, HR1. change (1 <? wrap32 0)%Z with false. cbn. f_equal.
  apply lookup_delete_None. right. by rewrite lookup_insert_ne, lookup_empty.
Qed.
End node.

(** A sender that falls behind by more than the storage keeps stops for good: the
    storage answers the null pointer at once, which the loop takes for a spurious
    wake-up, so however many blocks [blks] the group has stored by then, no later
    round sends anything. *)
Theorem sender_overrun_stuck `{ZP : Zpp} w n r blks (next : nat) fuel :
  (0 < w < 2 ^ 31)%Z → r < n → (Z.of_nat (length blks) < 2 ^ 31)%Z →
  (∀ j blk, blks !! j = Some blk → number (header blk) = Z.of_nat j) →
  (Z.of_nat next + w < Z.of_nat (length blks))%Z →
  ∃ s, insert_all (newStorage (mkMR w ∅) n) ((λ b, (r, b)) <$> blks) = Some s ∧
    sender_run fuel s r (Z.of_nat next) = Some [].
Proof.
  intros Hw Hr Hlen Hnum Hlost.
  destruct (storage_window (newStorage (mkMR w ∅) n) w n r blks) as (s & Hs & Hold & _); [done..|].
  exists s. split; [done|]. destruct (Hold next) as [s' Hwait]; [lia|]. rewrite bool_decide_false in Hwait by lia.
  induction fuel as [|fuel IH]; [done|]. cbn [sender_run]. unfold sender_step. rewrite Hwait.
  cbn [mbind option_bind fst snd]. by rewrite IH.
Qed.

(** ** Witnesses *)

#[local] Existing Instance LE.zpp.
#[local] Existing Instance LE.zpp_laws.

Definition trusting (ski : string) (d : DigestString) (m : string) : option bool := Some true.

Definition direct_block (k : Z) : Block :=
  mkBlock (header (numbered k)) (mkBody []) (mkExecuteResult [] [])
    (mkMetadata [("r"%string, mkSignature "s" (vreplicate 64 0%Z))] []).

Definition direct_blocks : list Block := [direct_block 0; direct_block 1].

Lemma direct_blocks_signed j blk :
  direct_blocks !! j = Some blk → number (header blk) = Z.of_nat j ∧ signed_block trusting blk.
Proof.
  destruct j as [|[|j]]; simpl; intros H; try done; injection H as <-; (split; [done|]);
    (split; [ok_solve|]); (split; [done|]); vm_compute; lia.
Qed.

(** The first of two relays stops after block 0; a garbled message arrives. *)
Definition direct_arrivals : list (nat * Z) := (([] ++ [(0, 0%Z)]) ++ [(1, 0%Z)]) ++ [(1, 1%Z)].
Definition direct_raws : list string :=
  ((([] ++ [message direct_blocks 0]) ++ ["?"%string]) ++ [message direct_blocks 0]) ++ [message direct_blocks 1].

Lemma direct_replicates_witness :
  ∃ s, direct_receive trusting 1 (fresh 256 2) direct_raws = Some s ∧
    insert_all (fresh 256 2) ((λ b, (1, b)) <$> direct_blocks) = Some s.
Proof.
  apply (direct_replicates trusting direct_blocks direct_blocks_signed) with
    (nodes := [0; 1; 2; 3]) (faulty := λ n, bool_decide (n = 0)) (arr := direct_arrivals).
  - by vm_compute.
  - by vm_compute.
  - lia.
  - done.
  - by vm_compute; lia.
  - apply (carries_message _ _ _ _ (1, 1%Z)), (carries_message _ _ _ _ (1, 0%Z)), carries_junk; [|by vm_compute].
    apply (carries_message _ _ _ _ (0, 0%Z)), carries_nil.
  - repeat (apply (streams_snoc 2); [|vm_compute; lia|by vm_compute]). constructor.
  - repeat constructor.
  - intros rs i x [= <-]. destruct i as [|[|i]]; simpl; intros H; simplify_eq; done.
Defined.

Lemma sender_overrun_stuck_witness :
  ∃ s, insert_all (newStorage (mkMR 1 ∅) 1) ((λ b, (0, b)) <$> direct_blocks) = Some s ∧ sender_run 5 s 0 0 = Some [].
Proof.
  apply (sender_overrun_stuck 1 1 0 direct_blocks 0 5); [lia|lia|done| |done].
  intros j blk Hj. by apply direct_blocks_signed in Hj as [? _].
Defined.
