(* ===== verification/DirectReplicator.v ===== *)
(** * The replicators that send whole blocks

    include/peer/replicator/direct/direct_replicator.h and
    include/peer/replicator/multyway_only/multiway_replicator.h with the
    constructors they call (direct_block_sender.h, direct_block_receiver.h,
    multiway_block_sender.h): alternatives of the replicator of [Replicator] that
    do without the erasure code.  In the direct one the first node of a group
    sends to [f + 1] nodes of every other group; in the multiway one node [k]
    sends to node [k] of every other group.  Both receive in one way: a node
    repeats what comes from outside to its group and stores what the nodes of its
    group, itself included, repeat.

    Conventions are those of [Replicator]: hash maps that are iterated are
    association lists, [opens_client]/[opens_server] say whether a socket opens,
    and [None] is a null pointer, a false return value or the end of the process. *)

From S2P Require Import Prelude Zpp Proto RaftFSM ZmqPorts LRU Storage.
From S2P Require Import RoundBased BaselineOrders Fragments BFG BlockReceiver Replication Direct Replicator.

Open Scope Z_scope.

(** The two classes named [Replicator]. *)
Inductive ReplicatorType := DirectReplicator | MultiwayReplicator.

(** [direct::BlockReceiver] for one remote group: the port remote nodes send to,
    the port it repeats on, the nodes it listens to. *)
Record DirectReceiver := mkDR { dr_rfrPort : Z; dr_frPort : Z; dr_lfr : list InstanceConfig }.

(** What a started replicator has: where its sender sends, and its receivers. *)
Record Wiring := mkW { w_receivers : list InstanceConfig; w_regions : gmap Z DirectReceiver }.

Section wiring.
Context (opens_client : string → Z → bool) (opens_server : Z → bool).

(** ** Senders *)
Definition open_clients (cs : list InstanceConfig) : option (list InstanceConfig) :=
  if forallb (λ it, opens_client (pubAddr it) (port it)) cs then Some cs else None.

Definition direct_NewMRBlockSender (regionConfig : list (Z * list InstanceConfig)) (localRegionId : Z)
    : option (list InstanceConfig) :=
  CHECK bool_decide (localRegionId ∈ regionConfig.*1) ;;
  _receivers ← mapM (λ it, direct_receivers it.2) (filter (λ it, it.1 ≠ localRegionId) regionConfig);
  open_clients (concat _receivers).

(** The node of a group that node [k] sends to, if the group has it. *)
Definition multiway_receiver (k : Z) (nodes : list InstanceConfig) : option (list InstanceConfig) :=
  if Z.of_nat (length nodes) <? k + 1 then Some [] else
  x ← at_ nodes k;
  CHECK (nodeId (nodeConfig x) =? k) ;; Some [x].

Definition multiway_NewMRBlockSender (regionConfig : list (Z * list InstanceConfig)) (group k : Z)
    : option (list InstanceConfig) :=
  _receivers ← mapM (λ it, multiway_receiver k it.2) (filter (λ it, it.1 ≠ group) regionConfig);
  open_clients (concat _receivers).

(** ** Receivers *)
Definition direct_NewBlockReceiver (rfrPort : Z) (lfrConfigList : list InstanceConfig) (frPort : Z)
    : option DirectReceiver :=
  match lfrConfigList with
  | [] => None
  | n0 :: rest =>
      if (Z.min rfrPort frPort <=? 0) || (rfrPort =? frPort) || existsb (same_listener n0) rest then None else
      if forallb (λ it, opens_client (priAddr it) (port it)) lfrConfigList && opens_server rfrPort && opens_server frPort
      then Some (mkDR rfrPort frPort lfrConfigList)
      else None
  end.

Definition direct_NewMRBlockReceiver (me : NodeConfig) (frServerPorts rfrServerPorts : gmap Z Z)
    (regionConfig : gmap Z (list InstanceConfig)) : option (gmap Z DirectReceiver) :=
  build (λ g cfgs,
      let nodesConfig := filter (λ cfg, groupId (nodeConfig cfg) = groupId me) cfgs in
      if bool_decide (nodesConfig = []) then None else
      rfr ← rfrServerPorts !! g;
      fr ← frServerPorts !! g;
      direct_NewBlockReceiver rfr nodesConfig fr)
    (filter (λ it, it.1 ≠ groupId me) (map_to_list regionConfig)) ∅.

(** The receivers that run afterwards: those of the regions the storage has. *)
Definition direct_checkAndStartService (bccsp : bool) (regionCount localRegionId : Z) (regions : gmap Z DirectReceiver)
    : option (gmap Z DirectReceiver) :=
  if negb bccsp || (localRegionId =? -1) then None else
  let remote := filter (λ i, i ≠ localRegionId) (seqZ 0 regionCount) in
  if forallb (λ i, bool_decide (is_Some (regions !! i))) remote
  then Some (filter (λ it, it.1 ∈ remote) regions)
  else None.

(** ** The replicators *)
Section node.
Context (_nodeConfigs : list (Z * list NodeConfig)) (_localNodeConfig : NodeConfig).
(** The port tables, the number of regions of a storage that was set before, and
    whether a key provider was set. *)
Context (_zmqPortsConfig : option (gmap Z (list ZMQPortUtil))) (_localStorage : option Z) (_bccsp : bool).

Notation me := _localNodeConfig.

Definition direct_initStorage : Z := default (initStorage _nodeConfigs) _localStorage.

Definition direct_initMRBlockSender : option (list InstanceConfig) :=
  ports ← _zmqPortsConfig;
  cfgs ← remoteReceiverConfigs _nodeConfigs me ports;
  direct_NewMRBlockSender cfgs (groupId me).

Definition multiway_initMRBlockSender : option (list InstanceConfig) :=
  ports ← _zmqPortsConfig;
  cfgs ← remoteReceiverConfigs _nodeConfigs me ports;
  multiway_NewMRBlockSender cfgs (groupId me) (nodeId me).

(** The same in both, up to the guards of the direct one. *)
Definition multiway_initMRBlockReceiver : option (gmap Z DirectReceiver) :=
  ports ← _zmqPortsConfig;
  localZmqConfig ← node_util ports (groupId me) (nodeId me);
  frServerPorts ← getRemoteServicePorts localZmqConfig LOCAL_FRAGMENT_BROADCAST;
  rfrServerPorts ← getRemoteServicePorts localZmqConfig REMOTE_FRAGMENT_RECEIVE;
  nodes ← (list_to_map _nodeConfigs : gmap Z (list NodeConfig)) !! groupId me;
  cfgs ← localBroadcastConfigs me ports nodes;
  direct_NewMRBlockReceiver me frServerPorts rfrServerPorts cfgs.

Definition direct_initMRBlockReceiver : option (gmap Z DirectReceiver) :=
  if negb _bccsp || bool_decide (_nodeConfigs = []) || bool_decide (_zmqPortsConfig = None) then None
  else multiway_initMRBlockReceiver.

Definition direct_initialize : option (gmap Z DirectReceiver) :=
  if bool_decide (_nodeConfigs = []) then None else direct_initMRBlockReceiver.

(** Only the first node of a group sends. *)
Definition direct_startSender : option (list InstanceConfig) :=
  if negb (nodeId me =? 0) then Some [] else direct_initMRBlockSender.

(** [initialize], [startReceiver] and [startSender], in the order of use. *)
Definition start_wiring (v : ReplicatorType) : option Wiring :=
  receiver ← match v with
             | DirectReplicator => direct_initialize
             | MultiwayReplicator => multiway_initMRBlockReceiver
             end;
  regions ← direct_checkAndStartService _bccsp direct_initStorage (groupId me) receiver;
  sender ← match v with
           | DirectReplicator => direct_startSender
           | MultiwayReplicator => multiway_initMRBlockSender
           end;
  Some (mkW sender regions).
End node.
End wiring.

(** A loop over the groups but one, each with its list of connections. *)
Lemma mapM_keys {V W X} (h : Z * V → W) (f : Z * W → option X) (r : Z * V → X) (g : Z) (ns : list (Z * V)) :
  (∀ it, it ∈ ns → f (it.1, h it) = Some (r it)) →
  mapM f (filter (λ it, it.1 ≠ g) ((λ it, (it.1, h it)) <$> ns)) = Some (r <$> filter (λ it, it.1 ≠ g) ns).
Proof.
  induction ns as [|it ns IH]; intros Hf; [done|]. specialize (IH ltac:(set_solver)). cbn [fmap list_fmap].
  destruct (decide (it.1 = g)) as [E|E].
  - rewrite !filter_cons_False by (cbn; tauto). exact IH.
  - rewrite !filter_cons_True by done. cbn [mapM fmap list_fmap]. rewrite Hf by set_solver.
    cbn [mbind option_bind]. rewrite IH. done.
Qed.

(** ** One node of a deployment *)

(** Which nodes of a group of [m] a node [k] sends to. *)
Definition picks (v : ReplicatorType) (k m i : nat) : Prop :=
  match v with
  | DirectReplicator => k = 0%nat ∧ (i < direct_f m + 1)%nat
  | MultiwayReplicator => k = i
  end.

Section deployed.
Context {nodes : list (Z * list NodeConfig)} {counts : list Z} {offset : Z} {distributed : bool}
        {ports : gmap Z (list ZMQPortUtil)} (D : deployment nodes counts offset distributed ports).
Context (opens_client : string → Z → bool) (opens_server : Z → bool).
Hypothesis Hclient : ∀ a p, opens_client a p = true.
Hypothesis Hserver : ∀ p, opens_server p = true.
Notation G := (Z.of_nat (length counts)).
Notation rport := (remote_port counts offset distributed).
Notation relays := (relays (counts := counts) (offset := offset) (distributed := distributed)).
Notation remote_instances := (remote_instances (counts := counts) (offset := offset) (distributed := distributed)).

Context (g : Z) (l : list NodeConfig) (k : nat) (me : NodeConfig).
Hypothesis Hg : (g, l) ∈ nodes.
Hypothesis Hk : l !! k = Some me.

Lemma open_all cs : open_clients opens_client cs = Some cs.
Proof using Hclient. unfold open_clients. rewrite (proj2 (forallb_forall _ _)); [done|]. intros; apply Hclient. Qed.

(** The receiver of this node for group [i]. *)
Definition direct_receiver_of (i : Z) : DirectReceiver :=
  mkDR (rport g (Z.of_nat k) 1 i) (rport g (Z.of_nat k) 0 i) (relays g l i).

Lemma direct_new_receiver i :
  0 <= i < G →
  direct_NewBlockReceiver opens_client opens_server (rport g (Z.of_nat k) 1 i) (relays g l i) (rport g (Z.of_nat k) 0 i) =
    Some (direct_receiver_of i).
Proof using D Hg Hk Hclient Hserver.
  intros Hi. pose proof (dep_counts_nonneg D) as Hnn. pose proof (dep_node D g l k me Hg Hk) as Hno.
  pose proof (remote_port_facts _ _ _ g _ Hnn (dep_offset _ _ _ _ _ D) (dep_fits _ _ _ _ _ D) Hno) as Hr.
  pose proof (Hr 0 i ltac:(lia) Hi). pose proof (Hr 1 i ltac:(lia) Hi).
  pose proof (remote_port_services counts offset distributed g (Z.of_nat k) i Hnn Hno Hi).
  unfold direct_NewBlockReceiver, direct_receiver_of. destruct (relays g l i) as [|n0 rest] eqn:E.
  { pose proof (relays_lookup (counts := counts) (offset := offset) (distributed := distributed) g l i k) as E'. rewrite E, Hk in E'. done. }
  rewrite (proj2 (Z.leb_gt _ _)), (proj2 (Z.eqb_neq _ _)) by lia. cbn [orb].
  rewrite (distinct_listeners D g l Hg i n0 rest E), !Hserver, !andb_true_r.
  rewrite (proj2 (forallb_forall _ _)); [done|]. intros; apply Hclient.
Qed.

Lemma direct_receivers_built fr rfr bc :
  (∀ i, fr !! i = if bool_decide (0 <= i < G) then Some (rport g (Z.of_nat k) 0 i) else None) →
  (∀ i, rfr !! i = if bool_decide (0 <= i < G) then Some (rport g (Z.of_nat k) 1 i) else None) →
  (∀ i, bc !! i = if bool_decide (0 <= i < G ∧ l ≠ []) then Some (relays g l i) else None) →
  ∃ m, direct_NewMRBlockReceiver opens_client opens_server me fr rfr bc = Some m ∧
    ∀ i, 0 <= i < G → i ≠ g → m !! i = Some (direct_receiver_of i).
Proof using D Hg Hk Hclient Hserver.
  intros Hfr Hrfr Hbc. unfold direct_NewMRBlockReceiver. rewrite (me_group D g l k me Hg Hk).
  assert (l ≠ []) as Hne by (intros ->; done).
  set (f := λ (g0 : Z) (cfgs : list InstanceConfig), if bool_decide _ then None else _).
  assert (∀ i, 0 <= i < G → f i (relays g l i) = Some (direct_receiver_of i)) as Hf.
  { intros i Hi. unfold f. rewrite (relays_group D g l Hg), bool_decide_false.
    - rewrite Hrfr, Hfr, !bool_decide_true by done. cbn [mbind option_bind]. by apply direct_new_receiver.
    - intros E. pose proof (relays_lookup (counts := counts) (offset := offset) (distributed := distributed) g l i k) as E'.
      by rewrite E, Hk in E'. }
  destruct (build_spec f (filter (λ it : Z * list InstanceConfig, it.1 ≠ g) (map_to_list bc)) ∅) as (m & -> & Hm & _).
  { apply filter_keys, NoDup_fst_map_to_list. }
  { intros i cs [_ Hi%elem_of_map_to_list]%list_elem_of_filter. rewrite Hbc in Hi. case_bool_decide; [|done].
    simplify_eq. rewrite Hf by tauto. by eexists. }
  exists m. split; [done|]. intros i Hi Hn. rewrite (Hm i (relays g l i)); [by apply Hf|].
  apply list_elem_of_filter. split; [done|]. apply elem_of_map_to_list. rewrite Hbc. by rewrite bool_decide_true.
Qed.

Lemma receivers_started :
  ∃ m, multiway_initMRBlockReceiver opens_client opens_server nodes me (Some ports) = Some m ∧
    ∃ m', direct_checkAndStartService true (direct_initStorage nodes None) g m = Some m' ∧
      ∀ i, 0 <= i < G → i ≠ g → m' !! i = Some (direct_receiver_of i).
Proof using D Hg Hk Hclient Hserver.
  pose proof (groups_pos D g l Hg) as Hpos.
  unfold multiway_initMRBlockReceiver. cbn [mbind option_bind].
  rewrite (me_group D g l k me Hg Hk), (me_id D g l k me Hg Hk).
  destruct (dep_ports _ _ _ _ _ D g (Z.of_nat k)) as (u & -> & Hu); [by eapply (dep_node D)|]. cbn [mbind option_bind].
  destruct (remote_ports_map _ _ _ _ _ _ LOCAL_FRAGMENT_BROADCAST 0 Hpos Hu eq_refl ltac:(lia)) as (fr & -> & Hfr).
  destruct (remote_ports_map _ _ _ _ _ _ REMOTE_FRAGMENT_RECEIVE 1 Hpos Hu eq_refl ltac:(lia)) as (rfr & -> & Hrfr).
  cbn [mbind option_bind]. rewrite (proj1 (elem_of_list_to_map (M := gmap Z) nodes g l (dep_keys D)) Hg).
  cbn [mbind option_bind]. destruct (broadcast_configs D g l k me Hg Hk l) as (bc & -> & Hbc); [done|].
  cbn [mbind option_bind]. destruct (direct_receivers_built fr rfr bc) as (m & -> & Hm); [done..|].
  exists m. split; [done|]. unfold direct_checkAndStartService, direct_initStorage. cbn [default negb orb].
  rewrite (storage_regions D g l Hg). pose proof (dep_range D g l Hg) as Hr.
  rewrite (proj2 (Z.eqb_neq _ _)) by lia. rewrite (proj2 (forallb_forall _ _)).
  - eexists. split; [done|]. intros i Hi Hne. apply map_lookup_filter_Some. split; [by apply Hm|].
    apply list_elem_of_filter. split; [done|]. apply elem_of_seqZ. cbn. lia.
  - intros i [Hne Hi%elem_of_seqZ]%list_elem_of_In%list_elem_of_filter. apply bool_decide_eq_true.
    rewrite Hm by (done || lia). by eexists.
Qed.

(** The connections to group [g']. *)
Definition chosen (v : ReplicatorType) (it : Z * list NodeConfig) : list InstanceConfig :=
  match v with
  | DirectReplicator => take (direct_f (length it.2) + 1) (remote_instances g it.1 it.2)
  | MultiwayReplicator => option_list (remote_instances g it.1 it.2 !! k)
  end.

Lemma instances_lookup g' l' i :
  remote_instances g g' l' !! i = (λ n, mkInstance n (rport g' (Z.of_nat i) 1 g)) <$> l' !! i.
Proof using. apply list_lookup_imap. Qed.

Lemma instances_length g' l' : length (remote_instances g g' l') = length l'.
Proof using. apply length_imap. Qed.

Lemma chosen_receivers v it :
  (v = DirectReplicator → k = 0%nat) → it ∈ nodes →
  match v with
  | DirectReplicator => direct_receivers (remote_instances g it.1 it.2)
  | MultiwayReplicator => multiway_receiver (Z.of_nat k) (remote_instances g it.1 it.2)
  end = Some (chosen v it).
Proof using D.
  intros Hv Hit. destruct it as [g' l']. destruct v; cbn [chosen fst snd].
  - unfold direct_receivers. rewrite instances_length.
    assert (l' ≠ []) as Hne. { pose proof (dep_size D g' l' Hit). by destruct l'; [cbn in *; lia|]. }
    pose proof (direct_f_lt l' Hne). rewrite bool_decide_true by lia. done.
  - unfold multiway_receiver. rewrite instances_length. destruct (Z.ltb_spec (Z.of_nat (length l')) (Z.of_nat k + 1)).
    + rewrite instances_lookup, lookup_ge_None_2 by lia. done.
    + destruct (lookup_lt_is_Some_2 l' k) as [n Hn]; [lia|]. unfold at_.
      rewrite (proj2 (Z.ltb_ge _ _)), Nat2Z.id, instances_lookup, Hn by lia. cbn [fmap option_fmap option_map mbind option_bind nodeConfig].
      destruct (dep_ids _ _ _ _ _ D g' l' k n Hit Hn) as [_ ->]. by rewrite Z.eqb_refl.
Qed.

Lemma chosen_elem v g' l' c :
  (v = DirectReplicator → k = 0%nat) →
  c ∈ chosen v (g', l') ↔
    ∃ i n, l' !! i = Some n ∧ picks v k (length l') i ∧ c = mkInstance n (rport g' (Z.of_nat i) 1 g).
Proof using.
  intros Hv. destruct v; cbn [chosen fst snd picks].
  - rewrite list_elem_of_lookup. split.
    + intros (i & [Hi Hlt]%lookup_take_Some). rewrite instances_lookup in Hi.
      destruct (l' !! i) as [n|] eqn:En; [|done]. cbn in Hi. simplify_eq. exists i, n. by rewrite Hv.
    + intros (i & n & Hn & [_ Hlt] & ->). exists i. apply lookup_take_Some. split; [|lia]. by rewrite instances_lookup, Hn.
  - rewrite instances_lookup. destruct (l' !! k) as [n|] eqn:En; simpl.
    + rewrite list_elem_of_singleton. split; [intros ->; eauto 10|]. intros (i & n' & Hn & <- & ->). congruence.
    + split; [by intros ?%not_elem_of_nil|]. intros (i & n & Hn & <- & _). congruence.
Qed.

Lemma sender_started v :
  ∃ cs, match v with
        | DirectReplicator => direct_startSender opens_client nodes me (Some ports)
        | MultiwayReplicator => multiway_initMRBlockSender opens_client nodes me (Some ports)
        end = Some cs ∧
    ∀ c, c ∈ cs ↔ ∃ g' l' i n, (g', l') ∈ nodes ∧ g' ≠ g ∧ l' !! i = Some n ∧ picks v k (length l') i ∧
      c = mkInstance n (rport g' (Z.of_nat i) 1 g).
Proof using D Hg Hk Hclient.
  pose proof (remote_configs D g l k me Hg Hk) as Hcfg.
  set (cfgs := (λ it : Z * list NodeConfig, (it.1, remote_instances g it.1 it.2)) <$> nodes) in Hcfg.
  assert (∀ v, (v = DirectReplicator → k = 0%nat) →
    mapM (λ it, match v with
                | DirectReplicator => direct_receivers it.2
                | MultiwayReplicator => multiway_receiver (Z.of_nat k) it.2
                end) (filter (λ it, it.1 ≠ g) cfgs) =
      Some (chosen v <$> filter (λ it, it.1 ≠ g) nodes)) as Hmap.
  { intros v' Hv. apply mapM_keys. intros it Hin. cbn [snd]. by apply chosen_receivers. }
  assert (∀ v, (v = DirectReplicator → k = 0%nat) → ∀ c,
    c ∈ concat (chosen v <$> filter (λ it, it.1 ≠ g) nodes) ↔
    ∃ g' l' i n, (g', l') ∈ nodes ∧ g' ≠ g ∧ l' !! i = Some n ∧ picks v k (length l') i ∧
      c = mkInstance n (rport g' (Z.of_nat i) 1 g)) as Helem.
  { intros v' Hv c. rewrite concat_fmap_elem. split.
    - intros ([g' l'] & [Hne Hin]%list_elem_of_filter & (i & n & ?)%chosen_elem); [|done]. eauto 10.
    - intros (g' & l' & i & n & Hin & Hne & H). exists (g', l'). split; [by apply list_elem_of_filter|].
      apply chosen_elem; eauto. }
  destruct v.
  - unfold direct_startSender. rewrite (me_id D g l k me Hg Hk). destruct (Z.eqb_spec (Z.of_nat k) 0) as [Hz|Hz]; cbn [negb].
    + assert (k = 0%nat) as Hk0 by lia. unfold direct_initMRBlockSender. cbn [mbind option_bind]. rewrite Hcfg.
      cbn [mbind option_bind]. unfold direct_NewMRBlockSender. rewrite (me_group D g l k me Hg Hk), bool_decide_true.
      * rewrite (Hmap DirectReplicator) by done. cbn [mbind option_bind]. rewrite open_all. eexists. split; [done|]. by apply Helem.
      * unfold cfgs. rewrite <-list_fmap_compose. apply list_elem_of_fmap. by exists (g, l).
    + exists []. split; [done|]. intros c. split; [by intros ?%not_elem_of_nil|].
      intros (g' & l' & i & n & _ & _ & _ & [-> _] & _). lia.
  - unfold multiway_initMRBlockSender. cbn [mbind option_bind]. rewrite Hcfg. cbn [mbind option_bind].
    unfold multiway_NewMRBlockSender. rewrite (me_group D g l k me Hg Hk), (me_id D g l k me Hg Hk).
    rewrite (Hmap MultiwayReplicator) by done. cbn [mbind option_bind]. rewrite open_all. eexists. split; [done|]. by apply Helem.
Qed.

(** The node comes up. *)
Lemma wiring_started v :
  ∃ w, start_wiring opens_client opens_server nodes me (Some ports) None true v = Some w ∧
    (∀ c, c ∈ w_receivers w ↔ ∃ g' l' i n, (g', l') ∈ nodes ∧ g' ≠ g ∧ l' !! i = Some n ∧ picks v k (length l') i ∧
      c = mkInstance n (rport g' (Z.of_nat i) 1 g)) ∧
    ∀ i, 0 <= i < G → i ≠ g → w_regions w !! i = Some (direct_receiver_of i).
Proof using D Hg Hk Hclient Hserver.
  destruct receivers_started as (m & Hm & m' & Hm' & Hr). destruct (sender_started v) as (cs & Hcs & Hc).
  unfold start_wiring. rewrite (me_group D g l k me Hg Hk).
  assert (match v with
          | DirectReplicator => direct_initialize opens_client opens_server nodes me (Some ports) true
          | MultiwayReplicator => multiway_initMRBlockReceiver opens_client opens_server nodes me (Some ports)
          end = Some m) as ->.
  { destruct v; [|done]. unfold direct_initialize, direct_initMRBlockReceiver.
    assert (nodes ≠ []) as Hn by (intros E; rewrite E in Hg; by apply not_elem_of_nil in Hg).
    rewrite !(bool_decide_false (nodes = [])), bool_decide_false by done. done. }
  cbn [mbind option_bind]. rewrite Hm'. cbn [mbind option_bind]. rewrite Hcs. cbn [mbind option_bind].
  eexists. split; [done|]. by split.
Qed.
End deployed.


(** ** All nodes of a deployment *)
Section system.
Context (opens_client : string → Z → bool) (opens_server : Z → bool) (nodes : list (Z * list NodeConfig))
        (ports : gmap Z (list ZMQPortUtil)) (v : ReplicatorType).

(** The replicator of node [k] of group [g] and its receiver from a group. *)
Definition wiring (g : Z) (k : nat) : option Wiring :=
  l ← (list_to_map nodes : gmap Z (list NodeConfig)) !! g; me ← l !! k;
  start_wiring opens_client opens_server nodes me (Some ports) None true v.
Definition receives (g : Z) (k : nat) (from : Z) : option DirectReceiver := w ← wiring g k; w_regions w !! from.

(** Where node [k] of [g] sends the blocks for the nodes of [g']. *)
Definition links (g : Z) (k : nat) (g' : Z) : list (string * Z) :=
  match wiring g k with
  | Some w => (λ c, (pubAddr c, port c)) <$> filter (λ c, groupId (nodeConfig c) = g') (w_receivers w)
  | None => []
  end.

(** Node [i] of [g'] listens to [g] where node [k] of [g] sends. *)
Definition connects (g : Z) (k : nat) (g' : Z) (l' : list NodeConfig) (i : nat) : bool :=
  match l' !! i, receives g' i g with
  | Some n, Some r => bool_decide ((pubIp n, dr_rfrPort r) ∈ links g k g')
  | _, _ => false
  end.

Context {counts : list Z} {offset : Z} {distributed : bool} (D : deployment nodes counts offset distributed ports).
Context (Hclient : ∀ a p, opens_client a p = true) (Hserver : ∀ p, opens_server p = true).
Notation rport := (remote_port counts offset distributed).

Lemma wiring_spec g l k me :
  (g, l) ∈ nodes → l !! k = Some me →
  ∃ w, wiring g k = Some w ∧
    (∀ c, c ∈ w_receivers w ↔ ∃ g' l' i n, (g', l') ∈ nodes ∧ g' ≠ g ∧ l' !! i = Some n ∧ picks v k (length l') i ∧
      c = mkInstance n (rport g' (Z.of_nat i) 1 g)) ∧
    ∀ g' l', (g', l') ∈ nodes → g' ≠ g →
      w_regions w !! g' = Some (direct_receiver_of (counts := counts) (offset := offset) (distributed := distributed) g l k g').
Proof using D Hclient Hserver.
  intros Hg Hk. destruct (wiring_started D opens_client opens_server Hclient Hserver g l k me Hg Hk v) as (w & E & Hc & Hr).
  exists w. unfold wiring. rewrite (proj1 (elem_of_list_to_map (M := gmap Z) nodes g l (dep_keys D)) Hg).
  cbn [mbind option_bind]. rewrite Hk. split_and!; [exact E|exact Hc|].
  intros g' l' Hl' Hne. apply Hr; [by eapply (dep_range D)|done].
Qed.

Lemma receives_spec g l k me g' l' :
  (g, l) ∈ nodes → l !! k = Some me → (g', l') ∈ nodes → g' ≠ g →
  receives g k g' = Some (direct_receiver_of (counts := counts) (offset := offset) (distributed := distributed) g l k g').
Proof using D Hclient Hserver.
  intros Hg Hk Hg' Hne. destruct (wiring_spec g l k me Hg Hk) as (w & E & _ & Hr). unfold receives. rewrite E.
  by eapply Hr.
Qed.

Lemma connects_iff g l k g' l' i :
  (g, l) ∈ nodes → (g', l') ∈ nodes → g' ≠ g → (k < length l)%nat → (i < length l')%nat →
  connects g k g' l' i = true ↔ picks v k (length l') i.
Proof using D Hclient Hserver.
  intros Hg Hg' Hne [me Hk]%lookup_lt_is_Some_2 [n Hn]%lookup_lt_is_Some_2.
  destruct (wiring_spec g l k me Hg Hk) as (w & E & Hc & _). unfold connects, links. rewrite Hn, E.
  rewrite (receives_spec g' l' i n g l Hg' Hn Hg) by done. cbn [direct_receiver_of dr_rfrPort].
  rewrite bool_decide_eq_true, list_elem_of_fmap. split.
  - intros (c & Heq & [Hgrp (g'' & l'' & i' & n' & Hin & _ & Hn' & Hp & ->)%Hc]%list_elem_of_filter).
    unfold pubAddr in Heq. cbn [nodeConfig port] in *.
    destruct (dep_ids _ _ _ _ _ D g'' l'' i' n' Hin Hn') as [Hgid _]. rewrite Hgid in Hgrp. subst g''.
    rewrite (dep_unique D g' l'' l' Hin Hg') in Hn', Hp. apply pair_eq in Heq as [Hip Hport].
    assert (i = i') as ->; [|done]. destruct (decide (distributed = true)) as [Ed|Ed%not_true_is_false].
    + destruct (dep_addr _ _ _ _ _ D Ed g' l' Hg') as [_ Hnd].
      apply (NoDup_lookup _ _ _ (pubIp n) Hnd); rewrite list_lookup_fmap; [rewrite Hn|rewrite Hn']; cbn; congruence.
    + rewrite Ed in Hport. apply remote_port_inj in Hport; [lia|]. pose proof (dep_range D g l Hg). lia.
  - intros Hp. exists (mkInstance n (rport g' (Z.of_nat i) 1 g)). split; [done|]. apply list_elem_of_filter.
    split; [by destruct (dep_ids _ _ _ _ _ D g' l' i n Hg' Hn)|]. apply Hc. eauto 10.
Qed.



(** ** The blocks of a group on their way to another *)
Context `{ZP : Zpp} `{HZ : !ZppLaws ZP} (verify : string → DigestString → string → option bool).
Context (bs : list Block) (store : nat → Storage MRRegion).

(** What the nodes of [g] that are not in [bad] send to where node [i] of [g']
    listens; [store k] is the storage of node [k]. *)
Definition inbox (g : Z) (l : list NodeConfig) (g' : Z) (l' : list NodeConfig) (bad : list nat) (i : nat) : list string :=
  filter (λ k, k ∉ bad ∧ connects g k g' l' i = true) (seq 0 (length l)) ≫=
    λ k, default [] (sender_run (length bs) (store k) (Z.to_nat g) 0).



(** Faults that are not covered stop replication although no group has more than
    [f]: without the first node of a group the direct replicator sends nothing,
    and to a group with at most [f] nodes the multiway one sends nothing when
    the first nodes of the sending group are silent. *)
Theorem faults_starve g l g' l' :
  (g, l) ∈ nodes → (g', l') ∈ nodes → g' ≠ g → (0 < direct_f (length l))%nat →
  (v = MultiwayReplicator → (length l' ≤ direct_f (length l))%nat) →
  ∃ badLocal, (length badLocal ≤ direct_f (length l))%nat ∧
    ∀ i, (i < length l')%nat → inbox g l g' l' badLocal i = [].
Proof using D Hclient Hserver.
  clear HZ. intros Hg Hg' Hne Hf Hv.
  assert (∃ badLocal, (length badLocal ≤ direct_f (length l))%nat ∧
    ∀ k i, (i < length l')%nat → k ∉ badLocal → ¬ picks v k (length l') i) as (bad & Hlen & Hno).
  { destruct v.
    - exists [0%nat]. split; [cbn; lia|]. intros k i _ Hb [-> _]. set_solver.
    - exists (seq 0 (length l')). split; [rewrite length_seq; by apply Hv|]. intros k i Hi Hb <-.
      apply Hb, elem_of_seq. lia. }
  exists bad. split; [done|]. intros i Hi. unfold inbox.
  assert (filter (λ k, k ∉ bad ∧ connects g k g' l' i = true) (seq 0 (length l)) = []) as ->; [|done].
  apply elem_of_nil_inv. intros k [[Hb Hc] Hk%elem_of_seq]%list_elem_of_filter.
  apply (Hno k i Hi Hb), (connects_iff g l k g' l' i Hg Hg' Hne); [lia|done..].
Qed.
End system.

(** ** Two groups of four on one host *)
#[local] Existing Instance LE.zpp.
#[local] Existing Instance LE.zpp_laws.






