(* ===== verification/PbftService.v ===== *)
(** * PbftService: the group's engine and the state machine it drives

    The BFT engine of a group is a program of its own that calls a node through
    RPC.  Here are the service it calls (common/pbft/pbft_rpc_service.h), the
    controller that puts service, state machine ([LocalConsensus]) and storage
    together (peer/consensus/pbft/local_consensus_controller.h), the switching of
    roles of the request replicator (request_replicator.h), and the controller
    that starts the engine (bft_instance_controller.h, single_pbft_controller.h).

    [None] is the end of the process: an exception nothing catches, a failed
    [CHECK], a null pointer.  Protobuf's parsers are parameters; of the keys of
    the node, [sign ski] signs with the private key stored under [ski]. *)

From S2P Require Import Prelude Zpp Proto Decimal Storage RaftFSM ZmqPorts Merkle ProofGenerator.
From S2P Require Import LocalConsensus RequestReplicator BlockReceiver Replication Direct.

Open Scope Z_scope.

(** ** Messages of the service (proto/pbft_connection.proto) *)

Record RPCRequest := mkRequest { localid : Z; sequence : Z; rq_payload : string }.
Record DeliverRequest := mkDeliver { d_localid : Z; d_sequence : Z; proposevalue : string; contents : list string; signatures : list string }.
Record LeaderChangeRequest := mkChange { lc_localid : Z; lc_sequence : Z; newleaderid : Z }.

(** [success] is a required field: a response without it is not sent. *)
Record RPCResponse := mkResponse { success : option bool; rs_payload : option string }.

Definition refused : RPCResponse := mkResponse (Some false) None.
Definition accepted : RPCResponse := mkResponse (Some true) None.

(** The messages of proto/pbft_message.proto as protobuf reads and writes them:
    the field [message] of a proposal, the field [content] of a TOM message. *)
Class Protobuf := {
  ParseProposal : string → option string;
  ParseTOMMessage : string → option string;
  SerializeProposal : string → string;
  SerializeTOMMessage : string → string
}.

Class ProtobufLaws (PB : Protobuf) : Prop := {
  proposal_roundtrip m : ParseProposal (SerializeProposal m) = Some m;
  tom_roundtrip m : ParseTOMMessage (SerializeTOMMessage m) = Some m
}.

(** ** The roles of the request replicator *)

(** Where the leader's sockets are bound (users, followers), and the leader the
    follower thread listens to. *)
Record Roles := mkRoles { leading : option (Z * Z); following : option (string * Z) }.

Definition startLeader (userPort leaderPort : Z) (r : Roles) : Roles := mkRoles (Some (userPort, leaderPort)) (following r).
Definition startFollower (leaderIp : string) (leaderPort : Z) (r : Roles) : Roles := mkRoles (leading r) (Some (leaderIp, leaderPort)).

(** ** The controller *)

Record Config := mkConfig {
  targetNodes : list InstanceConfig; localId : Z; userRequestPort : Z; timeoutMs : Z; maxBatchSize : Z }.

Definition getNodeInfo (c : Config) (id : Z) : option InstanceConfig :=
  List.find (λ it, nodeId (nodeConfig it) =? id) (targetNodes c).

Record Controller (C : Type) := mkController {
  _config : Config;
  _localNodes : list NodeConfig;
  _replicator : LocalConsensus.Node;
  _roles : Roles;
  _storage : Storage C;
  _userCollectorAddr : list InstanceConfig;
  rpcServerPort : Z }.
Arguments mkController {C}. Arguments _config {C}. Arguments _localNodes {C}. Arguments _replicator {C}.
Arguments _roles {C}. Arguments _storage {C}. Arguments _userCollectorAddr {C}. Arguments rpcServerPort {C}.

Section service.
Context `{ZP : Zpp} `{PB : Protobuf} {C : Type} `{BC : BlockContainer C} (sha : string → HashString).
Context (sign : string → string → option DigestString) (verifySig : SignatureString → HashString → bool).

Definition set_replicator (c : Controller C) (n : LocalConsensus.Node) : Controller C :=
  mkController (_config c) (_localNodes c) n (_roles c) (_storage c) (_userCollectorAddr c) (rpcServerPort c).
Definition set_roles (c : Controller C) (r : Roles) : Controller C :=
  mkController (_config c) (_localNodes c) (_replicator c) r (_storage c) (_userCollectorAddr c) (rpcServerPort c).
Definition set_storage (c : Controller C) (s : Storage C) : Controller C :=
  mkController (_config c) (_localNodes c) (_replicator c) (_roles c) s (_userCollectorAddr c) (rpcServerPort c).

(** *** The handlers *)

(** The guard of the handlers: ids past the end are refused; [at] throws for
    negative ones. *)
Definition with_node (c : Controller C) (id : Z) (wrong : RPCResponse) (k : NodeConfig → option (Controller C * RPCResponse))
    : option (Controller C * RPCResponse) :=
  if Z.of_nat (length (_localNodes c)) <=? id then Some (c, wrong) else node ← at_ (_localNodes c) id; k node.

Definition requestProposal (c : Controller C) (request : RPCRequest) : option (Controller C * RPCResponse) :=
  with_node c (localid request) refused (λ node,
    match OnRequestProposal sha (ski node) (sign (ski node)) (_replicator c) with
    | (n, None) => Some (set_replicator c n, refused)
    | (n, Some blockHeader) => Some (set_replicator c n, mkResponse (Some true) (Some blockHeader))
    end).

Definition verifyProposal (c : Controller C) (request : RPCRequest) : option (Controller C * RPCResponse) :=
  with_node c (localid request) refused (λ node,
    match OnVerifyProposal sha (ski node) (sign (ski node)) (_replicator c) (rq_payload request) with
    | (n, false) => Some (set_replicator c n, refused)
    | (n, true) => Some (set_replicator c n, accepted)
    end).

Definition c_sigpair : codec SignaturePair := seq_codec c_sv c_signature.

Definition signProposal (c : Controller C) (request : RPCRequest) : option (Controller C * RPCResponse) :=
  with_node c (localid request) refused (λ node,
    match OnSignProposal (_replicator c) with
    | (n, None) => Some (set_replicator c n, refused)
    | (n, Some signature) => Some (set_replicator c n, mkResponse (Some true) (Some (out c_sigpair signature)))
    end).

(** The callback of the state machine: a delivered block goes to the storage. *)
Definition deliverCallback (c : Controller C) (block : Block) (node : NodeConfig) : option (Controller C) :=
  if groupId node <? 0 then None else
  s ← insertBlockAndNotify (_storage c) (Z.to_nat (groupId node)) block; Some (set_storage c s).

(** The signatures, one for each content; [None] in the result: one cannot be
    read. *)
Fixpoint read_signatures (n : nat) (l : list string) : option (option (list SignaturePair)) :=
  match n with
  | O => Some (Some [])
  | S n =>
      s ← head l;
      match read c_sigpair s with
      | None => Some None
      | Some p => r ← read_signatures n (tail l); Some (option_map (cons p) r)
      end
  end.

Definition deliver (c : Controller C) (request : DeliverRequest) : option (Controller C * RPCResponse) :=
  match ParseProposal (proposevalue request) with
  | None => Some (c, refused)
  | Some message =>
      match ParseTOMMessage message with
      | None => Some (c, refused)
      | Some content =>
          consensusSignatures ← read_signatures (length (contents request)) (signatures request);
          match consensusSignatures with
          | None => Some (c, refused)
          | Some sigs =>
              node ← at_ (_localNodes c) (d_localid request);
              '(n, ok) ← OnDeliver (_replicator c) content sigs;
              if (ok : bool) then
                block ← last (log n);
                c ← deliverCallback c block node;
                Some (set_replicator c n, accepted)
              else Some (c, refused)
          end
      end
  end.

Definition leaderStart (c : Controller C) (request : RPCRequest) : option (Controller C * RPCResponse) :=
  with_node c (localid request) (mkResponse None None) (λ node,
    portInfo ← getNodeInfo (_config c) (nodeId node);
    Some (set_roles (set_replicator c (OnLeaderStart (_replicator c)))
            (startLeader (userRequestPort (_config c)) (port portInfo) (_roles c)), accepted)).

Definition leaderChange (c : Controller C) (request : LeaderChangeRequest) : option (Controller C * RPCResponse) :=
  let size := Z.of_nat (length (_localNodes c)) in
  if (size <=? lc_localid request) || (size <=? newleaderid request) then Some (c, mkResponse None None) else
  node ← at_ (_localNodes c) (lc_localid request);
  newLeaderNode ← at_ (_localNodes c) (newleaderid request);
  portInfo ← getNodeInfo (_config c) (nodeId newLeaderNode);
  Some (set_roles (set_replicator c (OnLeaderChange (_replicator c)))
          (startFollower (priIp (nodeConfig portInfo)) (port portInfo) (_roles c)), accepted).

(** A batch of the request replicator. *)
Definition on_batch (c : Controller C) (batch : list Envelop) : Controller C :=
  set_replicator c (pushUnorderedBlock sha verifySig (_replicator c) batch).1.

(** *** Construction *)

Definition in_order (l : list NodeConfig) : bool :=
  forallb (λ x, nodeId x.2 =? Z.of_nat x.1) (imap pair l).

(** [LocalConsensus::checkAndStart]: everyone but node 0 follows node 0. *)
Definition checkAndStart (c : Controller C) : option (Controller C) :=
  if localId (_config c) =? 0 then Some c
  else portInfo ← getNodeInfo (_config c) 0;
       Some (set_roles c (startFollower (priIp (nodeConfig portInfo)) (port portInfo) (_roles c))).

(** [PBFTRPCService::checkAndStart], with keys and a state machine. *)
Definition service_checkAndStart (localNodes : list NodeConfig) : bool := negb (length localNodes =? 0)%nat.

(** [added port]: the RPC server of the port takes the service. *)
Definition NewLocalConsensusController (added : Z → bool) (localRegionNodes : list NodeConfig) (localId : Z)
    (localPortConfig : ZMQPortUtil) (storage : Storage C) (timeoutMs maxBatchSize : Z) : option (option (Controller C)) :=
  if negb (in_order localRegionNodes) then Some None else
  payloadPorts ← getLocalServicePorts localPortConfig BFT_PAYLOAD 0;
  let '(payloadZMQConfigs, ret1) := WrapPortWithConfig localRegionNodes payloadPorts in
  if negb ret1 then Some None else
  collectorPorts ← getLocalServicePorts localPortConfig USER_REQ_COLLECTOR 0;
  let '(collectorZMQConfigs, ret2) := WrapPortWithConfig localRegionNodes collectorPorts in
  if negb ret2 then Some None else
  userPort ← at_ collectorPorts localId;
  let config := mkConfig payloadZMQConfigs localId userPort timeoutMs maxBatchSize in
  controller ← checkAndStart (mkController config localRegionNodes (LocalConsensus.newNode false) (mkRoles None None) storage collectorZMQConfigs (-1));
  if negb (service_checkAndStart localRegionNodes) then Some None else
  rpcPorts ← getLocalServicePorts localPortConfig BFT_RPC 0;
  rpcPort ← at_ rpcPorts localId;
  if added rpcPort
  then Some (Some (mkController (_config controller) (_localNodes controller) (_replicator controller) (_roles controller)
                     (_storage controller) (_userCollectorAddr controller) rpcPort))
  else Some None.

End service.

(** ** One decision, seen by a node *)
Section round.
Context `{ZP : Zpp} `{HZ : !ZppLaws ZP} (sha : string → HashString) (sha_ok : ∀ s, arr_ok (sha s)).
Context (verifySig : SignatureString → HashString → bool).

(** The header of the block after [prev] with the requests of root [k]. *)
Definition next_header (prev : option Header) (k : HashString) : Header :=
  match prev with
  | None => mkHeader 0 (vreplicate 32 0) k
  | Some h => mkHeader (wrap64u (number h + 1)) (CalculatePreviousHash sha h) k
  end.

Definition sig_idle (c : SignatureCache) : Prop := front c = back c ∧ ring c = replicate 10 None.

Lemma push_pop c s : sig_idle c → ∃ c', sig_pop (sig_push c s) = (c', Some s) ∧ sig_idle c'.
Proof using Type.
  intros [E R]. unfold sig_pop, sig_push. cbn [front back ring]. rewrite E, R.
  pose proof (Nat.mod_upper_bound (back c) 10 ltac:(lia)) as Hlt.
  rewrite list_lookup_insert_eq by (rewrite length_replicate; lia). eexists. split; [done|].
  split; [done|]. cbn [ring]. rewrite list_insert_insert_eq.
  apply list_insert_id. by apply lookup_replicate_2.
Qed.

(** Between two decisions: nothing waits, the last delivered header is that of
    the log. *)
Record quiet (ld : bool) (n : LocalConsensus.Node) (hs : list Header) : Prop := {
  q_role : isLeader n = ld;
  q_cache : LocalConsensus.cache n = ∅;
  q_queue : queue n = [];
  q_sigs : sig_idle (sigs n);
  q_valid : ∀ r, deliveredBlock n = Some r → is_Some (heap n !! r);
  q_last : header <$> (deliveredBlock n ≫= λ r, heap n !! r) = last hs;
  q_proposed : ld = true → proposedLastBlock n = deliveredBlock n;
  q_log : header <$> log n = hs }.

Lemma new_quiet ld : quiet ld (LocalConsensus.newNode ld) [].
Proof using Type. by split. Qed.

Lemma start_quiet ld n hs : quiet ld n hs → quiet true (OnLeaderStart n) hs.
Proof using Type. by intros []; split. Qed.

Lemma change_quiet ld n hs : quiet ld n hs → quiet false (OnLeaderChange n) hs.
Proof using Type. by intros []; split. Qed.

Definition decided_block (h : Header) (batch : list Envelop) (ss : list SignaturePair) : Block :=
  mkBlock h (mkBody batch) (mkExecuteResult [] []) (mkMetadata ss []).

(** A node that holds the batch under header [h] and whose signatures were
    fetched delivers it and is quiet again. *)
Definition ready (ld : bool) (n : LocalConsensus.Node) (hs : list Header) (h : Header) (batch : list Envelop) : Prop :=
  isLeader n = ld ∧ queue n = [] ∧ sig_idle (sigs n) ∧ header <$> log n = hs ∧
  ∃ r, LocalConsensus.cache n = {[ dataHash h := r ]} ∧ heap n !! r = Some (decided_block h batch []) ∧
    (ld = true → proposedLastBlock n = Some r).

Lemma deliver_round ld n hs h batch ss :
  header_ok h → ready ld n hs h batch →
  ∃ n', OnDeliver n (out c_header h) ss = Some (n', true) ∧ quiet ld n' (hs ++ [h]) ∧
    log n' = log n ++ [decided_block h batch ss].
Proof using HZ.
  intros Hok (Hl & Hq & Hs & Hlog & r & Hc & Hh & Hp). unfold OnDeliver.
  rewrite (read_out header_ok) by (done || apply header_codec_ok). rewrite Hc, lookup_singleton_eq. cbn [mbind option_bind].
  rewrite list_lookup_alter_eq, Hh. cbn [fmap option_fmap option_map mbind option_bind].
  eexists. split; [done|]. split; [|done]. split; cbn [isLeader LocalConsensus.cache queue sigs deliveredBlock heap proposedLastBlock log]; try done.
  - apply delete_singleton_eq.
  - intros r' [= <-]. rewrite list_lookup_alter_eq, Hh. by eexists.
  - cbn [mbind option_bind]. rewrite list_lookup_alter_eq, Hh, last_snoc. done.
  - by rewrite fmap_app, Hlog.
Qed.

Lemma next_valid n hs k ld : quiet ld n hs → isDeliveredBlockHeaderValid sha n (next_header (last hs) k) = true.
Proof using Type.
  intros Q. pose proof (q_last _ _ _ Q) as Hl. unfold isDeliveredBlockHeaderValid.
  destruct (deliveredBlock n ≫= λ r, heap n !! r) as [b|]; [|done]. cbn [fmap option_fmap option_map] in Hl. rewrite <-Hl.
  cbn [next_header previousHash number]. by rewrite bool_decide_true, Z.eqb_refl.
Qed.

Lemma next_header_ok prev k : arr_ok k → header_ok (next_header prev k).
Proof using sha_ok.
  intros Hk. destruct prev as [h|]; unfold next_header.
  - split; [split|]; [apply Z.mod_pos_bound; lia|apply sha_ok|done].
  - split; [split|]; [done| |done]. unfold arr_ok. cbn [previousHash]. rewrite vec_to_list_replicate. by apply Forall_replicate.
Qed.

(** Headers are numbered from 0 on. *)
Lemma next_numbers hs k :
  (∀ j h, hs !! j = Some h → number h = wrap64u (Z.of_nat j)) →
  ∀ j h, (hs ++ [next_header (last hs) k]) !! j = Some h → number h = wrap64u (Z.of_nat j).
Proof using Type.
  intros Hn j h [[_ Hj]|[Hj <-]]%lookup_snoc_Some; [by apply Hn|]. subst j. destruct (last hs) as [h0|] eqn:El.
  - rewrite last_lookup in El. pose proof (lookup_lt_Some _ _ _ El). apply Hn in El. cbn [next_header number]. rewrite El.
    unfold wrap64u. rewrite Zplus_mod_idemp_l. f_equal. lia.
  - apply last_None in El as ->. done.
Qed.

(** A batch becomes a block with a default header. *)
Lemma push_round ld n hs batch k :
  quiet ld n hs → root_of sha verifySig ld batch = Some k →
  let n' := (pushUnorderedBlock sha verifySig n batch).1 in
  isLeader n' = ld ∧ LocalConsensus.cache n' = {[ k := length (heap n) ]} ∧
  queue n' = (if ld then [length (heap n)] else []) ∧
  heap n' = heap n ++ [decided_block (mkHeader 0 (vreplicate 32 0) k) batch []] ∧
  deliveredBlock n' = deliveredBlock n ∧ proposedLastBlock n' = proposedLastBlock n ∧ sigs n' = sigs n ∧ log n' = log n.
Proof using Type.
  intros Q Hk. unfold pushUnorderedBlock. unfold root_of in Hk. rewrite (q_role _ _ _ Q).
  destruct (UserRequest_GenerateMerkleTree _ _ _ _) as [mt|]; [|done]. injection Hk as <-.
  cbn [fst isLeader LocalConsensus.cache queue heap deliveredBlock proposedLastBlock sigs log].
  rewrite (q_cache _ _ _ Q), (q_queue _ _ _ Q). by split_and!.
Qed.

Lemma last_kept n hs ld (h : list Block) : quiet ld n hs →
  header <$> (deliveredBlock n ≫= λ r, (heap n ++ h) !! r) = last hs.
Proof using Type.
  intros Q. rewrite <-(q_last _ _ _ Q). destruct (deliveredBlock n) as [r|] eqn:E; [|done]. cbn [mbind option_bind].
  destruct (q_valid _ _ _ Q r E) as [b Hb]. by rewrite Hb, (lookup_app_l_Some _ _ _ _ Hb).
Qed.

(** The leader proposes the next header and signs it. *)
Lemma leader_round n hs batch k name (sg : string → option DigestString) d :
  quiet true n hs → root_of sha verifySig true batch = Some k →
  let h := next_header (last hs) k in sg (out c_header h) = Some d →
  ∃ n1 n2, OnRequestProposal sha name sg (pushUnorderedBlock sha verifySig n batch).1 = (n1, Some (out c_header h)) ∧
    OnSignProposal n1 = (n2, Some (EmptyString, mkSignature name d)) ∧ ready true n2 hs h batch ∧ log n2 = log n.
Proof using Type.
  intros Q Hk h Hd. destruct (push_round true n hs batch k Q Hk) as (Hl & Hc & Hq & Hh & Hdb & Hp & Hs & Hlog).
  set (m := (pushUnorderedBlock sha verifySig n batch).1) in *. unfold OnRequestProposal. rewrite Hl, Hq. cbn [negb].
  rewrite Hh. rewrite list_lookup_middle by done. cbn [header decided_block].
  assert (updateBlockHeaderWithProposedBlock sha m (mkHeader 0 (vreplicate 32 0) k) = h) as Eh.
  { unfold updateBlockHeaderWithProposedBlock. rewrite Hp, (q_proposed _ _ _ Q eq_refl), Hh.
    pose proof (last_kept n hs true [decided_block (mkHeader 0 (vreplicate 32 0) k) batch []] Q) as E. unfold h.
    destruct (deliveredBlock n ≫= _) as [b|]; cbn [fmap option_fmap option_map] in E; by rewrite <-E. }
  rewrite Eh. unfold push_signature. rewrite Hd. cbn [mbind option_bind].
  destruct (push_pop (sigs n) (EmptyString, mkSignature name d) (q_sigs _ _ _ Q)) as (c' & Ec & Hc').
  eexists _, _. split; [done|]. unfold OnSignProposal. cbn [sigs]. rewrite Hs, Ec. cbn [fst snd]. split; [done|]. split; [|done].
  unfold ready. cbn [isLeader queue sigs log LocalConsensus.cache heap proposedLastBlock]. split_and!; [done|done|done| |].
  - rewrite Hlog. apply Q.
  - exists (length (heap n)). split_and!; [rewrite Hc; f_equal; unfold h; by destruct (last hs)| |done].
    rewrite list_lookup_alter_eq, list_lookup_middle by done. done.
Qed.

(** A follower accepts that header and signs it. *)
Lemma follower_round n hs batch k name (sg : string → option DigestString) d :
  quiet false n hs → root_of sha verifySig false batch = Some k →
  let h := next_header (last hs) k in header_ok h → sg (out c_header h) = Some d →
  ∃ n1 n2, OnVerifyProposal sha name sg (pushUnorderedBlock sha verifySig n batch).1 (out c_header h) = (n1, true) ∧
    OnSignProposal n1 = (n2, Some (EmptyString, mkSignature name d)) ∧ ready false n2 hs h batch ∧ log n2 = log n.
Proof using HZ.
  intros Q Hk h Hok Hd. destruct (push_round false n hs batch k Q Hk) as (Hl & Hc & Hq & Hh & Hdb & Hp & Hs & Hlog).
  set (m := (pushUnorderedBlock sha verifySig n batch).1) in *. unfold OnVerifyProposal, verify_begin, verify_end.
  rewrite (read_out header_ok) by (done || apply header_codec_ok).
  assert (isDeliveredBlockHeaderValid sha m h = true) as ->.
  { rewrite <-(next_valid n hs k false Q). apply valid_same; [done| |].
    - intros r b _ Hb. rewrite Hh. by apply lookup_app_l_Some.
    - intros r Hr. by apply (q_valid _ _ _ Q). }
  unfold push_signature. rewrite Hd. cbn [mbind option_bind LocalConsensus.cache]. rewrite Hc.
  assert (dataHash h = k) as Ek by (unfold h; by destruct (last hs)). rewrite Ek, lookup_singleton_eq.
  destruct (push_pop (sigs n) (EmptyString, mkSignature name d) (q_sigs _ _ _ Q)) as (c' & Ec & Hc').
  eexists _, _. split; [done|]. unfold OnSignProposal. cbn [sigs]. rewrite Hs, Ec. cbn [fst snd]. split; [done|]. split; [|done].
  unfold ready. cbn [isLeader queue sigs log LocalConsensus.cache heap proposedLastBlock]. split_and!; [done|by rewrite Hq|done| |].
  - rewrite Hlog. apply Q.
  - exists (length (heap n)). rewrite Ek. split_and!; [done| |done].
    rewrite Hh, list_lookup_alter_eq, list_lookup_middle by done. done.
Qed.

End round.

Lemma mapM_indexed {A B} (f : nat * A → option B) (Q : nat → A → B → Prop) (l : list A) :
  (∀ i x, l !! i = Some x → ∃ y, f (i, x) = Some y ∧ Q i x y) →
  ∃ ys, mapM f (imap pair l) = Some ys ∧ length ys = length l ∧
    ∀ i y, ys !! i = Some y → ∃ x, l !! i = Some x ∧ Q i x y.
Proof.
  intros H. assert (∃ ys, mapM f (imap pair l) = Some ys) as [ys E].
  { apply mapM_is_Some. apply Forall_lookup. intros i [i' x] Hi. rewrite list_lookup_imap in Hi.
    destruct (l !! i) as [x'|] eqn:El; [|done]. injection Hi as <- <-. destruct (H i x' El) as (y & Hy & _). by exists y. }
  exists ys. split; [done|]. apply mapM_Some in E. pose proof (Forall2_length _ _ _ E) as Hlen. rewrite length_imap in Hlen.
  split; [done|]. intros i y Hy. destruct (Forall2_lookup_r _ _ _ _ _ E Hy) as ([i' x] & Hx & Hf).
  rewrite list_lookup_imap in Hx. destruct (l !! i) as [x'|] eqn:El; [|done]. injection Hx as <- <-.
  destruct (H i x' El) as (y' & Hy' & HQ). exists x'. split; [done|]. congruence.
Qed.

Lemma at_node {A} (l : list A) i x : l !! i = Some x → at_ l (Z.of_nat i) = Some x.
Proof. intros H. apply at_Some. rewrite Nat2Z.id. split; [lia|done]. Qed.

Lemma filter_length_all {A} (P : A → Prop) `{∀ x, Decision (P x)} (l : list A) : Forall P l → length (filter P l) = length l.
Proof. induction 1 as [|x l Hx _ IH]; [done|]. rewrite filter_cons_True by done. cbn. by rewrite IH. Qed.

(** ** A group and its engine

    The engine as the nodes see it: every decision hands a batch to all nodes,
    asks the leader for a proposal, has the others verify it, collects the
    signatures and delivers the decision with some of them, to each node its own
    choice [pick].  A change of leader tells every node. *)
Section group.
Context `{ZP : Zpp} `{HZ : !ZppLaws ZP} `{PB : Protobuf} `{HPB : !ProtobufLaws PB}.
Context {C : Type} `{BC : BlockContainer C} (sha : string → HashString) (sha_ok : ∀ s, arr_ok (sha s)).
Context (sign : string → string → option DigestString) (verifySig : SignatureString → HashString → bool).

Inductive event := NewLeader (l : nat) | Decide (pick : nat → list nat) (batch : list Envelop).

Definition succeeded (r : option (Controller C * RPCResponse)) : option (Controller C) :=
  '(c, x) ← r; CHECK bool_decide (success x = Some true);; Some c.

Definition answered (r : option (Controller C * RPCResponse)) : option (Controller C * string) :=
  '(c, x) ← r; s ← rs_payload x; Some (c, s).

Definition change_leader (l : nat) (cs : list (Controller C)) : option (list (Controller C)) :=
  mapM (λ x, succeeded (if decide (x.1 = l) then leaderStart x.2 (mkRequest (Z.of_nat l) 0 EmptyString)
                        else leaderChange x.2 (mkChange (Z.of_nat x.1) 0 (Z.of_nat l)))) (imap pair cs).

Definition verify_all (l : nat) (leader : Controller C) (s : string) (cs : list (Controller C)) : option (list (Controller C)) :=
  mapM (λ x, if decide (x.1 = l) then Some leader
             else succeeded (verifyProposal sha sign x.2 (mkRequest (Z.of_nat x.1) 0 s))) (imap pair cs).

Definition sign_all (s : string) (cs : list (Controller C)) : option (list (Controller C * string)) :=
  mapM (λ x, answered (signProposal x.2 (mkRequest (Z.of_nat x.1) 0 s))) (imap pair cs).

Definition deliver_all (pick : nat → list nat) (s : string) (xs : list (Controller C * string)) : option (list (Controller C)) :=
  mapM (λ x : nat * (Controller C * string),
    sigs ← mapM (λ j, xs.*2 !! j) (pick x.1);
    succeeded (deliver x.2.1 (mkDeliver (Z.of_nat x.1) 0 (SerializeProposal (SerializeTOMMessage s))
                                (replicate (length sigs) EmptyString) sigs))) (imap pair xs).

Definition decide_batch (l : nat) (pick : nat → list nat) (batch : list Envelop) (cs : list (Controller C)) : option (list (Controller C)) :=
  let cs := (λ c, on_batch sha verifySig c batch) <$> cs in
  c ← cs !! l;
  '(c, s) ← answered (requestProposal sha sign c (mkRequest (Z.of_nat l) 0 EmptyString));
  cs ← verify_all l c s cs;
  xs ← sign_all s cs;
  deliver_all pick s xs.

Fixpoint engine_run (ld : option nat) (cs : list (Controller C)) (es : list event) : option (list (Controller C)) :=
  match es with
  | [] => Some cs
  | NewLeader l :: es => cs ← change_leader l cs; engine_run (Some l) cs es
  | Decide pick batch :: es => l ← ld; cs ← decide_batch l pick batch cs; engine_run ld cs es
  end.

Definition decisions (es : list event) : list (list Envelop) :=
  omap (λ e, match e with Decide _ batch => Some batch | _ => None end) es.

(** *** The group *)
Context (verify : string → DigestString → string → option bool).
Context (g : nat) (nodes : list NodeConfig) (storages : list (Storage C)).
Context (inv : C → Prop) (holds : C → Z → Prop) `{HL : !BlockContainerLaws inv holds}.

Hypothesis group_size : Z.of_nat (length nodes) < 2 ^ 31.
Hypothesis in_group : ∀ node, node ∈ nodes → groupId node = Z.of_nat g ∧ sv_ok (ski node).
(** Every node has its key, and the others verify its signatures. *)
Hypothesis keys : ∀ node s, node ∈ nodes → ∃ d, sign (ski node) s = Some d ∧ arr_ok d ∧ verify (ski node) d s = Some true.

Definition good_event (e : event) : Prop :=
  match e with
  | NewLeader l => (l < length nodes)%nat
  | Decide pick batch =>
      batch ≠ [] ∧ vec_ok envelop_ok batch ∧ signed sha verifySig batch ∧
      ∀ i, (i < length nodes)%nat → pick i ≠ [] ∧ NoDup (pick i) ∧ Forall (λ j, (j < length nodes)%nat) (pick i)
  end.

(** Node [i] of the group with the blocks [log] it has delivered. *)
Record member (ld : option nat) (hs : list Header) (batches : list (list Envelop)) (i : nat) (c : Controller C) : Prop := {
  m_nodes : _localNodes c = nodes;
  m_info : ∀ node, node ∈ nodes → is_Some (getNodeInfo (_config c) (nodeId node));
  m_quiet : quiet (bool_decide (ld = Some i)) (_replicator c) hs;
  m_numbers : ∀ j h, hs !! j = Some h → number h = wrap64u (Z.of_nat j);
  m_stored : (s ← storages !! i; insert_all s ((λ b, (g, b)) <$> log (_replicator c))) = Some (_storage c);
  m_storage : storage_ok inv (_storage c);
  m_requests : (λ b, userRequests (body b)) <$> log (_replicator c) = batches;
  m_chain : chain sha (log (_replicator c));
  m_signed : Forall (signed_block verify) (log (_replicator c)) }.

Definition members (ld : option nat) (hs : list Header) (batches : list (list Envelop)) (cs : list (Controller C)) : Prop :=
  length cs = length nodes ∧ ∀ i c, cs !! i = Some c → member ld hs batches i c.

Lemma with_member i (c : Controller C) node wrong k :
  _localNodes c = nodes → nodes !! i = Some node → with_node c (Z.of_nat i) wrong k = k node.
Proof using Type.
  intros M Hn. unfold with_node. rewrite M, (at_node _ _ _ Hn).
  pose proof (lookup_lt_Some _ _ _ Hn). by rewrite (proj2 (Z.leb_gt _ _)) by lia.
Qed.

Lemma member_node hs batches ld cs i c : members ld hs batches cs → cs !! i = Some c →
  ∃ node, nodes !! i = Some node ∧ node ∈ nodes.
Proof using Type.
  intros [Hl _] Hc. pose proof (lookup_lt_Some _ _ _ Hc) as Hi. rewrite Hl in Hi.
  destruct (lookup_lt_is_Some_2 _ _ Hi) as [node Hn]. exists node. split; [done|]. by apply list_elem_of_lookup_2 in Hn.
Qed.

(** A new leader: everyone knows. *)
Lemma change_members ld hs batches cs l :
  members ld hs batches cs → (l < length nodes)%nat →
  ∃ cs', change_leader l cs = Some cs' ∧ members (Some l) hs batches cs'.
Proof using Type.
  intros M Hl. destruct (lookup_lt_is_Some_2 _ _ Hl) as [lnode Hln].
  destruct (mapM_indexed (λ x, succeeded (if decide (x.1 = l) then leaderStart x.2 (mkRequest (Z.of_nat l) 0 EmptyString)
     else leaderChange x.2 (mkChange (Z.of_nat x.1) 0 (Z.of_nat l)))) (λ i _, member (Some l) hs batches i) cs)
    as (cs' & E & El & Hall); [|exists cs'; split; [done|]; split; [by rewrite El; apply M|by intros i c (_ & _ & ?)%Hall]].
  intros i c Hc. pose proof (proj2 M i c Hc) as Mi. destruct (member_node _ _ _ _ _ _ M Hc) as (node & Hn & Hin).
  destruct (m_info _ _ _ _ _ Mi lnode) as [info Hinfo]; [by eapply list_elem_of_lookup_2|]. cbn [fst snd].
  destruct (decide (i = l)) as [->|Hne].
  - unfold leaderStart. rewrite (with_member _ _ _ _ _ (m_nodes _ _ _ _ _ Mi) Hn). rewrite Hn in Hln. injection Hln as ->.
    cbn [localid]. rewrite Hinfo. eexists. split; [done|].
    destruct Mi; split; try done. rewrite bool_decide_true by done. by eapply start_quiet.
  - unfold leaderChange. cbn [lc_localid newleaderid]. rewrite (m_nodes _ _ _ _ _ Mi), (at_node _ _ _ Hn), (at_node _ _ _ Hln).
    pose proof (lookup_lt_Some _ _ _ Hn). rewrite !(proj2 (Z.leb_gt _ _)) by lia. cbn [orb mbind option_bind]. rewrite Hinfo.
    eexists. split; [done|]. destruct Mi; split; try done. rewrite bool_decide_false by congruence. by eapply change_quiet.
Qed.

(** *** One decision *)
Section decision.
Context (l : nat) (hs : list Header) (batches : list (list Envelop)) (batch : list Envelop) (k : HashString).
Notation h := (next_header sha (last hs) k).
Hypothesis leader_root : root_of sha verifySig true batch = Some k.
Hypothesis follower_root : root_of sha verifySig false batch = Some k.
Hypothesis batch_ok : vec_ok envelop_ok batch.
Hypothesis root_ok : arr_ok k.

Definition signature_of (node : NodeConfig) (d : DigestString) : SignaturePair := (EmptyString, mkSignature (ski node) d).

(** Node [i], which was [c], has a signature of the header for the engine. *)
Definition proposed (i : nat) (c c1 : Controller C) : Prop :=
  ∃ node n1 n2 d, nodes !! i = Some node ∧ c1 = set_replicator c n1 ∧ OnSignProposal n1 = (n2, Some (signature_of node d)) ∧
    sign (ski node) (out c_header h) = Some d ∧ ready (bool_decide (Some l = Some i)) n2 hs h batch ∧ log n2 = log (_replicator c).

Definition fetched (i : nat) (c : Controller C) (x : Controller C * string) : Prop :=
  ∃ node n2 d, nodes !! i = Some node ∧ x = (set_replicator c n2, out c_sigpair (signature_of node d)) ∧
    sign (ski node) (out c_header h) = Some d ∧ ready (bool_decide (Some l = Some i)) n2 hs h batch ∧ log n2 = log (_replicator c).

Lemma leader_proposes c node :
  member (Some l) hs batches l c → nodes !! l = Some node →
  ∃ c1, answered (requestProposal sha sign (on_batch sha verifySig c batch) (mkRequest (Z.of_nat l) 0 EmptyString)) =
    Some (c1, out c_header h) ∧ proposed l c c1.
Proof using keys leader_root.
  intros M Hn. destruct (keys node (out c_header h)) as (d & Hd & _); [by eapply list_elem_of_lookup_2|].
  pose proof (m_quiet _ _ _ _ _ M) as Q. rewrite bool_decide_true in Q by done.
  destruct (leader_round sha verifySig _ hs batch k (ski node) (sign (ski node)) d Q leader_root Hd) as (n1 & n2 & E1 & E2 & R & L).
  unfold requestProposal. cbn [localid]. rewrite (with_member _ _ node); [|apply M|done]. unfold on_batch. cbn [set_replicator _replicator].
  rewrite E1. eexists. split; [done|]. exists node, n1, n2, d. rewrite bool_decide_true by done. done.
Qed.

Lemma follower_verifies i c node :
  member (Some l) hs batches i c → nodes !! i = Some node → i ≠ l →
  ∃ c1, succeeded (verifyProposal sha sign (on_batch sha verifySig c batch) (mkRequest (Z.of_nat i) 0 (out c_header h))) = Some c1 ∧
    proposed i c c1.
Proof using HZ sha_ok keys follower_root root_ok.
  intros M Hn Hne. destruct (keys node (out c_header h)) as (d & Hd & _); [by eapply list_elem_of_lookup_2|].
  pose proof (m_quiet _ _ _ _ _ M) as Q. rewrite bool_decide_false in Q by congruence.
  destruct (follower_round sha verifySig _ hs batch k (ski node) (sign (ski node)) d Q follower_root) as (n1 & n2 & E1 & E2 & R & L);
    [by apply next_header_ok|done|].
  unfold verifyProposal. cbn [localid]. rewrite (with_member _ _ node); [|apply M|done]. unfold on_batch. cbn [set_replicator _replicator rq_payload].
  rewrite E1. eexists. split; [done|]. exists node, n1, n2, d. rewrite bool_decide_false by congruence. done.
Qed.

Lemma node_signs i c c1 :
  member (Some l) hs batches i c → proposed i c c1 →
  ∃ x, answered (signProposal c1 (mkRequest (Z.of_nat i) 0 (out c_header h))) = Some x ∧ fetched i c x.
Proof using Type.
  intros M (node & n1 & n2 & d & Hn & -> & Hs & Hd & R & L). unfold signProposal. cbn [localid].
  rewrite (with_member _ _ node); [|apply M|done]. cbn [set_replicator _replicator]. rewrite Hs.
  eexists. split; [done|]. by exists node, n2, d.
Qed.

(** Signatures that were fetched are read and verify. *)
Definition genuine (s : string) : Prop :=
  ∃ node d, node ∈ nodes ∧ s = out c_sigpair (signature_of node d) ∧ sign (ski node) (out c_header h) = Some d.

Lemma genuine_read sigs : Forall genuine sigs →
  ∃ ps, read_signatures (length sigs) sigs = Some (Some ps) ∧ length ps = length sigs ∧ Forall sigpair_ok ps ∧
    Forall (λ p, sig_valid verify (out c_header h) p = true) ps.
Proof using HZ in_group keys.
  induction 1 as [|s sigs (node & d & Hin & -> & Hd) _ (ps & E & El & Hok & Hv)]; [by exists []|].
  destruct (keys node (out c_header h) Hin) as (d' & Hd' & Ha & Hver). rewrite Hd in Hd'. injection Hd' as <-.
  assert (sigpair_ok (signature_of node d)) as Hs by (split; [done|]; split; [apply (in_group node Hin)|done]).
  exists (signature_of node d :: ps). cbn [length read_signatures head tail mbind option_bind].
  rewrite (read_out sigpair_ok) by (done || apply sigpair_codec_ok). rewrite E. cbn [option_map mbind option_bind].
  split_and!; [done|by rewrite El|by constructor|]. constructor; [|done]. by apply bool_decide_eq_true.
Qed.

Lemma all_valid_enough ps : Forall (λ p, sig_valid verify (out c_header h) p = true) ps →
  enough_signatures verify (decided_block h batch ps) ps.
Proof using group_size.
  intros Hv. unfold enough_signatures, header_bytes. cbn [header decided_block]. rewrite filter_length_all by done.
  pose proof (Nat.div_mod_eq (length ps + 1) 2). lia.
Qed.

Lemma node_delivers i c x sigs :
  member (Some l) hs batches i c → (i < length nodes)%nat → fetched i c x →
  Forall genuine sigs → sigs ≠ [] → Z.of_nat (length sigs) < 2 ^ 32 →
  ∃ c3, succeeded (deliver x.1 (mkDeliver (Z.of_nat i) 0 (SerializeProposal (SerializeTOMMessage (out c_header h)))
                                  (replicate (length sigs) EmptyString) sigs)) = Some c3 ∧
    member (Some l) (hs ++ [h]) (batches ++ [batch]) i c3.
Proof using HZ HPB sha_ok HL group_size in_group keys batch_ok root_ok.
  intros M Hi (node & n2 & d & Hn & -> & Hd & R & L) Hg Hne Hlen.
  destruct (genuine_read sigs Hg) as (ps & Er & El & Hok & Hv).
  destruct (deliver_round _ n2 hs h batch ps (next_header_ok sha sha_ok (last hs) k root_ok) R) as (n3 & Ed & Q & Hlog).
  destruct (in_group node) as [Hgr _]; [by eapply list_elem_of_lookup_2|].
  destruct (insert_preserves inv holds (_storage c) g (decided_block h batch ps)) as (st & Est & Hst & _); [apply M|].
  unfold deliver. cbn [fst proposevalue contents signatures d_localid]. rewrite proposal_roundtrip, tom_roundtrip, length_replicate, Er.
  cbn [mbind option_bind set_replicator _localNodes]. rewrite (m_nodes _ _ _ _ _ M), (at_node _ _ _ Hn). cbn [mbind option_bind].
  change (_replicator (set_replicator c n2)) with n2. rewrite Ed. cbn [mbind option_bind]. rewrite Hlog, last_snoc. cbn [mbind option_bind]. unfold deliverCallback. rewrite Hgr.
  rewrite (proj2 (Z.ltb_ge _ _)) by lia. rewrite Nat2Z.id. change (_storage (set_replicator c n2)) with (_storage c). rewrite Est. cbn [mbind option_bind].
  eexists. split; [done|]. rewrite L in Hlog. destruct M as [M1 M2 M3 Mn M4 M5 M6 M7 M8].
  split; cbn [set_storage set_replicator _localNodes _config _replicator _storage]; try done; rewrite ?Hlog.
  - by apply next_numbers.
  - rewrite fmap_app. destruct (storages !! i) as [s0|]; [|done]. cbn [mbind option_bind] in *. rewrite insert_all_app, M4. cbn. by rewrite Est.
  - by rewrite fmap_app, M6.
  - apply chain_snoc; [done|]. intros b Hb. cbn [header decided_block].
    assert (last hs = Some (header b)) as ->.
    { rewrite <-(q_log _ _ _ M3), last_lookup, length_fmap, list_lookup_fmap, <-last_lookup, Hb. done. }
    done.
  - apply Forall_app. split; [done|]. apply Forall_singleton. split_and!.
    + split_and!; cbn [header body executeResult metadata decided_block userRequests txReadWriteSet transactionFilter consensusSignatures validateSignatures];
        [by apply next_header_ok|done|by split|by split|by split; [|rewrite El]|by split].
    + cbn. intros ->. cbn in El. by destruct sigs.
    + by apply all_valid_enough.
Qed.

(** The three phases for the whole group, which was [cs]. *)
Context (cs : list (Controller C)) (Hcs : members (Some l) hs batches cs).

Definition each {A} (P : nat → Controller C → A → Prop) (xs : list A) : Prop :=
  length xs = length nodes ∧ ∀ i x, xs !! i = Some x → ∃ c, cs !! i = Some c ∧ P i c x.

Lemma all_verify c c1 : cs !! l = Some c → proposed l c c1 →
  ∃ cs1, verify_all l c1 (out c_header h) ((λ c, on_batch sha verifySig c batch) <$> cs) = Some cs1 ∧ each proposed cs1.
Proof using HZ sha_ok keys follower_root root_ok Hcs.
  intros Hc P1. destruct Hcs as [Hlen HM].
  destruct (mapM_indexed (λ x, if decide (x.1 = l) then Some c1
      else succeeded (verifyProposal sha sign x.2 (mkRequest (Z.of_nat x.1) 0 (out c_header h))))
    (λ i _ y, ∃ c, cs !! i = Some c ∧ proposed i c y) ((λ c, on_batch sha verifySig c batch) <$> cs))
    as (cs1 & V1 & L1 & H1); [|exists cs1; split; [done|]; split; [by rewrite L1, length_fmap|by intros i x (_ & _ & ?)%H1]].
  intros i x Hx. rewrite list_lookup_fmap in Hx. destruct (cs !! i) as [ci|] eqn:Ei; [|done]. injection Hx as <-. cbn [fst snd].
  destruct (decide (i = l)) as [->|Hil]; [exists c1; split; [done|]; exists c; by simplify_eq|].
  destruct (member_node hs batches (Some l) cs i ci) as (ni & Hni & _); [done|done|].
  destruct (follower_verifies i ci ni (HM i ci Ei) Hni Hil) as (y & Ey & Py). eauto.
Qed.

Lemma all_sign cs1 : each proposed cs1 → ∃ xs, sign_all (out c_header h) cs1 = Some xs ∧ each fetched xs.
Proof using Hcs.
  intros [L1 H1].
  destruct (mapM_indexed (λ x, answered (signProposal x.2 (mkRequest (Z.of_nat x.1) 0 (out c_header h))))
    (λ i _ y, ∃ c, cs !! i = Some c ∧ fetched i c y) cs1) as (xs & V2 & L2 & H2);
    [|exists xs; split; [done|]; split; [by rewrite L2|by intros i x (_ & _ & ?)%H2]].
  intros i x Hx. destruct (H1 i x Hx) as (ci & Hci & Pi). cbn [fst snd].
  destruct (node_signs i ci x (proj2 Hcs i ci Hci) Pi) as (y & Ey & Fy). eauto.
Qed.

(** What a node is given: some of the signatures. *)
Lemma picked_genuine xs (p : list nat) : each fetched xs → NoDup p → Forall (λ j, (j < length nodes)%nat) p →
  ∃ sigs, mapM (λ j, xs.*2 !! j) p = Some sigs ∧ Forall genuine sigs ∧ length sigs = length p ∧ Z.of_nat (length sigs) < 2 ^ 32.
Proof using group_size.
  intros [L2 H2] Hnd Hp. assert (∃ sigs, mapM (λ j, xs.*2 !! j) p = Some sigs) as [sigs Es].
  { apply mapM_is_Some. eapply Forall_impl; [exact Hp|]. intros j Hj. cbn in Hj. apply lookup_lt_is_Some_2. rewrite length_fmap. lia. }
  exists sigs. split; [done|]. apply mapM_Some in Es. pose proof (Forall2_length _ _ _ Es) as Els. split_and!; [|done|].
  - apply Forall_lookup. intros m s Hs. destruct (Forall2_lookup_r _ _ _ _ _ Es Hs) as (j & _ & Hj).
    rewrite list_lookup_fmap in Hj. destruct (xs !! j) as [xj|] eqn:Exj; [|done]. injection Hj as <-.
    destruct (H2 j xj Exj) as (cj & _ & nj & nn & dj & Hnj & -> & Hdj & _).
    exists nj, dj. split_and!; [by eapply list_elem_of_lookup_2|done|done].
  - rewrite <-Els. assert (p ⊆+ seq 0 (length nodes)) as Hsub%submseteq_length; [|rewrite length_seq in Hsub; lia].
    apply NoDup_submseteq; [done|]. intros j Hj. apply elem_of_seq. rewrite Forall_forall in Hp. specialize (Hp j Hj). lia.
Qed.

Lemma all_deliver pick xs : each fetched xs →
  (∀ i, (i < length nodes)%nat → pick i ≠ [] ∧ NoDup (pick i) ∧ Forall (λ j, (j < length nodes)%nat) (pick i)) →
  ∃ cs', deliver_all pick (out c_header h) xs = Some cs' ∧ members (Some l) (hs ++ [h]) (batches ++ [batch]) cs'.
Proof using HZ HPB sha_ok HL group_size in_group keys batch_ok root_ok Hcs.
  intros Hxs Hpick. unfold deliver_all. pose proof Hxs as [L2 H2].
  destruct (mapM_indexed (λ x : nat * (Controller C * string), sigs ← mapM (λ j, xs.*2 !! j) (pick x.1);
      succeeded (deliver x.2.1 (mkDeliver (Z.of_nat x.1) 0 (SerializeProposal (SerializeTOMMessage (out c_header h)))
                                (replicate (length sigs) EmptyString) sigs)))
    (λ i _ y, member (Some l) (hs ++ [h]) (batches ++ [batch]) i y) xs) as (cs' & V3 & L3 & H3);
    [|exists cs'; split; [done|]; split; [by rewrite L3|by intros i y (_ & _ & ?)%H3]].
  intros i x Hx. destruct (H2 i x Hx) as (ci & Hci & Fi). cbn [fst snd].
  assert (i < length nodes)%nat as Hi by (apply lookup_lt_Some in Hx; lia). destruct (Hpick i Hi) as (Hp0 & Hp1 & Hp2).
  destruct (picked_genuine xs (pick i) Hxs Hp1 Hp2) as (sigs & Es & Hg & Hlen & Hb). rewrite Es. cbn [mbind option_bind].
  apply (node_delivers i ci); [by apply Hcs|done|done|done| |done]. intros E0. rewrite E0 in Hlen. by destruct (pick i).
Qed.

End decision.

Lemma decide_members l hs batches cs pick batch :
  members (Some l) hs batches cs → (l < length nodes)%nat → good_event (Decide pick batch) →
  ∃ cs' k, root_of sha verifySig true batch = Some k ∧ decide_batch l pick batch cs = Some cs' ∧
    members (Some l) (hs ++ [next_header sha (last hs) k]) (batches ++ [batch]) cs'.
Proof using HZ HPB sha_ok HL group_size in_group keys.
  intros M Hl (Hne & Hok & Hsig & Hpick).
  destruct (request_tree_exists sha batch None ModeProofGenAndTreeBuild Hne) as (mt & Hmt & _); [done|].
  assert (root_of sha verifySig true batch = Some (Root mt)) as Hr by (unfold root_of; by rewrite Hmt).
  pose proof (root_arr_ok sha sha_ok _ _ _ _ Hmt) as Hk. set (k := Root mt) in *.
  pose proof (root_same sha verifySig batch Hsig) as Hrf. rewrite Hr in Hrf.
  destruct (lookup_lt_is_Some_2 cs l) as [c Hc]; [by rewrite (proj1 M)|]. destruct (lookup_lt_is_Some_2 nodes l Hl) as [node Hn].
  destruct (leader_proposes l hs batches batch k Hr c node (proj2 M l c Hc) Hn) as (c1 & E1 & P1).
  destruct (all_verify l hs batches batch k Hrf Hk cs M c c1 Hc P1) as (cs1 & V1 & H1).
  destruct (all_sign l hs batches batch k cs M cs1 H1) as (xs & V2 & H2).
  destruct (all_deliver l hs batches batch k Hok Hk cs M pick xs H2 Hpick) as (cs' & V3 & M').
  exists cs', k. split_and!; [done| |done]. unfold decide_batch. rewrite list_lookup_fmap, Hc.
  cbn [fmap option_fmap option_map mbind option_bind]. rewrite E1. cbn [mbind option_bind]. rewrite V1. cbn [mbind option_bind].
  rewrite V2. done.
Qed.

Lemma run_members es : ∀ ld hs batches cs,
  members ld hs batches cs → Forall good_event es → (∀ l, ld = Some l → (l < length nodes)%nat) →
  (ld = None → match es with Decide _ _ :: _ => False | _ => True end) →
  ∃ cs' ld' hs', engine_run ld cs es = Some cs' ∧ members ld' hs' (batches ++ decisions es) cs'.
Proof using HZ HPB sha_ok HL group_size in_group keys.
  induction es as [|e es IH]; intros ld hs batches cs M Hes Hld Hfirst.
  { exists cs, ld, hs. by rewrite app_nil_r. }
  apply Forall_cons in Hes as [He Hes]. destruct e as [l|pick batch]; cbn [engine_run decisions omap list_omap].
  - destruct (change_members ld hs batches cs l M He) as (cs1 & E & M1). rewrite E. cbn [mbind option_bind].
    apply (IH _ _ _ _ M1 Hes); [by intros l' [= <-]|done].
  - destruct ld as [l|]; [|by destruct (Hfirst eq_refl)]. cbn [mbind option_bind].
    destruct (decide_members l hs batches cs pick batch M (Hld l eq_refl) He) as (cs1 & k & _ & E & M1). rewrite E. cbn [mbind option_bind].
    destruct (IH _ _ _ _ M1 Hes Hld ltac:(done)) as (cs' & ld' & hs' & E' & M'). exists cs', ld', hs'. split; [done|].
    by rewrite <-app_assoc in M'.
Qed.

(** A new controller is a member without blocks. *)
Lemma new_member added i u s t m c :
  storages !! i = Some s → storage_ok inv s →
  NewLocalConsensusController added nodes (Z.of_nat i) u s t m = Some (Some c) → member None [] [] i c.
Proof using Type.
  intros Hs Hok. unfold NewLocalConsensusController. destruct (in_order nodes); [|done]. cbn [negb].
  destruct (getLocalServicePorts u BFT_PAYLOAD 0) as [p1|]; [|done]. cbn [mbind option_bind].
  unfold WrapPortWithConfig at 1. destruct (_ || _) eqn:E1; [done|]. cbn [negb]. apply orb_false_iff in E1 as [_ E1].
  apply negb_false_iff, Nat.eqb_eq in E1.
  destruct (getLocalServicePorts u USER_REQ_COLLECTOR 0) as [p2|]; [|done]. cbn [mbind option_bind].
  destruct (WrapPortWithConfig nodes p2) as [cc ret2]. destruct ret2; [|done]. cbn [negb].
  destruct (at_ p2 (Z.of_nat i)) as [up|]; [|done]. cbn [mbind option_bind].
  set (cfg := mkConfig (zip_with mkInstance nodes p1) (Z.of_nat i) up t m). unfold checkAndStart. cbn [_config].
  assert (∀ node, node ∈ nodes → is_Some (getNodeInfo cfg (nodeId node))) as Hinfo.
  { intros node [j Hj]%list_elem_of_lookup. destruct (lookup_lt_is_Some_2 p1 j) as [p Hp]; [apply lookup_lt_Some in Hj; lia|].
    unfold getNodeInfo. destruct (List.find _ _) eqn:Ef; [by eexists|]. exfalso.
    assert (zip_with mkInstance nodes p1 !! j = Some (mkInstance node p)) as Hz by (by rewrite lookup_zip_with, Hj; cbn; rewrite Hp).
    pose proof (find_none _ _ Ef (mkInstance node p)) as Hno. cbn in Hno. rewrite Z.eqb_refl in Hno.
    discriminate Hno. apply list_elem_of_In. by eapply list_elem_of_lookup_2. }
  intros H. assert (∃ r p, c = mkController cfg nodes (LocalConsensus.newNode false) r s cc p) as (r & p & ->).
  { destruct (localId cfg =? 0).
    - cbn [mbind option_bind] in H. destruct (negb _); [done|]. destruct (getLocalServicePorts u BFT_RPC 0) as [p3|]; [|done]. cbn [mbind option_bind] in H.
      destruct (at_ p3 _); [|done]. cbn [mbind option_bind] in H. destruct (added _); [|done]. injection H as <-. eauto.
    - destruct (getNodeInfo cfg 0); [|done]. cbn [mbind option_bind] in H. destruct (negb _); [done|].
      destruct (getLocalServicePorts u BFT_RPC 0) as [p3|]; [|done]. cbn [mbind option_bind] in H.
      destruct (at_ p3 _); [|done]. cbn [mbind option_bind] in H. destruct (added _); [|done]. injection H as <-. eauto. }
  split; cbn [_localNodes _config _replicator _storage]; [done|done|apply new_quiet|done| |done|done|by intros ???|done].
  by rewrite Hs.
Qed.

Lemma group_decides added l es cs :
  length cs = length nodes →
  (∀ i c, cs !! i = Some c → ∃ u s t m, storages !! i = Some s ∧ storage_ok inv s ∧
     NewLocalConsensusController added nodes (Z.of_nat i) u s t m = Some (Some c)) →
  Forall good_event (NewLeader l :: es) → Z.of_nat (length (decisions es)) < 2 ^ 64 →
  ∃ cs' hs, engine_run None cs (NewLeader l :: es) = Some cs' ∧ length cs' = length nodes ∧
    ∀ i c', cs' !! i = Some c' → ∃ bs,
      (s ← storages !! i; insert_all s ((λ b, (g, b)) <$> bs)) = Some (_storage c') ∧
      header <$> bs = hs ∧ (λ b, userRequests (body b)) <$> bs = decisions es ∧ chain sha bs ∧
      ∀ j b, bs !! j = Some b → number (header b) = Z.of_nat j ∧ signed_block verify b.
Proof using HZ HPB sha_ok HL group_size in_group keys.
  intros Hlen Hnew Hes Hcount.
  assert (members None [] [] cs) as M.
  { split; [done|]. intros i c Hc. destruct (Hnew i c Hc) as (u & s & t & m & Hs & Hok & E). by apply (new_member added i u s t m c). }
  destruct (run_members (NewLeader l :: es) None [] [] cs M Hes) as (cs' & ld' & hs' & E & Hl' & M'); [done|done|].
  exists cs', hs'. split_and!; [done|done|]. intros i c' Hc'. destruct (M' i c' Hc') as [_ _ Q Hn Hst _ Hreq Hch Hsg].
  exists (log (_replicator c')). pose proof (q_log _ _ _ Q) as Hlog. split_and!; [done|done|done|done|].
  intros j b Hb. split; [|by apply (Forall_lookup_1 _ _ _ _ Hsg Hb)].
  assert (hs' !! j = Some (header b)) as Hj by (rewrite <-Hlog, list_lookup_fmap, Hb; done). apply Hn in Hj. rewrite Hj.
  apply Z.mod_small. apply lookup_lt_Some in Hb. apply (f_equal length) in Hreq. rewrite length_fmap in Hreq.
  cbn [app decisions omap list_omap] in Hreq. fold (decisions es) in Hreq. unfold decisions in *. lia.
Qed.

(** C12: A group commits what its leader batches.  Take the controllers of all
    nodes of a group, where every node has its key and the others accept its
    signatures, and an engine that appoints a leader first and then hands out
    non-empty batches of well-formed and correctly signed requests, asks for
    proposals, collects signatures and delivers each decision to every node with
    any non-empty choice of signatures of different nodes, changing the leader
    whenever it likes in between.  Then no call fails and no process ends; all nodes store the same blocks
    under the group's number, one per batch with exactly its requests, numbered
    from 0 and linked by their hashes; only the signatures may differ, and those
    on every block satisfy the check of the other groups. *)
Theorem group_commits added l es cs :
  length cs = length nodes →
  (∀ i c, cs !! i = Some c → ∃ u s t m, storages !! i = Some s ∧ storage_ok inv s ∧
     NewLocalConsensusController added nodes (Z.of_nat i) u s t m = Some (Some c)) →
  Forall good_event (NewLeader l :: es) → Z.of_nat (length (decisions es)) < 2 ^ 64 →
  ∃ cs' hs, engine_run None cs (NewLeader l :: es) = Some cs' ∧ length cs' = length nodes ∧
    ∀ i c', cs' !! i = Some c' → ∃ bs,
      (s ← storages !! i; insert_all s ((λ b, (g, b)) <$> bs)) = Some (_storage c') ∧
      header <$> bs = hs ∧ (λ b, userRequests (body b)) <$> bs = decisions es ∧ chain sha bs ∧
      ∀ j b, bs !! j = Some b → number (header b) = Z.of_nat j ∧ signed_block verify b.
Proof using HZ HPB sha_ok HL group_size in_group keys. apply group_decides. Qed.

End group.

(** ** Ids from the network *)
Section faults.
Context `{ZP : Zpp} `{PB : Protobuf} {C : Type} `{BC : BlockContainer C} (sha : string → HashString)
  (sign : string → string → option DigestString).

(** A node id from the network below zero ends the process, as does any unknown
    one in a decision. *)
Lemma negative_id_ends c id p : id < 0 →
  requestProposal (C := C) sha sign c (mkRequest id 0 p) = None ∧ verifyProposal sha sign c (mkRequest id 0 p) = None ∧
  signProposal c (mkRequest id 0 p) = None ∧ leaderStart c (mkRequest id 0 p) = None.
Proof using Type.
  intros H. unfold requestProposal, verifyProposal, signProposal, leaderStart, with_node. cbn [localid].
  rewrite (proj2 (Z.leb_gt _ _)) by lia. unfold at_. by rewrite (proj2 (Z.ltb_lt _ _)) by lia.
Qed.

Lemma unknown_id_ends (c : Controller C) id s message content :
  ParseProposal s = Some message → ParseTOMMessage message = Some content → Z.of_nat (length (_localNodes c)) <= id →
  deliver c (mkDeliver id 0 s [] []) = None.
Proof using Type.
  intros H1 H2 H. unfold deliver. cbn [proposevalue contents signatures d_localid length read_signatures]. rewrite H1, H2. cbn [mbind option_bind].
  unfold at_. rewrite (proj2 (Z.ltb_ge _ _)) by lia. by rewrite lookup_ge_None_2 by lia.
Qed.

End faults.

(** ** A concrete group *)
#[local] Existing Instance LE.zpp.
#[local] Existing Instance LE.zpp_laws.

#[local] Instance plain_protobuf : Protobuf := {
  ParseProposal := Some; ParseTOMMessage := Some; SerializeProposal := id; SerializeTOMMessage := id }.

#[local] Instance plain_laws : ProtobufLaws plain_protobuf.
Proof. by split. Qed.

Definition duo : list NodeConfig := [RaftFSM.mkNode 0 1 "1_0" "10.0.0.1" "1.0.0.1"; RaftFSM.mkNode 1 1 "1_1" "10.0.0.2" "1.0.0.2"].
Definition duo_storage : Storage MRRegion := newStorage (mkMR 256 ∅) 2.
Definition duo_sign (name s : string) : option DigestString := Some (vreplicate 64 0).
Definition duo_util (i : Z) : option ZMQPortUtil := NewZMQPortUtil [1; 2] 1 i 51200 true.
Definition duo_controller (i : Z) : option (Controller MRRegion) :=
  u ← duo_util i; c ← NewLocalConsensusController (λ _, true) duo i u duo_storage 20 100; c.
Definition duo_events : list event :=
  [Decide (λ _, [0%nat; 1%nat]) [sample_envelop; other_envelop]; NewLeader 1; Decide (λ i, [i]) [other_envelop]].

Lemma duo_good : Forall (good_event toy_sha any_verify duo) (NewLeader 0 :: duo_events).
Proof.
  assert (vec_ok envelop_ok [sample_envelop; other_envelop]) as H1 by ok_solve.
  assert (vec_ok envelop_ok [other_envelop]) as H2 by ok_solve.
  unfold duo_events. constructor; [cbn; lia|]. constructor; [|constructor; [cbn; lia|constructor; [|constructor]]];
    (split_and!; [done|done|by intros e _|]); intros i Hi; cbn [length duo] in *; (split; [done|]).
  - split; [apply NoDup_cons; split; [set_solver|apply NoDup_singleton]|]. apply Forall_cons. split; [cbn; lia|]. apply Forall_singleton. cbn. lia.
  - split; [apply NoDup_singleton|]. by apply Forall_singleton.
Qed.

Lemma group_commits_witness :
  ∃ cs cs' hs, mapM duo_controller [0; 1] = Some cs ∧
    engine_run toy_sha duo_sign any_verify None cs (NewLeader 0 :: duo_events) = Some cs' ∧
    ∀ i c', cs' !! i = Some c' → ∃ bs,
      insert_all duo_storage ((λ b, (1%nat, b)) <$> bs) = Some (_storage c') ∧ header <$> bs = hs ∧
      (λ b, userRequests (body b)) <$> bs = [[sample_envelop; other_envelop]; [other_envelop]] ∧ chain toy_sha bs ∧
      ∀ j b, bs !! j = Some b → number (header b) = Z.of_nat j ∧ signed_block trusting b.
Proof.
  assert (match mapM duo_controller [0; 1] with Some _ => true | None => false end = true) as Hsome by (vm_compute; reflexivity).
  destruct (mapM duo_controller [0; 1]) as [cs|] eqn:E; [clear Hsome|discriminate].
  assert (∀ i c, cs !! i = Some c → (i < 2)%nat ∧ duo_controller (Z.of_nat i) = Some c) as Hcs.
  { intros i c Hc. apply mapM_Some in E. destruct (Forall2_lookup_r _ _ _ _ _ E Hc) as (z & Hz & Hd).
    destruct i as [|[|?]]; [injection Hz as <-; by split; [lia|]..|done]. }
  assert (length cs = 2%nat) as Hlen by (apply mapM_Some in E; by rewrite <-(Forall2_length _ _ _ E)).
  destruct (group_commits toy_sha toy_sha_ok duo_sign any_verify trusting 1 duo [duo_storage; duo_storage]
    mr_ok (λ c b, is_Some (blockStorage c !! b)) ltac:(done)) with (added := λ _ : Z, true) (l := 0%nat) (es := duo_events) (cs := cs)
    as (cs' & hs & Hrun & Hlen' & Hall).
  - intros node Hn. unfold duo in Hn. rewrite !elem_of_cons, elem_of_nil in Hn. destruct Hn as [->|[->|[]]]; (split; [reflexivity|vm_compute; reflexivity]).
  - intros node s _. exists (vreplicate 64 0). clear. split; [reflexivity|]. split; [|reflexivity].
    unfold arr_ok. rewrite vec_to_list_replicate. by apply Forall_replicate.
  - done.
  - intros i c Hc. destruct (Hcs i c Hc) as [Hi Hd]. unfold duo_controller in Hd.
    destruct (duo_util (Z.of_nat i)) as [u|]; [|done]. cbn [mbind option_bind] in Hd.
    destruct (NewLocalConsensusController _ _ _ _ _ _ _) as [[c0|]|] eqn:En; [|done..]. injection Hd as ->.
    exists u, duo_storage, 20, 100. split_and!; [by destruct i as [|[|?]]; [done..|lia]| |done].
    split; [done|]. by repeat constructor.
  - exact duo_good.
  - done.
  - exists cs, cs', hs. split; [reflexivity|]. split; [exact Hrun|]. intros i c' Hc'. destruct (Hall i c' Hc') as (bs & H1 & H2).
    assert (i < 2)%nat as Hi by (apply lookup_lt_Some in Hc'; by rewrite Hlen' in Hc').
    assert ([duo_storage; duo_storage] !! i = Some duo_storage) as Es by (destruct i as [|[|?]]; [reflexivity..|lia]).
    rewrite Es in H1. exists bs. split; [exact H1|exact H2].
Defined.
