(* ===== verification/Yaml.v ===== *)
(** * Yaml: what the configuration code uses of yaml-cpp

    yaml-cpp is a library outside the repository, so a document is a parameter:
    [YamlLib] lists the calls common/property.h, common/property.cpp,
    common/yaml_key_storage.h and ca/config_initializer.cpp make, [YamlLaws] the
    documented behaviour they rely on.  [None] is a [YAML::Exception].

    A [YAML::Node] is a handle into a shared tree.  All handles of this code are
    obtained from the tree by keys and used at once, so a change through a
    handle is modelled as the new tree above it ([set], [set_elem]); [Undef] is
    what indexing by a missing key yields.

    The instance at the end is a document tree on which the laws hold. *)

From S2P Require Import Prelude Decimal.
From Stdlib Require Import QArith.

Open Scope Z_scope.

Inductive NodeType := Undefined | NullNode | Scalar | Sequence | MapNode.

#[export] Instance NodeType_eq_dec : EqDecision NodeType.
Proof. solve_decision. Defined.

Class YamlLib (Node Text : Type) := {
  Undef : Node;                                      (* the result of a failed lookup *)
  Null : Node;                                       (* [YAML::Node()] *)
  kind : Node → NodeType;
  get : Node → string → option Node;                 (* [n[key]] *)
  get_at : Node → Z → option Node;                   (* [n[index]] *)
  set : Node → string → Node → option Node;          (* [n[key] = value] *)
  elems : Node → list Node;                          (* [for (it: n)] *)
  keys : Node → list Node;                           (* [it.first] of the same loop over a map *)
  set_elem : Node → nat → Node → Node;               (* a change through [it] *)
  push_back : Node → Node → option Node;
  size : Node → Z;
  of_int : Z → Node;
  of_str : string → Node;
  of_bool : bool → Node;
  of_double : Q → Node;
  as_int : Node → option Z;
  as_str : Node → option string;
  as_bool : Node → option bool;
  emit : Node → option Text;                         (* [YAML::Emitter], when it is good *)
  parse : Text → option Node;                        (* [YAML::LoadFile] of the text *)
}.

Definition IsDefined `{YamlLib Node Text} (n : Node) : bool := negb (bool_decide (kind n = Undefined)).
Definition IsNull `{YamlLib Node Text} (n : Node) : bool := bool_decide (kind n = NullNode).
Definition IsSequence `{YamlLib Node Text} (n : Node) : bool := bool_decide (kind n = Sequence).
Definition IsMap `{YamlLib Node Text} (n : Node) : bool := bool_decide (kind n = MapNode).

(** A node that can become a map by an assignment to one of its keys. *)
Definition mapish (k : NodeType) : Prop := k = Undefined ∨ k = NullNode ∨ k = MapNode.

Class YamlLaws (Node Text : Type) `{YamlLib Node Text} := {
  kind_Undef : kind Undef = Undefined;
  kind_Null : kind Null = NullNode;
  kind_int : ∀ z, kind (of_int z) = Scalar;
  kind_str : ∀ s, kind (of_str s) = Scalar;
  kind_bool : ∀ b, kind (of_bool b) = Scalar;
  get_Undef : ∀ k, get Undef k = None;
  get_at_Undef : ∀ i, get_at Undef i = None;
  get_null : ∀ n k, kind n = NullNode → get n k = Some Undef;
  get_map : ∀ n k, kind n = MapNode → is_Some (get n k);
  set_ok : ∀ n k v, mapish (kind n) → is_Some (set n k v);
  set_kind : ∀ n k v n', set n k v = Some n' → kind n' = MapNode;
  get_set : ∀ n k v n', set n k v = Some n' → get n' k = Some v;
  get_set_ne : ∀ n k k' v n', set n k v = Some n' → k ≠ k' →
    get n' k' = if bool_decide (kind n = Undefined) then Some Undef else get n k';
  elems_empty : ∀ n, kind n = Undefined ∨ kind n = NullNode → elems n = [];
  push_ok : ∀ n v, kind n = Undefined ∨ kind n = NullNode ∨ kind n = Sequence →
    ∃ n', push_back n v = Some n' ∧ kind n' = Sequence ∧ elems n' = elems n ++ [v];
  size_seq : ∀ n, kind n = Sequence → size n = Z.of_nat (length (elems n));
  size_map : ∀ n (ks : list string), kind n = MapNode → NoDup ks →
    (∀ k, k ∈ ks → ∃ v, get n k = Some v ∧ kind v ≠ Undefined) → Z.of_nat (length ks) <= size n;
  get_at_seq : ∀ n i, kind n = Sequence →
    get_at n i = Some (if i <? 0 then Undef else default Undef (elems n !! Z.to_nat i));
  elems_set_elem : ∀ n i v, kind n = Sequence → elems (set_elem n i v) = <[i := v]> (elems n);
  kind_set_elem : ∀ n i v, kind n = Sequence → kind (set_elem n i v) = Sequence;
  int_roundtrip : ∀ z, in_int32 z → as_int (of_int z) = Some z;
  str_roundtrip : ∀ s, as_str (of_str s) = Some s;
  bool_roundtrip : ∀ b, as_bool (of_bool b) = Some b;
  as_int_Undef : as_int Undef = None;
  as_str_Undef : as_str Undef = None;
  as_bool_Undef : as_bool Undef = None;
  parse_emit : ∀ n t, emit n = Some t → parse t = Some n;
}.

(** ** Consequences used by every client *)
Section laws.
Context {Node Text : Type} {lib : YamlLib Node Text} {laws : YamlLaws Node Text}.

Lemma IsDefined_true (n : Node) : IsDefined n = true ↔ kind n ≠ Undefined.
Proof using Type. unfold IsDefined. case_bool_decide; by split. Qed.

Lemma get_unset (n : Node) (k k' : string) (v n' : Node) :
  set n k v = Some n' → k ≠ k' → mapish (kind n) → kind n ≠ Undefined → get n' k' = get n k'.
Proof using laws. intros H Hne _ Hk. rewrite (get_set_ne _ _ _ _ _ H Hne). by case_bool_decide. Qed.

(** Assignments in a row, to a node that is or becomes a map. *)
Fixpoint set_all (n : Node) (kvs : list (string * Node)) : option Node :=
  match kvs with
  | [] => Some n
  | (k, v) :: kvs => n ← set n k v; set_all n kvs
  end.

(** The value a key has last in a list of assignments. *)
Fixpoint assigned (kvs : list (string * Node)) (k : string) : option Node :=
  match kvs with
  | [] => None
  | (k', v) :: kvs => match assigned kvs k with Some w => Some w | None => if String.eqb k' k then Some v else None end
  end.

Lemma set_all_spec (kvs : list (string * Node)) : ∀ n : Node,
  mapish (kind n) → kvs ≠ [] →
  ∃ n', set_all n kvs = Some n' ∧ kind n' = MapNode ∧
    ∀ k, get n' k = match assigned kvs k with
                    | Some v => Some v
                    | None => if bool_decide (kind n = Undefined) then Some Undef else get n k
                    end.
Proof using laws.
  induction kvs as [|[k v] kvs IH]; intros n Hn Hne; [done|].
  destruct (set_ok n k v Hn) as [n1 H1]. pose proof (set_kind _ _ _ _ H1) as K1. cbn [set_all assigned]. rewrite H1.
  cbn [mbind option_bind].
  assert (∀ k', get n1 k' = if String.eqb k k' then Some v
    else if bool_decide (kind n = Undefined) then Some Undef else get n k') as G1.
  { intros k'. destruct (String.eqb_spec k k') as [<-|E]; [by eapply get_set|]. by apply (get_set_ne _ _ _ _ _ H1). }
  destruct (decide (kvs = [])) as [->|Hkv].
  - exists n1. cbn [set_all assigned]. split_and!; [done|done|]. intros k'. rewrite G1. by destruct (String.eqb k k').
  - destruct (IH n1) as (n' & Hs & Hk & Hg); [right; right; done|done|]. exists n'. split_and!; [done|done|].
    intros k'. rewrite Hg, (bool_decide_false (kind n1 = Undefined)) by congruence.
    destruct (assigned kvs k') as [w|]; [done|]. rewrite G1. by destruct (String.eqb k k').
Qed.

End laws.

(** ** A document tree *)
Module Tree.

Inductive node :=
| YUndef | YNull
| YScalar (s : string)
| YSeq (l : list node)
| YMap (l : list (string * node)).

Definition node_kind (n : node) : NodeType :=
  match n with
  | YUndef => Undefined | YNull => NullNode | YScalar _ => Scalar | YSeq _ => Sequence | YMap _ => MapNode
  end.

Fixpoint assoc (l : list (string * node)) (k : string) : node :=
  match l with
  | [] => YUndef
  | (k', v) :: l => if bool_decide (k' = k) then v else assoc l k
  end.

Fixpoint assoc_set (l : list (string * node)) (k : string) (v : node) : list (string * node) :=
  match l with
  | [] => [(k, v)]
  | (k', v') :: l => if bool_decide (k' = k) then (k, v) :: l else (k', v') :: assoc_set l k v
  end.

Definition node_get (n : node) (k : string) : option node :=
  match n with
  | YUndef | YScalar _ => None
  | YNull | YSeq _ => Some YUndef
  | YMap l => Some (assoc l k)
  end.

Definition node_get_at (n : node) (i : Z) : option node :=
  match n with
  | YUndef | YScalar _ => None
  | YNull | YMap _ => Some YUndef
  | YSeq l => Some (if i <? 0 then YUndef else default YUndef (l !! Z.to_nat i))
  end.

Definition node_set (n : node) (k : string) (v : node) : option node :=
  match n with
  | YUndef | YNull => Some (YMap [(k, v)])
  | YMap l => Some (YMap (assoc_set l k v))
  | YScalar _ | YSeq _ => None
  end.

Definition node_elems (n : node) : list node := match n with YSeq l => l | _ => [] end.
Definition node_keys (n : node) : list node := match n with YMap l => YScalar <$> l.*1 | _ => [] end.
Definition node_set_elem (n : node) (i : nat) (v : node) : node :=
  match n with YSeq l => YSeq (<[i := v]> l) | _ => n end.
Definition node_push (n v : node) : option node :=
  match n with
  | YUndef | YNull => Some (YSeq [v])
  | YSeq l => Some (YSeq (l ++ [v]))
  | _ => None
  end.
Definition node_size (n : node) : Z :=
  match n with
  | YSeq l => Z.of_nat (length l)
  | YMap l => Z.of_nat (length (filter (λ it, node_kind it.2 ≠ Undefined) l))
  | _ => 0
  end.

Definition scalar_int (s : string) : option Z :=
  z ← stoi s; if bool_decide (to_string z = s) then Some z else None.
Definition node_int (n : node) : option Z := match n with YScalar s => scalar_int s | _ => None end.
Definition node_str (n : node) : option string := match n with YScalar s => Some s | _ => None end.
Definition bool_string (b : bool) : string := if b then "true" else "false".
Definition node_bool (n : node) : option bool :=
  match n with
  | YScalar s => if bool_decide (s = "true") then Some true else if bool_decide (s = "false") then Some false else None
  | _ => None
  end.
Definition double_string (q : Q) : string := to_string (Qnum q) +:+ "/" +:+ to_string (Zpos (Qden q)).

Definition lib : YamlLib node node := {|
  Undef := YUndef; Null := YNull; kind := node_kind; get := node_get; get_at := node_get_at; set := node_set;
  elems := node_elems; keys := node_keys; set_elem := node_set_elem; push_back := node_push; size := node_size;
  of_int := λ z, YScalar (to_string z); of_str := YScalar; of_bool := λ b, YScalar (bool_string b);
  of_double := λ q, YScalar (double_string q);
  as_int := node_int; as_str := node_str; as_bool := node_bool; emit := Some; parse := Some |}.

Lemma assoc_set_eq l k v : assoc (assoc_set l k v) k = v.
Proof.
  induction l as [|[k' v'] l IH]; cbn; [by rewrite bool_decide_true|].
  case_bool_decide; cbn; [by rewrite bool_decide_true|]. by rewrite bool_decide_false.
Qed.

Lemma assoc_set_ne l k k' v : k ≠ k' → assoc (assoc_set l k v) k' = assoc l k'.
Proof.
  intros Hne. induction l as [|[k1 v1] l IH]; cbn; [by rewrite bool_decide_false|].
  case_bool_decide; subst; cbn; [by rewrite !bool_decide_false by done|]. by rewrite IH.
Qed.

Lemma assoc_defined l k : node_kind (assoc l k) ≠ Undefined →
  k ∈ (filter (λ it : string * node, node_kind it.2 ≠ Undefined) l).*1.
Proof.
  induction l as [|[k' v'] l IH]; cbn [assoc]; [done|]. case_bool_decide as E; intros H.
  - subst k'. rewrite filter_cons_True by done. cbn. set_solver.
  - specialize (IH H). rewrite filter_cons. case_decide; cbn; set_solver.
Qed.

#[local] Existing Instance lib.

Lemma tree_laws : YamlLaws node node.
Proof.
  constructor; try done.
  - by intros [].
  - intros [] k; cbn; intros; try done; by eexists.
  - intros [] k v [H|[H|H]]; cbn in *; try done; by eexists.
  - by intros [] k v n' [= <-].
  - intros [] k v n' [= <-]; cbn; [by rewrite bool_decide_true..|]. by rewrite assoc_set_eq.
  - intros [] k k' v n' [= <-] Hne; cbn; [by rewrite bool_decide_false..|]. by rewrite assoc_set_ne.
  - intros []; cbn; by intros [].
  - intros [] v; cbn; try (by intros [|[|]]); eauto.
  - by intros [].
  - intros [] ks; try done. intros _ Hd Hks. cbn [size lib node_size].
    rewrite <-(length_fmap fst). apply Nat2Z.inj_le, submseteq_length, NoDup_submseteq; [done|].
    intros k Hk. apply assoc_defined. destruct (Hks k Hk) as (v & [= <-] & Hv). done.
  - by intros [].
  - by intros [].
  - by intros [].
  - intros z Hz. cbn. unfold scalar_int. rewrite stoi_to_string by done. cbn. by rewrite bool_decide_true.
  - by intros [].
Qed.

End Tree.
