(* ===== verification/Property.v ===== *)
(** * Property: the configuration of a node

    common/property.h and common/property.cpp: the chaincodes to install, the
    nodes of every group, the identity of the local node and the settings with
    their defaults, read from and written to a YAML document ([Yaml]).

    [None] is a [YAML::Exception] that leaves the function; where the code
    returns a null pointer the result is an option inside. *)

From S2P Require Import Prelude Decimal RaftFSM ZmqPorts Yaml.

Open Scope Z_scope.

Section property.
Context {Node Text : Type} {lib : YamlLib Node Text}.

(** ** ChaincodeProperties *)
Definition INIT_ON_STARTUP : string := "init".

Definition cc_installed (n : Node) (ccName : string) : option bool :=
  x ← get n ccName; Some (IsDefined x && negb (IsNull x)).

Definition cc_installed_all (n : Node) : list string :=
  omap (λ it, let ret := default EmptyString (as_str it) in
              if bool_decide (ret = EmptyString) then None else Some ret) (keys n).

Definition NewCCNode (initOnStartup : bool) : option Node := set Null INIT_ON_STARTUP (of_bool initOnStartup).

Definition cc_install (n : Node) (ccName : string) : option Node := x ← NewCCNode true; set n ccName x.

(** ** NodeProperties *)
Definition BuildGroupKey (groupId : Z) : string := "group_" +:+ to_string groupId.

Definition getAndCheckGroup (n : Node) (groupId : Z) : option (Node * bool) :=
  list ← get n (BuildGroupKey groupId);
  Some (if negb (IsDefined list) || IsNull list || negb (IsSequence list) then (Null, false) else (list, true)).

(** Exceptions are caught: [None] is the null pointer. *)
Definition LoadNodeInfo (node : Node) : option NodeConfig :=
  nodeId ← (x ← get node "node_id"; as_int x);
  groupId ← (x ← get node "group_id"; as_int x);
  ski ← (x ← get node "ski"; as_str x);
  priIp ← (x ← get node "pri_ip"; as_str x);
  pubIp ← (x ← get node "pub_ip"; as_str x);
  Some (mkNode nodeId groupId ski priIp pubIp).

Definition getSingleNodeInfo (n : Node) (groupId nodeId : Z) : option (option NodeConfig) :=
  '(list, success) ← getAndCheckGroup n groupId;
  if negb success then Some None
  else if size list <=? nodeId then Some None
  else e ← get_at list nodeId; Some (LoadNodeInfo e).

Definition getGroupNodesInfo (n : Node) (groupId : Z) : option (list NodeConfig) :=
  '(list, success) ← getAndCheckGroup n groupId;
  if negb success then Some [] else Some (omap LoadNodeInfo (elems list)).

(** The exceptions of the whole body are caught. *)
Definition getLocalNodeInfo (n : Node) : option NodeConfig :=
  groupId ← (x ← get n "local_group_id"; as_int x);
  nodeId ← (x ← get n "local_node_id"; as_int x);
  r ← getSingleNodeInfo n groupId nodeId; r.

(** The loop ends at the first group that is missing; a map has at most [size]
    groups, so as many steps and one more are enough ([getGroupCount_total]). *)
Fixpoint count_groups (fuel : nat) (n : Node) (i : Z) : option Z :=
  match fuel with
  | O => None
  | S fuel =>
      '(_, success) ← getAndCheckGroup n i;
      if negb success then Some i else count_groups fuel n (i + 1)
  end.

Definition getGroupCount (n : Node) : option Z :=
  if negb (IsDefined n) || negb (IsMap n) then Some (-1) else count_groups (S (Z.to_nat (size n))) n 0.

Definition getGroupNodeCount (n : Node) (groupId : Z) : option Z :=
  '(list, success) ← getAndCheckGroup n groupId;
  Some (if negb success then -1 else size list).

(** [setSingleNodeInfo]: the first node with the key is overwritten in place, an
    entry whose key cannot be read is passed over; otherwise a node is added. *)
Definition overwrite (it : Node) (cfg : NodeConfig) : option Node :=
  set_all it [("node_id", of_int (nodeId cfg)); ("group_id", of_int (groupId cfg));
              ("pri_ip", of_str (priIp cfg)); ("pub_ip", of_str (pubIp cfg))].

Fixpoint find_ski (l : list Node) (i : nat) (cfg : NodeConfig) : option (nat * Node) :=
  match l with
  | [] => None
  | it :: l =>
      match (s ← (x ← get it "ski"; as_str x);
             if bool_decide (s = ski cfg) then it' ← overwrite it cfg; Some (i, it') else None) with
      | Some r => Some r
      | None => find_ski l (S i) cfg
      end
  end.

Definition newNode (cfg : NodeConfig) : option Node :=
  set_all Null [("node_id", of_int (nodeId cfg)); ("group_id", of_int (groupId cfg)); ("ski", of_str (ski cfg));
                ("pri_ip", of_str (priIp cfg)); ("pub_ip", of_str (pubIp cfg))].

Definition setSingleNodeInfo (n : Node) (cfg : NodeConfig) : option Node :=
  let groupKey := BuildGroupKey (groupId cfg) in
  list ← get n groupKey;
  list' ← match find_ski (elems list) 0 cfg with
          | Some (i, it) => Some (set_elem list i it)
          | None => node ← newNode cfg; push_back list node
          end;
  set n groupKey list'.

Definition setLocalNodeInfo (n : Node) (groupId nodeId : Z) : option Node :=
  set_all n [("local_group_id", of_int groupId); ("local_node_id", of_int nodeId)].

(** ** Properties *)
Definition CHAINCODE_PROPERTIES : string := "chaincode".
Definition NODES_PROPERTIES : string := "nodes".

Definition getChaincodeProperties (p : Node) : option Node := get p CHAINCODE_PROPERTIES.
Definition getNodeProperties (p : Node) : option Node := get p NODES_PROPERTIES.

(** A change through the handle [_node[key]]. *)
Definition through (p : Node) (key : string) (f : Node → option Node) : option Node :=
  n ← get p key; n' ← f n; set p key n'.

Definition SetProperties (p : Node) (key : string) (value : Node) : option Node := set p key value.

(** [getCustomProperties]: the [reset] of a missing node changes a temporary
    handle only, so the handle is the (perhaps undefined) node of the key. *)
Definition getCustomProperties (p : Node) (key : string) : option Node := get p key.

Definition getCustomPropertiesOrPanic (p : Node) (key : string) : option Node :=
  x ← get p key; if IsDefined x then Some x else None.

(** [try { _node[key].as<T>() } catch]. *)
Definition load_or {A} (as_T : Node → option A) (dflt : A) (p : Node) (key : string) : A :=
  default dflt (x ← get p key; as_T x).

Definition getStartBlockNumber (p : Node) (groupId : Z) : Z :=
  default 0 (x ← get p "start_at"; y ← get_at x groupId; as_int y).
Definition isDistributedSetting (p : Node) : bool := load_or as_bool false p "distributed".
Definition replicatorLowestPort (p : Node) : Z :=
  let port := load_or as_int 51200 p "replicator_lowest_port" in
  if (port <=? 0) || (65535 <? port) then 51200 else port.
Definition getSSHInfo (p : Node) : string * string * bool :=
  match (u ← (x ← get p "ssh_username"; as_str x); w ← (x ← get p "ssh_password"; as_str x); Some (u, w)) with
  | Some (u, w) => (u, w, true)
  | None => ("user", "123456", false)
  end.
Definition getJVMPath (p : Node) : string := load_or as_str "/home/user/.jdks/corretto-16.0.2/bin/java" p "jvm_path".
Definition getRunningPath (p : Node) : string := load_or as_str "/home/user/nc_bft" p "running_path".
Definition getBlockBatchTimeoutMs (p : Node) : Z := load_or as_int 100 p "batch_timeout_ms".
Definition getBlockMaxBatchSize (p : Node) : Z := load_or as_int 200 p "batch_max_size".
Definition usingMixConcurrencyControl (p : Node) : bool := load_or as_bool false p "mix_cc".
Definition validateOnReceive (p : Node) : bool := load_or as_bool false p "validate_on_receive".

(** [hardware] is [std::thread::hardware_concurrency()]. *)
Definition getAriaWorkerCount (hardware : Z) (p : Node) : Z :=
  load_or as_int (Z.max (Z.quot (hardware * 4) 8) 1) p "aria_worker_count".
Definition getBCCSPWorkerCount (hardware : Z) (p : Node) : Z :=
  load_or as_int (Z.max hardware 1) p "bccsp_worker_count".

(** The files are a map from names to texts; [None] is the null pointer. *)
Definition present (x : Node) : bool := negb (negb (IsDefined x) || IsNull x).

Definition NewProperties (files : gmap string Text) (fileName : string) : option Node :=
  if bool_decide (fileName = EmptyString) then
    set_all Null [(CHAINCODE_PROPERTIES, Null); (NODES_PROPERTIES, Null)]
  else
    text ← files !! fileName;
    node ← parse text;
    cc ← get node CHAINCODE_PROPERTIES;
    if negb (present cc) then None else
    ns ← get node NODES_PROPERTIES;
    if negb (present ns) then None else Some node.

(** [LoadProperties] replaces the process-wide object, also by null. *)
Definition LoadProperties (files : gmap string Text) (fileName : string) : option Node * bool :=
  match NewProperties files fileName with
  | Some p => (Some p, true)
  | None => (None, false)
  end.

Definition SaveProperties (files : gmap string Text) (fileName : string) (prop : Node) : gmap string Text * bool :=
  match emit prop with
  | Some text => (<[fileName := text]> files, true)
  | None => (files, false)
  end.

(** ** The ports of a configuration (common/zmq_port_util.cpp) *)

(** [iter] gives the entries of an [std::unordered_map] in the order a loop over
    it sees them. *)
Context (iter : ∀ A : Type, list (Z * A) → list (Z * A)).

(** The entries the loop over the groups inserts. *)
Definition regionNodesCount (np : Node) : option (list (Z * Z)) :=
  count ← getGroupCount np;
  mapM (λ i, c ← getGroupNodeCount np i; Some (i, c)) (seqZ 0 count).

Definition InitPortsConfig_properties (p : Node) : option (gmap Z (list ZMQPortUtil)) :=
  np ← getNodeProperties p;
  regions ← regionNodesCount np;
  InitPortsConfig (replicatorLowestPort p) (iter _ regions) (isDistributedSetting p).

Definition InitLocalPortsConfig (p : Node) : option ZMQPortUtil :=
  np ← getNodeProperties p;
  regions ← regionNodesCount np;
  me ← getLocalNodeInfo np;
  NewZMQPortUtil_map (iter _ regions) (groupId me) (nodeId me) (replicatorLowestPort p) (isDistributedSetting p).

End property.

(** ** Keys *)
Lemma group_key_inj g g' : in_int32 g → in_int32 g' → BuildGroupKey g = BuildGroupKey g' → g = g'.
Proof. unfold BuildGroupKey. cbn. intros Hg Hg' [= H]. by apply to_string_inj. Qed.

Lemma group_key_local g : BuildGroupKey g ≠ "local_group_id" ∧ BuildGroupKey g ≠ "local_node_id".
Proof. by split. Qed.

(** ** The table of nodes

    What the document of the nodes says: the nodes of every group in order, and
    the local node.  [Rep n t loc] holds when node [n] of the document represents
    the table [t] and the local identity [loc]; the keys of groups outside the
    table are absent. *)
Notation table := (list (list NodeConfig)).

Definition upsert (cfg : NodeConfig) (l : list NodeConfig) : list NodeConfig :=
  match list_find (λ c, ski c = ski cfg) l with
  | Some (i, _) => <[i := cfg]> l
  | None => l ++ [cfg]
  end.

(** [setSingleNodeInfo] on tables, for a group that exists or is the next one. *)
Definition table_set (t : table) (cfg : NodeConfig) : table :=
  match at_ t (groupId cfg) with
  | Some l => <[Z.to_nat (groupId cfg) := upsert cfg l]> t
  | None => t ++ [[cfg]]
  end.

Section proofs.
Context {Node Text : Type} {lib : YamlLib Node Text} {laws : YamlLaws Node Text}.

Definition represents_group (x : Node) (o : option (list NodeConfig)) : Prop :=
  match o with
  | Some l => kind x = Sequence ∧ Forall2 (λ e c, kind e = MapNode ∧ LoadNodeInfo e = Some c) (elems x) l
  | None => kind x = Undefined
  end.

Record Rep (n : Node) (t : table) (loc : option (Z * Z)) : Prop := {
  rep_kind : kind n = MapNode ∨ kind n = NullNode;
  rep_size : Z.of_nat (length t) < 2 ^ 31;
  rep_group : ∀ g, in_int32 g → ∃ x, get n (BuildGroupKey g) = Some x ∧ represents_group x (at_ t g);
  rep_local : ∀ g k, loc = Some (g, k) →
    (x ← get n "local_group_id"; as_int x) = Some g ∧ (x ← get n "local_node_id"; as_int x) = Some k;
}.

(** *** Reading *)
Lemma group_found n t loc g : Rep n t loc → in_int32 g →
  match at_ t g with
  | Some l => ∃ x, getAndCheckGroup n g = Some (x, true) ∧ represents_group x (Some l)
  | None => getAndCheckGroup n g = Some (Null, false)
  end.
Proof using laws.
  intros R Hg. destruct (rep_group _ _ _ R g Hg) as (x & Hx & Hr). unfold getAndCheckGroup. rewrite Hx.
  cbn [mbind option_bind]. unfold IsDefined, IsNull, IsSequence. destruct (at_ t g) as [l|]; cbn in Hr.
  - destruct Hr as [Hk Hf]. exists x. rewrite Hk. by split.
  - by rewrite Hr.
Qed.

Lemma loaded es l : Forall2 (λ e c, kind e = MapNode ∧ LoadNodeInfo e = Some c) es l → omap LoadNodeInfo es = l.
Proof using Type. induction 1 as [|e c es l [_ He] _ IH]; [done|]. cbn. by rewrite He, IH. Qed.

Lemma nodes_info n t loc g : Rep n t loc → in_int32 g → getGroupNodesInfo n g = Some (default [] (at_ t g)).
Proof using laws.
  intros R Hg. pose proof (group_found _ _ _ _ R Hg) as H. unfold getGroupNodesInfo.
  destruct (at_ t g) as [l|]; [|by rewrite H]. destruct H as (x & -> & _ & Hf).
  cbn [mbind option_bind negb]. by rewrite (loaded _ _ Hf).
Qed.

Lemma node_count n t loc g : Rep n t loc → in_int32 g →
  getGroupNodeCount n g = Some (default (-1) ((λ l, Z.of_nat (length l)) <$> at_ t g)).
Proof using laws.
  intros R Hg. pose proof (group_found _ _ _ _ R Hg) as H. unfold getGroupNodeCount.
  destruct (at_ t g) as [l|]; [|by rewrite H]. destruct H as (x & -> & Hk & Hf).
  cbn [mbind option_bind negb]. rewrite size_seq by done. by rewrite (Forall2_length _ _ _ Hf).
Qed.


Lemma load_undef : LoadNodeInfo Undef = None.
Proof using laws. unfold LoadNodeInfo. by rewrite (get_Undef "node_id"). Qed.

Lemma single_info n t loc g i : Rep n t loc → in_int32 g →
  getSingleNodeInfo n g i = Some (l ← at_ t g; at_ l i).
Proof using laws.
  intros R Hg. pose proof (group_found _ _ _ _ R Hg) as H. unfold getSingleNodeInfo.
  destruct (at_ t g) as [l|]; [|by rewrite H]. destruct H as (x & -> & Hk & Hf).
  cbn [mbind option_bind negb]. rewrite size_seq, get_at_seq, (Forall2_length _ _ _ Hf) by done. unfold at_.
  destruct (Z.leb_spec (Z.of_nat (length l)) i).
  { destruct (Z.ltb_spec i 0); [lia|]. by rewrite lookup_ge_None_2 by lia. }
  cbn [mbind option_bind]. destruct (Z.ltb_spec i 0); [by rewrite load_undef|].
  destruct (lookup_lt_is_Some_2 l (Z.to_nat i)) as [c Hc]; [lia|]. rewrite Hc.
  destruct (Forall2_lookup_r _ _ _ _ _ Hf Hc) as (e & -> & _ & He). cbn. by rewrite He.
Qed.

Lemma local_info n t g k : Rep n t (Some (g, k)) → in_int32 g →
  getLocalNodeInfo n = (l ← at_ t g; at_ l k).
Proof using laws.
  intros R Hg. unfold getLocalNodeInfo. destruct (rep_local _ _ _ R g k eq_refl) as [-> ->].
  cbn [mbind option_bind]. by rewrite (single_info _ _ _ _ _ R Hg).
Qed.

(** *** The count of groups *)
Definition has_group (n : Node) (i : Z) : Prop := ∃ x, getAndCheckGroup n i = Some (x, true).

Lemma count_from fuel n i k :
  (∀ j, i <= j < i + Z.of_nat k → has_group n j) → (k < fuel)%nat →
  getAndCheckGroup n (i + Z.of_nat k) = Some (Null, false) → count_groups fuel n i = Some (i + Z.of_nat k).
Proof using Type.
  revert fuel i. induction k as [|k IH]; intros [|fuel] i Hh Hf Hn; [lia| |lia|]; cbn [count_groups].
  - rewrite Z.add_0_r in Hn |- *. by rewrite Hn.
  - destruct (Hh i) as [x ->]; [lia|]. cbn [mbind option_bind negb].
    replace (i + Z.of_nat (S k)) with (i + 1 + Z.of_nat k) in Hn |- * by lia.
    apply IH; [|lia|done]. intros j Hj. apply Hh. lia.
Qed.

Lemma count_map n : kind n = MapNode → getGroupCount n = count_groups (S (Z.to_nat (size n))) n 0.
Proof using Type. intros Hk. unfold getGroupCount, IsDefined, IsMap. by rewrite Hk. Qed.

(** A map does not have more groups than entries. *)
Lemma groups_bounded n k :
  kind n = MapNode → Z.of_nat k < 2 ^ 31 → (∀ j, 0 <= j < Z.of_nat k → has_group n j) → Z.of_nat k <= size n.
Proof using laws.
  intros Hk Hb Hh.
  replace (Z.of_nat k) with (Z.of_nat (length (BuildGroupKey <$> seqZ 0 (Z.of_nat k)))) at 1
    by (rewrite length_fmap, length_seqZ; lia).
  apply size_map; [done| |].
  - apply NoDup_fmap_2_strong; [|apply NoDup_seqZ]. intros x y Hx%elem_of_seqZ Hy%elem_of_seqZ.
    apply group_key_inj; unfold in_int32; lia.
  - intros key (j & -> & Hj%elem_of_seqZ)%list_elem_of_fmap. destruct (Hh j) as [x Hx]; [lia|].
    unfold getAndCheckGroup in Hx. destruct (get n (BuildGroupKey j)) as [y|]; [|done]. exists y. split; [done|].
    intros E. cbn [mbind option_bind] in Hx. unfold IsDefined in Hx. by rewrite E in Hx.
Qed.

(** The loop of [getGroupCount] ends, at the first missing group. *)
Lemma getGroupCount_total n :
  kind n = MapNode → size n < 2 ^ 31 - 1 →
  ∃ c, getGroupCount n = Some c ∧ (∀ j, 0 <= j < c → has_group n j) ∧ ~ has_group n c.
Proof using laws.
  intros Hk Hs.
  assert (∀ j, has_group n j ∨ getAndCheckGroup n j = Some (Null, false)) as Hd.
  { intros j. unfold has_group, getAndCheckGroup. destruct (get_map n (BuildGroupKey j) Hk) as [x ->].
    cbn [mbind option_bind]. case_match; eauto. }
  assert (∃ k : nat, (∀ j, 0 <= j < Z.of_nat k → has_group n j) ∧ getAndCheckGroup n (Z.of_nat k) = Some (Null, false))
    as (k & Hin & Hout).
  { assert (∀ m : nat, (∃ k : nat, (∀ j, 0 <= j < Z.of_nat k → has_group n j) ∧
        getAndCheckGroup n (Z.of_nat k) = Some (Null, false)) ∨ ∀ j, 0 <= j < Z.of_nat m → has_group n j) as Hm.
    { induction m as [|m [Hk'|IH]]; [right; lia|by left|]. destruct (Hd (Z.of_nat m)) as [Hf|Hf]; [right|eauto].
      intros j Hj. destruct (decide (j = Z.of_nat m)) as [->|]; [done|]. apply IH. lia. }
    destruct (Hm (S (Z.to_nat (size n)))) as [Hk'|Hall]; [done|].
    apply (groups_bounded n _ Hk) in Hall; lia. }
  exists (Z.of_nat k). split_and!; [|done|intros [x Hx]; congruence].
  rewrite count_map by done. rewrite (count_from _ n 0 k); [done|done| |done].
  assert (Z.of_nat k <= size n); [|lia]. apply groups_bounded; [done| |done].
  destruct (Z.le_gt_cases (Z.of_nat k) (size n)); [lia|]. destruct (decide (k = 0%nat)); [lia|].
  pose proof (groups_bounded n (S (Z.to_nat (size n))) Hk) as Hall.
  assert (Z.of_nat (S (Z.to_nat (size n))) <= size n); [|lia]. apply Hall; [lia|].
  intros j Hj. apply Hin. lia.
Qed.

Lemma at_lt {A} (l : list A) i : 0 <= i < Z.of_nat (length l) → is_Some (at_ l i).
Proof using Type. intros H. unfold at_. destruct (Z.ltb_spec i 0); [lia|]. apply lookup_lt_is_Some_2. lia. Qed.
Lemma at_ge {A} (l : list A) i : Z.of_nat (length l) <= i → at_ l i = None.
Proof using Type. intros H. unfold at_. destruct (Z.ltb_spec i 0); [done|]. apply lookup_ge_None_2. lia. Qed.

Lemma group_count n t loc : Rep n t loc → kind n = MapNode → getGroupCount n = Some (Z.of_nat (length t)).
Proof using laws.
  intros R Hk. pose proof (rep_size _ _ _ R) as Hb.
  assert (∀ j, 0 <= j < Z.of_nat (length t) → has_group n j) as Hin.
  { intros j Hj. pose proof (group_found _ _ _ j R) as H. destruct (at_lt t j Hj) as [l E]. rewrite E in H.
    destruct H as (x & Hx & _); [unfold in_int32; lia|]. by exists x. }
  rewrite count_map by done. rewrite (count_from _ n 0 (length t)); [done|done| |].
  - pose proof (groups_bounded n (length t) Hk Hb Hin). lia.
  - destruct (decide (Z.of_nat (length t) = 2 ^ 31)) as [?|?]; [lia|].
    pose proof (group_found _ _ _ (Z.of_nat (length t)) R) as H. rewrite at_ge in H by lia.
    apply H. unfold in_int32. lia.
Qed.

(** *** Writing *)
Definition int_ids (cfg : NodeConfig) : Prop := in_int32 (nodeId cfg) ∧ in_int32 (groupId cfg).

Lemma load_ski e c : LoadNodeInfo e = Some c → (x ← get e "ski"; as_str x) = Some (ski c).
Proof using Type.
  unfold LoadNodeInfo. intros H.
  destruct (x ← get e "node_id"; as_int x) as [?|]; [|done]. cbn [mbind option_bind] in H.
  destruct (x ← get e "group_id"; as_int x) as [?|]; [|done]. cbn [mbind option_bind] in H.
  destruct (x ← get e "ski"; as_str x) as [s|] eqn:Es; [|done]. cbn [mbind option_bind] in H.
  destruct (x ← get e "pri_ip"; as_str x) as [?|]; [|done]. cbn [mbind option_bind] in H.
  destruct (x ← get e "pub_ip"; as_str x) as [?|]; [|done]. cbn [mbind option_bind] in H.
  by simplify_eq.
Qed.

Lemma overwrite_spec e c cfg :
  kind e = MapNode → LoadNodeInfo e = Some c → ski c = ski cfg → int_ids cfg →
  ∃ e', overwrite e cfg = Some e' ∧ kind e' = MapNode ∧ LoadNodeInfo e' = Some cfg.
Proof using laws.
  intros Hk Hl Hs [Hn Hg]. unfold overwrite.
  match goal with |- context [set_all e ?kvs] => destruct (set_all_spec kvs e) as (e' & -> & K & G) end;
    [by right; right|done|].
  exists e'. split_and!; [done|done|]. unfold LoadNodeInfo. rewrite !G, Hk. cbn.
  rewrite !int_roundtrip, !str_roundtrip by done. cbn. pose proof (load_ski e c Hl) as Hx.
  rewrite bool_decide_false by done. rewrite Hx. cbn. rewrite Hs. by destruct cfg.
Qed.

Lemma newNode_spec cfg : int_ids cfg → ∃ e, newNode cfg = Some e ∧ kind e = MapNode ∧ LoadNodeInfo e = Some cfg.
Proof using laws.
  intros [Hn Hg]. unfold newNode.
  match goal with |- context [set_all Null ?kvs] => destruct (set_all_spec kvs Null) as (e' & -> & K & G) end;
    [right; left; apply kind_Null|done|].
  exists e'. split_and!; [done|done|]. unfold LoadNodeInfo. rewrite !G. cbn.
  rewrite !int_roundtrip, !str_roundtrip by done. cbn. by destruct cfg.
Qed.

Notation loads := (λ e c, kind e = MapNode ∧ LoadNodeInfo e = Some c).

Lemma find_ski_spec es l cfg : int_ids cfg → Forall2 loads es l → ∀ k,
  match list_find (λ c, ski c = ski cfg) l with
  | Some (i, _) => ∃ e, find_ski es k cfg = Some ((k + i)%nat, e) ∧ kind e = MapNode ∧ LoadNodeInfo e = Some cfg
  | None => find_ski es k cfg = None
  end.
Proof using laws.
  intros Hi. induction 1 as [|e c es l [Hk Hl] _ IH]; intros k; [done|].
  cbn [list_find find_ski]. rewrite (load_ski e c Hl). cbn [mbind option_bind].
  destruct (decide (ski c = ski cfg)) as [E|E].
  - rewrite bool_decide_true by done. destruct (overwrite_spec e c cfg Hk Hl E Hi) as (e' & -> & ? & ?).
    cbn [mbind option_bind]. exists e'. by rewrite Nat.add_0_r.
  - rewrite bool_decide_false by done. specialize (IH (S k)).
    destruct (list_find (λ c, ski c = ski cfg) l) as [[i c']|]; [|done]. cbn [fmap option_fmap option_map prod_map].
    cbn. destruct IH as (e' & -> & ? & ?). exists e'. split; [|done]. do 2 f_equal. lia.
Qed.

(** The list of a group, present or not, with one node set. *)
Lemma set_in_group x o cfg : int_ids cfg → represents_group x o →
  ∃ x', (match find_ski (elems x) 0 cfg with
         | Some (i, it) => Some (set_elem x i it)
         | None => node ← newNode cfg; push_back x node
         end) = Some x' ∧ represents_group x' (Some (upsert cfg (default [] o))).
Proof using laws.
  intros Hi Hr.
  assert (Forall2 loads (elems x) (default [] o)) as Hf.
  { destruct o as [l|]; [by destruct Hr|]. cbn in Hr. rewrite elems_empty by by left. constructor. }
  assert (kind x = Undefined ∨ kind x = NullNode ∨ kind x = Sequence) as Hk.
  { destruct o; cbn in Hr; [destruct Hr|]; auto. }
  pose proof (find_ski_spec _ _ _ Hi Hf 0) as H. unfold upsert.
  destruct (list_find (λ c, ski c = ski cfg) (default [] o)) as [[i c]|] eqn:E.
  - destruct H as (e & -> & Hke & Hle). cbn [Nat.add].
    destruct o as [l|]; [|done]. destruct Hr as [Hs _]. exists (set_elem x i e). split; [done|].
    split; [by apply kind_set_elem|]. rewrite elems_set_elem by done. by apply Forall2_insert.
  - rewrite H. destruct (newNode_spec cfg Hi) as (e & -> & Hke & Hle). cbn [mbind option_bind].
    destruct (push_ok x e Hk) as (x' & -> & Hkx & Hex). exists x'. split; [done|]. split; [done|].
    rewrite Hex. apply Forall2_app; [done|]. by repeat constructor.
Qed.

Lemma at_table_set t cfg g : 0 <= groupId cfg <= Z.of_nat (length t) →
  at_ (table_set t cfg) g =
    if bool_decide (g = groupId cfg) then Some (upsert cfg (default [] (at_ t g))) else at_ t g.
Proof using Type.
  intros Hg. unfold table_set. case_bool_decide as E.
  - subst g. destruct (at_ t (groupId cfg)) as [l|] eqn:El.
    + apply at_Some in El as [? El]. apply at_Some. split; [done|]. by eapply list_lookup_insert_eq, lookup_lt_Some.
    + assert (groupId cfg = Z.of_nat (length t)) as ->.
      { destruct (decide (groupId cfg = Z.of_nat (length t))); [done|].
        destruct (at_lt t (groupId cfg)) as [? ?]; [lia|]. congruence. }
      apply at_app_end.
  - destruct (at_ t (groupId cfg)) as [l|] eqn:El; unfold at_; destruct (Z.ltb_spec g 0); try done.
    + apply list_lookup_insert_ne. lia.
    + destruct (Z.lt_ge_cases g (Z.of_nat (length t))); [by rewrite lookup_app_l by lia|].
      rewrite (lookup_ge_None_2 t) by lia. apply lookup_ge_None_2. rewrite length_app. cbn.
      assert (groupId cfg = Z.of_nat (length t)); [|lia].
      destruct (decide (groupId cfg = Z.of_nat (length t))); [done|].
      destruct (at_lt t (groupId cfg)) as [? ?]; [lia|]. congruence.
Qed.

Lemma length_table_set t cfg : (length t <= length (table_set t cfg) <= S (length t))%nat.
Proof using Type. unfold table_set. destruct (at_ t (groupId cfg)); [rewrite list.length_insert|rewrite length_app; cbn]; lia. Qed.

Lemma set_single n t loc cfg :
  Rep n t loc → int_ids cfg → 0 <= groupId cfg <= Z.of_nat (length t) → Z.of_nat (length t) < 2 ^ 31 - 1 →
  ∃ n', setSingleNodeInfo n cfg = Some n' ∧ kind n' = MapNode ∧ Rep n' (table_set t cfg) loc.
Proof using laws.
  intros R Hi Hg Hb. unfold setSingleNodeInfo. destruct Hi as [Hi1 Hi2]. pose proof (conj Hi1 Hi2 : int_ids cfg) as Hi.
  destruct (rep_group _ _ _ R (groupId cfg) Hi2) as (x & Hx & Hr). rewrite Hx. cbn [mbind option_bind].
  destruct (set_in_group x _ cfg Hi Hr) as (x' & -> & Hr'). cbn [mbind option_bind].
  assert (kind n ≠ Undefined) as Hu by (destruct (rep_kind _ _ _ R); congruence).
  assert (mapish (kind n)) as Hm by (unfold mapish; destruct (rep_kind _ _ _ R); auto).
  destruct (set_ok n (BuildGroupKey (groupId cfg)) x' Hm) as [n' Hn']. exists n'.
  pose proof (set_kind _ _ _ _ Hn') as Hk. split_and!; [done|done|]. split.
  - by left.
  - pose proof (length_table_set t cfg). lia.
  - intros g Hg'. rewrite at_table_set by done. case_bool_decide as E.
    + subst g. exists x'. split; [by eapply get_set|done].
    + rewrite (get_unset _ _ _ _ _ Hn'); [by apply (rep_group _ _ _ R)| |done|done].
      intros F. apply E. symmetry. by apply group_key_inj.
  - intros g k Hl. destruct (rep_local _ _ _ R g k Hl) as [H1 H2]. destruct (group_key_local (groupId cfg)) as [N1 N2].
    split; [rewrite (get_unset _ _ _ _ _ Hn' N1)|rewrite (get_unset _ _ _ _ _ Hn' N2)]; done.
Qed.

Lemma set_local n t loc g k :
  Rep n t loc → in_int32 g → in_int32 k →
  ∃ n', setLocalNodeInfo n g k = Some n' ∧ kind n' = MapNode ∧ Rep n' t (Some (g, k)).
Proof using laws.
  intros R Hg Hk. unfold setLocalNodeInfo.
  match goal with |- context [set_all n ?kvs] => destruct (set_all_spec kvs n) as (n' & -> & K & G) end;
    [unfold mapish; destruct (rep_kind _ _ _ R); auto|done|].
  assert (kind n ≠ Undefined) as Hu by (destruct (rep_kind _ _ _ R); congruence).
  exists n'. split_and!; [done|done|]. split; [by left|by apply R| |].
  - intros g' Hg'. rewrite G, bool_decide_false by done. destruct (group_key_local g') as [N1 N2]. cbn.
    by apply (rep_group _ _ _ R).
  - intros g' k' [= <- <-]. rewrite !G. cbn. by rewrite !int_roundtrip by done.
Qed.

Lemma empty_table n : kind n = NullNode → Rep n [] None.
Proof using laws.
  intros Hk. split; [by right|done| |done]. intros g _. exists Undef. split; [by apply get_null|].
  unfold at_. destruct (g <? 0); apply kind_Undef.
Qed.

End proofs.
