(* ===== verification/Crypto.v ===== *)
(** * Crypto: hexadecimal text, digests and Ed25519 keys

    common/crypto.h: [bytesToString]/[stringToBytes], the digest objects
    ([OpenSSLHash]) and the key wrappers ([OpenSSLPKCS], [LightweightED25519]).
    OpenSSL and the Ed25519 verifier are outside the repository: [EvpLib] lists
    the calls that are made, [EvpLaws] what is documented of them. *)

From S2P Require Import Prelude Zpp Decimal.
From Stdlib Require Import Ascii.

Open Scope Z_scope.

(** ** Hexadecimal text *)
Definition hAlpha : string := "0123456789abcdef".

Definition hex_digit (v : Z) : ascii := default "0"%char (String.get (Z.to_nat v) hAlpha).

Fixpoint bytesToString (md : string) : string :=
  match md with
  | EmptyString => EmptyString
  | String b md =>
      let b := Z.of_nat (nat_of_ascii b) in
      String (hex_digit (Z.land (Z.shiftr b 4) 15)) (String (hex_digit (Z.land b 15)) (bytesToString md))
  end.

Definition hex_val (c : ascii) : option Z :=
  let z := Z.of_nat (nat_of_ascii c) in
  if (48 <=? z) && (z <=? 57) then Some (z - 48)
  else if (97 <=? z) && (z <=? 102) then Some (z - 87)
  else if (65 <=? z) && (z <=? 70) then Some (z - 55)
  else None.

(** [strtol(target, nullptr, 16)] of two characters: a space is skipped, a sign
    read, and the first character that is not a digit ends the number. *)
Definition strtol16 (a b : ascii) : Z :=
  if isspace a then default 0 (hex_val b)
  else if Ascii.eqb a "-" then - default 0 (hex_val b)
  else if Ascii.eqb a "+" then default 0 (hex_val b)
  else match hex_val a with
       | None => 0
       | Some x => match hex_val b with Some y => 16 * x + y | None => x end
       end.

(** [None] is the read past the end of a text of odd length. *)
Fixpoint stringToBytes (readable : string) : option string :=
  match readable with
  | EmptyString => Some EmptyString
  | String _ EmptyString => None
  | String a (String b rest) =>
      str ← stringToBytes rest; Some (String (ascii_of_nat (Z.to_nat (strtol16 a b mod 256))) str)
  end.

(** ** OpenSSL *)
Class EvpLib (PKEY MdCtx Seed : Type) := {
  EVP_DigestInit : MdCtx;
  EVP_DigestUpdate : MdCtx → string → option MdCtx;
  EVP_DigestFinal : MdCtx → option string;
  EVP_PKEY_keygen : Seed → option PKEY;
  encode_public_PEM : PKEY → option string;
  encode_keypair_PEM : PKEY → string → option string;          (* with a passphrase *)
  decode_PEM : string → string → option PKEY;
  EVP_PKEY_new_raw_private_key : string → option PKEY;
  EVP_PKEY_new_raw_public_key : string → option PKEY;
  EVP_PKEY_get_raw_private_key : PKEY → option string;
  EVP_PKEY_get_raw_public_key : PKEY → option string;
  EVP_DigestSign : PKEY → string → option string;
  EVP_DigestVerify : PKEY → string → string → bool;            (* signature, message *)
  ed25519_VerifySignature : string → string → string → bool;   (* signature, raw public key, message *)
}.

Class EvpLaws (PKEY MdCtx Seed : Type) `{EvpLib PKEY MdCtx Seed} := {
  update_app : ∀ c d d', (x ← EVP_DigestUpdate c d; EVP_DigestUpdate x d') = EVP_DigestUpdate c (d +:+ d');
  private_reread : ∀ k r, EVP_PKEY_get_raw_private_key k = Some r →
    ∃ k', EVP_PKEY_new_raw_private_key r = Some k' ∧ EVP_PKEY_get_raw_private_key k' = Some r ∧
      EVP_PKEY_get_raw_public_key k' = EVP_PKEY_get_raw_public_key k;
  private_raw : ∀ r k, EVP_PKEY_new_raw_private_key r = Some k → EVP_PKEY_get_raw_private_key k = Some r;
  private_has_public : ∀ k r, EVP_PKEY_get_raw_private_key k = Some r → is_Some (EVP_PKEY_get_raw_public_key k);
  public_reread : ∀ k p, EVP_PKEY_get_raw_public_key k = Some p →
    ∃ k', EVP_PKEY_new_raw_public_key p = Some k' ∧ EVP_PKEY_get_raw_public_key k' = Some p;
  public_raw : ∀ p k, EVP_PKEY_new_raw_public_key p = Some k → EVP_PKEY_get_raw_public_key k = Some p;
  pem_keypair : ∀ k pw s, encode_keypair_PEM k pw = Some s → decode_PEM s pw = Some k;
  pem_public : ∀ k s, encode_public_PEM k = Some s →
    ∃ k', decode_PEM s EmptyString = Some k' ∧ EVP_PKEY_get_raw_public_key k' = EVP_PKEY_get_raw_public_key k;
  keygen_private : ∀ s k, EVP_PKEY_keygen s = Some k → is_Some (EVP_PKEY_get_raw_private_key k);
  sign_verify : ∀ k p m s, EVP_PKEY_get_raw_public_key k = Some p → EVP_DigestSign k m = Some s →
    ed25519_VerifySignature s p m = true;
}.

Section crypto.
Context {PKEY MdCtx Seed : Type} {evp : EvpLib PKEY MdCtx Seed}.

(** ** OpenSSLHash *)
Definition generateDigest (d : string) : option string := c ← EVP_DigestUpdate EVP_DigestInit d; EVP_DigestFinal c.

(** The object: its context.  [final] resets it, also after a failure. *)
Definition hash_reset (ctx : MdCtx) : MdCtx := EVP_DigestInit.
Definition hash_update (ctx : MdCtx) (d : string) : MdCtx * bool :=
  match EVP_DigestUpdate ctx d with Some c => (c, true) | None => (ctx, false) end.
Definition hash_final (ctx : MdCtx) : MdCtx * option string := (hash_reset ctx, EVP_DigestFinal ctx).
Definition updateFinal (ctx : MdCtx) (d : string) : MdCtx * option string :=
  let '(ctx, ok) := hash_update ctx d in if ok then hash_final ctx else (ctx, None).

(** ** Keys *)

(** [generateKeyFiles] without the optional files; [seed] is the randomness. *)
Definition generateKeyFiles (seed : Seed) (passwd : string) : option (string * string) :=
  key ← EVP_PKEY_keygen seed;
  publicKey ← encode_public_PEM key;
  privateKey ← encode_keypair_PEM key passwd;
  Some (publicKey, privateKey).

Definition doSign (pkey : option PKEY) (d : string) : option string := k ← pkey; EVP_DigestSign k d.
Definition doVerify (pkey : option PKEY) (md d : string) : bool :=
  match pkey with Some k => EVP_DigestVerify k md d | None => false end.

(** [LightweightED25519]: the handle and the raw keys that could be read. *)
Record ED25519 := mkED { _pkey : option PKEY; _rawPubKey : option string; _rawPriKey : option string }.

Definition getHexFromKey (pkey : PKEY) (isPrivate : bool) : option string :=
  if isPrivate then EVP_PKEY_get_raw_private_key pkey else EVP_PKEY_get_raw_public_key pkey.

Definition newED25519 (pkey : option PKEY) : ED25519 :=
  match pkey with
  | None => mkED None None None
  | Some k => mkED (Some k) (getHexFromKey k false) (getHexFromKey k true)
  end.

Definition NewFromPemString (pemString password : string) : option ED25519 :=
  k ← decode_PEM pemString password; Some (newED25519 (Some k)).
(** At most 1 MiB of a file is read; an empty file is an error. *)
Definition loadPemFile (files : gmap string string) (pemPath : string) : option string :=
  buf ← files !! pemPath; if bool_decide (buf = EmptyString) then None else Some (String.substring 0 (1024 * 1024) buf).
Definition NewFromPemFile (files : gmap string string) (pemPath password : string) : option ED25519 :=
  ret ← loadPemFile files pemPath; NewFromPemString ret password.
Definition NewPrivateKeyFromHex (hex : string) : option ED25519 :=
  k ← EVP_PKEY_new_raw_private_key hex; Some (newED25519 (Some k)).
Definition NewPublicKeyFromHex (hex : string) : option ED25519 :=
  k ← EVP_PKEY_new_raw_public_key hex; Some (newED25519 (Some k)).

Definition ed_sign (k : ED25519) (d : string) : option string := doSign (_pkey k) d.
(** [None]: the raw public key is a null pointer. *)
Definition ed_verify (k : ED25519) (md d : string) : option bool :=
  p ← _rawPubKey k; Some (ed25519_VerifySignature md p d).
Definition getHexFromPublicKey (k : ED25519) : option string := _rawPubKey k.
Definition getHexFromPrivateKey (k : ED25519) : option string := _rawPriKey k.

End crypto.

Arguments ED25519 : clear implicits.

(** ** Round trip of the text *)
Lemma hex_byte b :
  let z := Z.of_nat (nat_of_ascii b) in
  ascii_of_nat (Z.to_nat (strtol16 (hex_digit (Z.land (Z.shiftr z 4) 15)) (hex_digit (Z.land z 15)) mod 256)) = b.
Proof. destruct b as [[] [] [] [] [] [] [] []]; vm_compute; reflexivity. Qed.

Lemma hex_roundtrip s : stringToBytes (bytesToString s) = Some s.
Proof.
  induction s as [|b s IH]; [done|]. cbn [bytesToString stringToBytes]. rewrite IH. cbn [mbind option_bind].
  f_equal. f_equal. apply hex_byte.
Qed.

(** ** Digests in pieces *)
Section digests.
Context {PKEY MdCtx Seed : Type} {evp : EvpLib PKEY MdCtx Seed} {laws : EvpLaws PKEY MdCtx Seed}.

(** A digest object that is updated piece by piece and finished computes the
    digest of the pieces together, and is ready for the next message. *)
Fixpoint updates (ctx : MdCtx) (ds : list string) : MdCtx * bool :=
  match ds with
  | [] => (ctx, true)
  | d :: ds => let '(ctx, ok) := hash_update ctx d in if ok then updates ctx ds else (ctx, false)
  end.

Lemma updates_spec ds : ∀ c d ctx, updates c (d :: ds) = (ctx, true) →
  EVP_DigestUpdate c (foldr String.append EmptyString (d :: ds)) = Some ctx.
Proof using laws.
  induction ds as [|d' ds IH]; intros c d ctx H; cbn [updates] in H; unfold hash_update in H at 1.
  - destruct (EVP_DigestUpdate c d) as [x|] eqn:E; [|done]. simplify_eq/=. by rewrite string_app_nil_r.
  - destruct (EVP_DigestUpdate c d) as [x|] eqn:E; [|done]. apply IH in H.
    cbn [foldr] in *. rewrite <-update_app, E. exact H.
Qed.

Lemma digest_pieces c d ds ctx : updates (hash_reset c) (d :: ds) = (ctx, true) →
  hash_final ctx = (EVP_DigestInit, generateDigest (foldr String.append EmptyString (d :: ds))).
Proof using laws. intros H%updates_spec. unfold generateDigest, hash_reset in *. rewrite H. done. Qed.

End digests.

(** ** A library with these laws

    The raw keys are texts of 32 bytes, the public key of a private key is its
    own text, and a signature is the key followed by the message. *)
Module Toy.

Definition pkey : Type := bool * string.
Definition valid_raw (r : string) : bool := (String.length r =? 32)%nat.
#[global] Arguments valid_raw : simpl never.

Definition pem (k : pkey) : string := String (if k.1 then "K"%char else "P"%char) k.2.
Definition unpem (s : string) : option pkey :=
  match s with
  | String c s => if Ascii.eqb c "K" then Some (true, s) else if Ascii.eqb c "P" then Some (false, s) else None
  | EmptyString => None
  end.

Definition lib : EvpLib pkey string string := {|
  EVP_DigestInit := EmptyString;
  EVP_DigestUpdate := λ c d, Some (c +:+ d);
  EVP_DigestFinal := Some;
  EVP_PKEY_keygen := λ s, if valid_raw s then Some (true, s) else None;
  encode_public_PEM := λ k, Some (pem (false, k.2));
  encode_keypair_PEM := λ k _, Some (pem k);
  decode_PEM := λ s _, unpem s;
  EVP_PKEY_new_raw_private_key := λ r, if valid_raw r then Some (true, r) else None;
  EVP_PKEY_new_raw_public_key := λ r, if valid_raw r then Some (false, r) else None;
  EVP_PKEY_get_raw_private_key := λ k, if k.1 && valid_raw k.2 then Some k.2 else None;
  EVP_PKEY_get_raw_public_key := λ k, if valid_raw k.2 then Some k.2 else None;
  EVP_DigestSign := λ k m, if k.1 then Some (k.2 +:+ m) else None;
  EVP_DigestVerify := λ k s m, bool_decide (s = k.2 +:+ m);
  ed25519_VerifySignature := λ s p m, bool_decide (s = p +:+ m) |}.

#[local] Existing Instance lib.

Lemma toy_laws : EvpLaws pkey string string.
Proof.
  constructor; cbn.
  - intros c d d'. by rewrite string_app_assoc.
  - intros [[] s] r; cbn; [|done]. destruct (valid_raw s) eqn:E; cbn; [|by intros]. intros [= ->]. exists (true, r). cbn. by rewrite E.
  - intros r k. destruct (valid_raw r) eqn:E; intros [= <-]. cbn. by rewrite E.
  - intros [[] s] r; cbn; [|done]. destruct (valid_raw s); [by eexists|done].
  - intros [b s] p; cbn. destruct (valid_raw s) eqn:E; cbn; [|by intros]. intros [= ->]. exists (false, p). cbn. by rewrite E.
  - intros r k. destruct (valid_raw r) eqn:E; intros [= <-]. cbn. by rewrite E.
  - by intros [[] s] pw t [= <-].
  - intros [b s] t [= <-]. by exists (false, s).
  - intros s k. destruct (valid_raw s) eqn:E; intros [= <-]. cbn. rewrite E. by eexists.
  - intros [b s] p m t; cbn. destruct (valid_raw s), b; intros [= <-]; intros [= <-]. by apply bool_decide_true.
Qed.

End Toy.
