(* ===== verification/KeyStore.v ===== *)
(** * KeyStore: the keys of a node

    common/bccsp.h and common/yaml_key_storage.h.  [BCCSP] keeps every key a node
    uses: a cache of key objects above a [KeyStorage], which is an interface with
    two implementations, a map in memory ([DefaultKeyStorage]) and a node of the
    configuration document ([YAMLKeyStorage]).  Signatures and the text of the
    keys are those of [Crypto], documents those of [Yaml].

    [None] at the outside is the end of the process: an exception nothing
    catches, or a null pointer that is read.  A null pointer that is returned or
    cached is an option inside. *)

From S2P Require Import Prelude Zpp Decimal Yaml Crypto.

Open Scope Z_scope.

(** ** The storage interface *)
Class KeyStorage (S : Type) := {
  saveKey : S → string → string → bool → bool → option (S * bool);   (* ski, raw, isPrivate, overwrite *)
  loadKey : S → string → option (option (string * bool));            (* raw, isPrivate *)
}.

(** What [BCCSP] relies on: saving with overwriting replaces the entry and no
    other, and loading never ends the process. *)
Class KeyStorageLaws (S : Type) `{KeyStorage S} (ok : S → Prop) := {
  save_overwrites : ∀ s ski raw priv, ok s →
    ∃ s', saveKey s ski raw priv true = Some (s', true) ∧ ok s' ∧
      loadKey s' ski = Some (Some (raw, priv)) ∧ ∀ ski', ski' ≠ ski → loadKey s' ski' = loadKey s ski';
  load_returns : ∀ s ski, ok s → is_Some (loadKey s ski);
}.

(** *** DefaultKeyStorage *)
Notation DefaultKeyStorage := (gmap string (string * bool)).

Definition default_saveKey (keyMap : DefaultKeyStorage) (ski raw : string) (isPrivate overwrite : bool)
    : option (DefaultKeyStorage * bool) :=
  let keyMap := if overwrite then <[ski := (raw, isPrivate)]> keyMap else keyMap in
  let keyMap := match keyMap !! ski with Some _ => keyMap | None => <[ski := (raw, isPrivate)]> keyMap end in
  Some (keyMap, true).

Definition default_loadKey (keyMap : DefaultKeyStorage) (ski : string) : option (option (string * bool)) :=
  Some (keyMap !! ski).

#[export] Instance default_storage : KeyStorage DefaultKeyStorage := { saveKey := default_saveKey; loadKey := default_loadKey }.

#[export] Instance default_storage_laws : KeyStorageLaws DefaultKeyStorage (λ _, True).
Proof.
  split; [|by intros; eexists]. intros s ski raw priv _. exists (<[ski := (raw, priv)]> s).
  cbn [saveKey loadKey default_storage]. unfold default_saveKey, default_loadKey. cbv zeta. rewrite !lookup_insert_eq. split_and!; [done|done|done|].
  intros ski' Hne. by rewrite lookup_insert_ne by done.
Qed.

(** *** YAMLKeyStorage *)
Section yaml_storage.
Context {Node Text : Type} {lib : YamlLib Node Text}.

(** The entry of a key. *)
Definition newKeyNode (raw : string) (isPrivate : bool) : option Node :=
  set_all Null [("raw", of_str (bytesToString raw)); ("private", of_bool isPrivate)].

Definition yaml_saveKey (keyMap : Node) (ski raw : string) (isPrivate overwrite : bool) : option (Node * bool) :=
  exists_ ← (if overwrite then Some false else x ← get keyMap ski; Some (IsDefined x && negb (IsNull x)));
  if (exists_ : bool) then Some (keyMap, false)
  else
    node ← newKeyNode raw isPrivate;
    keyMap ← set keyMap ski node;
    Some (keyMap, true).

Definition yaml_loadKey (keyMap : Node) (ski : string) : option (option (string * bool)) :=
  match (node ← get keyMap ski; x ← get node "raw"; raw ← as_str x; Some (node, raw)) with
  | None => Some None
  | Some (node, raw) =>
      raw ← stringToBytes raw;
      Some (x ← get node "private"; b ← as_bool x; Some (raw, b))
  end.

#[export] Instance yaml_storage : KeyStorage Node := { saveKey := yaml_saveKey; loadKey := yaml_loadKey }.

(** A document whose entries have texts of even length. *)
Definition yaml_ok (n : Node) : Prop :=
  (n = Undef ∨ kind n = NullNode ∨ kind n = MapNode) ∧
  ∀ ski e x r, get n ski = Some e → get e "raw" = Some x → as_str x = Some r → is_Some (stringToBytes r).

Context {laws : YamlLaws Node Text}.

Lemma key_node raw priv : ∃ e, newKeyNode raw priv = Some e ∧
  (x ← get e "raw"; as_str x) = Some (bytesToString raw) ∧ (x ← get e "private"; as_bool x) = Some priv.
Proof using laws.
  unfold newKeyNode. match goal with |- context [set_all Null ?kvs] => destruct (set_all_spec kvs Null) as (e & -> & K & G) end;
    [right; left; apply kind_Null|done|].
  exists e. rewrite !G. cbn. by rewrite str_roundtrip, bool_roundtrip.
Qed.

Lemma load_entry n ski e raw priv : get n ski = Some e →
  (x ← get e "raw"; as_str x) = Some (bytesToString raw) → (x ← get e "private"; as_bool x) = Some priv →
  yaml_loadKey n ski = Some (Some (raw, priv)).
Proof using Type.
  intros H Hr Hp. unfold yaml_loadKey. rewrite H. cbn [mbind option_bind].
  destruct (get e "raw") as [x|]; [|done]. cbn [mbind option_bind] in *. rewrite Hr. cbn [mbind option_bind].
  rewrite hex_roundtrip. cbn [mbind option_bind]. destruct (get e "private") as [y|]; [|done].
  cbn [mbind option_bind] in *. by rewrite Hp.
Qed.

(** An entry that is absent loads as nothing. *)
Lemma load_Undef n ski : get n ski = Some Undef → yaml_loadKey n ski = Some None.
Proof using laws. intros H. unfold yaml_loadKey. rewrite H. cbn [mbind option_bind]. by rewrite (get_Undef "raw"). Qed.

#[export] Instance yaml_storage_laws : KeyStorageLaws Node yaml_ok.
Proof using laws.
  split.
  - intros n ski raw priv [Hn Hok]. cbn [saveKey loadKey yaml_storage]. unfold yaml_saveKey. cbn [mbind option_bind].
    destruct (key_node raw priv) as (e & -> & Hr & Hp). cbn [mbind option_bind].
    assert (mapish (kind n)) as Hm by (unfold mapish; destruct Hn as [->|[]]; rewrite ?kind_Undef; auto).
    destruct (set_ok n ski e Hm) as [n' Hn']. rewrite Hn'. exists n'. split_and!; [done| | |].
    + split; [right; right; by eapply set_kind|]. intros ski' e' x r He' Hx Hr'.
      destruct (decide (ski = ski')) as [<-|Hne].
      * rewrite (get_set _ _ _ _ Hn') in He'. simplify_eq. rewrite Hx in Hr. cbn in Hr. rewrite Hr in Hr'. simplify_eq.
        rewrite hex_roundtrip. by eexists.
      * rewrite (get_set_ne _ _ _ _ _ Hn' Hne) in He'. case_bool_decide; [|by eapply Hok].
        simplify_eq. by rewrite (get_Undef "raw") in Hx.
    + eapply load_entry; [by eapply get_set|done|done].
    + intros ski' Hne. pose proof (get_set_ne _ _ ski' _ _ Hn' ltac:(done)) as Hg.
      case_bool_decide as Hu.
      * rewrite load_Undef by done. destruct Hn as [->|Hn]; [|destruct Hn; congruence].
        unfold yaml_loadKey. by rewrite (get_Undef ski').
      * unfold yaml_loadKey. by rewrite Hg.
  - intros n ski [Hn Hok]. cbn [loadKey yaml_storage]. unfold yaml_loadKey. destruct (get n ski) as [e|] eqn:E; [|by eexists].
    cbn [mbind option_bind]. destruct (get e "raw") as [x|] eqn:Ex; [|by eexists]. cbn [mbind option_bind].
    destruct (as_str x) as [r|] eqn:Er; [|by eexists]. cbn [mbind option_bind].
    destruct (Hok ski e x r E Ex Er) as [b ->]. by eexists.
Qed.

End yaml_storage.

(** ** Keys *)
Section keys.
Context {PKEY MdCtx Seed : Type} {evp : EvpLib PKEY MdCtx Seed}.
Notation ED := (ED25519 PKEY).

Record Key := mkKey {
  _ski : string;
  isPrivate : bool;
  isEphemeral : bool;
  _publicKey : ED;
  _publicBytes : option string;
  _privateKey : ED;
  _privateBytes : option string;
}.

Definition newPrivateKey (ski : string) (publicKey privateKey : ED) (ephemeral : bool) : Key :=
  mkKey ski true ephemeral publicKey (getHexFromPublicKey publicKey) privateKey (getHexFromPrivateKey privateKey).

Definition newPublicKey (ski : string) (publicKey : ED) (ephemeral : bool) : Key :=
  mkKey ski false ephemeral publicKey (getHexFromPublicKey publicKey) (newED25519 None) None.

Definition SignRaw (k : Key) (d : string) : option string :=
  if isPrivate k then ed_sign (_privateKey k) d else None.

Definition Sign (k : Key) (d : string) : option string :=
  if isPrivate k then digest ← generateDigest d; ed_sign (_privateKey k) digest else None.

Definition VerifyRaw (k : Key) (md d : string) : option bool := ed_verify (_publicKey k) md d.

Definition Verify (k : Key) (md d : string) : option bool :=
  match generateDigest d with
  | None => Some false
  | Some digest => ed_verify (_publicKey k) md digest
  end.

(** ** BCCSP *)
Section bccsp.
Context {S : Type} {ks : KeyStorage S}.

(** A cached pointer may be null ([GetKey]). *)
Record BCCSP := mkBCCSP { cache : gmap string (option Key); storage : S }.

Definition cache_key (b : BCCSP) (key : Key) : BCCSP := mkBCCSP (<[_ski key := Some key]> (cache b)) (storage b).
Definition with_storage (b : BCCSP) (s : S) : BCCSP := mkBCCSP (cache b) s.

Definition generateED25519Key (b : BCCSP) (seed : Seed) (ski : string) (ephemeral : bool) : option (BCCSP * option Key) :=
  match (pems ← generateKeyFiles seed EmptyString;
         pub ← NewFromPemString pems.1 EmptyString;
         pri ← NewFromPemString pems.2 EmptyString;
         priKeyHex ← getHexFromPrivateKey pri;
         Some (pub, pri, priKeyHex)) with
  | None => Some (b, None)
  | Some (pub, pri, priKeyHex) =>
      '(s, saved) ← (if ephemeral then Some (storage b, true) else saveKey (storage b) ski priKeyHex true true);
      let b := with_storage b s in
      if negb saved then Some (b, None)
      else let key := newPrivateKey ski pub pri ephemeral in Some (cache_key b key, Some key)
  end.

(** The storage's answer is not looked at. *)
Definition save_and_cache (b : BCCSP) (key : Key) (raw : option string) : option (BCCSP * option Key) :=
  if isEphemeral key then Some (cache_key b key, Some key)
  else
    match raw with
    | None => Some (b, None)
    | Some raw =>
        '(s, _) ← saveKey (storage b) (_ski key) raw (isPrivate key) true;
        Some (cache_key (with_storage b s) key, Some key)
    end.

Definition KeyImportPEM (b : BCCSP) (ski raw : string) (isPrivate ephemeral : bool) : option (BCCSP * option Key) :=
  if isPrivate then
    match (pri ← NewFromPemString raw EmptyString;
           ret ← getHexFromPublicKey pri;
           pub ← NewPublicKeyFromHex ret;
           Some (newPrivateKey ski pub pri ephemeral)) with
    | None => Some (b, None)
    | Some key => save_and_cache b key (_privateBytes key)
    end
  else
    match NewFromPemString raw EmptyString with
    | None => Some (b, None)
    | Some pub => let key := newPublicKey ski pub ephemeral in save_and_cache b key (_publicBytes key)
    end.

Definition GetKeyFromRaw (ski raw : string) (isPrivate ephemeral : bool) : option Key :=
  if isPrivate then
    pri ← NewPrivateKeyFromHex raw;
    ret ← getHexFromPublicKey pri;
    pub ← NewPublicKeyFromHex ret;
    Some (newPrivateKey ski pub pri ephemeral)
  else
    pub ← NewPublicKeyFromHex raw;
    Some (newPublicKey ski pub ephemeral).

(** The raw key is saved before it is known to be one; a null key is then read. *)
Definition ImportKeyAndSave (b : BCCSP) (ski raw : string) (isPrivate ephemeral : bool) : option (BCCSP * option Key) :=
  let key := GetKeyFromRaw ski raw isPrivate ephemeral in
  '(s, _) ← (if ephemeral then Some (storage b, true) else saveKey (storage b) ski raw isPrivate true);
  k ← key;
  Some (cache_key (with_storage b s) k, key).

(** [GetKey]: the loaded key is cached, also when it is null. *)
Definition GetKey (b : BCCSP) (ski : string) : option (BCCSP * option Key) :=
  match cache b !! ski with
  | Some key => Some (b, key)
  | None =>
      ret ← loadKey (storage b) ski;
      match ret with
      | None => Some (b, None)
      | Some (raw, isPrivate) =>
          let key := GetKeyFromRaw ski raw isPrivate false in
          Some (mkBCCSP (<[ski := key]> (cache b)) (storage b), key)
      end
  end.

(** ** The invariant *)

(** The parts of a key belong together. *)
Definition key_ok (k : Key) : Prop :=
  (∃ pb, _publicKey k = newED25519 (Some pb) ∧ _publicBytes k = EVP_PKEY_get_raw_public_key pb) ∧
  if isPrivate k then
    ∃ pk, _pkey (_privateKey k) = Some pk ∧ _privateBytes k = EVP_PKEY_get_raw_private_key pk ∧
      EVP_PKEY_get_raw_public_key pk = _publicBytes k
  else _privateBytes k = None.

(** What is stored of a key. *)
Definition raw_of (k : Key) : option string := if isPrivate k then _privateBytes k else _publicBytes k.

Context (ok : S → Prop).

Record bccsp_ok (b : BCCSP) : Prop := {
  storage_ok : ok (storage b);
  cached_ok : ∀ ski k, cache b !! ski = Some (Some k) → _ski k = ski ∧ key_ok k;
  cached_stored : ∀ ski k, cache b !! ski = Some (Some k) → isEphemeral k = false →
    ∃ raw, raw_of k = Some raw ∧ loadKey (storage b) ski = Some (Some (raw, isPrivate k));
}.

(** The operations, and the states they lead to. *)
Inductive bccsp_op :=
| OpGenerate (seed : Seed) (ski : string) (ephemeral : bool)
| OpImportPEM (ski raw : string) (priv ephemeral : bool)
| OpImportRaw (ski raw : string) (priv ephemeral : bool)
| OpGet (ski : string).

Definition bccsp_step (b : BCCSP) (op : bccsp_op) : option (BCCSP * option Key) :=
  match op with
  | OpGenerate seed ski e => generateED25519Key b seed ski e
  | OpImportPEM ski raw p e => KeyImportPEM b ski raw p e
  | OpImportRaw ski raw p e => ImportKeyAndSave b ski raw p e
  | OpGet ski => GetKey b ski
  end.

Fixpoint bccsp_run (b : BCCSP) (ops : list bccsp_op) : option BCCSP :=
  match ops with
  | [] => Some b
  | op :: ops => '(b, _) ← bccsp_step b op; bccsp_run b ops
  end.

(** A restart: the cache is lost, the storage is kept. *)
Definition restart (b : BCCSP) : BCCSP := mkBCCSP ∅ (storage b).

Context {laws : EvpLaws PKEY MdCtx Seed} {kslaws : KeyStorageLaws S ok}.

(** *** Constructed keys *)
Lemma public_key_ok ski pk e : key_ok (newPublicKey ski (newED25519 (Some pk)) e).
Proof using Type. split; [by exists pk|done]. Qed.

Lemma private_key_ok ski pk pk' e :
  EVP_PKEY_get_raw_public_key pk' = EVP_PKEY_get_raw_public_key pk →
  key_ok (newPrivateKey ski (newED25519 (Some pk')) (newED25519 (Some pk)) e).
Proof using Type. intros H. split; [by exists pk'|]. exists pk. split_and!; [done|done|]. cbn. by rewrite H. Qed.

Lemma from_raw_ok ski raw priv e k : GetKeyFromRaw ski raw priv e = Some k →
  _ski k = ski ∧ isPrivate k = priv ∧ isEphemeral k = e ∧ key_ok k ∧ raw_of k = Some raw.
Proof using laws.
  unfold GetKeyFromRaw, NewPrivateKeyFromHex, NewPublicKeyFromHex. intros H. destruct priv.
  - destruct (EVP_PKEY_new_raw_private_key raw) as [pk|] eqn:Ek; [|done]. cbn [mbind option_bind] in H. cbn in H.
    destruct (EVP_PKEY_get_raw_public_key pk) as [p|] eqn:Ep; [|done]. cbn in H.
    destruct (EVP_PKEY_new_raw_public_key p) as [pk'|] eqn:Ek'; [|done]. cbn in H. simplify_eq.
    split_and!; [done..| |].
    + apply (private_key_ok ski pk pk' e). by rewrite Ep, (public_raw _ _ Ek').
    + cbn. by apply private_raw.
  - destruct (EVP_PKEY_new_raw_public_key raw) as [pk|] eqn:Ek; [|done]. cbn in H. simplify_eq.
    split_and!; [done..|apply (public_key_ok ski pk e)|]. cbn. by apply public_raw.
Qed.

(** The text of a key has a key with the same texts. *)
Lemma raw_key_exists ski k raw e : key_ok k → raw_of k = Some raw →
  ∃ k', GetKeyFromRaw ski raw (isPrivate k) e = Some k' ∧
    _publicBytes k' = _publicBytes k ∧ _privateBytes k' = _privateBytes k.
Proof using laws.
  intros [(pb & _ & Hpub) Hpri] Hraw. unfold raw_of in Hraw.
  unfold GetKeyFromRaw, NewPrivateKeyFromHex, NewPublicKeyFromHex. destruct (isPrivate k).
  - destruct Hpri as (pk & _ & Hb & Hp). rewrite Hb in Hraw.
    destruct (private_reread pk raw Hraw) as (pk' & -> & Hr' & Hp'). cbn [mbind option_bind].
    destruct (private_has_public pk raw Hraw) as [p Ep]. unfold getHexFromPublicKey. cbn. rewrite Hp', Ep. cbn.
    destruct (public_reread pk p Ep) as (pk2 & -> & Hp2). cbn. eexists. split; [done|]. cbn. unfold getHexFromPrivateKey.
    cbn. by rewrite Hp2, Hr', <-Hp, Ep, Hb.
  - rewrite Hpub in Hraw. destruct (public_reread pb raw Hraw) as (pk2 & -> & Hp2). cbn. eexists. split; [done|].
    cbn. by rewrite Hp2, Hpub, Hpri.
Qed.

(** *** Preservation *)
Lemma cache_ephemeral b k : bccsp_ok b → key_ok k → isEphemeral k = true → bccsp_ok (cache_key b k).
Proof using Type.
  intros [Hs Hc Hd] Hk He. split; [done| |]; intros ski k'; cbn; rewrite lookup_insert_Some;
    intros [[<- [= <-]]|[_ H]]; eauto. congruence.
Qed.

Lemma cache_stored b s k raw :
  bccsp_ok b → key_ok k → raw_of k = Some raw → ok s → loadKey s (_ski k) = Some (Some (raw, isPrivate k)) →
  (∀ ski', ski' ≠ _ski k → loadKey s ski' = loadKey (storage b) ski') → bccsp_ok (cache_key (with_storage b s) k).
Proof using Type.
  intros [Hs Hc Hd] Hk Hr Hok Hl Hn. split; [done| |]; intros ski k'; cbn; rewrite lookup_insert_Some.
  - intros [[<- [= <-]]|[_ H]]; eauto.
  - intros [[<- [= <-]]|[Hne H]]; [by eauto|]. intros He. destruct (Hd _ _ H He) as (r & ? & ?). exists r.
    split; [done|]. by rewrite Hn.
Qed.

Lemma save_and_cache_ok b k b' o : bccsp_ok b → key_ok k →
  save_and_cache b k (raw_of k) = Some (b', o) → bccsp_ok b'.
Proof using kslaws.
  intros Hb Hk. unfold save_and_cache. destruct (isEphemeral k) eqn:He.
  { intros [= <- <-]. by apply cache_ephemeral. }
  destruct (raw_of k) as [raw|] eqn:Er; [|by intros [= <- <-]].
  destruct (save_overwrites (storage b) (_ski k) raw (isPrivate k)) as (s & -> & Hs & Hl & Hn); [apply Hb|].
  cbn. intros [= <- <-]. by eapply cache_stored.
Qed.

Lemma bccsp_step_ok b op b' o : bccsp_ok b → bccsp_step b op = Some (b', o) → bccsp_ok b'.
Proof using laws kslaws.
  intros Hb. destruct op as [seed ski e|ski raw p e|ski raw p e|ski]; cbn [bccsp_step].
  - unfold generateED25519Key, generateKeyFiles, NewFromPemString.
    destruct (EVP_PKEY_keygen seed) as [pk|] eqn:Eg; [|by intros [= <- <-]]. cbn [mbind option_bind].
    destruct (encode_public_PEM pk) as [pp|] eqn:Epp; [|by intros [= <- <-]]. cbn [mbind option_bind].
    destruct (encode_keypair_PEM pk EmptyString) as [kp|] eqn:Ekp; [|by intros [= <- <-]]. cbn [mbind option_bind fst snd].
    destruct (pem_public _ _ Epp) as (pk' & -> & Hp'). cbn [mbind option_bind]. rewrite (pem_keypair _ _ _ Ekp).
    cbn [mbind option_bind]. destruct (keygen_private _ _ Eg) as [r Hr].
    change (getHexFromPrivateKey (newED25519 (Some pk))) with (EVP_PKEY_get_raw_private_key pk). rewrite Hr.
    cbn [mbind option_bind].
    pose proof (private_key_ok ski pk pk' e Hp') as Hk. destruct e; cbn [mbind option_bind negb].
    + intros [= <- <-]. apply (cache_ephemeral (with_storage b (storage b))); [by destruct b|exact Hk|done].
    + destruct (save_overwrites (storage b) ski r true) as (s & -> & Hs & Hl & Hn); [apply Hb|]. cbn [mbind option_bind negb].
      intros [= <- <-]. apply (cache_stored b s _ r); [done|exact Hk|exact Hr|done|done|done].
  - unfold KeyImportPEM, NewFromPemString, NewPublicKeyFromHex. destruct p.
    + destruct (decode_PEM raw EmptyString) as [pk|]; [|by intros [= <- <-]]. cbn [mbind option_bind].
      change (getHexFromPublicKey (newED25519 (Some pk))) with (EVP_PKEY_get_raw_public_key pk).
      destruct (EVP_PKEY_get_raw_public_key pk) as [q|] eqn:Eq; [|by intros [= <- <-]]. cbn [mbind option_bind].
      destruct (EVP_PKEY_new_raw_public_key q) as [pk'|] eqn:Ek'; [|by intros [= <- <-]]. cbn [mbind option_bind].
      eapply (save_and_cache_ok b (newPrivateKey ski (newED25519 (Some pk')) (newED25519 (Some pk)) e)); [done|].
      apply private_key_ok. by rewrite Eq, (public_raw _ _ Ek').
    + destruct (decode_PEM raw EmptyString) as [pk|]; [|by intros [= <- <-]]. cbn [mbind option_bind].
      eapply (save_and_cache_ok b (newPublicKey ski (newED25519 (Some pk)) e)); [done|]. apply public_key_ok.
  - unfold ImportKeyAndSave. destruct e.
    + cbn. destruct (GetKeyFromRaw ski raw p true) as [k|] eqn:E; [|done]. cbn. intros [= <- <-].
      destruct (from_raw_ok _ _ _ _ _ E) as (_ & _ & ? & ? & _).
      apply (cache_ephemeral (with_storage b (storage b))); [by destruct b|done|done].
    + destruct (save_overwrites (storage b) ski raw p) as (s & -> & Hs & Hl & Hn); [apply Hb|]. cbn.
      destruct (GetKeyFromRaw ski raw p false) as [k|] eqn:E; [|done]. cbn. intros [= <- <-].
      destruct (from_raw_ok _ _ _ _ _ E) as (<- & <- & ? & ? & ?). by eapply cache_stored.
  - unfold GetKey. destruct (cache b !! ski) as [k|] eqn:Ec; [by intros [= <- <-]|].
    destruct (loadKey (storage b) ski) as [[[raw p]|]|] eqn:El; [|by intros [= <- <-]|done]. cbn. intros [= <- <-].
    destruct Hb as [Hs Hc Hd].
    assert (∀ ski' k, <[ski := GetKeyFromRaw ski raw p false]> (cache b) !! ski' = Some (Some k) →
      (ski' = ski ∧ GetKeyFromRaw ski raw p false = Some k) ∨ cache b !! ski' = Some (Some k)) as Hi.
    { intros ski' k. rewrite lookup_insert_Some. intros [[<- H]|[_ H]]; [left; split; congruence|by right]. }
    split; [done| |]; cbn; intros ski' k Hk; destruct (Hi _ _ Hk) as [[-> E]|E]; eauto.
    + by destruct (from_raw_ok _ _ _ _ _ E) as (? & _ & _ & ? & _).
    + intros _. destruct (from_raw_ok _ _ _ _ _ E) as (_ & -> & _ & _ & Hr). eauto.
Qed.


Lemma bccsp_run_ok ops : ∀ b b', bccsp_ok b → bccsp_run b ops = Some b' → bccsp_ok b'.
Proof using laws kslaws.
  induction ops as [|op ops IH]; intros b b' Hb; cbn [bccsp_run]; [by intros [= <-]|].
  destruct (bccsp_step b op) as [[b1 o]|] eqn:E; [|done]. cbn. intros H. eapply IH; [|exact H]. by eapply bccsp_step_ok.
Qed.

Lemma fresh_ok s : ok s → bccsp_ok (mkBCCSP ∅ s).
Proof using Type. intros Hs. split; [done| |]; intros ski k; cbn; by rewrite lookup_empty. Qed.

(** *** Durable keys *)
Definition durable (b : BCCSP) (ski : string) : Prop :=
  ∀ o, cache b !! ski = Some o → ∃ k, o = Some k ∧ isEphemeral k = false.

(** The key [GetKey] returns is the stored one, cached or not. *)
Lemma get_durable b ski raw priv :
  bccsp_ok b → durable b ski → loadKey (storage b) ski = Some (Some (raw, priv)) →
  is_Some (GetKeyFromRaw ski raw priv false) →
  ∃ b' k, GetKey b ski = Some (b', Some k) ∧ key_ok k ∧ isPrivate k = priv ∧ raw_of k = Some raw.
Proof using laws.
  intros Hb Hd Hl [k Hk]. unfold GetKey. destruct (cache b !! ski) as [o|] eqn:Ec.
  - destruct (Hd o Ec) as (k' & -> & He). destruct (cached_stored _ Hb _ _ Ec He) as (raw' & Hr & Hl').
    exists b, k'. split_and!; [done|by eapply cached_ok|congruence|congruence].
  - rewrite Hl. cbn. rewrite Hk. destruct (from_raw_ok _ _ _ _ _ Hk) as (_ & ? & _ & ? & ?). eauto 10.
Qed.

(** The public text is determined by what is stored. *)
Lemma public_of_stored k raw pk :
  key_ok k → isPrivate k = true → raw_of k = Some raw → EVP_PKEY_new_raw_private_key raw = Some pk →
  _publicBytes k = EVP_PKEY_get_raw_public_key pk.
Proof using laws.
  intros [_ Hpri] Hp Hr Hpk. unfold raw_of in Hr. rewrite Hp in Hpri, Hr. destruct Hpri as (pk' & _ & Hb & <-).
  rewrite Hb in Hr. destruct (private_reread _ _ Hr) as (pk2 & E & _ & <-). congruence.
Qed.

Lemma sign_accepted k1 k2 p d sig :
  key_ok k1 → key_ok k2 → _publicBytes k1 = Some p → _publicBytes k2 = Some p →
  Sign k1 d = Some sig → Verify k2 sig d = Some true.
Proof using laws.
  intros [_ H1] [(pb & Ek2 & H2) _] P1 P2 Hs. unfold Sign in Hs. unfold Verify.
  destruct (isPrivate k1); [|done]. destruct (generateDigest d) as [m|]; [|done]. cbn [mbind option_bind] in Hs.
  destruct H1 as (pk & E & _ & Hp). unfold ed_sign, doSign in Hs. rewrite E in Hs. cbn [mbind option_bind] in Hs.
  unfold ed_verify. rewrite Ek2. cbn. rewrite <-H2, P2. cbn. by rewrite (sign_verify pk p m sig) by congruence.
Qed.

(** C35: Keys are kept.  Whatever sequence of generations, imports (PEM or raw)
    and lookups a node runs on a storage, every key it then has in its cache and
    did not import as ephemeral is in the storage under its identifier; after a
    restart, when only the storage is left, [GetKey] gives a key with the same
    public and private bytes. *)
Theorem keys_survive_restart s ops b ski k :
  ok s → bccsp_run (mkBCCSP ∅ s) ops = Some b → cache b !! ski = Some (Some k) → isEphemeral k = false →
  ∃ b' k', GetKey (restart b) ski = Some (b', Some k') ∧
    _publicBytes k' = _publicBytes k ∧ _privateBytes k' = _privateBytes k ∧ isPrivate k' = isPrivate k.
Proof using laws kslaws.
  intros Hs Hr Hc He. pose proof (bccsp_run_ok _ _ _ (fresh_ok s Hs) Hr) as Hb.
  destruct (cached_ok _ Hb _ _ Hc) as [_ Hk]. destruct (cached_stored _ Hb _ _ Hc He) as (raw & Hraw & Hl).
  destruct (raw_key_exists ski k raw false Hk Hraw) as (k' & Hk' & ? & ?).
  destruct (from_raw_ok _ _ _ _ _ Hk') as (_ & ? & _).
  unfold GetKey, restart. cbn [cache storage]. rewrite lookup_empty, Hl. cbn. rewrite Hk'. eauto 10.
Qed.

(** C34: Signatures are accepted where the key is known.  When a node's storage
    has the private key of an identifier and another node's storage has that
    private key or its public key, [GetKey] gives both a key, and everything the
    first node signs with its key the second accepts with its own. *)
Theorem signatures_accepted b1 b2 ski r pk p x :
  bccsp_ok b1 → bccsp_ok b2 → durable b1 ski → durable b2 ski →
  loadKey (storage b1) ski = Some (Some (r, true)) →
  EVP_PKEY_new_raw_private_key r = Some pk → EVP_PKEY_get_raw_public_key pk = Some p →
  loadKey (storage b2) ski = Some (Some x) → x = (r, true) ∨ x = (p, false) →
  ∃ b1' k1 b2' k2, GetKey b1 ski = Some (b1', Some k1) ∧ GetKey b2 ski = Some (b2', Some k2) ∧
    ∀ d sig, Sign k1 d = Some sig → Verify k2 sig d = Some true.
Proof using laws.
  intros H1 H2 D1 D2 L1 Epk Ep L2 Hx.
  assert (is_Some (GetKeyFromRaw ski r true false)) as G1.
  { unfold GetKeyFromRaw, NewPrivateKeyFromHex, NewPublicKeyFromHex. rewrite Epk. cbn. rewrite Ep. cbn.
    destruct (public_reread _ _ Ep) as (? & -> & _). by eexists. }
  assert (is_Some (GetKeyFromRaw ski p false false)) as G2.
  { unfold GetKeyFromRaw, NewPublicKeyFromHex. destruct (public_reread _ _ Ep) as (? & -> & _). by eexists. }
  destruct (get_durable b1 ski r true) as (b1' & k1 & E1 & K1 & P1 & R1); [done..|].
  assert (_publicBytes k1 = Some p) as B1 by by rewrite (public_of_stored k1 r pk).
  destruct Hx as [->| ->].
  - destruct (get_durable b2 ski r true) as (b2' & k2 & E2 & K2 & P2 & R2); [done..|].
    assert (_publicBytes k2 = Some p) as B2 by by rewrite (public_of_stored k2 r pk).
    exists b1', k1, b2', k2. split_and!; [done|done|]. intros d sig. by apply (sign_accepted k1 k2 p).
  - destruct (get_durable b2 ski p false) as (b2' & k2 & E2 & K2 & P2 & R2); [done..|].
    assert (_publicBytes k2 = Some p) as B2 by (unfold raw_of in R2; by rewrite P2 in R2).
    exists b1', k1, b2', k2. split_and!; [done|done|]. intros d sig. by apply (sign_accepted k1 k2 p).
Qed.

(** A raw text that is not a key: it replaces what was stored, and the null key
    is read. *)
Lemma bad_import_ends b ski raw :
  GetKeyFromRaw ski raw true false = None → ImportKeyAndSave b ski raw true false = None.
Proof using Type. intros H. unfold ImportKeyAndSave. rewrite H. by destruct (saveKey _ _ _ _ _) as [[]|]. Qed.

End bccsp.
End keys.

(** ** Concrete keys *)
#[local] Existing Instance Tree.lib.
#[local] Existing Instance Tree.tree_laws.
#[local] Existing Instance Toy.lib.
#[local] Existing Instance Toy.toy_laws.

Definition raw_A : string := "0123456789abcdef0123456789abcdeA".

Lemma keys_survive_restart_witness :
  let ops := [OpGenerate raw_A "0_0" false; OpGet "0_0"] in
  ∃ b k b' k', bccsp_run (mkBCCSP ∅ Tree.YNull) ops = Some b ∧ cache b !! "0_0" = Some (Some k) ∧
    GetKey (restart b) "0_0" = Some (b', Some k') ∧ _privateBytes k' = Some raw_A.
Proof.
  intros ops. destruct (bccsp_run (mkBCCSP ∅ Tree.YNull) ops) as [b|] eqn:E; [|exfalso; vm_compute in E; discriminate].
  assert (∃ k, cache b !! "0_0" = Some (Some k) ∧ isEphemeral k = false ∧ _privateBytes k = Some raw_A) as (k & Hc & He & Hp).
  { vm_compute in E. injection E as <-. eexists. split_and!; [vm_compute; reflexivity|done|done]. }
  destruct (keys_survive_restart yaml_ok Tree.YNull ops b "0_0" k) as (b' & k' & H & _ & Hq & _);
    [split; [by right; left|by intros ? ? ? ? [= <-]]|done|done|done|].
  exists b, k, b', k'. by rewrite Hq.
Defined.

Lemma signatures_accepted_witness :
  let b1 := mkBCCSP ∅ ({[ "0_0" := (raw_A, true) ]} : DefaultKeyStorage) in
  let b2 := mkBCCSP ∅ ({[ "0_0" := (raw_A, false) ]} : DefaultKeyStorage) in
  ∃ b1' k1 b2' k2, GetKey b1 "0_0" = Some (b1', Some k1) ∧ GetKey b2 "0_0" = Some (b2', Some k2) ∧
    ∀ d sig, Sign k1 d = Some sig → Verify k2 sig d = Some true.
Proof.
  intros b1 b2. apply (signatures_accepted (λ _, True) b1 b2 "0_0" raw_A (true, raw_A) raw_A (raw_A, false)).
  1-2: by apply fresh_ok.
  1-2: intros o; cbn; by rewrite lookup_empty.
  all: try (vm_compute; reflexivity).
  by right.
Defined.

