(* ===== verification/ConfigInit.v ===== *)
(** * ConfigInit: the configuration a deployment starts from

    The [Initializer] of the certificate authority (ca/config_initializer.cpp):
    it builds the default document for the node counts of the groups, generates
    a key pair per node, and sets the local identity and the addresses of nodes.
    The randomness of key generation is the parameter [seed], one per node. *)

From S2P Require Import Prelude Zpp Decimal RaftFSM ZmqPorts Yaml Property Crypto KeyStore.
From Stdlib Require Import Ascii QArith.

Open Scope Z_scope.

(** The identity and the addresses of node [j] of group [i]. *)
Definition node_ski (i j : Z) : string := to_string i +:+ "_" +:+ to_string j.
Definition default_node (i j : Z) : NodeConfig :=
  mkNode j i (node_ski i j)
    ("127.0." +:+ to_string i +:+ "." +:+ to_string j) ("127.1." +:+ to_string i +:+ "." +:+ to_string j).

Section initializer.
Context {Node Text : Type} {lib : YamlLib Node Text}.
Context {PKEY MdCtx Seed : Type} {evp : EvpLib PKEY MdCtx Seed}.
Context (seed : Z → Z → Seed).

(** The three chaincodes of the default configuration. *)
Definition TPCC_NAME : string := "tpcc".
Definition YCSB_NAME : string := "ycsb".
Definition SMALL_BANK_NAME : string := "small_bank".

Definition install_default (cc : Node) : option Node :=
  cc ← cc_install cc TPCC_NAME;
  cc ← cc_install cc YCSB_NAME;
  cc_install cc SMALL_BANK_NAME.

(** One step of the loops: the node, then its private key.  [false] when no key
    could be generated; a null [signer] or a missing raw key ends the process. *)
Definition init_node (p : Node) (i j : Z) : option (Node * bool) :=
  let cfg := default_node i j in
  p ← through p NODES_PROPERTIES (λ n, setSingleNodeInfo n cfg);
  match generateKeyFiles (seed i j) EmptyString with
  | None => Some (p, false)
  | Some (pub, pri) =>
      signer ← NewFromPemString pri EmptyString;
      rawPriHex ← getHexFromPrivateKey signer;
      node ← newKeyNode rawPriHex true;
      p ← through p "bccsp" (λ b, set b (ski cfg) node);
      Some (p, true)
  end.

Fixpoint init_group (p : Node) (i : Z) (js : list Z) : option (Node * bool) :=
  match js with
  | [] => Some (p, true)
  | j :: js => '(p, ok) ← init_node p i j; if (ok : bool) then init_group p i js else Some (p, false)
  end.

Fixpoint init_groups (p : Node) (i : Z) (_groupNodeCount : list Z) : option (Node * bool) :=
  match _groupNodeCount with
  | [] => Some (p, true)
  | c :: cs => '(p, ok) ← init_group p i (seqZ 0 c); if (ok : bool) then init_groups p (i + 1) cs else Some (p, false)
  end.

Definition SetLocalId (p : Node) (groupId nodeId : Z) : option Node :=
  through p NODES_PROPERTIES (λ n, setLocalNodeInfo n groupId nodeId).

(** The settings in the order they are made: of the document, or of the section
    of a workload ([BaseProperties::SetProperties]). *)
Definition half : Node := of_double (1 # 2).
Definition fifth : Node := of_double (1 # 5).

Definition default_settings : list (option string * string * Node) :=
  [(None, "batch_max_size", of_int 2000); (None, "batch_timeout_ms", of_int 20);
   (None, "distributed", of_bool true); (None, "ssh_username", of_str "root"); (None, "ssh_password", of_str "neu1234.");
   (Some SMALL_BANK_NAME, "target_throughput", of_int 40000); (Some YCSB_NAME, "target_throughput", of_int 40000);
   (Some TPCC_NAME, "target_throughput", of_int 40000); (Some SMALL_BANK_NAME, "thread_count", of_int 4);
   (Some TPCC_NAME, "thread_count", of_int 4); (Some YCSB_NAME, "thread_count", of_int 4);
   (Some TPCC_NAME, "warehouse_count", of_int 128); (Some YCSB_NAME, "record_count", of_int (1000 * 1000));
   (Some YCSB_NAME, "read_proportion", half); (Some YCSB_NAME, "update_proportion", half);
   (Some TPCC_NAME, "new_order_proportion", half); (Some TPCC_NAME, "payment_proportion", half);
   (Some SMALL_BANK_NAME, "bal_proportion", fifth); (Some SMALL_BANK_NAME, "dc_proportion", fifth);
   (Some SMALL_BANK_NAME, "ts_proportion", fifth); (Some SMALL_BANK_NAME, "amg_proportion", fifth);
   (Some SMALL_BANK_NAME, "wc_proportion", fifth)].

Definition apply_setting (p : Node) (s : option string * string * Node) : option Node :=
  match s.1.1 with
  | None => SetProperties p s.1.2 s.2
  | Some name => through p name (λ n, set n s.1.2 s.2)
  end.

Fixpoint apply_settings (p : Node) (l : list (option string * string * Node)) : option Node :=
  match l with
  | [] => Some p
  | s :: l => p ← apply_setting p s; apply_settings p l
  end.

(** [initDefaultConfig]; the document is the process-wide one, also when the
    result is [false]. *)
Definition initDefaultConfig (_groupNodeCount : list Z) : option (Node * bool) :=
  p ← NewProperties ∅ EmptyString;
  p ← through p CHAINCODE_PROPERTIES install_default;
  '(p, ok) ← init_groups p 0 _groupNodeCount;
  if negb ok then Some (p, false)
  else
    p ← SetLocalId p 0 0;
    p ← apply_settings p default_settings;
    Some (p, true).

(** [SetNodeIp]: an address that is empty is taken from the other. *)
Definition new_ips (c : NodeConfig) (pub pri : string) : NodeConfig :=
  mkNode (nodeId c) (groupId c) (ski c)
    (if bool_decide (pri = EmptyString) then pub else pri) (if bool_decide (pub = EmptyString) then pri else pub).

Definition SetNodeIp (p : Node) (groupId nodeId : Z) (pub pri : string) : option (Node * bool) :=
  n ← getNodeProperties p;
  nodePtr ← getSingleNodeInfo n groupId nodeId;
  match nodePtr with
  | None => Some (p, false)
  | Some c => p ← through p NODES_PROPERTIES (λ n, setSingleNodeInfo n (new_ips c pub pri)); Some (p, true)
  end.

End initializer.

(** ** Names of nodes *)
Lemma show_app fuel n s : show_digits fuel n EmptyString +:+ s = show_digits fuel n s.
Proof.
  assert (∀ a, show_digits fuel n a +:+ s = show_digits fuel n (a +:+ s)) as H; [|by rewrite H].
  revert n. induction fuel as [|fuel IH]; intros n a; [done|]. cbn [show_digits]. destruct (n <? 10); [done|]. by rewrite IH.
Qed.

Lemma app_cancel (a b c : string) : a +:+ b = a +:+ c → b = c.
Proof. induction a as [|x a IH]; cbn; [done|]. intros [= H]. by apply IH. Qed.

Definition natural (z : Z) : Prop := 0 <= z < 2 ^ 31.

Lemma natural_int z : natural z → in_int32 z.
Proof. unfold natural, in_int32. lia. Qed.

(** A number before a separator can be read back. *)
Lemma number_before c i i' x x' : digit_val c = None → natural i → natural i' →
  to_string i +:+ String c x = to_string i' +:+ String c x' → i = i' ∧ x = x'.
Proof.
  intros Hc Hi Hi' H. unfold natural in *.
  assert (i = i') as ->.
  { assert (∀ z y, 0 <= z < 2 ^ 31 → read_digits (to_string z +:+ String c y) 0 = z) as R.
    { intros z y Hz. unfold to_string. destruct (Z.ltb_spec z 0); [lia|]. rewrite show_app.
      destruct (read_show 10 z (String c y) 0) as (k & _ & ->); [lia|lia|]. cbn [read_digits]. rewrite Hc. lia. }
    rewrite <-(R i x), <-(R i' x'), H by done. done. }
  split; [done|]. apply app_cancel in H. by injection H.
Qed.

Lemma node_ski_inj i j i' j' : natural i → natural j → natural i' → natural j' →
  node_ski i j = node_ski i' j' → i = i' ∧ j = j'.
Proof.
  intros Hi Hj Hi' Hj' H. unfold node_ski in H. apply (number_before "_"%char) in H as [-> H]; [|done..].
  split; [done|]. by apply to_string_inj; [apply natural_int..|].
Qed.

(** ** The default table *)
Definition group_nodes (i c : Z) : list NodeConfig := default_node i <$> seqZ 0 c.
Definition default_table (counts : list Z) : table := imap (λ i c, group_nodes (Z.of_nat i) c) counts.

(** The table while the nodes of group [length t] are added. *)
Definition partial (t : table) (m : Z) : table :=
  t ++ (if m =? 0 then [] else [group_nodes (Z.of_nat (length t)) m]).

Lemma group_nodes_snoc i m : 0 <= m → group_nodes i (m + 1) = group_nodes i m ++ [default_node i m].
Proof.
  intros H. unfold group_nodes. replace (m + 1) with (Z.of_nat (S (Z.to_nat m))) by lia. rewrite seqZ_S, fmap_app.
  replace (Z.of_nat (Z.to_nat m)) with m by lia. done.
Qed.

Lemma upsert_new i m : natural i → natural m →
  upsert (default_node i m) (group_nodes i m) = group_nodes i m ++ [default_node i m].
Proof.
  intros Hi Hm. unfold upsert. rewrite (proj2 (list_find_None _ _)); [done|].
  apply Forall_forall. intros c (j & -> & Hj%elem_of_seqZ)%list_elem_of_fmap E. cbn in E.
  apply node_ski_inj in E; unfold natural in *; lia.
Qed.

Lemma partial_step t m : natural (Z.of_nat (length t)) → natural m →
  table_set (partial t m) (default_node (Z.of_nat (length t)) m) = partial t (m + 1).
Proof.
  intros Ht Hm. unfold table_set, partial. cbn [groupId default_node]. destruct (Z.eqb_spec m 0) as [->|Hne].
  - rewrite app_nil_r, at_ge by lia. done.
  - rewrite at_app_end. rewrite upsert_new by done. rewrite Nat2Z.id.
    rewrite (proj2 (Z.eqb_neq (m + 1) 0)) by (unfold natural in Hm; lia).
    rewrite group_nodes_snoc by (unfold natural in Hm; lia).
    rewrite insert_app_r_alt by lia. by rewrite Nat.sub_diag.
Qed.

Lemma elem_partial (t : table) m l c : 0 <= m → l ∈ partial t (m + 1) → c ∈ l →
  c = default_node (Z.of_nat (length t)) m ∨ ∃ l', l' ∈ partial t m ∧ c ∈ l'.
Proof.
  intros Hm Hl Hc. unfold partial in *. rewrite (proj2 (Z.eqb_neq (m + 1) 0)) in Hl by lia.
  apply elem_of_app in Hl as [Hl|Hl]; [right; exists l; set_solver|]. apply list_elem_of_singleton in Hl as ->.
  rewrite group_nodes_snoc in Hc by done. apply elem_of_app in Hc as [Hc|Hc]; [|left; set_solver].
  right. destruct (Z.eqb_spec m 0) as [->|]; [by apply not_elem_of_nil in Hc|]. exists (group_nodes (Z.of_nat (length t)) m). set_solver.
Qed.

(** ** Documents *)

(** A key given by its text is not in a list of such keys. *)
Ltac fresh_key := apply (bool_decide_unpack _); vm_compute; exact I.

Section documents.
Context {Node Text : Type} {lib : YamlLib Node Text} {laws : YamlLaws Node Text}.

(** A change below one key of a document leaves the others. *)
Lemma through_spec p key f n n' : kind p = MapNode → get p key = Some n → f n = Some n' →
  ∃ p', through p key f = Some p' ∧ kind p' = MapNode ∧ get p' key = Some n' ∧
    ∀ k, k ≠ key → get p' k = get p k.
Proof using laws.
  intros Hp Hg Hf. unfold through. rewrite Hg. cbn [mbind option_bind]. rewrite Hf. cbn [mbind option_bind].
  destruct (set_ok p key n') as [p' Hp']; [by right; right|]. exists p'. split_and!; [done|by eapply set_kind|by eapply get_set|].
  intros k Hk. apply (get_unset _ _ _ _ _ Hp'); [done|by right; right|congruence].
Qed.

(** The nodes of a document are the table [t], the local node is [loc]. *)
Definition Conf (p : Node) (t : table) (loc : option (Z * Z)) : Prop :=
  kind p = MapNode ∧ ∃ n, getNodeProperties p = Some n ∧ (t ≠ [] → kind n = MapNode) ∧ Rep n t loc.

Definition frame (keys : list string) (p p' : Node) : Prop := ∀ k, k ∉ keys → get p' k = get p k.

Lemma set_conf p t loc cfg :
  Conf p t loc → int_ids cfg → 0 <= groupId cfg <= Z.of_nat (length t) → Z.of_nat (length t) < 2 ^ 31 - 1 →
  ∃ p', through p NODES_PROPERTIES (λ n, setSingleNodeInfo n cfg) = Some p' ∧ Conf p' (table_set t cfg) loc ∧
    frame [NODES_PROPERTIES] p p'.
Proof using laws.
  intros (Hp & n & Hn & _ & R) Hi Hg Hb. destruct (set_single n t loc cfg R Hi Hg Hb) as (n' & Hs & Hk & R').
  destruct (through_spec p NODES_PROPERTIES (λ n, setSingleNodeInfo n cfg) n n' Hp Hn Hs) as (p' & E & K & G & F).
  exists p'. split_and!; [done| |].
  - split; [done|]. exists n'. by split_and!.
  - intros k Hk'. apply F. set_solver.
Qed.

Lemma set_local_conf p t loc g k :
  Conf p t loc → in_int32 g → in_int32 k →
  ∃ p', SetLocalId p g k = Some p' ∧ Conf p' t (Some (g, k)) ∧ frame [NODES_PROPERTIES] p p'.
Proof using laws.
  intros (Hp & n & Hn & _ & R) Hg Hk. destruct (set_local n t loc g k R Hg Hk) as (n' & Hs & K & R').
  destruct (through_spec p NODES_PROPERTIES (λ n, setLocalNodeInfo n g k) n n' Hp Hn Hs) as (p' & E & K' & G & F).
  exists p'. split_and!; [done| |].
  - split; [done|]. exists n'. by split_and!.
  - intros k' Hk'. apply F. set_solver.
Qed.

Lemma frame_conf keys p p' t loc :
  NODES_PROPERTIES ∉ keys → kind p' = MapNode → frame keys p p' → Conf p t loc → Conf p' t loc.
Proof using Type.
  intros Hk Hp F (_ & n & Hn & Hm & R). split; [done|]. exists n. split; [|done]. unfold getNodeProperties. by rewrite F.
Qed.

Lemma frame_trans ks ks' p p' p'' : frame ks p p' → frame ks' p' p'' → frame (ks ++ ks') p p''.
Proof using Type. intros F F' k [H1 H2]%not_elem_of_app. by rewrite F', F. Qed.

(** *** Settings *)
Definition sections : list string := [TPCC_NAME; YCSB_NAME; SMALL_BANK_NAME].

(** The assignments to the document itself. *)
Definition own (l : list (option string * string * Node)) : list (string * Node) :=
  omap (λ s, match s.1.1 with None => Some (s.1.2, s.2) | Some _ => None end) l.

Definition setting_ok (s : option string * string * Node) : Prop :=
  match s.1.1 with None => s.1.2 ∉ sections | Some name => name ∈ sections end.

Definition section_ok (p : Node) : Prop := ∀ name, name ∈ sections → ∃ x, get p name = Some x ∧ mapish (kind x).

Lemma settings_spec l : ∀ p, kind p = MapNode → Forall setting_ok l → section_ok p →
  ∃ p', apply_settings p l = Some p' ∧ kind p' = MapNode ∧
    ∀ k, k ∉ sections → get p' k = match assigned (own l) k with Some v => Some v | None => get p k end.
Proof using laws.
  induction l as [|[[o key] v] l IH]; intros p Hp Hl Hs; [by exists p|]. apply Forall_cons in Hl as [Hok Hl].
  cbn [apply_settings]. unfold apply_setting. cbn [fst snd]. unfold setting_ok in Hok; cbn [fst snd] in Hok.
  destruct o as [name|].
  - destruct (Hs name Hok) as (x & Hx & Hm). destruct (set_ok x key v Hm) as [x' Hx'].
    destruct (through_spec p name (λ n, set n key v) x x' Hp Hx Hx') as (p1 & -> & K & G & F). cbn [mbind option_bind].
    destruct (IH p1 K Hl) as (p' & -> & K' & G').
    { intros name' Hn'. destruct (decide (name' = name)) as [->|Hne].
      - exists x'. split; [done|]. right; right. by eapply set_kind.
      - rewrite F by done. by apply Hs. }
    exists p'. split_and!; [done|done|]. intros k Hk. rewrite G' by done. change (own ((Some name, key, v) :: l)) with (own l).
    rewrite F; [done|]. intros ->. by apply Hk.
  - unfold SetProperties. destruct (set_ok p key v) as [p1 Hp1]; [by right; right|]. rewrite Hp1. cbn [mbind option_bind].
    assert (∀ k, k ≠ key → get p1 k = get p k) as F.
    { intros k Hk. apply (get_unset _ _ _ _ _ Hp1); [done|by right; right|congruence]. }
    destruct (IH p1) as (p' & -> & K' & G'); [by eapply set_kind|done| |].
    { intros name Hn. rewrite F by (intros ->; done). by apply Hs. }
    exists p'. split_and!; [done|done|]. intros k Hk. rewrite G' by done.
    change (own ((None, key, v) :: l)) with ((key, v) :: own l). cbn [assigned].
    destruct (assigned (own l) k); [done|]. destruct (String.eqb_spec key k) as [<-|Hne].
    + by eapply get_set.
    + apply F. done.
Qed.

(** *** Keys of nodes *)
Context {PKEY MdCtx Seed : Type} {evp : EvpLib PKEY MdCtx Seed} {elaws : EvpLaws PKEY MdCtx Seed}.
Context (seed : Z → Z → Seed).

Definition node_raw (i j : Z) : option string := k ← EVP_PKEY_keygen (seed i j); EVP_PKEY_get_raw_private_key k.

Definition generates (i j : Z) : Prop :=
  ∃ k, EVP_PKEY_keygen (seed i j) = Some k ∧ is_Some (encode_public_PEM k) ∧ is_Some (encode_keypair_PEM k EmptyString).

(** The private key of a node is stored under the node's identifier. *)
Definition keyed (b : Node) (c : NodeConfig) : Prop :=
  natural (groupId c) ∧ natural (nodeId c) ∧ ski c = node_ski (groupId c) (nodeId c) ∧
  ∃ raw, node_raw (groupId c) (nodeId c) = Some raw ∧ yaml_loadKey b (ski c) = Some (Some (raw, true)).

Definition Keys (p : Node) (t : table) : Prop :=
  ∃ b, get p "bccsp" = Some b ∧ yaml_ok b ∧ ∀ l c, l ∈ t → c ∈ l → keyed b c.

Lemma save_keyed b raw i j (t : table) : natural i → natural j → node_raw i j = Some raw → yaml_ok b →
  (∀ l c, l ∈ t → c ∈ l → keyed b c) →
  ∃ b' node, newKeyNode raw true = Some node ∧ set b (node_ski i j) node = Some b' ∧ yaml_ok b' ∧
    keyed b' (default_node i j) ∧ ∀ l c, l ∈ t → c ∈ l → keyed b' c.
Proof using laws.
  intros Hi Hj Hr Hb Ht. destruct (save_overwrites (ok := yaml_ok) b (node_ski i j) raw true Hb) as (b' & Hs & Hok & Hl & Hn).
  cbn [saveKey yaml_storage] in Hs. unfold yaml_saveKey in Hs. cbn [mbind option_bind] in Hs.
  destruct (newKeyNode raw true) as [node|]; [|done]. cbn [mbind option_bind] in Hs.
  destruct (set b (node_ski i j) node) as [b1|] eqn:E; [|done]. cbn [mbind option_bind] in Hs. simplify_eq.
  exists b', node. split_and!; [done|done|done| |].
  - split_and!; [done|done|done|]. by exists raw.
  - intros l c H1 H2. destruct (Ht l c H1 H2) as (? & ? & Es & raw' & Hr' & Hl'). split_and!; [done|done|done|].
    exists raw'. split; [done|]. destruct (decide (ski c = node_ski i j)) as [E'|E'].
    + rewrite Es in E'. apply node_ski_inj in E' as [E1 E2]; [|done..]. rewrite E1, E2 in Hr', Es.
      rewrite Es. cbn in Hl. rewrite Hl. congruence.
    + cbn in Hn. by rewrite Hn.
Qed.

Lemma init_node_spec p (t : table) m :
  Conf p (partial t m) None → Keys p (partial t m) → Z.of_nat (length t) < 2 ^ 31 - 2 → natural m →
  generates (Z.of_nat (length t)) m →
  ∃ p', init_node seed p (Z.of_nat (length t)) m = Some (p', true) ∧ Conf p' (partial t (m + 1)) None ∧
    Keys p' (partial t (m + 1)) ∧ frame [NODES_PROPERTIES; "bccsp"] p p'.
Proof using laws elaws.
  intros C (b & Hb & Hok & Hk) Ht Hm (k & Hg & [pp Hpp] & [kp Hkp]).
  assert (natural (Z.of_nat (length t))) as Hnt by (unfold natural; lia).
  destruct (set_conf p _ _ (default_node (Z.of_nat (length t)) m) C) as (p1 & E1 & C1 & F1).
  { split; by apply natural_int. }
  { cbn. unfold partial. rewrite length_app. destruct (m =? 0); cbn; lia. }
  { unfold partial. rewrite length_app. destruct (m =? 0); cbn; lia. }
  rewrite partial_step in C1 by done.
  destruct (keygen_private _ _ Hg) as [raw Hraw].
  assert (node_raw (Z.of_nat (length t)) m = Some raw) as Hnr by (unfold node_raw; by rewrite Hg).
  destruct (save_keyed b raw _ _ _ Hnt Hm Hnr Hok Hk) as (b' & node & En & Es & Hok' & Hnew & Hold).
  assert (get p1 "bccsp" = Some b) as Hb1 by (rewrite F1; [done|by set_solver]).
  destruct (through_spec p1 "bccsp" (λ b, set b (node_ski (Z.of_nat (length t)) m) node) b b') as (p2 & E2 & K2 & G2 & F2);
    [apply C1|done|done|].
  exists p2. unfold init_node, generateKeyFiles. rewrite E1. cbn [mbind option_bind]. rewrite Hg. cbn [mbind option_bind].
  rewrite Hpp. cbn [mbind option_bind]. rewrite Hkp. cbn [mbind option_bind]. unfold NewFromPemString.
  rewrite (pem_keypair _ _ _ Hkp). cbn [mbind option_bind].
  change (getHexFromPrivateKey (newED25519 (Some k))) with (EVP_PKEY_get_raw_private_key k). rewrite Hraw.
  cbn [mbind option_bind]. rewrite En. cbn [mbind option_bind]. cbn [ski default_node]. rewrite E2. cbn [mbind option_bind].
  split_and!; [done| | |].
  - apply (frame_conf ["bccsp"] p1); [by set_solver|done| |done]. intros k' Hk'. apply F2. set_solver.
  - exists b'. split_and!; [done|done|]. intros l c Hl Hc. unfold natural in Hm.
    destruct (elem_partial t m l c) as [->|(l' & Hl' & Hc')]; [lia|done|done|done|]. by eapply Hold.
  - intros k' Hk'. rewrite F2, F1; set_solver.
Qed.

Notation touched := [NODES_PROPERTIES; "bccsp"].

Lemma init_group_spec p (t : table) c (d : nat) : ∀ m,
  c - m = Z.of_nat d → 0 <= m → c < 2 ^ 31 → Z.of_nat (length t) < 2 ^ 31 - 2 →
  Conf p (partial t m) None → Keys p (partial t m) → (∀ j, m <= j < c → generates (Z.of_nat (length t)) j) →
  ∃ p', init_group seed p (Z.of_nat (length t)) (seqZ m (Z.of_nat d)) = Some (p', true) ∧ Conf p' (partial t c) None ∧
    Keys p' (partial t c) ∧ frame touched p p'.
Proof using laws elaws.
  revert p. induction d as [|d IH]; intros p m Hd Hm Hc Ht C K G.
  - replace c with m by lia. by exists p.
  - rewrite seqZ_cons by lia. replace (Z.pred (Z.of_nat (S d))) with (Z.of_nat d) by lia. cbn [init_group].
    destruct (init_node_spec p t m C K Ht) as (p1 & -> & C1 & K1 & F1); [unfold natural; lia|apply G; lia|].
    cbn [mbind option_bind]. replace (Z.succ m) with (m + 1) by lia.
    destruct (IH p1 (m + 1)) as (p' & -> & C' & K' & F'); [lia|lia|done|done|done|done|intros; apply G; lia|].
    exists p'. split_and!; [done|done|done|]. intros k Hk. by rewrite F', F1.
Qed.

Lemma partial_0 t : partial t 0 = t.
Proof using Type. unfold partial. cbn. by rewrite app_nil_r. Qed.

Lemma init_groups_spec cs : ∀ p (t : table),
  Conf p t None → Keys p t → Forall (λ c, 0 < c < 2 ^ 31) cs → Z.of_nat (length t + length cs) < 2 ^ 31 - 2 →
  (∀ k c j, cs !! k = Some c → 0 <= j < c → generates (Z.of_nat (length t + k)) j) →
  ∃ p', init_groups seed p (Z.of_nat (length t)) cs = Some (p', true) ∧
    let t' := t ++ imap (λ i c, group_nodes (Z.of_nat (length t + i)) c) cs in
    Conf p' t' None ∧ Keys p' t' ∧ frame touched p p'.
Proof using laws elaws.
  induction cs as [|c cs IH]; intros p t C K Hc Hb G.
  - exists p. cbn. by rewrite app_nil_r.
  - apply Forall_cons in Hc as [Hc Hcs]. cbn [length] in Hb. cbn [init_groups].
    destruct (init_group_spec p t c (Z.to_nat c) 0) as (p1 & E1 & C1 & K1 & F1);
      [lia|lia|lia|lia|by rewrite partial_0|by rewrite partial_0| |].
    { intros j Hj. rewrite <-(Nat.add_0_r (length t)). by apply (G 0%nat c). }
    rewrite Z2Nat.id in E1 by lia. rewrite E1. cbn [mbind option_bind].
    assert (partial t c = t ++ [group_nodes (Z.of_nat (length t)) c]) as Ep.
    { unfold partial. by rewrite (proj2 (Z.eqb_neq c 0)) by lia. }
    rewrite Ep in C1, K1.
    destruct (IH p1 (t ++ [group_nodes (Z.of_nat (length t)) c]) C1 K1 Hcs) as (p' & E' & C' & K' & F').
    { rewrite length_app. cbn [length]. lia. }
    { intros k c' j Hk Hj. rewrite length_app. cbn [length]. rewrite <-Nat.add_assoc. apply (G (1 + k)%nat c' j); done. }
    rewrite length_app in E', C', K'. cbn [length] in E', C', K'.
    replace (Z.of_nat (length t + 1)) with (Z.of_nat (length t) + 1) in E' by lia.
    exists p'. rewrite E'. split; [done|]. cbv zeta. rewrite imap_cons, Nat.add_0_r.
    rewrite <-app_assoc in C', K'. cbn [app] in C', K'.
    assert (imap (λ i c0, group_nodes (Z.of_nat (length t + 1 + i)) c0) cs =
      imap ((λ i c0, group_nodes (Z.of_nat (length t + i)) c0) ∘ S) cs) as Em.
    { apply imap_ext. intros i c' _. cbn. do 2 f_equal. lia. }
    rewrite Em in C', K'. split_and!; [done|done|]. intros k Hk. by rewrite F', F1.
Qed.

(** The document before any node is added. *)
Lemma empty_document : ∃ p0 p, NewProperties (Text := Text) ∅ EmptyString = Some p0 ∧
  through p0 CHAINCODE_PROPERTIES install_default = Some p ∧ Conf p [] None ∧ Keys p [] ∧
  (∃ cc, getChaincodeProperties p = Some cc ∧ kind cc = MapNode ∧
     ∀ name, name ∈ sections → cc_installed cc name = Some true) ∧
  ∀ k, k ∉ [CHAINCODE_PROPERTIES; NODES_PROPERTIES] → get p k = Some Undef.
Proof using laws elaws.
  unfold NewProperties. rewrite bool_decide_true by done.
  match goal with |- context [set_all Null ?kvs] => destruct (set_all_spec kvs Null) as (p0 & E0 & K0 & G0) end;
    [right; left; apply kind_Null|done|]. rewrite E0. exists p0.
  assert (∀ k, get p0 k = if bool_decide (k = CHAINCODE_PROPERTIES ∨ k = NODES_PROPERTIES) then Some Null else Some Undef) as G0'.
  { intros k. rewrite G0. cbn [assigned]. rewrite kind_Null. rewrite (bool_decide_false (NullNode = Undefined)) by done.
    rewrite get_null by apply kind_Null. destruct (String.eqb_spec NODES_PROPERTIES k) as [<-|H1]; [done|].
    destruct (String.eqb_spec CHAINCODE_PROPERTIES k) as [<-|H2]; [done|]. rewrite bool_decide_false; [done|].
    intros [->| ->]; done. }
  destruct (set_ok Null INIT_ON_STARTUP (of_bool true)) as [e He]; [right; left; apply kind_Null|].
  pose proof (set_kind _ _ _ _ He) as Ke.
  destruct (set_all_spec [(TPCC_NAME, e); (YCSB_NAME, e); (SMALL_BANK_NAME, e)] Null) as (cc & Ecc & Kcc & Gcc);
    [right; left; apply kind_Null|done|].
  destruct (through_spec p0 CHAINCODE_PROPERTIES install_default Null cc) as (p & Ep & Kp & Gp & Fp); [done|by rewrite G0'| |].
  { unfold install_default, cc_install, NewCCNode. rewrite He. cbn [mbind option_bind]. cbn [set_all] in Ecc.
    destruct (set Null TPCC_NAME e) as [c1|]; [|done]. cbn [mbind option_bind] in *.
    destruct (set c1 YCSB_NAME e) as [c2|]; [|done]. cbn [mbind option_bind] in *.
    destruct (set c2 SMALL_BANK_NAME e) as [c3|]; [|done]. done. }
  exists p. split_and!; [done|done| | | |].
  - split; [done|]. exists Null. split_and!; [unfold getNodeProperties; by rewrite Fp, G0'|done|].
    apply empty_table, kind_Null.
  - exists Undef. split_and!; [by rewrite Fp, G0'| |by intros ? ? ?%not_elem_of_nil]. split; [by left|].
    intros k e' x r H. rewrite get_Undef in H. done.
  - exists cc. split_and!; [done|done|]. intros name Hn. unfold cc_installed.
    assert (get cc name = Some e) as ->.
    { rewrite Gcc. unfold sections in Hn. apply elem_of_cons in Hn as [->|Hn]; [done|].
      apply elem_of_cons in Hn as [->|Hn]; [done|]. by apply list_elem_of_singleton in Hn as ->. }
    cbn [mbind option_bind]. unfold IsDefined, IsNull. by rewrite Ke.
  - intros k Hk. rewrite Fp, G0', bool_decide_false; set_solver.
Qed.

(** Counts a deployment can have. *)
Record counts_ok (counts : list Z) : Prop := {
  ok_some : counts ≠ [];
  ok_each : Forall (λ c, 0 < c < 2 ^ 31) counts;
  ok_groups : Z.of_nat (length counts) < 2 ^ 31 - 2;
}.

Lemma default_table_eq counts : imap (λ i c, group_nodes (Z.of_nat (0 + i)) c) counts = default_table counts.
Proof using Type. done. Qed.

Lemma length_default_table counts : length (default_table counts) = length counts.
Proof using Type. apply length_imap. Qed.

Lemma default_table_some counts : counts ≠ [] → default_table counts ≠ [].
Proof using Type. intros H E%(f_equal length). rewrite length_default_table in E. by destruct counts. Qed.

Lemma default_document counts :
  counts_ok counts → (∀ i j, node_of counts i j → generates i j) →
  ∃ p, initDefaultConfig (Text := Text) seed counts = Some (p, true) ∧
    Conf p (default_table counts) (Some (0, 0)) ∧ Keys p (default_table counts) ∧
    (∃ cc, getChaincodeProperties p = Some cc ∧ kind cc = MapNode ∧
       ∀ name, name ∈ sections → cc_installed cc name = Some true) ∧
    ∀ k, k ∉ sections → k ∉ [CHAINCODE_PROPERTIES; NODES_PROPERTIES; "bccsp"] →
      get p k = Some (default Undef (assigned (own default_settings) k)).
Proof using laws elaws.
  intros [Hne Heach Hlen] Hgen. destruct empty_document as (p0 & p1 & E0 & E1 & C1 & K1 & (cc & Hcc & Hkc & Hinst) & G1).
  destruct (init_groups_spec counts p1 [] C1 K1 Heach) as (p2 & E2 & C2 & K2 & F2); [cbn; lia| |].
  { intros k c j Hk Hj. apply Hgen. split; [lia|]. exists c. split; [|lia]. apply at_Some. cbn.
    split; [lia|]. by rewrite Nat2Z.id. }
  cbn [app length] in E2, C2, K2. rewrite default_table_eq in C2, K2.
  destruct (set_local_conf p2 _ _ 0 0 C2) as (p3 & E3 & C3 & F3); [done..|].
  destruct (settings_spec default_settings p3) as (p4 & E4 & K4 & G4); [apply C3| | |].
  { unfold default_settings. repeat (apply Forall_cons; split; [unfold setting_ok; cbn; set_solver|]). done. }
  { intros name Hn. exists Undef. rewrite F3, F2, G1; [by rewrite kind_Undef; split; [|left]|..];
      unfold sections in Hn; set_solver. }
  exists p4. unfold initDefaultConfig. rewrite E0. cbn [mbind option_bind]. rewrite E1. cbn [mbind option_bind].
  change (Z.of_nat 0) with 0 in E2. rewrite E2. cbn [mbind option_bind negb]. rewrite E3. cbn [mbind option_bind].
  rewrite E4. cbn [mbind option_bind].
  assert (∀ k, k ∉ sections → assigned (own default_settings) k = None → get p4 k = get p3 k) as Fk
    by (intros k Hk Ha; by rewrite G4, Ha).
  assert (Hs : NODES_PROPERTIES ∉ sections ∧ "bccsp" ∉ sections ∧ CHAINCODE_PROPERTIES ∉ sections)
    by (unfold sections; set_solver). destruct Hs as (S1 & S2 & S3).
  split_and!; [done| | | |].
  - destruct C3 as (_ & n & Hn & Hm & R). split; [done|]. exists n. split; [|done].
    unfold getNodeProperties in *. by rewrite Fk.
  - destruct K2 as (b & Hb & ?). exists b. split; [|done]. rewrite Fk by done. rewrite F3; [done|set_solver].
  - exists cc. split_and!; [|done|done]. unfold getChaincodeProperties in *. rewrite Fk by done. rewrite F3, F2; [done|set_solver..].
  - intros k Hk Hk'. rewrite G4 by done. destruct (assigned (own default_settings) k); [done|].
    cbn. rewrite F3, F2, G1; [done|set_solver..].
Qed.

(** A setting that was made, and one that was not. *)
Lemma default_setting {A} (as_T : Node → option A) (d : A) p k :
  get p k = Some (default Undef (assigned (own default_settings) k)) →
  load_or as_T d p k = default d (as_T (default Undef (assigned (own default_settings) k))).
Proof using Type. intros H. unfold load_or. by rewrite H. Qed.

(** C37: The default configuration.  For any number of groups and nodes,
    [initDefaultConfig] succeeds when keys can be generated, and the document it
    leaves says what a peer will read: group [i] has the nodes [i_0], [i_1], ...
    in order with different keys and addresses, the local node is node 0 of
    group 0, the three chaincodes are installed, the private key of every node
    is stored under its identifier, and the settings of a distributed deployment
    are made; the lowest port and the first block number are the defaults. *)
Theorem default_config counts :
  counts_ok counts → (∀ i j, node_of counts i j → generates i j) →
  ∃ p n, initDefaultConfig (Text := Text) seed counts = Some (p, true) ∧ getNodeProperties p = Some n ∧
    getGroupCount n = Some (Z.of_nat (length counts)) ∧
    (∀ g c, at_ counts g = Some c → getGroupNodesInfo n g = Some (group_nodes g c) ∧ getGroupNodeCount n g = Some c) ∧
    getLocalNodeInfo n = Some (default_node 0 0) ∧
    (∃ cc, getChaincodeProperties p = Some cc ∧ ∀ name, name ∈ sections → cc_installed cc name = Some true) ∧
    (∃ b, getCustomProperties p "bccsp" = Some b ∧
       ∀ i j, node_of counts i j → ∃ raw, node_raw i j = Some raw ∧ yaml_loadKey b (node_ski i j) = Some (Some (raw, true))) ∧
    isDistributedSetting p = true ∧ getBlockMaxBatchSize p = 2000 ∧ getBlockBatchTimeoutMs p = 20 ∧
    getSSHInfo p = ("root", "neu1234.", true) ∧ replicatorLowestPort p = 51200 ∧ ∀ g, getStartBlockNumber p g = 0.
Proof using laws elaws.
  intros Hok Hgen.
  destruct (default_document counts Hok Hgen) as (p & E & (Hp & n & Hn & Hm & R) & (b & Hb & _ & Hk) & (cc & Hcc & _ & Hinst) & G).
  destruct Hok as [Hne Heach Hlen].
  assert (∀ g c, at_ counts g = Some c → at_ (default_table counts) g = Some (group_nodes g c)) as Ht.
  { intros g c [Hg Hc]%at_Some. apply at_Some. split; [done|]. unfold default_table. rewrite list_lookup_imap, Hc.
    cbn. by rewrite Z2Nat.id. }
  assert (∀ g c, at_ counts g = Some c → in_int32 g) as Hint.
  { intros g c [Hg Hc%lookup_lt_Some]%at_Some. unfold in_int32. lia. }
  assert (∀ g c, at_ counts g = Some c → 0 < c) as Hpos.
  { intros g c [_ Hc]%at_Some. apply (Forall_lookup_1 _ _ _ _ Heach) in Hc. cbn in Hc. lia. }
  exists p, n. split_and!; [done|done| | | |by exists cc| |..].
  - rewrite (group_count n _ _ R) by (apply Hm, default_table_some; done). by rewrite length_default_table.
  - intros g c Hc. pose proof (Hpos g c Hc). rewrite (nodes_info n _ _ g R), (node_count n _ _ g R), (Ht g c Hc) by eauto.
    cbn. unfold group_nodes. rewrite length_fmap, length_seqZ. split; [done|]. f_equal. lia.
  - destruct counts as [|c counts]; [done|]. rewrite (local_info n _ 0 0 R) by done. rewrite (Ht 0 c) by done.
    cbn [mbind option_bind]. unfold group_nodes. pose proof (Hpos 0 c eq_refl). apply at_Some. split; [lia|].
    rewrite list_lookup_fmap. by rewrite (proj2 (lookup_seqZ 0 c (Z.to_nat 0) 0)) by lia.
  - exists b. split; [done|]. intros i j [Hj (c & Hc & Hjc)].
    destruct (Hk (group_nodes i c) (default_node i j)) as (_ & _ & _ & raw & H1 & H2).
    + apply list_elem_of_lookup. pose proof (Ht i c Hc) as [_ H]%at_Some. eauto.
    + apply list_elem_of_fmap. exists j. split; [done|]. apply elem_of_seqZ. lia.
    + by exists raw.
  - unfold isDistributedSetting. rewrite default_setting by (apply G; unfold sections; set_solver). cbn. by rewrite bool_roundtrip.
  - unfold getBlockMaxBatchSize. rewrite default_setting by (apply G; unfold sections; set_solver). cbn. by rewrite int_roundtrip.
  - unfold getBlockBatchTimeoutMs. rewrite default_setting by (apply G; unfold sections; set_solver). cbn. by rewrite int_roundtrip.
  - unfold getSSHInfo. rewrite !G by (unfold sections; set_solver). cbn. by rewrite !str_roundtrip.
  - unfold replicatorLowestPort. rewrite default_setting by (apply G; unfold sections; set_solver). cbn. by rewrite as_int_Undef.
  - intros g. unfold getStartBlockNumber. rewrite G by (unfold sections; set_solver). cbn.
    by rewrite get_at_Undef.
Qed.

(** *** Addresses *)
Lemma upsert_at (l : list NodeConfig) (k : nat) c c' : NoDup (ski <$> l) → l !! k = Some c → ski c' = ski c →
  upsert c' l = <[k := c']> l.
Proof using Type.
  intros Hd Hk Hs. unfold upsert.
  assert (list_find (λ x, ski x = ski c') l = Some (k, c)) as ->; [|done].
  apply list_find_Some. split_and!; [done|done|]. intros j y Hj Hlt E.
  assert (j = k) as ->; [|lia]. eapply (NoDup_lookup (ski <$> l)); [done|..]; rewrite list_lookup_fmap.
  - by rewrite Hj.
  - rewrite Hk. cbn. congruence.
Qed.

(** The addresses of one node change, and nothing else. *)
Lemma set_ip p (t : table) loc g k l c pub pri :
  Conf p t loc → at_ t g = Some l → at_ l k = Some c → groupId c = g → in_int32 (nodeId c) →
  NoDup (ski <$> l) → Z.of_nat (length t) < 2 ^ 31 - 1 →
  ∃ p', SetNodeIp p g k pub pri = Some (p', true) ∧
    Conf p' (<[Z.to_nat g := <[Z.to_nat k := new_ips c pub pri]> l]> t) loc ∧ frame [NODES_PROPERTIES] p p'.
Proof using laws.
  intros C Hl Hc Hg Hi Hd Hb. pose proof C as (Hp & n & Hn & _ & R).
  pose proof (proj1 (at_Some _ _ _) Hl) as [Hg0 Hl']. pose proof (lookup_lt_Some _ _ _ Hl') as Hlt.
  assert (in_int32 g) as Hgi by (unfold in_int32; lia).
  destruct (set_conf p t loc (new_ips c pub pri) C) as (p' & E & C' & F); [|cbn; lia|done|].
  { split; cbn; [done|by subst g]. }
  exists p'. unfold SetNodeIp. rewrite Hn. cbn [mbind option_bind]. rewrite (single_info n t loc g k R Hgi), Hl.
  cbn [mbind option_bind]. rewrite Hc. cbn [mbind option_bind]. rewrite E. cbn [mbind option_bind]. split_and!; [done| |done].
  replace (table_set t (new_ips c pub pri)) with (<[Z.to_nat g := <[Z.to_nat k := new_ips c pub pri]> l]> t) in C'; [done|].
  unfold table_set. cbn [groupId new_ips]. rewrite Hg, Hl. f_equal. symmetry.
  apply at_Some in Hc as [_ Hc]. by eapply upsert_at.
Qed.

(** A node that is not there is reported. *)
Lemma set_ip_missing p (t : table) loc g k pub pri :
  Conf p t loc → in_int32 g → (l ← at_ t g; at_ l k) = None → SetNodeIp p g k pub pri = Some (p, false).
Proof using laws.
  intros (Hp & n & Hn & _ & R) Hg H. unfold SetNodeIp. rewrite Hn. cbn [mbind option_bind].
  by rewrite (single_info n t loc g k R Hg), H.
Qed.

End documents.

(** ** A concrete deployment *)
#[local] Existing Instance Tree.lib.
#[local] Existing Instance Tree.tree_laws.
#[local] Existing Instance Toy.lib.
#[local] Existing Instance Toy.toy_laws.

Definition sample_seed (i j : Z) : string :=
  "0123456789abcdef0123456789abcd" +:+ String (hex_digit i) (String (hex_digit j) EmptyString).

Lemma sample_generates i j : generates sample_seed i j.
Proof. exists (true, sample_seed i j). split_and!; [done|by eexists|by eexists]. Qed.

Lemma default_config_witness :
  ∃ p n, initDefaultConfig (Text := Tree.node) sample_seed [2; 1] = Some (p, true) ∧ getNodeProperties p = Some n ∧
    getGroupCount n = Some 2 ∧ getLocalNodeInfo n = Some (default_node 0 0).
Proof.
  destruct (default_config sample_seed [2; 1]) as (p & n & E & Hn & Hc & _ & Hl & _).
  - split; [done| |done]. by repeat (apply Forall_cons; split; [done|]).
  - intros i j _. apply sample_generates.
  - by exists p, n.
Defined.

(** The document itself: the nodes of group 0 and the key of node 1 of it. *)
Lemma sample_document :
  (r ← initDefaultConfig (Text := Tree.node) sample_seed [2; 1];
   n ← getNodeProperties r.1; l ← getGroupNodesInfo n 0;
   b ← getCustomProperties r.1 "bccsp"; k ← yaml_loadKey b "0_1"; Some (map ski l, map pubIp l, k)) =
  Some (["0_0"; "0_1"], ["127.1.0.0"; "127.1.0.1"], Some ("0123456789abcdef0123456789abcd01", true)).
Proof. vm_compute. reflexivity. Qed.
