(* ===== verification/Deploy.v ===== *)
(** * Deploy: the certificate authority

    The backend of the certificate authority (ca/ca_http_service.h and .cpp) and
    the [Dispatcher] and [SessionPool] it drives (ca/config_initializer.h and
    .cpp): it keeps the list of hosts, writes one configuration document, and
    hands every host that document with the host's own identity in it, over SSH.

    The state is what the process keeps and what it has done to the hosts.  A
    call to the SSH library (opening a session, connecting, running a command,
    starting SFTP, copying a file) succeeds or fails as the parameter [answers]
    says, one answer per call in order; [None] is the end of the process.  The
    threads of [processParallel] are run one after the other. *)

From S2P Require Import Prelude Zpp Decimal RaftFSM ZmqPorts Yaml Property Crypto KeyStore ConfigInit.
From Stdlib Require Import Ascii.

Open Scope Z_scope.

Record RemoteNode := mkRemote { r_groupId : Z; r_nodeId : Z; isClient : bool }.

(** [std::filesystem::path::operator/]. *)
Fixpoint ends_with_slash (s : string) : bool :=
  match s with
  | EmptyString => false
  | String c EmptyString => Ascii.eqb c "/"
  | String _ s => ends_with_slash s
  end.

Definition path_join (a b : string) : string :=
  match b with
  | String "/" _ => b
  | _ => if bool_decide (a = EmptyString) || ends_with_slash a then a +:+ b else a +:+ "/" +:+ b
  end.

(** [SSHSession::executeCommandNoWait]: every part followed by a space. *)
Definition build_command (builder : list string) : string :=
  fold_left (λ command it, command +:+ it +:+ " ") builder EmptyString.

Section deploy.
Context {Node Text : Type} {lib : YamlLib Node Text}.
Context {PKEY MdCtx Seed : Type} {evp : EvpLib PKEY MdCtx Seed}.
Context (seed : Z → Z → Seed) (answers : nat → bool).
(** The order in which a loop sees the hosts. *)
Context (order : gmap string RemoteNode → list (string * RemoteNode)).

Record CA := mkCA {
  properties : option Node;                      (* the process-wide object *)
  local_files : gmap string Text;
  defaultPool : gset string;                     (* hosts with a session *)
  destroyPool : gset string;
  _nodesList : gmap string RemoteNode;           (* by public address *)
  hosts : gmap (string * string) (option Text);  (* files copied to a host, by path; [None]: not a document *)
  commands : list (string * string);             (* run on a host *)
  clock : nat;
}.

(** The paths of a dispatcher. *)
Record Dispatcher := mkDispatcher {
  _runningPath : string; _bftFolderName : string; _ncFolderName : string; _peerExecName : string }.

(** *** The monad *)
Definition D (A : Type) : Type := CA → option (A * CA).
Definition dret {A} (a : A) : D A := λ s, Some (a, s).
Definition dbind {A B} (m : D A) (f : A → D B) : D B := λ s, '(a, s) ← m s; f a s.
Notation "x ⇐ m ; k" := (dbind m (λ x, k)) (at level 100, m at level 90, k at level 200, right associativity).
(** [if (!m) { return false; }] *)
Notation "'TRY' m ';;' k" := (dbind m (λ ok : bool, if ok then k else dret false))
  (at level 200, m at level 90, k at level 200, right associativity).

Definition modify (f : CA → CA) : D unit := λ s, Some (tt, f s).
Definition ask : D bool := λ s,
  Some (answers (clock s),
    mkCA (properties s) (local_files s) (defaultPool s) (destroyPool s) (_nodesList s) (hosts s) (commands s) (S (clock s))).

Definition set_properties (p : option Node) (s : CA) : CA :=
  mkCA p (local_files s) (defaultPool s) (destroyPool s) (_nodesList s) (hosts s) (commands s) (clock s).
Definition set_files (fs : gmap string Text) (s : CA) : CA :=
  mkCA (properties s) fs (defaultPool s) (destroyPool s) (_nodesList s) (hosts s) (commands s) (clock s).
Definition set_pools (dp xp : gset string) (s : CA) : CA :=
  mkCA (properties s) (local_files s) dp xp (_nodesList s) (hosts s) (commands s) (clock s).
Definition set_nodesList (m : gmap string RemoteNode) (s : CA) : CA :=
  mkCA (properties s) (local_files s) (defaultPool s) (destroyPool s) m (hosts s) (commands s) (clock s).
Definition put_host (k : string * string) (t : option Text) (s : CA) : CA :=
  mkCA (properties s) (local_files s) (defaultPool s) (destroyPool s) (_nodesList s) (<[k := t]> (hosts s)) (commands s) (clock s).
Definition add_command (c : string * string) (s : CA) : CA :=
  mkCA (properties s) (local_files s) (defaultPool s) (destroyPool s) (_nodesList s) (hosts s) (commands s ++ [c]) (clock s).

(** [Properties::GetProperties()]; null ends the process. *)
Definition GetProperties : D Node := λ s, p ← properties s; Some (p, s).
Definition update_properties (f : Node → option Node) : D unit :=
  λ s, p ← properties s; p' ← f p; Some (tt, set_properties (Some p') s).

(** ** SessionPool *)
Inductive Pool := DefaultPool | DestroyPool.
Definition pool_of (b : Pool) (s : CA) : gset string := match b with DefaultPool => defaultPool s | DestroyPool => destroyPool s end.
Definition add_session (b : Pool) (ip : string) (s : CA) : CA :=
  match b with
  | DefaultPool => set_pools ({[ip]} ∪ defaultPool s) (destroyPool s) s
  | DestroyPool => set_pools (defaultPool s) ({[ip]} ∪ destroyPool s) s
  end.

Definition connect (b : Pool) (ip : string) : D bool := λ s,
  if bool_decide (ip ∈ pool_of b s) then Some (true, s)
  else
    (p ⇐ GetProperties;
     TRY ask;;                                     (* NewSSHSession *)
     let '(_, _, success) := getSSHInfo p in
     if negb success then dret false
     else TRY ask;;                                (* session->connect *)
     _ ⇐ modify (add_session b ip); dret true) s.

Definition executeCommand (ip : string) (builder : list string) : D bool :=
  ok ⇐ ask; _ ⇐ modify (if (ok : bool) then add_command (ip, build_command builder) else id); dret ok.

(** An SFTP session that does not open is a null pointer that is read. *)
Definition putFile (ip remote : string) (content : option Text) : D bool :=
  sftp ⇐ ask;
  if negb sftp then λ _, None
  else ok ⇐ ask; _ ⇐ modify (if (ok : bool) then put_host (ip, remote) content else id); dret ok.

(** ** Dispatcher *)
Section dispatcher.
Context (d : Dispatcher).
Notation "a // b" := (path_join a b) (at level 40, left associativity).
Notation run := (_runningPath d).
Notation bft := (_bftFolderName d).
Notation nc := (_ncFolderName d).

Definition updateRemoteSourcecode (ip : string) : D bool :=
  TRY connect DefaultPool ip;;
  let ncZipName := nc +:+ ".zip" in
  TRY putFile ip (run // ncZipName) None;;
  TRY executeCommand ip ["cd"; run; "&&"; "rm -rf"; run // nc // "src"; run // nc // "include"; "&&"; "unzip -q -o"; run // nc];;
  dret true.

Definition updateRemoteBFTPack (ip : string) : D bool :=
  TRY connect DefaultPool ip;;
  let bftZipName := bft +:+ ".zip" in
  TRY putFile ip (run // bftZipName) None;;
  TRY executeCommand ip ["cd"; run; "&&"; "unzip -q -o"; run // bft];;
  dret true.

Definition transmitFileToRemote (ip : string) : D bool :=
  TRY connect DefaultPool ip;;
  TRY executeCommand ip ["mkdir -p"; run];;
  let bftZipName := bft +:+ ".zip" in
  let ncZipName := nc +:+ ".zip" in
  TRY executeCommand ip ["cd"; run; "&&"; "rm -rf"; bft; bftZipName; nc; ncZipName];;
  p ⇐ GetProperties;
  let '(_, password, success) := getSSHInfo p in
  if negb success then dret false
  else
    TRY executeCommand ip
      ["export DEBIAN_FRONTEND=noninteractive"; "&&"; "echo"; password; "|"; "sudo -S apt update"; "&&";
       "sudo apt install zip unzip git cmake libtool make autoconf g++-11 zlib1g-dev libgoogle-perftools-dev g++ -y"];;
    TRY updateRemoteSourcecode ip;;
    TRY updateRemoteBFTPack ip;;
    dret true.

Definition compileRemoteSourcecode (ip : string) : D bool :=
  TRY connect DefaultPool ip;;
  TRY executeCommand ip ["kill -9 $(pidof cmake)"];;
  TRY executeCommand ip
    ["cd"; run // nc; "&&";
     "cmake -DCMAKE_BUILD_TYPE=Release -DCMAKE_C_COMPILER=/usr/bin/gcc-11 -DCMAKE_CXX_COMPILER=/usr/bin/g++-11 -B build";
     "&&";
     "cmake --build build --target NBPStandalone_peer NBPStandalone_ycsb NBPStandalone_small_bank NBPStandalone_tpcc -j"];;
  dret true.

Definition overrideProperties : D unit :=
  let peerRunningPath := run // bft in
  let jvmPath := peerRunningPath // "corretto-16.0.2/bin/java" in
  update_properties (λ p, p ← SetProperties p "jvm_path" (of_str jvmPath); SetProperties p "running_path" (of_str peerRunningPath)).

Definition config_path : string := run // bft // "peer.yaml".

Definition transmitPropertiesToRemote (ip : string) : D bool :=
  TRY connect DefaultPool ip;;
  let configFilename := "peer_cfg_" +:+ ip +:+ "_tmp" in
  TRY (λ s, match properties s with
            | None => Some (false, s)
            | Some p => let '(fs, ok) := SaveProperties (local_files s) configFilename p in Some (ok, set_files fs s)
            end);;
  (λ s, putFile ip config_path (local_files s !! configFilename) s).

Definition generateDatabase (chaincodeName ip : string) : D bool :=
  TRY connect DefaultPool ip;;
  TRY executeCommand ip ["cd"; run // bft; "&&"; "rm -rf "; run // bft // "data"; "&&";
    run // nc // "build" // "standalone" // _peerExecName d; "-i=" +:+ chaincodeName];;
  dret true.

Definition startPeer (ip : string) : D bool :=
  TRY connect DefaultPool ip;;
  TRY executeCommand ip ["cd"; run // bft; "&&"; run // nc // "build" // "standalone" // _peerExecName d];;
  dret true.

Definition stopPeer (ip : string) : D bool :=
  TRY connect DestroyPool ip;;
  TRY executeCommand ip ["kill -9 $(pidof " +:+ _peerExecName d +:+ ")"];;
  dret true.

Definition startUser (dbName ip : string) : D bool :=
  TRY connect DefaultPool ip;;
  TRY executeCommand ip ["cd"; run // bft; "&&"; run // nc // "build" // "standalone" // dbName];;
  dret true.

Definition stopUser (dbName ip : string) : D bool :=
  TRY connect DestroyPool ip;;
  TRY executeCommand ip ["kill -9 $(pidof " +:+ dbName +:+ ")"];;
  dret true.

(** A copy that fails is only logged. *)
Definition backupRemoteDatabase (ip : string) : D bool :=
  TRY connect DefaultPool ip;;
  _ ⇐ executeCommand ip ["cp -r -f"; run // bft // "data"; run // bft // "data_bk"];
  dret true.

Definition restoreRemoteDatabase (ip : string) : D bool :=
  TRY connect DefaultPool ip;;
  _ ⇐ executeCommand ip ["rm -rf "; run // bft // "data"; "&&"; "cp -r -f"; run // bft // "data_bk"; run // bft // "data"; "&&";
       "rm -rf "; run // bft // "data" // "*:*:*"];
  dret true.

Definition hello (ip : string) : D bool := λ s,
  if bool_decide (ip ∈ defaultPool s) then Some (true, s)
  else (TRY connect DefaultPool ip;; TRY executeCommand ip ["echo Hello, world!"];; dret true) s.

(** ** ServiceBackend *)
Definition initNodes (nodes : list Z) : D unit :=
  _ ⇐ (λ s, '(p, _) ← initDefaultConfig (Text := Text) seed nodes; Some (tt, set_properties (Some p) s));
  overrideProperties.

Definition add_host (pub : string) (cfg : RemoteNode) : D unit := λ s,
  if bool_decide (pub = EmptyString) then None else Some (tt, set_nodesList (<[pub := cfg]> (_nodesList s)) s).

(** The result of [SetNodeIp] is not looked at. *)
Definition setNodesIp (groupId nodeId : Z) (pub pri : string) : D unit :=
  _ ⇐ update_properties (λ p, r ← SetNodeIp p groupId nodeId pub pri; Some r.1);
  add_host pub (mkRemote groupId nodeId false).

Definition addNodeAsClient (groupId nodeId : Z) (pub : string) : D unit := add_host pub (mkRemote groupId nodeId true).

(** At most three attempts. *)
Fixpoint attempts (n : nat) (m : D bool) : D bool :=
  match n with
  | O => dret false
  | S n => ok ⇐ m; if (ok : bool) then dret true else attempts n m
  end.

Fixpoint update_loop (clientOnly : bool) (l : list (string * RemoteNode)) : D unit :=
  match l with
  | [] => dret tt
  | (ip, cfg) :: l =>
      if clientOnly && negb (isClient cfg) then update_loop clientOnly l
      else
        _ ⇐ update_properties (λ p, SetLocalId p (r_groupId cfg) (r_nodeId cfg));
        _ ⇐ attempts 3 (transmitPropertiesToRemote ip);
        update_loop clientOnly l
  end.

Definition updateProperties (clientOnly : bool) : D unit := λ s, update_loop clientOnly (order (_nodesList s)) s.

Fixpoint hello_all (l : list (string * RemoteNode)) : D bool :=
  match l with
  | [] => dret true
  | (ip, _) :: l => TRY hello ip;; hello_all l
  end.

Definition service_hello : D bool := λ s, attempts 3 (hello_all (order (_nodesList s))) s.

(** Every host is tried; one failure makes the result [false]. *)
Fixpoint processParallel (task : string → D bool) (ips : list string) : D bool :=
  match ips with
  | [] => dret true
  | ip :: ips => ok ⇐ task ip; rest ⇐ processParallel task ips; dret (ok && rest)
  end.

Definition processParallel_where (f : RemoteNode → bool) (task : string → D bool) : D bool :=
  λ s, processParallel task (filter (λ it, f it.2 = true) (order (_nodesList s))).*1 s.
Definition processParallelAll (task : string → D bool) : D bool := processParallel_where (λ _, true) task.
Definition processParallelPeerOnly (task : string → D bool) : D bool := processParallel_where (λ c, negb (isClient c)) task.
Definition processParallelClientOnly (task : string → D bool) : D bool := processParallel_where isClient task.

(** The requests that name hosts, or all of them. *)
Definition some_or_all (task : string → D bool) (ipList : list string) : D bool :=
  if bool_decide (ipList = []) then processParallelAll task else processParallel task ipList.

Definition service_transmitFiles := some_or_all transmitFileToRemote.
Definition service_updateSourcecode := some_or_all updateRemoteSourcecode.
Definition service_compileSourcecode := some_or_all compileRemoteSourcecode.
Definition service_updatePBFTPack := some_or_all updateRemoteBFTPack.
Definition service_generateDatabase (dbName : string) := processParallelPeerOnly (generateDatabase dbName).
Definition service_backupDatabase := processParallelPeerOnly backupRemoteDatabase.
Definition service_restoreDatabase := processParallelPeerOnly restoreRemoteDatabase.
Definition service_startPeer := processParallelPeerOnly startPeer.
Definition service_stopPeer := processParallelPeerOnly stopPeer.
Definition service_startUser (dbName : string) := processParallelClientOnly (startUser dbName).
Definition service_stopUser (dbName : string) := processParallelClientOnly (stopUser dbName).

(** ** What the remote calls leave alone *)
Definition same_config (s s' : CA) : Prop :=
  properties s' = properties s ∧ _nodesList s' = _nodesList s ∧ hosts s' = hosts s.

#[local] Instance same_config_preorder : PreOrder same_config.
Proof using Type. split; [by intros s|]. intros a b c (H1 & H2 & H3) (H4 & H5 & H6). split_and!; congruence. Qed.

Lemma connect_same b ip s ok s' : connect b ip s = Some (ok, s') → same_config s s'.
Proof using Type.
  unfold connect. case_bool_decide; [by intros [= _ <-]|]. unfold dbind, GetProperties, ask, dret, modify. cbn.
  destruct (properties s) as [p|] eqn:Ep; [|done]. cbn. destruct (answers (clock s)); [|intros [= _ <-]; by split_and!].
  destruct (getSSHInfo p) as [[u w] success]. destruct success; cbn; [|intros [= _ <-]; by split_and!].
  destruct (answers (S (clock s))); intros [= _ <-]; destruct b; by split_and!.
Qed.

(** One transmission: nothing, or this host's file. *)
Lemma transmit_result ip s ok s' : transmitPropertiesToRemote ip s = Some (ok, s') →
  properties s' = properties s ∧ _nodesList s' = _nodesList s ∧
  if ok then ∃ p t, properties s = Some p ∧ emit p = Some t ∧ hosts s' = <[(ip, config_path) := Some t]> (hosts s)
  else hosts s' = hosts s.
Proof using Type.
  unfold transmitPropertiesToRemote. unfold dbind at 1. destruct (connect DefaultPool ip s) as [[c s1]|] eqn:Ec; [|done].
  apply connect_same in Ec as (P1 & N1 & H1). cbn [mbind option_bind]. destruct c; [|unfold dret; intros [= <- <-]; by split_and!].
  unfold dbind at 1. destruct (properties s1) as [p|] eqn:Ep; cbn [mbind option_bind].
  2: { unfold dret. intros [= <- <-]. split_and!; congruence. }
  unfold SaveProperties. destruct (emit p) as [t|] eqn:Et; cbn [mbind option_bind].
  2: { unfold dret. intros [= <- <-]. cbn. split_and!; congruence. }
  unfold putFile, dbind, ask, modify, dret. cbn. destruct (answers (clock s1)); cbn; [|done].
  destruct (answers (S (clock s1))); intros [= <- <-]; cbn.
  - split_and!; [congruence|done|]. exists p, t. split_and!; [congruence|done|]. by rewrite H1, lookup_insert_eq.
  - split_and!; [congruence|done|done].
Qed.

(** The attempts together. *)
Lemma attempts_result n ip s ok s' : attempts n (transmitPropertiesToRemote ip) s = Some (ok, s') →
  properties s' = properties s ∧ _nodesList s' = _nodesList s ∧
  if ok then ∃ p t, properties s = Some p ∧ emit p = Some t ∧ hosts s' = <[(ip, config_path) := Some t]> (hosts s)
  else hosts s' = hosts s.
Proof using Type.
  revert s. induction n as [|n IH]; intros s; cbn [attempts]; [intros [= <- <-]; by split_and!|]. unfold dbind.
  destruct (transmitPropertiesToRemote ip s) as [[c s1]|] eqn:E; [|done]. apply transmit_result in E as (P1 & N1 & H1).
  cbn [mbind option_bind]. destruct c; [unfold dret; intros [= <- <-]; by split_and!|].
  intros (P2 & N2 & H2)%IH. split_and!; [congruence|congruence|]. by rewrite P1, H1 in H2.
Qed.

(** When every call succeeds, the file is there after the first attempt. *)
Lemma connect_up ip s p : (∀ n, answers n = true) → properties s = Some p → (getSSHInfo p).2 = true →
  ∃ s', connect DefaultPool ip s = Some (true, s') ∧ same_config s s' ∧ local_files s' = local_files s.
Proof using Type.
  intros Ha Hp Hi. unfold connect. case_bool_decide; [by exists s|]. unfold dbind, GetProperties, ask, dret, modify. cbn.
  rewrite Hp. cbn. rewrite !Ha. destruct (getSSHInfo p) as [[u w] success]. cbn in Hi. rewrite Hi. cbn.
  rewrite !Ha. eexists. split; [done|]. by repeat split.
Qed.

Lemma transmit_up ip s p t : (∀ n, answers n = true) → properties s = Some p → (getSSHInfo p).2 = true →
  emit p = Some t → ∃ s', transmitPropertiesToRemote ip s = Some (true, s').
Proof using Type.
  intros Ha Hp Hi Ht. unfold transmitPropertiesToRemote. unfold dbind at 1.
  destruct (connect_up ip s p Ha Hp Hi) as (s1 & -> & (P1 & _) & _). cbn [mbind option_bind]. unfold dbind at 1.
  rewrite P1, Hp. unfold SaveProperties. rewrite Ht. cbn [mbind option_bind].
  unfold putFile, dbind, ask, modify, dret. cbn. rewrite !Ha. cbn. rewrite Ha. by eexists.
Qed.

Lemma attempts_up n ip s p t : (∀ n, answers n = true) → properties s = Some p → (getSSHInfo p).2 = true →
  emit p = Some t → ∃ s', attempts (S n) (transmitPropertiesToRemote ip) s = Some (true, s').
Proof using Type.
  intros Ha Hp Hi Ht. cbn [attempts]. unfold dbind. destruct (transmit_up ip s p t Ha Hp Hi Ht) as [s' ->]. by exists s'.
Qed.

(** ** Identities *)
Context {laws : YamlLaws Node Text}.

(** Host [ip] has a document that is [p0] but for the nodes, which are the table
    [t] with the local node [(g, k)]. *)
Definition delivered (p0 : Node) (t : table) (s : CA) (ip : string) (g k : Z) : Prop :=
  ∃ text q, hosts s !! (ip, config_path) = Some (Some text) ∧ parse text = Some q ∧
    Conf q t (Some (g, k)) ∧ frame [NODES_PROPERTIES] p0 q.

Definition all_up : Prop := (∀ n, answers n = true) ∧ ∀ n : Node, is_Some (emit n).

Definition remote_ids (l : list (string * RemoteNode)) : Prop :=
  ∀ ip cfg, (ip, cfg) ∈ l → in_int32 (r_groupId cfg) ∧ in_int32 (r_nodeId cfg).

Lemma ssh_framed p q : frame [NODES_PROPERTIES] p q → getSSHInfo q = getSSHInfo p.
Proof using Type. intros F. unfold getSSHInfo. by rewrite !F by fresh_key. Qed.

Definition selected (clientOnly : bool) (cfg : RemoteNode) : bool := negb (clientOnly && negb (isClient cfg)).

Lemma update_loop_spec (p0 : Node) (t : table) (clientOnly : bool) l : ∀ s p loc,
  properties s = Some p → Conf p t loc → frame [NODES_PROPERTIES] p0 p → remote_ids l → NoDup l.*1 →
  (getSSHInfo p0).2 = true →
  (all_up → is_Some (update_loop clientOnly l s)) ∧
  ∀ u s', update_loop clientOnly l s = Some (u, s') →
    _nodesList s' = _nodesList s ∧
    (∀ ip, ip ∉ l.*1 → hosts s' !! (ip, config_path) = hosts s !! (ip, config_path)) ∧
    ∀ ip cfg, (ip, cfg) ∈ l →
      (hosts s' !! (ip, config_path) = hosts s !! (ip, config_path) ∨
       delivered p0 t s' ip (r_groupId cfg) (r_nodeId cfg)) ∧
      (all_up → selected clientOnly cfg = true → delivered p0 t s' ip (r_groupId cfg) (r_nodeId cfg)).
Proof using laws.
  induction l as [|[ip0 cfg0] l IH]; intros s p loc Hp C F Hr Hd Hi; cbn [update_loop].
  { split; [intros _; by eexists|]. intros u s' [= _ <-]. split_and!; [done|done|]. by intros ip cfg ?%not_elem_of_nil. }
  cbn in Hd. apply NoDup_cons in Hd as [Hn Hd].
  assert (remote_ids l) as Hrl by (intros ip cfg H; apply (Hr ip cfg); by right).
  destruct (clientOnly && negb (isClient cfg0)) eqn:Esel.
  { destruct (IH s p loc Hp C F Hrl Hd Hi) as [Hup Hall]. split; [done|].
    intros u s' Hs. destruct (Hall u s' Hs) as (HN & Hout & Hin). split_and!; [done| |].
    - intros ip Hip. apply Hout. intros H. apply Hip. by right.
    - intros ip cfg [[= -> ->]|H]%elem_of_cons; [|by apply Hin]. split; [left; by apply Hout|].
      unfold selected. by rewrite Esel. }
  destruct (Hr ip0 cfg0) as [Hg Hk]; [by left|].
  destruct (set_local_conf p t loc _ _ C Hg Hk) as (p1 & E1 & C1 & F1).
  assert (frame [NODES_PROPERTIES] p0 p1) as F01 by (intros k Hk'; rewrite F1, F; done).
  set (s1 := set_properties (Some p1) s).
  match goal with |- (_ → is_Some ?m) ∧ _ =>
    assert (m = ('(_, s2) ← attempts 3 (transmitPropertiesToRemote ip0) s1; update_loop clientOnly l s2)) as -> end.
  { unfold dbind, update_properties. rewrite Hp. cbn [mbind option_bind]. by rewrite E1. }
  assert (all_up → ∃ s2, attempts 3 (transmitPropertiesToRemote ip0) s1 = Some (true, s2)) as Hone.
  { intros [Ha He]. destruct (He p1) as [tx Htx]. apply (attempts_up 2 ip0 s1 p1 tx); [done|done| |done].
    by rewrite (ssh_framed p0 p1 F01). }
  destruct (attempts 3 (transmitPropertiesToRemote ip0) s1) as [[ok s2]|] eqn:E2;
    [|split; [intros U; destruct (Hone U); congruence|done]].
  pose proof (attempts_result _ _ _ _ _ E2) as (P2 & N2 & H2). cbn in P2, N2, H2. cbn [mbind option_bind].
  destruct (IH s2 p1 (Some (r_groupId cfg0, r_nodeId cfg0)) P2 C1 F01 Hrl Hd Hi) as [Hup Hall]. split; [done|].
  intros u s' Hs. destruct (Hall u s' Hs) as (HN & Hout & Hin).
  assert (∀ ip, ip ≠ ip0 → hosts s2 !! (ip, config_path) = hosts s !! (ip, config_path)) as Hother.
  { intros ip Hne. destruct ok; [|by rewrite H2]. destruct H2 as (? & ? & _ & _ & ->). apply lookup_insert_ne. congruence. }
  assert (ok = true → delivered p0 t s' ip0 (r_groupId cfg0) (r_nodeId cfg0)) as Hdel.
  { intros ->. destruct H2 as (q & tx & [= <-] & Htx & HH). exists tx, p1. rewrite Hout by done. rewrite HH, lookup_insert_eq.
    split_and!; [done|by apply parse_emit|done|done]. }
  split_and!; [congruence| |].
  - intros ip Hip. cbn in Hip. apply not_elem_of_cons in Hip as [Hne Hip]. rewrite Hout by done. by apply Hother.
  - intros ip cfg [[= -> ->]|H]%elem_of_cons.
    + split; [destruct ok; [right; by apply Hdel|left; rewrite Hout by done; by rewrite H2]|].
      intros U _. destruct (Hone U) as [s3 E3]. apply Hdel. congruence.
    + destruct (Hin ip cfg H) as [[Hu|?] ?]; split; auto. left. rewrite Hu. apply Hother.
      intros ->. apply Hn. apply list_elem_of_fmap. by exists (ip0, cfg).
Qed.

(** ** A deployment from the first request

    The operator creates the nodes, gives every node its addresses (in any
    order), and has the documents sent. *)
Context (counts : list Z) (pub pri : Z → Z → string).

Fixpoint set_ips (ids : list (Z * Z)) : D unit :=
  match ids with
  | [] => dret tt
  | (i, j) :: ids => _ ⇐ setNodesIp i j (pub i j) (pri i j); set_ips ids
  end.

Definition named (f : Z → Z → NodeConfig) : Prop :=
  ∀ i j, node_of counts i j → groupId (f i j) = i ∧ nodeId (f i j) = j ∧ ski (f i j) = node_ski i j.

Definition tableF (f : Z → Z → NodeConfig) : table := imap (λ i c, f (Z.of_nat i) <$> seqZ 0 c) counts.
Definition upd (f : Z → Z → NodeConfig) (i j : Z) (x : NodeConfig) : Z → Z → NodeConfig :=
  λ a b, if (a =? i) && (b =? j) then x else f a b.
Definition addressed (i j : Z) : NodeConfig := new_ips (default_node i j) (pub i j) (pri i j).

Lemma at_tableF f g : at_ (tableF f) g = (λ c, f g <$> seqZ 0 c) <$> at_ counts g.
Proof using Type.
  unfold at_, tableF. destruct (Z.ltb_spec g 0); [done|]. rewrite list_lookup_imap. destruct (counts !! Z.to_nat g); [|done].
  cbn. by rewrite Z2Nat.id.
Qed.

Lemma tableF_upd f i j c x : at_ counts i = Some c → 0 <= j < c →
  <[Z.to_nat i := <[Z.to_nat j := x]> (f i <$> seqZ 0 c)]> (tableF f) = tableF (upd f i j x).
Proof using Type.
  intros [Hi Hc]%at_Some Hj. unfold tableF. apply list_eq. intros k.
  destruct (decide (k = Z.to_nat i)) as [->|Hk].
  - rewrite list_lookup_insert_eq by (rewrite length_imap; by eapply lookup_lt_Some).
    rewrite list_lookup_imap, Hc. cbn. f_equal. apply list_eq. intros m. rewrite list_lookup_fmap, Z2Nat.id by done.
    destruct (decide (m = Z.to_nat j)) as [->|Hm].
    + rewrite list_lookup_insert_eq by (rewrite length_fmap, length_seqZ; lia).
      rewrite (proj2 (lookup_seqZ 0 c (Z.to_nat j) j)) by lia. cbn. unfold upd. by rewrite !Z.eqb_refl.
    + rewrite list_lookup_insert_ne, list_lookup_fmap by done. destruct (seqZ 0 c !! m) as [y|] eqn:E; [|done]. cbn.
      apply lookup_seqZ in E as [-> ?]. unfold upd. rewrite Z.eqb_refl. by rewrite (proj2 (Z.eqb_neq _ _)) by lia.
  - rewrite list_lookup_insert_ne by done. rewrite !list_lookup_imap. destruct (counts !! k) as [c'|]; [|done]. cbn.
    f_equal. apply list_fmap_ext. intros m y _. unfold upd. by rewrite (proj2 (Z.eqb_neq _ _)) by lia.
Qed.

Lemma named_skis f g c : named f → at_ counts g = Some c → Z.of_nat (length counts) < 2 ^ 31 → c < 2 ^ 31 →
  NoDup (ski <$> (f g <$> seqZ 0 c)).
Proof using Type.
  intros Hf Hg Hl Hc. rewrite <-list_fmap_compose. apply NoDup_fmap_2_strong; [|apply NoDup_seqZ].
  pose proof (proj1 (at_Some _ _ _) Hg) as [H0 Hlt%lookup_lt_Some].
  intros x y Hx%elem_of_seqZ Hy%elem_of_seqZ E. cbn in E.
  destruct (Hf g x) as (_ & _ & E1); [split; [lia|exists c; split; [done|lia]]|].
  destruct (Hf g y) as (_ & _ & E2); [split; [lia|exists c; split; [done|lia]]|].
  rewrite E1, E2 in E. apply node_ski_inj in E; unfold natural; lia.
Qed.

Hypothesis Hcounts : counts_ok counts.

Lemma set_one (p : Node) f loc i j : Conf p (tableF f) loc → named f → node_of counts i j →
  ∃ p', SetNodeIp p i j (pub i j) (pri i j) = Some (p', true) ∧
    Conf p' (tableF (upd f i j (new_ips (f i j) (pub i j) (pri i j)))) loc ∧ frame [NODES_PROPERTIES] p p' ∧
    named (upd f i j (new_ips (f i j) (pub i j) (pri i j))).
Proof using laws Hcounts.
  intros C Hf Hn. pose proof Hn as (Hj & c & Hc & Hjc). destruct Hcounts as [_ Heach Hlen].
  pose proof (proj1 (at_Some _ _ _) Hc) as [H0 Hc']. pose proof (lookup_lt_Some _ _ _ Hc') as Hlt.
  pose proof (Forall_lookup_1 _ _ _ _ Heach Hc') as Hcb. cbn in Hcb. destruct (Hf i j Hn) as (F1 & F2 & F3).
  destruct (set_ip p (tableF f) loc i j (f i <$> seqZ 0 c) (f i j) (pub i j) (pri i j)) as (p' & E & C' & F); [done|..].
  - by rewrite at_tableF, Hc.
  - apply at_Some. split; [done|]. rewrite list_lookup_fmap. by rewrite (proj2 (lookup_seqZ 0 c (Z.to_nat j) j)) by lia.
  - done.
  - rewrite F2. unfold in_int32. lia.
  - apply named_skis; [done|done|lia|lia].
  - unfold tableF. rewrite length_imap. lia.
  - rewrite (tableF_upd f i j c _ Hc) in C' by lia. exists p'. split_and!; [done|done|done|].
    intros a b Hab. unfold upd. destruct (Z.eqb_spec a i), (Z.eqb_spec b j); subst; cbn [andb]; auto.
Qed.

Hypothesis Hpub : ∀ i j, node_of counts i j → pub i j ≠ EmptyString.
Hypothesis Hinj : ∀ i j i' j', node_of counts i j → node_of counts i' j' → pub i j = pub i' j' → i = i' ∧ j = j'.

Lemma addressed_named f i j : named f → node_of counts i j → new_ips (f i j) (pub i j) (pri i j) = addressed i j.
Proof using Type. intros Hf Hn. destruct (Hf i j Hn) as (H1 & H2 & H3). unfold addressed, new_ips. cbn. by rewrite H1, H2, H3. Qed.

Lemma set_ips_spec (p0 : Node) ids : ∀ s p f loc,
  properties s = Some p → Conf p (tableF f) loc → frame [NODES_PROPERTIES] p0 p → named f →
  (∀ i j, (i, j) ∈ ids → node_of counts i j) →
  ∃ s' p' f', set_ips ids s = Some (tt, s') ∧ properties s' = Some p' ∧ Conf p' (tableF f') loc ∧
    frame [NODES_PROPERTIES] p0 p' ∧ named f' ∧ hosts s' = hosts s ∧
    (∀ i j, node_of counts i j → f' i j = if bool_decide ((i, j) ∈ ids) then addressed i j else f i j) ∧
    (∀ i j, (i, j) ∈ ids → _nodesList s' !! pub i j = Some (mkRemote i j false)) ∧
    (∀ ip, (∀ i j, (i, j) ∈ ids → pub i j ≠ ip) → _nodesList s' !! ip = _nodesList s !! ip).
Proof using laws Hcounts Hpub Hinj.
  induction ids as [|[i j] ids IH]; intros s p f loc Hp C F Hf Hids.
  { exists s, p, f. split_and!; [done|done|done|done|done|done| | |done].
    - intros a b _. rewrite bool_decide_false by by apply not_elem_of_nil. done.
    - intros a b []%not_elem_of_nil. }
  assert (node_of counts i j) as Hij by (apply Hids; by left).
  destruct (set_one p f loc i j C Hf Hij) as (p1 & E1 & C1 & F1 & Hf1).
  set (s1 := set_nodesList (<[pub i j := mkRemote i j false]> (_nodesList s)) (set_properties (Some p1) s)).
  assert (setNodesIp i j (pub i j) (pri i j) s = Some (tt, s1)) as Es.
  { unfold setNodesIp, dbind, update_properties. rewrite Hp. cbn [mbind option_bind]. rewrite E1. cbn [mbind option_bind fst].
    unfold add_host. by rewrite bool_decide_false by by apply Hpub. }
  destruct (IH s1 p1 _ loc eq_refl C1) as (s' & p' & f' & E' & P' & C' & F' & Hf' & H' & Hft & HN & HO).
  { intros k Hk. rewrite F1, F; done. }
  { done. }
  { intros a b Hab. apply Hids. by right. }
  exists s', p', f'. split_and!; [|done|done|done|done|done| | |].
  - cbn [set_ips]. unfold dbind. rewrite Es. exact E'.
  - intros a b Hab. rewrite Hft by done. unfold upd. case_bool_decide as Hin.
    { by rewrite bool_decide_true by by right. }
    destruct (Z.eqb_spec a i), (Z.eqb_spec b j); cbn [andb]; subst.
    { rewrite bool_decide_true by by left. by apply addressed_named. }
    all: rewrite bool_decide_false; [done|]. all: intros [?|?]%elem_of_cons; [simplify_eq|done].
  - intros a b [[= -> ->]|Hab]%elem_of_cons; [|by apply HN].
    destruct (decide ((i, j) ∈ ids)) as [Hin|Hout]; [by apply HN|].
    rewrite HO; [unfold s1; cbn; apply lookup_insert_eq|].
    intros a b Hab E. destruct (Hinj a b i j) as [-> ->]; [apply Hids; by right|done|done|done].
  - intros ip Hne. rewrite HO by (intros a b Hab; apply Hne; by right). unfold s1. cbn.
    apply lookup_insert_ne. apply Hne. by left.
Qed.

Context {elaws : EvpLaws PKEY MdCtx Seed}.
Hypothesis Hgen : ∀ i j, node_of counts i j → generates seed i j.

(** What a document has besides the nodes. *)
Record settings_ok (p : Node) : Prop := {
  so_keys : Keys seed p (default_table counts);
  so_chaincodes : ∃ cc, getChaincodeProperties p = Some cc ∧ kind cc = MapNode ∧
    ∀ name, name ∈ sections → cc_installed cc name = Some true;
  so_ssh : (getSSHInfo p).2 = true;
  so_distributed : isDistributedSetting p = true;
  so_port : replicatorLowestPort p = 51200;
  so_start : ∀ g, getStartBlockNumber p g = 0;
}.

Lemma settings_framed p q : frame [NODES_PROPERTIES] p q → settings_ok p → settings_ok q.
Proof using Type.
  intros F [(b & Hb & K) (cc & Hcc & Hc) H3 H4 H5 H6]. split.
  - exists b. by rewrite F by fresh_key.
  - exists cc. split; [|done]. unfold getChaincodeProperties in *. by rewrite F by fresh_key.
  - by rewrite (ssh_framed p q F).
  - unfold isDistributedSetting, load_or in *. by rewrite F by fresh_key.
  - unfold replicatorLowestPort, load_or in *. by rewrite F by fresh_key.
  - intros g. specialize (H6 g). unfold getStartBlockNumber in *. by rewrite F by fresh_key.
Qed.

Lemma init_nodes s : ∃ p, initNodes counts s = Some (tt, set_properties (Some p) s) ∧
  Conf p (default_table counts) (Some (0, 0)) ∧ settings_ok p.
Proof using laws elaws Hcounts Hgen.
  destruct (default_document (Text := Text) seed counts Hcounts Hgen) as (p & E & C & K & (cc & Hcc & Hkc & Hinst) & G).
  destruct (set_ok p "jvm_path" (of_str (path_join (path_join (_runningPath d) (_bftFolderName d)) "corretto-16.0.2/bin/java")))
    as [p1 E1]; [right; right; apply C|].
  pose proof (set_kind _ _ _ _ E1) as K1.
  destruct (set_ok p1 "running_path" (of_str (path_join (_runningPath d) (_bftFolderName d)))) as [p2 E2]; [by right; right|].
  pose proof (set_kind _ _ _ _ E2) as K2.
  assert (frame ["jvm_path"; "running_path"] p p2) as F.
  { intros k Hk. rewrite (get_unset _ _ _ _ _ E2), (get_unset _ _ _ _ _ E1);
      [done|intros <-; apply Hk; by left|by right; right; apply C|by rewrite (proj1 C)|intros <-; apply Hk; right; by left|by right; right|congruence]. }
  assert (∀ k, k ∉ sections → k ∉ [CHAINCODE_PROPERTIES; NODES_PROPERTIES; "bccsp"] → k ∉ ["jvm_path"; "running_path"] →
    get p2 k = Some (default Undef (assigned (own default_settings) k))) as G2 by (intros k H1 H2 H3; by rewrite F, G).
  exists p2. split_and!.
  - unfold initNodes, dbind. rewrite E. cbn [mbind option_bind]. unfold overrideProperties, update_properties.
    cbn [properties set_properties mbind option_bind]. unfold SetProperties. rewrite E1. cbn [mbind option_bind].
    rewrite E2. done.
  - apply (frame_conf ["jvm_path"; "running_path"] p); [fresh_key|done|done|done].
  - split.
    + destruct K as (b & Hb & K). exists b. by rewrite F by fresh_key.
    + exists cc. split_and!; [|done|done]. unfold getChaincodeProperties in *. by rewrite F by fresh_key.
    + unfold getSSHInfo. rewrite !G2 by fresh_key. cbn. by rewrite !str_roundtrip.
    + unfold isDistributedSetting. unfold load_or. rewrite G2 by fresh_key. cbn. by rewrite bool_roundtrip.
    + unfold replicatorLowestPort, load_or. rewrite G2 by fresh_key. cbn. by rewrite as_int_Undef.
    + intros g. unfold getStartBlockNumber. rewrite G2 by fresh_key. cbn. by rewrite get_at_Undef.
Qed.

(** A document that was delivered can be loaded from a file. *)
Lemma delivered_loads (q : Node) (t : table) loc (files : gmap string Text) name text :
  Conf q t loc → t ≠ [] → settings_ok q → parse text = Some q → files !! name = Some text → name ≠ EmptyString →
  NewProperties files name = Some q.
Proof using Type.
  intros (_ & n & Hn & Hk & _) Ht [_ (cc & Hcc & Hc & _) _ _ _ _] Hp Hf Hne. unfold NewProperties.
  rewrite bool_decide_false by done. rewrite Hf. cbn [mbind option_bind]. rewrite Hp. cbn [mbind option_bind].
  unfold getChaincodeProperties in Hcc. rewrite Hcc. cbn [mbind option_bind]. unfold getNodeProperties in Hn.
  unfold present, IsDefined, IsNull. rewrite Hc. cbn. rewrite Hn. cbn. rewrite (Hk Ht). done.
Qed.

(** The node lists every host reads. *)
Definition deployed_table : table := tableF addressed.

(** Host [ip] runs node [(i, j)]: the file it starts from loads. *)
Definition host_configured (s : CA) (ip : string) (i j : Z) : Prop :=
  ∃ text q, hosts s !! (ip, config_path) = Some (Some text) ∧
    (∀ (files : gmap string Text) name, files !! name = Some text → name ≠ EmptyString → NewProperties files name = Some q) ∧
    Conf q deployed_table (Some (i, j)) ∧ settings_ok q.

Lemma tableF_ext f f' : (∀ i j, node_of counts i j → f i j = f' i j) → tableF f = tableF f'.
Proof using Type.
  intros H. unfold tableF. apply imap_ext. intros i c Hi. apply list_fmap_ext. intros k j Hj%list_elem_of_lookup_2.
  apply elem_of_seqZ in Hj. apply H. split; [lia|]. exists c. split; [|lia]. apply at_Some. rewrite Nat2Z.id. by split; [lia|].
Qed.

(** The run of the service from the first request on. *)
Lemma configuration_delivered ids s0 :
  (∀ i j, (i, j) ∈ ids ↔ node_of counts i j) → (∀ m, order m ≡ₚ map_to_list m) → _nodesList s0 = ∅ →
  ∃ s1, (_ ⇐ initNodes counts; set_ips ids) s0 = Some (tt, s1) ∧
    (all_up → is_Some (updateProperties false s1)) ∧
    ∀ u s2, updateProperties false s1 = Some (u, s2) → ∀ i j, node_of counts i j →
      (hosts s2 !! (pub i j, config_path) = hosts s0 !! (pub i j, config_path) ∨ host_configured s2 (pub i j) i j) ∧
      (all_up → host_configured s2 (pub i j) i j).
Proof using laws elaws Hcounts Hgen Hpub Hinj.
  intros Hids Hord Hfresh. destruct (init_nodes s0) as (p0 & E0 & C0 & S0).
  assert (named default_node) as Hdn by by intros i j _.
  destruct (set_ips_spec p0 ids (set_properties (Some p0) s0) p0 default_node (Some (0, 0)) eq_refl C0)
    as (s1 & p1 & f1 & E1 & P1 & C1 & F1 & Hf1 & H1 & Hft & HN & HO); [done|done|by intros i j ?%Hids|].
  assert (tableF f1 = deployed_table) as Et.
  { apply tableF_ext. intros i j Hij. rewrite Hft by done. by rewrite bool_decide_true by by apply Hids. }
  rewrite Et in C1. exists s1.
  assert (∀ ip cfg, (ip, cfg) ∈ order (_nodesList s1) ↔ ∃ i j, node_of counts i j ∧ ip = pub i j ∧ cfg = mkRemote i j false) as Hl.
  { intros ip cfg. rewrite Hord, elem_of_map_to_list. split.
    - intros Hip. destruct (decide (Exists (λ x, pub x.1 x.2 = ip) ids)) as [Hex|Hno].
      + apply Exists_exists in Hex as ([i j] & Hin & <-). cbn [fst snd] in *. rewrite HN in Hip by done.
        exists i, j. split_and!; [by apply Hids|done|congruence].
      + rewrite HO in Hip; [cbn in Hip; by rewrite Hfresh, lookup_empty in Hip|].
        intros i j Hin E. apply Hno, Exists_exists. by exists (i, j).
    - intros (i & j & Hij & -> & ->). by apply HN, Hids. }
  assert (NoDup (order (_nodesList s1)).*1) as Hd by (rewrite Hord; apply NoDup_fst_map_to_list).
  destruct (update_loop_spec p0 deployed_table false (order (_nodesList s1)) s1 p1 (Some (0, 0)) P1 C1 F1) as [Hup Hall];
    [|done|apply S0|].
  { intros ip cfg (i & j & (Hj & c & Hc & Hjc) & _ & ->)%Hl. destruct Hcounts as [_ Heach Hlen].
    apply at_Some in Hc as [Hi Hc]. pose proof (lookup_lt_Some _ _ _ Hc). pose proof (Forall_lookup_1 _ _ _ _ Heach Hc) as Hcb.
    cbn in *. unfold in_int32. lia. }
  split_and!; [unfold dbind; by rewrite E0|done|]. intros u s2 Hs2 i j Hij.
  destruct (Hall u s2 Hs2) as (_ & _ & Hin). destruct (Hin (pub i j) (mkRemote i j false)) as [HA HB]; [apply Hl; by exists i, j|].
  assert (delivered p0 deployed_table s2 (pub i j) i j → host_configured s2 (pub i j) i j) as Hdel.
  { intros (text & q & Hh & Hq & Cq & Fq). pose proof (settings_framed p0 q Fq S0) as Sq. exists text, q.
    split_and!; [done| |done|done]. intros files name Hfile Hne. eapply delivered_loads; [done| |done..].
    intros E%(f_equal length). unfold deployed_table, tableF in E. rewrite length_imap in E. destruct Hcounts as [Hc0 _ _].
    by destruct counts. }
  split; [destruct HA as [HA|HA]; [left; by rewrite HA, H1|right; by apply Hdel]|].
  intros U. apply Hdel, HB; done.
Qed.

(** C16: Every host gets its own identity.  After the nodes have been created for
    any counts and every node has been given a public address of its own, in any
    order, sending the configurations leaves each host either as it was or with a
    document that loads, names the host's own group and node as the local one,
    and has for all hosts the same node lists, with the addresses that were
    given, the stored keys and the settings; no host gets the identity of
    another, whichever connections and copies fail.  When none fails, every host
    has its document. *)
Theorem hosts_configured ids s0 :
  (∀ i j, (i, j) ∈ ids ↔ node_of counts i j) → (∀ m, order m ≡ₚ map_to_list m) → _nodesList s0 = ∅ →
  ∃ s1, (_ ⇐ initNodes counts; set_ips ids) s0 = Some (tt, s1) ∧
    (all_up → is_Some (updateProperties false s1)) ∧
    ∀ u s2, updateProperties false s1 = Some (u, s2) → ∀ i j, node_of counts i j →
      (hosts s2 !! (pub i j, config_path) = hosts s0 !! (pub i j, config_path) ∨ host_configured s2 (pub i j) i j) ∧
      (all_up → host_configured s2 (pub i j) i j).
Proof using laws elaws Hcounts Hgen Hpub Hinj. apply configuration_delivered. Qed.

End dispatcher.
End deploy.

(** ** A concrete run *)
#[local] Existing Instance Tree.lib.
#[local] Existing Instance Tree.tree_laws.
#[local] Existing Instance Toy.lib.
#[local] Existing Instance Toy.toy_laws.

Definition demo_dispatcher : Dispatcher := mkDispatcher "/root" "nc_bft" "ncp" "peer".
Definition demo_pri (i j : Z) : string := EmptyString.
Definition demo_ids : list (Z * Z) := [(1, 0); (0, 1); (0, 0)].
Definition demo_start : CA (Node := Tree.node) (Text := Tree.node) := mkCA None ∅ ∅ ∅ ∅ ∅ [] 0.

Lemma demo_nodes i j : (i, j) ∈ demo_ids ↔ node_of [2; 1] i j.
Proof.
  split.
  - intros H. unfold demo_ids in H. rewrite !elem_of_cons, elem_of_nil in H.
    destruct H as [[= -> ->]|[[= -> ->]|[[= -> ->]|[]]]]; (split; [lia|]); eexists; (split; [reflexivity|lia]).
  - intros (Hj & c & Hc & Hlt). apply at_Some in Hc as [Hi Hc]. pose proof (lookup_lt_Some _ _ _ Hc) as Hl.
    change (length [2; 1]) with 2%nat in Hl.
    assert (i = 0 ∨ i = 1) as [->| ->] by lia; vm_compute in Hc; apply (inj Some) in Hc; subst c.
    + assert (j = 0 ∨ j = 1) as [->| ->] by lia; unfold demo_ids; set_solver.
    + assert (j = 0) as -> by lia. unfold demo_ids; set_solver.
Qed.

Lemma demo_natural i j : node_of [2; 1] i j → natural i ∧ natural j.
Proof.
  intros Hn%demo_nodes. unfold demo_ids in Hn. rewrite !elem_of_cons, elem_of_nil in Hn.
  destruct Hn as [[= -> ->]|[[= -> ->]|[[= -> ->]|[]]]]; unfold natural; lia.
Qed.

Lemma demo_distinct i j i' j' : node_of [2; 1] i j → node_of [2; 1] i' j' → node_ski i j = node_ski i' j' → i = i' ∧ j = j'.
Proof. intros [? ?]%demo_natural [? ?]%demo_natural. by apply node_ski_inj. Qed.

Lemma demo_counts : counts_ok [2; 1].
Proof. split; [done| |done]. by repeat (apply Forall_cons; split; [done|]). Qed.

Lemma demo_up : all_up (Node := Tree.node) (Text := Tree.node) (λ _, true).
Proof. split; [done|]. intros n. by eexists. Qed.

Lemma demo_pub i j : node_of [2; 1] i j → node_ski i j ≠ EmptyString.
Proof. intros _. unfold node_ski. by destruct (to_string i). Qed.

(** All calls succeed: the host of node 1 of group 0 has its configuration. *)
Lemma hosts_configured_witness :
  ∃ s1 s2, (dbind (initNodes sample_seed demo_dispatcher [2; 1]) (λ _, set_ips node_ski demo_pri demo_ids)) demo_start = Some (tt, s1) ∧
    updateProperties (λ _, true) map_to_list demo_dispatcher false s1 = Some (tt, s2) ∧
    host_configured sample_seed demo_dispatcher [2; 1] node_ski demo_pri s2 (node_ski 0 1) 0 1.
Proof.
  destruct (hosts_configured (Text := Tree.node) sample_seed (λ _, true) map_to_list demo_dispatcher [2; 1] node_ski demo_pri
    demo_counts demo_pub demo_distinct) with (ids := demo_ids) (s0 := demo_start) as (s1 & E1 & Hup & Hall).
  - intros i j _. apply sample_generates.
  - intros i j. apply demo_nodes.
  - done.
  - done.
  - destruct (Hup demo_up) as [[[] s2] E2]. exists s1, s2. split_and!; [done|done|].
    destruct (Hall tt s2 E2 0 1) as [_ H]; [by apply demo_nodes; vm_compute; set_solver|]. by apply H, demo_up.
Defined.

Lemma demo_configured : ∃ s : CA (Node := Tree.node) (Text := Tree.node), ∀ i j, node_of [2; 1] i j →
  host_configured sample_seed demo_dispatcher [2; 1] node_ski demo_pri s (node_ski i j) i j.
Proof.
  destruct (configuration_delivered (Text := Tree.node) sample_seed (λ _, true) map_to_list demo_dispatcher [2; 1] node_ski demo_pri
    demo_counts demo_pub demo_distinct) with (ids := demo_ids) (s0 := demo_start) as (s1 & E1 & Hup & Hall).
  - intros i j _. apply sample_generates.
  - intros i j. apply demo_nodes.
  - done.
  - done.
  - destruct (Hup demo_up) as [[[] s2] E2]. exists s2.
    intros i j Hij. destruct (Hall tt s2 E2 i j Hij) as [_ H]. by apply H, demo_up.
Qed.
