(* ===== verification/ModuleFactory.v ===== *)
(** * ModuleFactory: a peer built from its configuration

    src/peer/core/module_factory.cpp: the modules of a peer, each made once from
    the configuration document ([Property]): the keys, the storage, the port
    tables, the replicator, the participants of the ordering service, the hosts
    of the local PBFT group and the port of the user service.

    The outer [None] is the end of the process, the inner one a null pointer that
    is returned.  A replicator that does not come up is a null pointer, also where
    one of its constructors would have ended the process ([Replicator]). *)

From S2P Require Import Prelude Zpp Proto Decimal RaftFSM ZmqPorts Merkle ProofGenerator LRU Storage Fragments BFG.
From S2P Require Import BlockReceiver Replication Replicator Yaml Property Crypto KeyStore ConfigInit Deploy.

Open Scope Z_scope.

Section factory.
Context {Node Text : Type} {lib : YamlLib Node Text}.
Context {PKEY MdCtx Seed : Type} {evp : EvpLib PKEY MdCtx Seed}.
Context (opens_client : string → Z → bool) (opens_server : Z → bool).
(** The order of iteration of a hash map, and the number of hardware threads. *)
Context (iter : ∀ A : Type, list (Z * A) → list (Z * A)) (hardware : Z).

Notation Frag := (list (Z * (BFGConfig * list FragmentConfig))).

(** A replicator after [initialize] and [startReceiver]. *)
Record ReplicatorObj := mkReplicator {
  rep_nodes : list (Z * list NodeConfig); rep_me : NodeConfig; rep_ports : gmap Z (list ZMQPortUtil);
  rep_fragments : Frag; rep_receivers : gmap Z BlockReceiver }.

Record ModuleFactory := mkMF {
  _properties : Node;
  _bccsp : option (BCCSP (PKEY := PKEY) (S := Node) * Z);     (* with the size of its thread pool *)
  _contentStorage : option Z;                                  (* the regions of the storage *)
  _replicator : option ReplicatorObj;
  _zmqPortUtilMap : option (gmap Z (list ZMQPortUtil)) }.

Definition NewModuleFactory (p : Node) : ModuleFactory := mkMF p None None None None.

Definition set_bccsp (f : ModuleFactory) b := mkMF (_properties f) (Some b) (_contentStorage f) (_replicator f) (_zmqPortUtilMap f).
Definition set_storage (f : ModuleFactory) c := mkMF (_properties f) (_bccsp f) (Some c) (_replicator f) (_zmqPortUtilMap f).
Definition set_replicator (f : ModuleFactory) r := mkMF (_properties f) (_bccsp f) (_contentStorage f) (Some r) (_zmqPortUtilMap f).
Definition set_ports (f : ModuleFactory) m := mkMF (_properties f) (_bccsp f) (_contentStorage f) (_replicator f) (Some m).

Definition getOrInitBCCSPAndThreadPool (f : ModuleFactory) : option (BCCSP * Z * ModuleFactory) :=
  match _bccsp f with
  | Some b => Some (b, f)
  | None =>
      node ← getCustomProperties (_properties f) "bccsp";
      let b := (mkBCCSP ∅ node, getBCCSPWorkerCount hardware (_properties f)) in
      Some (b, set_bccsp f b)
  end.

Definition getOrInitContentStorage (f : ModuleFactory) : option (option Z * ModuleFactory) :=
  match _contentStorage f with
  | Some c => Some (Some c, f)
  | None =>
      np ← getNodeProperties (_properties f);
      gc ← getGroupCount np;
      if gc <=? 0 then Some (None, f) else Some (Some gc, set_storage f gc)
  end.

Definition getOrInitZMQPortUtilMap (f : ModuleFactory) : option (gmap Z (list ZMQPortUtil) * ModuleFactory) :=
  match _zmqPortUtilMap f with
  | Some m => Some (m, f)
  | None => m ← InitPortsConfig_properties iter (_properties f); Some (m, set_ports f m)
  end.

(** The node lists of all groups. *)
Definition group_lists (np : Node) : option (list (Z * list NodeConfig)) :=
  gc ← getGroupCount np;
  mapM (λ i, l ← getGroupNodesInfo np i; Some (i, l)) (seqZ 0 gc).

Definition start_receivers (nodes : list (Z * list NodeConfig)) (me : NodeConfig) (ports : gmap Z (list ZMQPortUtil))
    (startAt : gmap Z Z) : option ReplicatorObj :=
  if bool_decide (nodes = []) then None else
  fragmentCfg ← initBFG nodes me;
  receiver ← initMRBlockReceiver opens_client opens_server nodes me ports fragmentCfg;
  receiver ← checkAndStartService (initStorage nodes) (groupId me) startAt receiver;
  Some (mkReplicator nodes me ports fragmentCfg receiver).

Definition getOrInitReplicator (f : ModuleFactory) : option (option ReplicatorObj * ModuleFactory) :=
  match _replicator f with
  | Some r => Some (Some r, f)
  | None =>
      np ← getNodeProperties (_properties f);
      lists ← group_lists np;
      let nodes := iter _ lists in
      match getLocalNodeInfo np with
      | None => Some (None, f)
      | Some localNode =>
          '(_, f) ← getOrInitBCCSPAndThreadPool f;
          '(cs, f) ← getOrInitContentStorage f;
          match cs with
          | None => Some (None, f)
          | Some _ =>
              '(pum, f) ← getOrInitZMQPortUtilMap f;
              let startAt := list_to_map (map (λ it, (it.1, getStartBlockNumber (_properties f) it.1)) nodes) in
              match start_receivers nodes localNode pum startAt with
              | None => Some (None, f)
              | Some r => Some (Some r, set_replicator f r)
              end
          end
      end
  end.

(** The senders, and the block they start at. *)
Definition startReplicatorSender (f : ModuleFactory) : option (option (gmap Z BlockSender * Z)) :=
  np ← getNodeProperties (_properties f);
  localNode ← getLocalNodeInfo np;
  let initialBlockHeight := getStartBlockNumber (_properties f) (groupId localNode) in
  r ← _replicator f;
  Some (s ← initMRBlockSender opens_client (rep_nodes r) (rep_me r) (rep_ports r) (rep_fragments r);
        Some (s, initialBlockHeight)).

(** *** The ordering service *)

(** [vector::operator[]] in range. *)
Fixpoint raft_group (nodes : list NodeConfig) (ports : list Z) (j count : nat) : option (list (NodeConfig * Z)) :=
  match count with
  | O => Some []
  | S count => n ← nodes !! j; p ← ports !! j; rest ← raft_group nodes ports (S j) count; Some ((n, p) :: rest)
  end.

Record OrderSetup := mkSetup {
  localReceivers : list InstanceConfig;
  multiRaftParticipant : list InstanceConfig;
  multiRaftLeaderPos : list Z;
  order_me : NodeConfig }.

Fixpoint raft_groups (np : Node) (portMap : gmap Z (list ZMQPortUtil)) (is_ : list Z)
    (nodes : list NodeConfig) (ports leaders : list Z) : option (list NodeConfig * list Z * list Z) :=
  match is_ with
  | [] => Some (nodes, ports, leaders)
  | i :: is_ =>
      group ← portMap !! i;
      let reserveCount := (Z.of_nat (length group) - 1) `quot` 3 + 1 in
      raftNodes ← getGroupNodesInfo np i;
      u ← at_ group 0;
      raftPorts ← getLocalServicePorts u CFT_PEER_TO_PEER 0;
      more ← raft_group raftNodes raftPorts 0 (Z.to_nat reserveCount);
      raft_groups np portMap is_ (nodes ++ more.*1) (ports ++ more.*2) (leaders ++ [Z.of_nat (length nodes)])
  end.

Definition newGlobalBlockOrdering (f : ModuleFactory) : option (option OrderSetup * ModuleFactory) :=
  '(portMap, f) ← getOrInitZMQPortUtilMap f;
  np ← getNodeProperties (_properties f);
  localNode ← getLocalNodeInfo np;
  localRegionNodes ← getGroupNodesInfo np (groupId localNode);
  u ← node_util portMap (groupId localNode) (nodeId localNode);
  localReceiverPorts ← getLocalServicePorts u LOCAL_BLOCK_ORDER 0;
  let '(receivers, suc1) := WrapPortWithConfig localRegionNodes localReceiverPorts in
  if negb suc1 then Some (None, f) else
  '(nodes, ports, leaders) ← raft_groups np portMap (seqZ 0 (Z.of_nat (base.size portMap))) [] [] [];
  let '(participants, suc2) := WrapPortWithConfig nodes ports in
  if negb suc2 then Some (None, f) else
  '(_, f) ← getOrInitBCCSPAndThreadPool f;
  '(_, f) ← getOrInitContentStorage f;
  Some (Some (mkSetup receivers participants leaders localNode), f).

(** *** The local PBFT group and the user service *)
Record NodeHostConfig := mkHost {
  processId : Z; host_ip : string; serverToServerPort : Z; serverToClientPort : Z; rpcPort : Z }.

(** The hosts written to the configuration file of the BFT instance. *)
Definition host_list (f : ModuleFactory) : option (list NodeHostConfig * ModuleFactory) :=
  np ← getNodeProperties (_properties f);
  localNode ← getLocalNodeInfo np;
  '(portMap, f) ← getOrInitZMQPortUtilMap f;
  groupPortMap ← portMap !! groupId localNode;
  localRegionNodes ← getGroupNodesInfo np (groupId localNode);
  CHECK (length localRegionNodes =? length groupPortMap)%nat;;
  hosts ← mapM (λ x,
      let port t := u ← groupPortMap !! x.1; ps ← getLocalServicePorts u t 0; ps !! x.1 in
      s2s ← port SERVER_TO_SERVER; c2s ← port CLIENT_TO_SERVER; rpc ← port BFT_RPC;
      Some (mkHost (nodeId x.2) (priIp x.2) s2s c2s rpc)) (imap (λ i n, (i, n)) localRegionNodes);
  Some (hosts, f).

(** The block cache of the user service and the port it listens on. *)
Definition initUserRPCController (rpc_starts : Z → bool) (f : ModuleFactory) : option (option (Z * Z) * ModuleFactory) :=
  np ← getNodeProperties (_properties f);
  gc ← getGroupCount np;
  if gc <=? 0 then Some (None, f) else
  '(portMap, f) ← getOrInitZMQPortUtilMap f;
  localNode ← getLocalNodeInfo np;
  u ← node_util portMap (groupId localNode) (nodeId localNode);
  ports ← getLocalServicePorts u BFT_RPC 0;
  port ← at_ ports (nodeId localNode);
  if rpc_starts port then Some (Some (gc, port), f) else Some (None, f).

End factory.

(** ** Peers of one deployment *)
Lemma mapM_ext_elem {A B} (f g : A → option B) l : (∀ x, x ∈ l → f x = g x) → mapM f l = mapM g l.
Proof.
  induction l as [|x l IH]; intros H; [done|]. cbn. rewrite (H x) by by left. destruct (g x); [|done]. cbn.
  rewrite IH; [done|]. intros y Hy. apply H. by right.
Qed.

(** The first f+1 nodes of a group of 3f+1 take part. *)
Definition reserve (c : Z) : Z := (c - 1) `quot` 3 + 1.

Lemma raft_group_spec (l : list NodeConfig) p n (m : nat) : ∀ k,
  (k + m <= length l)%nat → (k + m <= n)%nat →
  raft_group l (replicate n p) k m = Some ((λ x, (x, p)) <$> take m (drop k l)).
Proof.
  induction m as [|m IH]; intros k Hl Hn; [done|]. cbn [raft_group].
  destruct (lookup_lt_is_Some_2 l k) as [x Hx]; [lia|]. rewrite Hx. cbn [mbind option_bind].
  rewrite lookup_replicate_2 by lia. cbn [mbind option_bind]. rewrite IH by lia. cbn [mbind option_bind].
  by rewrite (drop_S l x k Hx).
Qed.

Lemma reserve_bounds c : 0 < c → 0 < reserve c <= c.
Proof. intros H. unfold reserve. rewrite Z.quot_div_nonneg by lia. pose proof (Z.div_le_upper_bound (c - 1) 3 (c - 1)). pose proof (Z.div_pos (c - 1) 3). lia. Qed.

(** Where the participants of each group begin. *)
Fixpoint leader_positions (cs : list Z) (at_pos : Z) : list Z :=
  match cs with
  | [] => []
  | c :: cs => at_pos :: leader_positions cs (at_pos + reserve c)
  end.

Lemma take_seqZ_fmap (h : Z → NodeConfig) a c : 0 <= a <= c → take (Z.to_nat a) (h <$> seqZ 0 c) = h <$> seqZ 0 a.
Proof.
  intros H. rewrite <-fmap_take. f_equal. replace c with (a + (c - a)) by lia. rewrite seqZ_app by lia.
  rewrite take_app_le by (rewrite length_seqZ; lia). apply take_ge. rewrite length_seqZ. lia.
Qed.

Lemma length_positions cs p : length (leader_positions cs p) = length cs.
Proof. revert p. induction cs as [|c cs IH]; intros p; [done|]. cbn. by rewrite IH. Qed.

Lemma leader_first cs p : cs ≠ [] → leader_positions cs p !! 0%nat = Some p.
Proof. by destruct cs. Qed.

Lemma wrap_replicate (l : list NodeConfig) n p : l ≠ [] → length l = n →
  WrapPortWithConfig l (replicate n p) = ((λ x, mkInstance x p) <$> l, true).
Proof.
  intros Hl <-. unfold WrapPortWithConfig. rewrite length_replicate, Nat.eqb_refl.
  rewrite (proj2 (Nat.eqb_neq _ 0)) by (destruct l; cbn; [done|lia]). cbn [negb orb]. f_equal.
  clear Hl. induction l as [|x l IH]; [done|]. cbn. by rewrite IH.
Qed.

Section come_up.
Context {Node Text : Type} {lib : YamlLib Node Text} {laws : YamlLaws Node Text}.
Context {PKEY MdCtx Seed : Type} {evp : EvpLib PKEY MdCtx Seed}.
Context (opens_client : string → Z → bool) (opens_server : Z → bool).
Context (iter : ∀ A : Type, list (Z * A) → list (Z * A)) (hardware : Z).
Context (iter_perm : ∀ A (l : list (Z * A)), iter A l ≡ₚ l).

(** The nodes [f i j] of groups of the sizes [counts], on hosts of their own. *)
Context (counts : list Z) (f : Z → Z → NodeConfig) (offset : Z).
Hypothesis Hcounts : counts_ok counts.
Hypothesis Hnamed : named counts f.

(** What every peer's document says. *)
Record peer_doc (q : Node) (i j : Z) : Prop := {
  pd_conf : Conf q (tableF counts f) (Some (i, j));
  pd_distributed : isDistributedSetting q = true;
  pd_port : replicatorLowestPort q = offset;
  pd_start : ∀ g, getStartBlockNumber q g = 0;
  pd_keys : is_Some (getCustomProperties q "bccsp");
}.

Definition lists : list (Z * list NodeConfig) := imap (λ i c, (Z.of_nat i, f (Z.of_nat i) <$> seqZ 0 c)) counts.
Definition nodes : list (Z * list NodeConfig) := iter _ lists.
Definition startAt0 : gmap Z Z := list_to_map (map (λ it : Z * list NodeConfig, (it.1, 0)) nodes).

Lemma count_facts g c : at_ counts g = Some c → in_int32 g ∧ 0 <= g < Z.of_nat (length counts) ∧ 0 < c < 2 ^ 31.
Proof using Hcounts.
  intros [Hg Hc]%at_Some. destruct Hcounts as [_ Heach Hlen]. pose proof (lookup_lt_Some _ _ _ Hc).
  pose proof (Forall_lookup_1 _ _ _ _ Heach Hc) as Hb. cbn in Hb. unfold in_int32. lia.
Qed.

Lemma counts_nonneg : Forall (Z.le 0) counts.
Proof using Hcounts. eapply Forall_impl; [apply (ok_each _ Hcounts)|]. cbn. lia. Qed.

Lemma elem_lists g l : (g, l) ∈ lists ↔ ∃ c, at_ counts g = Some c ∧ l = f g <$> seqZ 0 c.
Proof using Type.
  unfold lists. split.
  - intros [k Hk]%list_elem_of_lookup. rewrite list_lookup_imap in Hk. destruct (counts !! k) as [c|] eqn:Hc; [|done].
    cbn in Hk. simplify_eq. exists c. split; [|done]. apply at_Some. rewrite Nat2Z.id. by split; [lia|].
  - intros (c & [Hg Hc]%at_Some & ->). apply list_elem_of_lookup. exists (Z.to_nat g).
    rewrite list_lookup_imap, Hc. cbn. by rewrite Z2Nat.id.
Qed.

Lemma group_node g c k x : at_ counts g = Some c → (f g <$> seqZ 0 c) !! k = Some x →
  node_of counts g (Z.of_nat k) ∧ x = f g (Z.of_nat k).
Proof using Type.
  intros Hc Hk. rewrite list_lookup_fmap in Hk. destruct (seqZ 0 c !! k) as [j|] eqn:Ej; [|done]. cbn in Hk. simplify_eq.
  apply lookup_seqZ in Ej as [-> ?]. replace (0 + Z.of_nat k) with (Z.of_nat k) by lia. split; [|done]. split; [lia|].
  exists c. by split.
Qed.

(** *** What the factory reads *)
Section document.
Context (q : Node) (i j : Z) (Hq : peer_doc q i j) (Hij : node_of counts i j).

Lemma doc_nodes : ∃ n, getNodeProperties q = Some n ∧ kind n = MapNode ∧ Rep n (tableF counts f) (Some (i, j)).
Proof using Hq Hcounts.
  destruct (pd_conf _ _ _ Hq) as (_ & n & Hn & Hk & R). exists n. split_and!; [done| |done]. apply Hk.
  intros E%(f_equal length). unfold tableF in E. rewrite length_imap in E. by apply (ok_some _ Hcounts), nil_length_inv.
Qed.

Lemma read_lists n : kind n = MapNode → Rep n (tableF counts f) (Some (i, j)) →
  getGroupCount n = Some (Z.of_nat (length counts)) ∧ group_lists n = Some lists ∧
  regionNodesCount n = Some (region_map counts) ∧ getLocalNodeInfo n = Some (f i j) ∧
  ∀ g c, at_ counts g = Some c → getGroupNodesInfo n g = Some (f g <$> seqZ 0 c).
Proof using laws Hcounts Hij.
  intros Hk R. assert (getGroupCount n = Some (Z.of_nat (length counts))) as Hc.
  { rewrite (group_count n _ _ R Hk). unfold tableF. by rewrite length_imap. }
  assert (∀ g c, at_ counts g = Some c → getGroupNodesInfo n g = Some (f g <$> seqZ 0 c)) as Hi.
  { intros g c Hg. destruct (count_facts g c Hg) as (Hint & _). rewrite (nodes_info n _ _ g R Hint), at_tableF, Hg. done. }
  assert (∀ g c, at_ counts g = Some c → getGroupNodeCount n g = Some c) as Hn.
  { intros g c Hg. destruct (count_facts g c Hg) as (Hint & _ & Hb).
    rewrite (node_count n _ _ g R Hint), at_tableF, Hg. cbn. rewrite length_fmap, length_seqZ. f_equal. lia. }
  assert (∀ {A} (h : Z → Z → A), mapM (λ g, c ← at_ counts g; Some (h g c)) (seqZ 0 (Z.of_nat (length counts))) =
    Some (imap (λ k c, h (Z.of_nat k) c) counts)) as HM.
  { intros A h. apply mapM_Some, Forall2_same_length_lookup. rewrite length_seqZ, length_imap. split; [lia|].
    intros k g x Hg%lookup_seqZ Hx. destruct Hg as [-> Hlt]. rewrite list_lookup_imap in Hx.
    destruct (counts !! k) as [c|] eqn:Ec; [|done]. cbn in Hx. simplify_eq.
    rewrite (proj2 (at_Some counts (0 + Z.of_nat k) c)); [done|]. split; [lia|]. by replace (Z.to_nat (0 + Z.of_nat k)) with k by lia. }
  split_and!; [done| | | |done].
  - unfold group_lists, lists. rewrite Hc. cbn [mbind option_bind]. rewrite <-(HM _ (λ g c, (g, f g <$> seqZ 0 c))).
    apply mapM_ext_elem. intros g [Hg1 Hg2]%elem_of_seqZ. destruct (at_lt counts g) as [c Ec]; [lia|].
    rewrite Ec, (Hi g c Ec). done.
  - unfold regionNodesCount. rewrite Hc. cbn [mbind option_bind]. unfold region_map. rewrite <-(HM _ (λ g c, (g, c))).
    apply mapM_ext_elem. intros g [Hg1 Hg2]%elem_of_seqZ. destruct (at_lt counts g) as [c Ec]; [lia|].
    rewrite Ec, (Hn g c Ec). done.
  - destruct Hij as (Hj & c & Hic & Hjc). destruct (count_facts i c Hic) as (Hint & _).
    rewrite (local_info n _ i j R Hint), at_tableF, Hic. cbn [fmap option_fmap option_map mbind option_bind].
    apply at_Some. split; [done|]. rewrite list_lookup_fmap. by rewrite (proj2 (lookup_seqZ 0 c (Z.to_nat j) j)) by lia.
Qed.

End document.

Hypothesis Hfits : 0 < offset ∧ offset + 7 + 2 * Z.of_nat (length counts) <= 65535.
Hypothesis Hhosts : ∀ i j j', node_of counts i j → node_of counts i j' →
  priIp (f i j) = priIp (f i j') ∨ pubIp (f i j) = pubIp (f i j') → j = j'.

(** The same tables everywhere. *)
Lemma same_ports : ∃ ports, InitPortsConfig offset (iter _ (region_map counts)) true = Some ports ∧
  deployment nodes counts offset true ports.
Proof using Hcounts Hnamed Hfits Hhosts iter_perm.
  assert (∀ g l, (g, l) ∈ nodes ↔ (g, l) ∈ lists) as Hin by (intros g l; unfold nodes; by rewrite (iter_perm _ lists)).
  apply (deployment_ports nodes counts offset true).
  - unfold nodes. rewrite (iter_perm _ lists). unfold lists. rewrite fmap_imap. apply reflexive_eq. unfold region_map.
    apply imap_ext. intros k c Hk. cbn. rewrite length_fmap, length_seqZ. f_equal.
    destruct (count_facts (Z.of_nat k) c) as (_ & _ & Hb); [apply at_Some; rewrite Nat2Z.id; by split; [lia|]|]. lia.
  - eapply Forall_impl; [apply (ok_each _ Hcounts)|]. cbn. lia.
  - lia.
  - cbn. lia.
  - intros g l k x Hl%Hin Hk. apply elem_lists in Hl as (c & Hc & ->).
    destruct (group_node g c k x Hc Hk) as [Hn ->]. destruct (Hnamed _ _ Hn) as (? & ? & _). done.
  - intros g l Hl%Hin. apply elem_lists in Hl as (c & Hc & ->). destruct (count_facts g c Hc) as (_ & Hg & Hb).
    apply (named_skis counts f g c Hnamed Hc); [|lia]. pose proof (ok_groups _ Hcounts). lia.
  - intros _ g l Hl%Hin. apply elem_lists in Hl as (c & Hc & ->).
    assert (∀ x, x ∈ seqZ 0 c → node_of counts g x) as Hx.
    { intros x [? ?]%elem_of_seqZ. split; [lia|]. exists c. split; [done|lia]. }
    split; rewrite <-list_fmap_compose; apply NoDup_fmap_2_strong; try apply NoDup_seqZ; intros x y H1%Hx H2%Hx E;
      apply (Hhosts g x y H1 H2); auto.
  - apply iter_perm.
Qed.

(** The two halves of a replicator are the whole. *)
Lemma start_split ns me ports startAt s rs :
  startReplicator opens_client opens_server ns me ports startAt = Some (s, rs) ↔
  ∃ r, start_receivers opens_client opens_server ns me ports startAt = Some r ∧
    r = mkReplicator ns me ports (rep_fragments r) rs ∧
    initMRBlockSender opens_client ns me ports (rep_fragments r) = Some s.
Proof using Type.
  unfold startReplicator, start_receivers. case_bool_decide; [split; [done|by intros (? & ? & _)]|].
  destruct (initBFG ns me) as [fc|]; [|split; [done|by intros (? & ? & _)]]. cbn [mbind option_bind].
  destruct (initMRBlockReceiver opens_client opens_server ns me ports fc) as [rc|]; [|split; [done|by intros (? & ? & _)]].
  cbn [mbind option_bind].
  destruct (checkAndStartService (initStorage ns) (groupId me) startAt rc) as [rc'|]; [|split; [done|by intros (? & ? & _)]].
  cbn [mbind option_bind]. split.
  - destruct (initMRBlockSender opens_client ns me ports fc) as [s'|] eqn:Es; [|done]. cbn. intros [= <- <-]. by eexists.
  - intros (r & [= <-] & [= <-] & Hs). cbn [rep_fragments] in Hs. by rewrite Hs.
Qed.

Lemma come_up q i j ports : peer_doc q i j → node_of counts i j →
  InitPortsConfig offset (iter _ (region_map counts)) true = Some ports →
  ∀ r, start_receivers opens_client opens_server nodes (f i j) ports startAt0 = Some r →
  ∃ fct, getOrInitReplicator (PKEY := PKEY) opens_client opens_server iter hardware (NewModuleFactory q) = Some (Some r, fct) ∧
    _properties fct = q ∧ _replicator fct = Some r.
Proof using laws Hcounts.
  intros Hq Hij Hp r Hr.
  destruct (doc_nodes q i j Hq) as (n & Hn & Hk & R).
  destruct (read_lists i j Hij n Hk R) as (Hc & Hl & Hreg & Hme & _).
  unfold getOrInitReplicator, NewModuleFactory. cbn [_replicator _properties]. rewrite Hn. cbn [mbind option_bind].
  rewrite Hl. cbn [mbind option_bind]. rewrite Hme. unfold getOrInitBCCSPAndThreadPool. cbn [_bccsp _properties].
  destruct (pd_keys _ _ _ Hq) as [b Hb]. rewrite Hb. cbn [mbind option_bind].
  unfold getOrInitContentStorage. cbn [_contentStorage set_bccsp _properties]. rewrite Hn. cbn [mbind option_bind].
  rewrite Hc. cbn [mbind option_bind].
  assert (0 < Z.of_nat (length counts)) as Hpos.
  { destruct Hij as (_ & c & Hic & _). destruct (count_facts i c Hic) as (_ & ? & _). lia. }
  rewrite (proj2 (Z.leb_gt _ _)) by done. cbn [mbind option_bind].
  unfold getOrInitZMQPortUtilMap. cbn [_zmqPortUtilMap set_storage set_bccsp _properties]. unfold InitPortsConfig_properties.
  rewrite Hn. cbn [mbind option_bind]. rewrite Hreg. cbn [mbind option_bind]. rewrite (pd_port _ _ _ Hq), (pd_distributed _ _ _ Hq), Hp.
  cbn [mbind option_bind set_ports set_storage set_bccsp _properties].
  assert (list_to_map (map (λ it : Z * list NodeConfig, (it.1, getStartBlockNumber q it.1)) (iter _ lists)) = startAt0) as ->.
  { unfold startAt0. f_equal. unfold nodes. apply map_ext. intros it. by rewrite (pd_start _ _ _ Hq). }
  fold nodes. rewrite Hr. eexists. split; [done|]. done.
Qed.

(** *** The ordering service *)
Lemma table_facts ports : InitPortsConfig offset (iter _ (region_map counts)) true = Some ports →
  base.size ports = length counts ∧
  ∀ g n c, at_ counts g = Some c → 0 <= n < c → ∃ us u, ports !! g = Some us ∧ Z.of_nat (length us) = c ∧ at_ us n = Some u ∧
    ∀ t k, local_map !! t = Some [k] → 0 <= k < 7 → getLocalServicePorts u t 0 = Some (replicate (Z.to_nat c) (offset + k)).
Proof using Hcounts Hfits iter_perm.
  intros Hp.
  assert (∀ g n cnt, at_ counts g = Some cnt → 0 <= n < cnt → is_Some (NewZMQPortUtil counts g n offset true)) as Hok.
  { intros g n cnt Hg Hn. destruct (distributed_deployment counts offset counts_nonneg ltac:(lia) g n cnt Hg Hn ltac:(lia)) as (u & -> & _).
    by eexists. }
  destruct (config_shape counts _ offset true ports (iter_perm _ _) Hp counts_nonneg Hok) as [Hs Hnone].
  destruct (config_nodes counts _ offset true (iter_perm _ _) counts_nonneg Hok) as (cfg & Hc & Hn).
  assert (cfg = ports) as -> by congruence. split.
  - rewrite <-size_dom. replace (dom ports) with (list_to_set (seqZ 0 (Z.of_nat (length counts))) : gset Z).
    { rewrite size_list_to_set by apply NoDup_seqZ. rewrite length_seqZ. lia. }
    apply set_eq. intros g. rewrite elem_of_list_to_set, elem_of_seqZ, elem_of_dom. split.
    + intros Hg. destruct (at_lt counts g) as [c Hgc]; [lia|]. destruct (Hs g c Hgc) as (us & -> & _). by eexists.
    + intros [us Hus]. destruct (at_ counts g) as [c|] eqn:E; [|by rewrite Hnone in Hus].
      destruct (count_facts g c E) as (_ & ? & _). lia.
  - intros g n c Hg Hnc. destruct (Hs g c Hg) as (us & Hus & Hlen). specialize (Hn g n c Hg Hnc).
    destruct (distributed_deployment counts offset counts_nonneg ltac:(lia) g n c Hg Hnc ltac:(lia)) as (u & Hu & _ & _ & Hserv).
    exists us, u. split_and!; [done|done| |done]. unfold node_util in Hn. rewrite Hus in Hn. cbn [mbind option_bind] in Hn. congruence.
Qed.

Definition group_participants (i c : Z) : list NodeConfig := f i <$> seqZ 0 (reserve c).

Lemma raft_groups_spec np ports cs : ∀ k ns ps ls,
  counts = take k counts ++ cs → (k <= length counts)%nat →
  (∀ g c, at_ counts g = Some c → getGroupNodesInfo np g = Some (f g <$> seqZ 0 c)) →
  InitPortsConfig offset (iter _ (region_map counts)) true = Some ports →
  let more := imap (λ i c, group_participants (Z.of_nat (k + i)) c) cs in
  raft_groups np ports (seqZ (Z.of_nat k) (Z.of_nat (length cs))) ns ps ls =
    Some (ns ++ mjoin more, ps ++ replicate (length (mjoin more)) (offset + 5), ls ++ leader_positions cs (Z.of_nat (length ns))).
Proof using Hcounts Hfits iter_perm.
  induction cs as [|c cs IH]; intros k ns ps ls Hcs Hk Hn Hp more; unfold more; clear more.
  - cbn. by rewrite !app_nil_r.
  - cbn [length]. rewrite seqZ_cons by lia. replace (Z.pred (Z.of_nat (S (length cs)))) with (Z.of_nat (length cs)) by lia.
    assert (counts !! k = Some c) as Hkc.
    { rewrite Hcs, lookup_app_r by (rewrite length_take; lia). rewrite length_take_le by lia. by rewrite Nat.sub_diag. }
    assert (at_ counts (Z.of_nat k) = Some c) as Hc by (apply at_Some; rewrite Nat2Z.id; by split; [lia|]).
    destruct (count_facts _ _ Hc) as (_ & _ & Hb).
    destruct (proj2 (table_facts ports Hp) (Z.of_nat k) 0 c Hc ltac:(lia)) as (us & u & Hus & Hlen & Hu & Hserv).
    cbn [raft_groups]. rewrite Hus. cbn [mbind option_bind]. rewrite (Hn _ _ Hc). cbn [mbind option_bind]. rewrite Hu.
    cbn [mbind option_bind]. rewrite (Hserv CFT_PEER_TO_PEER 5) by first [vm_compute; reflexivity|lia]. cbn [mbind option_bind].
    rewrite Hlen. fold (reserve c). pose proof (reserve_bounds c ltac:(lia)).
    rewrite raft_group_spec by (rewrite ?length_fmap, ?length_seqZ; lia). cbn [mbind option_bind]. rewrite drop_0, take_seqZ_fmap by lia.
    fold (group_participants (Z.of_nat k) c). rewrite <-!list_fmap_compose.
    change (fst ∘ (λ x : NodeConfig, (x, offset + 5))) with (@id NodeConfig). rewrite list_fmap_id.
    replace (Z.succ (Z.of_nat k)) with (Z.of_nat (S k)) by lia. rewrite IH; [| |by apply lookup_lt_Some in Hkc|done|done].
    + rewrite imap_cons, Nat.add_0_r. cbn [mjoin list_join leader_positions]. 
      assert (imap ((λ i c0, group_participants (Z.of_nat (k + i)) c0) ∘ S) cs =
        imap (λ i c0, group_participants (Z.of_nat (S k + i)) c0) cs) as ->.
      { apply imap_ext. intros i c' _. cbn. do 2 f_equal. lia. }
      assert (length (group_participants (Z.of_nat k) c) = Z.to_nat (reserve c)) as Hg
        by (unfold group_participants; by rewrite length_fmap, length_seqZ).
      assert (((snd ∘ (λ x : NodeConfig, (x, offset + 5))) <$> group_participants (Z.of_nat k) c) =
        replicate (Z.to_nat (reserve c)) (offset + 5)) as ->.
      { rewrite <-Hg. generalize (group_participants (Z.of_nat k) c). intros gp. induction gp as [|x gp IHg]; [done|].
        cbn. by rewrite IHg. }
      rewrite !length_app, Hg, replicate_add, <-!app_assoc. cbn [app].
      by replace (Z.of_nat (length ns + Z.to_nat (reserve c))) with (Z.of_nat (length ns) + reserve c) by lia.
    + rewrite (take_S_r _ _ c Hkc), <-app_assoc. done.
Qed.

Definition participant_nodes : list NodeConfig := mjoin (imap (λ i c, group_participants (Z.of_nat i) c) counts).
Definition participants : list InstanceConfig := (λ n, mkInstance n (offset + 5)) <$> participant_nodes.

Lemma positions_spec cs : ∀ (b : nat) (pre : list NodeConfig) g c p j,
  Forall (λ c, 0 < c < 2 ^ 31) cs → cs !! g = Some c → leader_positions cs (Z.of_nat (length pre)) !! g = Some p → 0 <= j < reserve c →
  0 <= p ∧ (pre ++ mjoin (imap (λ i c, group_participants (Z.of_nat (b + i)) c) cs)) !! Z.to_nat (p + j) =
    Some (f (Z.of_nat (b + g)) j).
Proof using counts.
  induction cs as [|c0 cs IH]; intros b pre g c p j Hall Hg Hp Hj; [done|]. apply Forall_cons in Hall as [H0 Hall].
  assert (length (group_participants (Z.of_nat b) c0) = Z.to_nat (reserve c0)) as Hlen
    by (unfold group_participants; by rewrite length_fmap, length_seqZ).
  pose proof (reserve_bounds c0 ltac:(lia)).
  rewrite imap_cons, Nat.add_0_r. cbn [mjoin list_join].
  assert (imap ((λ i c1, group_participants (Z.of_nat (b + i)) c1) ∘ S) cs =
    imap (λ i c1, group_participants (Z.of_nat (S b + i)) c1) cs) as ->.
  { apply imap_ext. intros i c' _. cbn. do 2 f_equal. lia. }
  destruct g as [|g]; cbn in Hg, Hp; simplify_eq.
  - split; [lia|]. rewrite lookup_app_r by lia. rewrite lookup_app_l by lia. rewrite Nat.add_0_r.
    unfold group_participants. rewrite list_lookup_fmap.
    rewrite (proj2 (lookup_seqZ 0 (reserve c) (Z.to_nat (Z.of_nat (length pre) + j) - length pre) j)) by lia. done.
  - rewrite app_assoc. replace (b + S g)%nat with (S b + g)%nat by lia. apply (IH (S b) _ g c p j); [done|done| |done].
    rewrite length_app, Hlen. by replace (Z.of_nat (length pre + Z.to_nat (reserve c0))) with (Z.of_nat (length pre) + reserve c0) by lia.
Qed.

Lemma participants_some : participant_nodes ≠ [].
Proof using Hcounts.
  destruct (lookup_lt_is_Some_2 counts 0) as [c Hc].
  { pose proof (ok_some _ Hcounts) as Hne. destruct (decide (length counts = 0%nat)) as [E|E]; [by apply nil_length_inv in E|lia]. }
  pose proof (Forall_lookup_1 _ _ _ _ (ok_each _ Hcounts) Hc) as Hb. cbn in Hb. pose proof (reserve_bounds c ltac:(lia)).
  destruct (positions_spec counts 0 [] 0 c 0 0 (ok_each _ Hcounts) Hc) as [_ Hx].
  - apply leader_first, (ok_some _ Hcounts).
  - lia.
  - intros E. unfold participant_nodes in E. cbn [app Nat.add] in Hx. by rewrite E in Hx.
Qed.

(** C17: The groups of the ordering service.  Every peer of a deployment computes
    the same raft participants and the same leaders, whatever order its hash maps
    are iterated in: of every group of 3f+1 nodes the first f+1 take part, in
    order, reachable at their raft ports, and the leader position of a group is
    that of its node 0.  The receivers of a peer are all nodes of its own group. *)
Theorem ordering_participants :
  (∀ q i j, peer_doc q i j → node_of counts i j →
     ∃ c fct, at_ counts i = Some c ∧
       newGlobalBlockOrdering (PKEY := PKEY) iter hardware (NewModuleFactory q) =
         Some (Some (mkSetup ((λ n, mkInstance n (offset + 6)) <$> (f i <$> seqZ 0 c))
                       participants (leader_positions counts 0) (f i j)), fct)) ∧
  ∀ g c, at_ counts g = Some c → ∃ pos, at_ (leader_positions counts 0) g = Some pos ∧
    ∀ k, 0 <= k < (c - 1) / 3 + 1 → at_ participants (pos + k) = Some (mkInstance (f g k) (offset + 5)).
Proof using laws Hcounts Hnamed Hfits Hhosts iter_perm.
  destruct same_ports as (ports & Hp & _). destruct (table_facts ports Hp) as [Hsize Htab]. split.
  - intros q i j Hq Hij. pose proof Hij as (Hj & c & Hic & Hjc). destruct (count_facts i c Hic) as (_ & _ & Hcb).
    destruct (doc_nodes q i j Hq) as (n & Hn & Hk & R).
    destruct (read_lists i j Hij n Hk R) as (Hc & Hl & Hreg & Hme & Hinfo).
    destruct (Hnamed i j Hij) as (Hg1 & Hg2 & _).
    destruct (Htab i j c Hic ltac:(lia)) as (us & u & Hus & _ & Hu & Hserv).
    unfold newGlobalBlockOrdering, getOrInitZMQPortUtilMap, NewModuleFactory. cbn [_zmqPortUtilMap _properties].
    unfold InitPortsConfig_properties. rewrite Hn. cbn [mbind option_bind]. rewrite Hreg. cbn [mbind option_bind].
    rewrite (pd_port _ _ _ Hq), (pd_distributed _ _ _ Hq), Hp. cbn [mbind option_bind set_ports _properties].
    rewrite Hn. cbn [mbind option_bind]. rewrite Hme. cbn [mbind option_bind]. rewrite Hg1, Hg2, (Hinfo i c Hic). cbn [mbind option_bind].
    unfold node_util. rewrite Hus. cbn [mbind option_bind]. rewrite Hu. cbn [mbind option_bind].
    rewrite (Hserv LOCAL_BLOCK_ORDER 6) by first [vm_compute; reflexivity|lia]. cbn [mbind option_bind].
    rewrite wrap_replicate; [|intros E%(f_equal length); rewrite length_fmap, length_seqZ in E; cbn in E; lia|by rewrite length_fmap, length_seqZ; lia].
    cbn [negb]. rewrite Hsize. change (seqZ 0 (Z.of_nat (length counts))) with (seqZ (Z.of_nat 0) (Z.of_nat (length counts))).
    rewrite (raft_groups_spec n ports counts 0 [] [] []) by first [done|lia]. cbn [mbind option_bind app Nat.add].
    fold participant_nodes. rewrite wrap_replicate by first [apply participants_some|done]. cbn [negb].
    unfold getOrInitBCCSPAndThreadPool. cbn [_bccsp set_ports _properties]. destruct (pd_keys _ _ _ Hq) as [b Hb]. rewrite Hb.
    cbn [mbind option_bind]. unfold getOrInitContentStorage. cbn [_contentStorage set_bccsp set_ports _properties]. rewrite Hn.
    cbn [mbind option_bind]. rewrite Hc. cbn [mbind option_bind]. eexists c, _. split; [done|].
    rewrite (proj2 (Z.leb_gt _ _)); [done|]. destruct (count_facts i c Hic) as (_ & ? & _). lia.
  - intros g c Hgc. pose proof (proj1 (at_Some _ _ _) Hgc) as [Hg Hl]. destruct (count_facts g c Hgc) as (_ & _ & Hcb).
    destruct (lookup_lt_is_Some_2 (leader_positions counts 0) (Z.to_nat g)) as [pos Hpos].
    { rewrite length_positions. by apply lookup_lt_Some in Hl. }
    exists pos. split; [by apply at_Some|]. intros k Hk.
    destruct (positions_spec counts 0 [] (Z.to_nat g) c pos k (ok_each _ Hcounts) Hl Hpos) as [Hp0 Hx].
    { unfold reserve. rewrite Z.quot_div_nonneg by lia. done. }
    apply at_Some. split; [lia|]. unfold participants. rewrite list_lookup_fmap. cbn [app Nat.add] in Hx.
    unfold participant_nodes. rewrite Hx. cbn. by rewrite Z2Nat.id.
Qed.

(** The hosts of the local PBFT group are the same for all its nodes, and the
    user service of a node listens where the others are told it does. *)
Lemma local_services_agree q i j c :
  peer_doc q i j → node_of counts i j → at_ counts i = Some c →
  (∃ ports, InitPortsConfig offset (iter _ (region_map counts)) true = Some ports ∧
     host_list (PKEY := PKEY) iter (NewModuleFactory q) =
       Some ((λ k, mkHost k (priIp (f i k)) offset (offset + 1) (offset + 4)) <$> seqZ 0 c, set_ports (NewModuleFactory q) ports)) ∧
  ∃ fct, initUserRPCController (PKEY := PKEY) iter (λ _, true) (NewModuleFactory q) =
    Some (Some (Z.of_nat (length counts), offset + 4), fct).
Proof using laws Hcounts Hnamed Hfits iter_perm Hhosts.
  intros Hq Hij Hic. destruct same_ports as (ports & Hp & _). destruct (table_facts ports Hp) as [_ Htab].
  destruct (count_facts i c Hic) as (_ & Hi & Hcb). destruct (doc_nodes q i j Hq) as (n & Hn & Hk & R).
  destruct (read_lists i j Hij n Hk R) as (Hc & Hl & Hreg & Hme & Hinfo). destruct (Hnamed i j Hij) as (Hg1 & Hg2 & _).
  destruct Hij as (Hj & c' & Hic' & Hjc). assert (c' = c) by congruence. subst c'.
  destruct (Htab i j c Hic ltac:(lia)) as (us & u & Hus & Hlen & Hu & Hserv). split.
  - exists ports. split; [done|]. unfold host_list, NewModuleFactory. cbn [_properties]. rewrite Hn. cbn [mbind option_bind]. rewrite Hme. cbn [mbind option_bind].
    unfold getOrInitZMQPortUtilMap. cbn [_zmqPortUtilMap _properties]. unfold InitPortsConfig_properties.
    rewrite Hn. cbn [mbind option_bind]. rewrite Hreg. cbn [mbind option_bind].
    rewrite (pd_port _ _ _ Hq), (pd_distributed _ _ _ Hq), Hp. cbn [mbind option_bind set_ports _properties].
    rewrite Hg1, Hus. cbn [mbind option_bind]. rewrite (Hinfo i c Hic). cbn [mbind option_bind].
    rewrite length_fmap, length_seqZ. rewrite (proj2 (Nat.eqb_eq _ _)) by lia.
    match goal with |- (mapM ?h ?l ≫= _) = _ => assert (mapM h l = Some ((λ k, mkHost k (priIp (f i k)) offset (offset + 1) (offset + 4)) <$> seqZ 0 c)) as -> end.
    2: done.
    apply mapM_Some, Forall2_same_length_lookup. rewrite length_imap, !length_fmap. split; [done|].
    intros m [m' x] y Hm Hy. rewrite list_lookup_imap, list_lookup_fmap in Hm. rewrite list_lookup_fmap in Hy.
    destruct (seqZ 0 c !! m) as [k|] eqn:Ek; [|done]. cbn in Hm, Hy. injection Hm as <- <-. injection Hy as <-. apply lookup_seqZ in Ek as [-> Hm'].
    cbn [fst snd]. destruct (Htab i (Z.of_nat m) c Hic ltac:(lia)) as (us' & u' & Hus' & _ & Hu' & Hs').
    assert (us' = us) as -> by congruence. apply at_Some in Hu' as [_ Hu']. rewrite Nat2Z.id in Hu'. rewrite Hu'. cbn [mbind option_bind].
    destruct (Hnamed i (Z.of_nat m)) as (_ & Hid & _); [split; [lia|]; exists c; split; [done|lia]|].
    rewrite (Hs' SERVER_TO_SERVER 0) by first [vm_compute; reflexivity|lia]. cbn [mbind option_bind].
    rewrite lookup_replicate_2 by lia. cbn [mbind option_bind].
    rewrite (Hs' CLIENT_TO_SERVER 1) by first [vm_compute; reflexivity|lia]. cbn [mbind option_bind].
    rewrite lookup_replicate_2 by lia. cbn [mbind option_bind].
    rewrite (Hs' BFT_RPC 4) by first [vm_compute; reflexivity|lia]. cbn [mbind option_bind].
    rewrite lookup_replicate_2 by lia. cbn [mbind option_bind]. replace (0 + Z.of_nat m) with (Z.of_nat m) by lia.
    by rewrite Hid, Z.add_0_r.
  - unfold initUserRPCController, NewModuleFactory. cbn [_properties]. rewrite Hn. cbn [mbind option_bind]. rewrite Hc. cbn [mbind option_bind].
    rewrite (proj2 (Z.leb_gt _ _)) by lia. unfold getOrInitZMQPortUtilMap. cbn [_zmqPortUtilMap _properties]. unfold InitPortsConfig_properties.
    rewrite Hn. cbn [mbind option_bind]. rewrite Hreg. cbn [mbind option_bind].
    rewrite (pd_port _ _ _ Hq), (pd_distributed _ _ _ Hq), Hp. cbn [mbind option_bind]. rewrite Hme. cbn [mbind option_bind].
    unfold node_util. rewrite Hg1, Hg2, Hus. cbn [mbind option_bind]. rewrite Hu. cbn [mbind option_bind].
    rewrite (Hserv BFT_RPC 4) by first [vm_compute; reflexivity|lia]. cbn [mbind option_bind].
    rewrite (proj2 (at_Some (replicate (Z.to_nat c) (offset + 4)) j (offset + 4))) by (split; [done|apply lookup_replicate_2; lia]).
    by eexists.
Qed.

Hypothesis Hclient : ∀ a p, opens_client a p = true.
Hypothesis Hserver : ∀ p, opens_server p = true.

Lemma peer_up q i j ports :
  InitPortsConfig offset (iter _ (region_map counts)) true = Some ports → deployment nodes counts offset true ports →
  peer_doc q i j → node_of counts i j →
  ∃ r fct s, getOrInitReplicator (PKEY := PKEY) opens_client opens_server iter hardware (NewModuleFactory q) = Some (Some r, fct) ∧
    startReplicatorSender opens_client fct = Some (Some (s, 0)) ∧
    replicator opens_client opens_server nodes ports startAt0 i (Z.to_nat j) = Some (s, rep_receivers r).
Proof using laws Hcounts iter_perm Hclient Hserver.
  intros Hp D Hq Hij. pose proof Hij as (Hj & c & Hic & Hjc).
  assert ((i, f i <$> seqZ 0 c) ∈ nodes) as Hl by (unfold nodes; rewrite (iter_perm _ lists); apply elem_lists; eauto).
  assert ((f i <$> seqZ 0 c) !! Z.to_nat j = Some (f i j)) as Hk.
  { rewrite list_lookup_fmap. by rewrite (proj2 (lookup_seqZ 0 c (Z.to_nat j) j)) by lia. }
  destruct (start_spec D opens_client opens_server Hclient Hserver i _ (Z.to_nat j) (f i j) Hl Hk startAt0) as (ss & rs & E & _).
  pose proof E as (r & Hr & Er & Es)%start_split.
  destruct (come_up q i j ports Hq Hij Hp r Hr) as (fct & Hf & Pf & Rf).
  destruct (doc_nodes q i j Hq) as (n & Hn & Hkn & R). destruct (read_lists i j Hij n Hkn R) as (_ & _ & _ & Hme & _).
  exists r, fct, ss. split_and!; [done| |].
  - unfold startReplicatorSender. rewrite Pf, Hn. cbn [mbind option_bind]. rewrite Hme. cbn [mbind option_bind].
    rewrite Rf. cbn [mbind option_bind]. rewrite (pd_start _ _ _ Hq). rewrite Er. cbn [rep_nodes rep_me rep_ports rep_fragments].
    by rewrite Es.
  - unfold replicator. rewrite (proj1 (elem_of_list_to_map (M := gmap Z) nodes i _ (dep_keys D)) Hl).
    cbn [mbind option_bind]. rewrite Hk. cbn [mbind option_bind]. rewrite E. by rewrite Er.
Qed.

End come_up.

(** ** From the first request to connected peers *)
Section end_to_end.
Context {Node Text : Type} {lib : YamlLib Node Text} {laws : YamlLaws Node Text}.
Context {PKEY MdCtx Seed : Type} {evp : EvpLib PKEY MdCtx Seed}.
Context (opens_client : string → Z → bool) (opens_server : Z → bool).
Context (iter : ∀ A : Type, list (Z * A) → list (Z * A)) (hardware : Z).
Context (d : Dispatcher) (seed : Z → Z → Seed) (counts : list Z) (pub pri : Z → Z → string).

Lemma addressed_ids : named counts (addressed pub pri).
Proof using Type. by intros i j _. Qed.

Lemma configured_doc q i j :
  Conf q (deployed_table counts pub pri) (Some (i, j)) → settings_ok seed counts q →
  peer_doc counts (addressed pub pri) 51200 q i j.
Proof using Type. intros C [(b & Hb & _) _ _ H3 H4 H5]. split; [done|done|done|done|]. by exists b. Qed.

(** C8: A deployment comes up.  Take any number of groups and nodes whose ports
    fit, hosts with different addresses within a group, and sockets that open.
    Then there is one set of node lists and port tables such that every host
    that was given its configuration by the certificate authority, started from
    that file, builds a replicator and its senders; they are exactly the ones of
    its own node in a deployment with these tables, so the connections of the
    peers fit together. *)
Theorem deployment_comes_up :
  counts_ok counts → 51200 + 7 + 2 * Z.of_nat (length counts) <= 65535 →
  (∀ i j j', node_of counts i j → node_of counts i j' →
     priIp (addressed pub pri i j) = priIp (addressed pub pri i j') ∨
     pubIp (addressed pub pri i j) = pubIp (addressed pub pri i j') → j = j') →
  (∀ A (l : list (Z * A)), iter A l ≡ₚ l) → (∀ a p, opens_client a p = true) → (∀ p, opens_server p = true) →
  ∃ nodes ports startAt, deployment nodes counts 51200 true ports ∧
    ∀ (s : CA (Node := Node) (Text := Text)) i j, node_of counts i j → host_configured seed d counts pub pri s (pub i j) i j →
    ∃ text, hosts s !! (pub i j, config_path d) = Some (Some text) ∧
    ∀ (files : gmap string Text) name, files !! name = Some text → name ≠ EmptyString →
    ∃ q r fct snd, NewProperties files name = Some q ∧
      getOrInitReplicator (PKEY := PKEY) opens_client opens_server iter hardware (NewModuleFactory q) = Some (Some r, fct) ∧
      startReplicatorSender opens_client fct = Some (Some (snd, 0)) ∧
      replicator opens_client opens_server nodes ports startAt i (Z.to_nat j) = Some (snd, rep_receivers r).
Proof using laws.
  intros Hc Hf Hh Hi Hcl Hsv.
  destruct (same_ports iter Hi counts (addressed pub pri) 51200 Hc addressed_ids) as (ports & Hp & D); [lia|done|].
  exists (nodes iter counts (addressed pub pri)), ports, (startAt0 iter counts (addressed pub pri)). split; [done|].
  intros s i j Hij (text & q & Hh' & Hload & C & S). exists text. split; [done|]. intros files name Hfile Hne.
  pose proof (configured_doc q i j C S) as Hq.
  destruct (peer_up (PKEY := PKEY) opens_client opens_server iter hardware Hi counts (addressed pub pri) 51200 Hc Hcl Hsv
    q i j ports Hp D Hq Hij) as (r & fct & sn & H1 & H2 & H3).
  exists q, r, fct, sn. split_and!; [by eapply Hload|done|done|done].
Qed.

End end_to_end.


(** ** A concrete deployment *)
#[local] Existing Instance Tree.lib.
#[local] Existing Instance Tree.tree_laws.
#[local] Existing Instance Toy.lib.
#[local] Existing Instance Toy.toy_laws.

Definition in_order (A : Type) (l : list (Z * A)) : list (Z * A) := l.

(** A host whose name is the identifier of its node. *)
Lemma sample_ips i j : priIp (addressed node_ski demo_pri i j) = node_ski i j ∧ pubIp (addressed node_ski demo_pri i j) = node_ski i j.
Proof.
  unfold addressed, new_ips, demo_pri. cbn [priIp pubIp]. rewrite bool_decide_true by done. split; [done|].
  case_bool_decide as E; [|done]. by rewrite E.
Qed.

Lemma sample_hosts i j j' : node_of [2; 1] i j → node_of [2; 1] i j' →
  priIp (addressed node_ski demo_pri i j) = priIp (addressed node_ski demo_pri i j') ∨
  pubIp (addressed node_ski demo_pri i j) = pubIp (addressed node_ski demo_pri i j') → j = j'.
Proof.
  intros H H'. destruct (sample_ips i j) as [-> ->], (sample_ips i j') as [-> ->].
  intros [E|E]; by destruct (demo_distinct i j i j' H H' E).
Qed.

Lemma sample_node : node_of [2; 1] 0 1.
Proof. split; [lia|]. by exists 2. Qed.

(** The host of node 1 of group 0, configured by the run of [demo_configured],
    comes up. *)
Lemma deployment_comes_up_witness :
  ∃ nodes ports startAt q r fct snd, deployment nodes [2; 1] 51200 true ports ∧
    peer_doc [2; 1] (addressed node_ski demo_pri) 51200 q 0 1 ∧
    getOrInitReplicator (Node := Tree.node) (PKEY := Toy.pkey) any_client any_server in_order 8 (NewModuleFactory q) = Some (Some r, fct) ∧
    startReplicatorSender any_client fct = Some (Some (snd, 0)) ∧
    replicator any_client any_server nodes ports startAt 0 1 = Some (snd, rep_receivers r).
Proof.
  destruct demo_configured as [s H0]. pose proof (H0 0 1 sample_node) as H. pose proof H as (text & q & Ht & Hload & C & S).
  destruct (deployment_comes_up (PKEY := Toy.pkey) any_client any_server in_order 8 demo_dispatcher sample_seed [2; 1] node_ski demo_pri
    demo_counts ltac:(done) sample_hosts ltac:(done) ltac:(done) ltac:(done)) as (nodes & ports & startAt & D & Hall).
  destruct (Hall s 0 1 sample_node H) as (text' & Ht' & Hall'). assert (text' = text) as -> by congruence.
  destruct (Hall' {["config" := text]} "config") as (q' & r & fct & sn & Hq' & H1 & H2 & H3); [by rewrite lookup_singleton_eq|done|].
  rewrite (Hload {["config" := text]} "config") in Hq' by first [by rewrite lookup_singleton_eq|done]. injection Hq' as <-.
  exists nodes, ports, startAt, q, r, fct, sn. split_and!; [done| |done|done|done].
  by apply (configured_doc sample_seed).
Defined.

Lemma ordering_participants_witness :
  let f := addressed node_ski demo_pri in
  ∃ q fct, peer_doc (Node := Tree.node) [2; 1] f 51200 q 0 1 ∧
    newGlobalBlockOrdering (PKEY := Toy.pkey) in_order 8 (NewModuleFactory q) =
      Some (Some (mkSetup [mkInstance (f 0 0) 51206; mkInstance (f 0 1) 51206]
                    [mkInstance (f 0 0) 51205; mkInstance (f 1 0) 51205] [0; 1] (f 0 1)), fct).
Proof.
  intros f. destruct demo_configured as [s H0]. destruct (H0 0 1 sample_node) as (text & q & Ht & Hload & C & S).
  pose proof (configured_doc sample_seed [2; 1] node_ski demo_pri q 0 1 C S) as Hq.
  destruct (ordering_participants (PKEY := Toy.pkey) in_order 8 ltac:(done) [2; 1] f 51200 demo_counts (addressed_ids [2; 1] node_ski demo_pri))
    as [Hall _].
  - cbn. lia.
  - exact sample_hosts.
  - destruct (Hall q 0 1 Hq sample_node) as (c & fct & Hc & E). injection Hc as <-. by exists q, fct.
Defined.
