(* ===== verification/GroupStart.v ===== *)
(** * GroupStart: the local consensus of a deployed peer

    [ModuleFactory::newReplicatorBFTController] (src/peer/core/module_factory.cpp)
    with the two controllers it makes: the one of the state machine
    ([PbftService]) and the one of the engine's process
    (peer/consensus/pbft/bft_instance_controller.h, single_pbft_controller.h).

    The machine the engine runs on is its files and the commands it was given;
    which sessions, files and commands succeed is the environment's. *)

From S2P Require Import Prelude Zpp Proto Decimal RaftFSM ZmqPorts Merkle ProofGenerator LRU Storage.
From S2P Require Import LocalConsensus RequestReplicator BlockReceiver Replication Direct Fragments BFG Replicator.
From S2P Require Import PbftService Yaml Property Crypto KeyStore ConfigInit Deploy ModuleFactory.

Open Scope Z_scope.

(** ** The engine's process *)

Record SSHConfig := mkSSH { ssh_ip : string; ssh_port : Z; userName : string; password : string }.

Record BFTInstanceController := mkInst {
  _config : SSHConfig; _groupId : Z; _processId : Z; _runningPath : string; _jvmExec : string; _bftInstanceChannel : bool }.

Record Machine := mkMachine { files : gmap string string; commands : list string }.

Definition add_command (m : Machine) (c : string) : Machine := mkMachine (files m) (commands m ++ [c]).

(** [up ip]: a session to the host can be opened and the login succeeds. *)
Definition NewBFTInstanceController (up : string → bool) (config : SSHConfig) (groupId processId : Z) (runningPath jvmExec : string)
    : option BFTInstanceController :=
  if up (ssh_ip config) then Some (mkInst config groupId processId runningPath jvmExec false) else None.

Definition newline : string := String (Ascii.ascii_of_nat 10) EmptyString.

Definition host_line (n : NodeHostConfig) : string :=
  to_string (processId n) +:+ " " +:+ host_ip n +:+ " " +:+ to_string (serverToServerPort n) +:+ " " +:+
  to_string (serverToClientPort n) +:+ " " +:+ to_string (rpcPort n) +:+ newline.

Definition hosts_file (b : BFTInstanceController) : string :=
  path_join (path_join (_runningPath b) "config")
    ("hosts_" +:+ to_string (_groupId b) +:+ "_" +:+ to_string (_processId b) +:+ ".config").

Definition prepareConfigurationFile (opens : string → bool) (b : BFTInstanceController) (nodes : list NodeHostConfig) (m : Machine)
    : Machine * bool :=
  if opens (hosts_file b)
  then (mkMachine (<[hosts_file b := foldr String.append EmptyString (host_line <$> nodes)]> (files m)) (commands m), true)
  else (m, false).

(** [put]: the host file to copy, when one is given, and whether that succeeds;
    [runs]: the channel opens and the command is accepted. *)
Definition startInstance (put : option (string * bool)) (runs : bool) (b : BFTInstanceController) (m : Machine)
    : BFTInstanceController * Machine * bool :=
  let start m :=
    if runs then
      (mkInst (_config b) (_groupId b) (_processId b) (_runningPath b) (_jvmExec b) true,
       add_command m (build_command ["cd"; _runningPath b; "&&"; _jvmExec b;
         "-Dlogback.configurationFile=./config/logback.xml"; "-classpath";
         "./nc_bft.jar bftsmart.demo.neuchainplus.NeuChainServer"; to_string (_groupId b); to_string (_processId b)]), true)
    else (b, m, false) in
  match put with
  | None => start m
  | Some (_, false) => (b, m, false)
  | Some (text, true) => start (mkMachine (<[hosts_file b := text]> (files m)) (commands m))
  end.

Definition quote : string := String (Ascii.ascii_of_nat 34) EmptyString.

Definition stopAndClean (runs : bool) (b : BFTInstanceController) (m : Machine) : Machine :=
  if runs then
    add_command m (build_command ["kill -9 $(pgrep -f " +:+ quote +:+ "./nc_bft.jar bftsmart.demo.neuchainplus.NeuChainServer";
      to_string (_groupId b); to_string (_processId b) +:+ quote +:+ ")"])
  else m.

(** [answer]: what waiting for the keyword on the channel gives. *)
Definition isInstanceReady (b : BFTInstanceController) (answer : option bool) : option bool :=
  if _bftInstanceChannel b then answer else Some false.

(** ** The controller of one instance *)

Record SinglePBFTController := mkSingle { _running : bool; _ce : nat; _instanceManager : BFTInstanceController }.

Definition newSinglePBFTController (runs : bool) (b : BFTInstanceController) (m : Machine) : SinglePBFTController * Machine :=
  (mkSingle true 1 b, stopAndClean runs b m).

Definition single_startInstance (runs : bool) (c : SinglePBFTController) (m : Machine) : SinglePBFTController * Machine :=
  let '(b, m, _) := startInstance None runs (_instanceManager c) m in (mkSingle (_running c) (_ce c) b, m).

(** The status thread, whose calls are answered in turn: its count at the end,
    [None] while it has not ended. *)
Fixpoint run (c : SinglePBFTController) (answers : list (option bool)) : option nat :=
  if negb (_running c) then Some (_ce c) else
  match answers with
  | [] => None
  | a :: answers =>
      match isInstanceReady (_instanceManager c) a with
      | None => Some (_ce c)
      | Some true => Some (_ce c - 1)%nat
      | Some false => run c answers
      end
  end.

(** [waitUntilReady] returns when the count is 0. *)
Definition ready_signalled (r : option nat) : bool := match r with Some O => true | _ => false end.

(** An instance that crashes before it is ready, or could not be started, leaves
    its waiter waiting for ever. *)
Lemma crash_never_signals c (answers : list (option bool)) :
  _running c = true → _ce c = 1%nat → Some true ∉ answers → ready_signalled (run c answers) = false.
Proof.
  intros Hr Hc. induction answers as [|a answers IH]; intros Ha; cbn [run]; rewrite Hr; cbn [negb]; [done|].
  unfold isInstanceReady. destruct (_bftInstanceChannel _).
  - destruct a as [[]|]; [set_solver|apply IH; set_solver|by rewrite Hc].
  - apply IH. set_solver.
Qed.

Lemma unstarted_never_signals c (answers : list (option bool)) :
  _running c = true → _bftInstanceChannel (_instanceManager c) = false → run c answers = None.
Proof.
  intros Hr Hb. induction answers as [|a answers IH]; cbn [run]; rewrite Hr; [done|]. cbn [negb].
  unfold isInstanceReady. by rewrite Hb.
Qed.

(** A started instance that prints the keyword is waited for successfully. *)
Lemma ready_signals c (n : nat) answers :
  _running c = true → _ce c = 1%nat → _bftInstanceChannel (_instanceManager c) = true →
  ready_signalled (run c (replicate n (Some false) ++ Some true :: answers)) = true.
Proof.
  intros Hr Hc Hb. induction n as [|n IH]; cbn [replicate app run]; rewrite Hr; cbn [negb]; unfold isInstanceReady; rewrite Hb; [by rewrite Hc|done].
Qed.

(** ** Making both controllers *)
Section factory.
Context {Node Text : Type} {lib : YamlLib Node Text}.
Context {PKEY MdCtx Seed : Type} {evp : EvpLib PKEY MdCtx Seed}.
Context (iter : ∀ A : Type, list (Z * A) → list (Z * A)) (hardware : Z).
(** Sessions, files, services and servers that come up; whether commands run. *)
Context (up opens_file : string → bool) (added starts : Z → bool) (runs : bool).

Abbreviation BFTController := (Controller MRRegion * SinglePBFTController)%type.

Definition newReplicatorBFTController (bftGroup : Z) (f : ModuleFactory (Node := Node) (PKEY := PKEY)) (m : Machine)
    : option (option BFTController * ModuleFactory * Machine) :=
  np ← getNodeProperties (_properties f);
  localNode ← getLocalNodeInfo np;
  let '(user, pass, _) := getSSHInfo (_properties f) in
  match NewBFTInstanceController up (mkSSH (priIp localNode) (-1) user pass) bftGroup (nodeId localNode)
          (getRunningPath (_properties f)) (getJVMPath (_properties f)) with
  | None => Some (None, f, m)
  | Some ic =>
      '(hostList, f) ← host_list iter f;
      let m := (prepareConfigurationFile opens_file ic hostList m).1 in
      '(portMap, f) ← getOrInitZMQPortUtilMap iter f;
      localRegionNodes ← getGroupNodesInfo np (groupId localNode);
      '(_, f) ← getOrInitBCCSPAndThreadPool hardware f;
      '(cs, f) ← getOrInitContentStorage f;
      match cs with
      | None => Some (None, f, m)
      | Some regionCount =>
          u ← node_util portMap (groupId localNode) (nodeId localNode);
          pc ← NewLocalConsensusController added localRegionNodes (nodeId localNode) u
                 (newStorage (mkMR 256 ∅) (Z.to_nat regionCount))
                 (getBlockBatchTimeoutMs (_properties f)) (getBlockMaxBatchSize (_properties f));
          match pc with
          | None => Some (None, f, m)
          | Some pc =>
              if negb (starts (rpcServerPort pc)) then Some (None, f, m) else
              let '(rc, m) := newSinglePBFTController runs ic m in
              Some (Some (pc, rc), f, m)
          end
      end
  end.
End factory.

(** ** The groups of a deployment *)
Section deployed.
Context {Node Text : Type} {lib : YamlLib Node Text} {laws : YamlLaws Node Text}.
Context {PKEY MdCtx Seed : Type} {evp : EvpLib PKEY MdCtx Seed}.
Context (iter : ∀ A : Type, list (Z * A) → list (Z * A)) (hardware : Z) (iter_perm : ∀ A (l : list (Z * A)), iter A l ≡ₚ l).
Context (counts : list Z) (f : Z → Z → NodeConfig) (offset : Z).
Hypothesis Hcounts : counts_ok counts.
Hypothesis Hnamed : named counts f.
Hypothesis Hfits : 0 < offset ∧ offset + 7 + 2 * Z.of_nat (length counts) <= 65535.
Hypothesis Hhosts : ∀ i j j', node_of counts i j → node_of counts i j' →
  priIp (f i j) = priIp (f i j') ∨ pubIp (f i j) = pubIp (f i j') → j = j'.

(** The nodes of a group and the storage each starts with. *)
Definition group_of (i c : Z) : list NodeConfig := f i <$> seqZ 0 c.
Definition empty_storage : Storage MRRegion := newStorage (mkMR 256 ∅) (length counts).

Lemma group_in_order i c : at_ counts i = Some c → PbftService.in_order (group_of i c) = true.
Proof using Hcounts Hnamed.
  intros Hc. unfold PbftService.in_order. apply forallb_forall. intros [k n] Hin%list_elem_of_In. cbn [fst snd].
  apply list_elem_of_lookup in Hin as [m Hm]. rewrite list_lookup_imap in Hm.
  destruct (group_of i c !! m) as [n'|] eqn:En; [|done]. injection Hm as <- <-. unfold group_of in En. rewrite list_lookup_fmap in En.
  destruct (seqZ 0 c !! m) as [z|] eqn:Ez; [|done]. injection En as <-. apply lookup_seqZ in Ez as [-> Hlt].
  destruct (Hnamed i (0 + Z.of_nat m)) as (_ & Hid & _); [split; [lia|]; exists c; split; [done|lia]|]. rewrite Hid. apply Z.eqb_eq. lia.
Qed.

Lemma group_elem i c node : node ∈ group_of i c → ∃ k, 0 <= k < c ∧ node = f i k.
Proof using Type. intros (k & -> & Hk%elem_of_seqZ)%list_elem_of_fmap. exists k. split; [exact Hk|done]. Qed.

(** The controller of the state machine, with the ports of a deployment. *)
Lemma local_controller_built i j c u t m :
  at_ counts i = Some c → 0 <= j < c →
  (∀ t k, local_map !! t = Some [k] → 0 <= k < 7 → getLocalServicePorts u t 0 = Some (replicate (Z.to_nat c) (offset + k))) →
  ∃ pc, NewLocalConsensusController (λ _, true) (group_of i c) j u empty_storage t m = Some (Some pc) ∧ rpcServerPort pc = offset + 4.
Proof using Hcounts Hnamed.
  intros Hic Hj Hserv.
  assert (length (group_of i c) = Z.to_nat c) as Hl by (unfold group_of; by rewrite length_fmap, length_seqZ).
  assert (group_of i c ≠ []) as Hne by (intros E; rewrite E in Hl; cbn in Hl; lia).
  assert (∀ k, at_ (replicate (Z.to_nat c) (offset + k)) j = Some (offset + k)) as Hat.
  { intros k. apply at_Some. split; [lia|]. apply lookup_replicate_2. lia. }
  unfold NewLocalConsensusController. rewrite (group_in_order i c Hic). cbn [negb].
  rewrite (Hserv BFT_PAYLOAD 3) by first [vm_compute; reflexivity|lia]. cbn [mbind option_bind].
  rewrite wrap_replicate by done. cbn [negb].
  rewrite (Hserv USER_REQ_COLLECTOR 2) by first [vm_compute; reflexivity|lia]. cbn [mbind option_bind].
  rewrite wrap_replicate by done. cbn [negb]. rewrite Hat. cbn [mbind option_bind].
  unfold checkAndStart. cbn [PbftService._config localId].
  assert (∀ p u t m, getNodeInfo (mkConfig ((λ x, mkInstance x p) <$> group_of i c) j u t m) 0 = Some (mkInstance (f i 0) p)) as Hinfo.
  { intros p u' t' m'. unfold getNodeInfo, group_of. cbn [targetNodes]. rewrite seqZ_cons by lia. csimpl.
    destruct (Hnamed i 0) as (_ & -> & _); [split; [lia|]; exists c; split; [done|lia]|done]. }
  unfold service_checkAndStart. rewrite Hl, (proj2 (Nat.eqb_neq _ 0)) by lia. cbn [negb].
  destruct (j =? 0); [|rewrite Hinfo]; cbn [mbind option_bind]; rewrite (Hserv BFT_RPC 4) by first [vm_compute; reflexivity|lia];
    cbn [mbind option_bind]; rewrite Hat; cbn [mbind option_bind]; by eexists.
Qed.

(** Everything comes up: the controller is the one of its node. *)
Lemma bft_controller_built q i j c bftGroup m :
  peer_doc counts f offset q i j → at_ counts i = Some c → 0 <= j < c →
  ∃ u pc rc fct m', newReplicatorBFTController (PKEY := PKEY) iter hardware (λ _, true) (λ _, true) (λ _, true) (λ _, true) true
      bftGroup (NewModuleFactory q) m = Some (Some (pc, rc), fct, m') ∧
    NewLocalConsensusController (λ _, true) (group_of i c) j u empty_storage
      (getBlockBatchTimeoutMs q) (getBlockMaxBatchSize q) = Some (Some pc).
Proof using laws iter_perm Hcounts Hnamed Hfits Hhosts.
  intros Hq Hic Hj. assert (node_of counts i j) as Hij by (split; [lia|]; exists c; split; [done|lia]).
  destruct (proj1 (local_services_agree (PKEY := PKEY) iter iter_perm counts f offset Hcounts Hnamed Hfits Hhosts q i j c Hq Hij Hic))
    as (ports & Hp & Hhl).
  destruct (table_facts iter iter_perm counts offset Hcounts Hfits ports Hp) as [_ Htab].
  destruct (Htab i j c Hic Hj) as (us & u & Hus & Hlen & Hu & Hserv).
  destruct (doc_nodes counts f offset Hcounts q i j Hq) as (n & Hn & Hk & R).
  destruct (read_lists counts f Hcounts i j Hij n Hk R) as (Hc & _ & _ & Hme & Hinfo). destruct (Hnamed i j Hij) as (Hg1 & Hg2 & _).
  destruct (local_controller_built i j c u (getBlockBatchTimeoutMs q) (getBlockMaxBatchSize q) Hic Hj Hserv) as (pc & Hpc & _).
  destruct (getSSHInfo q) as [[user pass] sshok] eqn:Essh.
  unfold newReplicatorBFTController. cbn [_properties NewModuleFactory]. rewrite Hn. cbn [mbind option_bind]. rewrite Hme. cbn [mbind option_bind].
  rewrite Essh. unfold NewBFTInstanceController. fold (NewModuleFactory (Node := Node) (PKEY := PKEY) q). rewrite Hhl. cbn [mbind option_bind].
  unfold getOrInitZMQPortUtilMap. cbn [_zmqPortUtilMap set_ports mbind option_bind]. rewrite Hg1, (Hinfo i c Hic). cbn [mbind option_bind].
  unfold getOrInitBCCSPAndThreadPool. cbn [_bccsp set_ports NewModuleFactory _properties]. destruct (pd_keys _ _ _ _ _ _ Hq) as [b Hb]. rewrite Hb.
  cbn [mbind option_bind]. unfold getOrInitContentStorage. cbn [_contentStorage ModuleFactory.set_bccsp set_ports NewModuleFactory _properties]. rewrite Hn.
  cbn [mbind option_bind]. rewrite Hc. cbn [mbind option_bind].
  rewrite (proj2 (Z.leb_gt _ _)) by (destruct (count_facts counts Hcounts i c Hic) as (_ & ? & _); lia).
  unfold node_util. rewrite Hus. cbn [mbind option_bind]. rewrite Hg2, Hu. cbn [mbind option_bind _properties ModuleFactory.set_storage ModuleFactory.set_bccsp set_ports NewModuleFactory].
  rewrite Nat2Z.id. fold empty_storage. fold (group_of i c). rewrite Hpc. cbn [mbind option_bind negb].
  destruct (newSinglePBFTController _ _ _) as [rc m'] eqn:Es. exists u, pc, rc. eauto.
Qed.

(** C11: From configuration files to committed blocks.  Let the peers of a group
    be started from the documents of a deployment on machines where sessions,
    services and files come up, and let their keys work.  Then every peer builds
    its consensus controller, and whatever leaders and batches of correctly
    signed requests the engine then goes through, all of them store the same
    blocks under the group's number, one per batch, numbered from 0, linked by
    hashes and with signatures the other groups accept. *)
Theorem deployed_group_commits `{ZP : Zpp} `{HZ : !ZppLaws ZP} `{PB : Protobuf} `{HPB : !ProtobufLaws PB}
    (sha : string → HashString) (sign : string → string → option DigestString) (verifySig : SignatureString → HashString → bool)
    (verify : string → DigestString → string → option bool) (i c : Z) (docs : list Node) bftGroup m0 l es :
  (∀ s, arr_ok (sha s)) → at_ counts i = Some c → length docs = Z.to_nat c →
  (∀ j q, docs !! j = Some q → peer_doc counts f offset q i (Z.of_nat j)) →
  (∀ j, 0 <= j < c → sv_ok (ski (f i j)) ∧
     ∀ s, ∃ d, sign (ski (f i j)) s = Some d ∧ arr_ok d ∧ verify (ski (f i j)) d s = Some true) →
  Forall (good_event sha verifySig (group_of i c)) (NewLeader l :: es) → Z.of_nat (length (decisions es)) < 2 ^ 64 →
  ∃ cs cs' hs, length cs = length docs ∧
    (∀ j q pc, docs !! j = Some q → cs !! j = Some pc → ∃ rc fct m',
       newReplicatorBFTController (PKEY := PKEY) iter hardware (λ _, true) (λ _, true) (λ _, true) (λ _, true) true
         bftGroup (NewModuleFactory q) m0 = Some (Some (pc, rc), fct, m')) ∧
    engine_run sha sign verifySig None cs (NewLeader l :: es) = Some cs' ∧ length cs' = length docs ∧
    ∀ j pc', cs' !! j = Some pc' → ∃ bs,
      insert_all empty_storage ((λ b, (Z.to_nat i, b)) <$> bs) = Some (_storage pc') ∧
      header <$> bs = hs ∧ (λ b, userRequests (body b)) <$> bs = decisions es ∧ chain sha bs ∧
      ∀ n b, bs !! n = Some b → number (header b) = Z.of_nat n ∧ signed_block verify b.
Proof using laws iter_perm Hcounts Hnamed Hfits Hhosts.
  intros Hsha Hic Hdocs Hdoc Hkeys Hes Hcnt. destruct (count_facts counts Hcounts i c Hic) as (_ & Hi & Hc).
  assert (length (group_of i c) = Z.to_nat c) as Hl by (unfold group_of; by rewrite length_fmap, length_seqZ).
  destruct (mapM_indexed (λ x : nat * Node, p ← newReplicatorBFTController (PKEY := PKEY) iter hardware (λ _, true) (λ _, true)
      (λ _, true) (λ _, true) true bftGroup (NewModuleFactory x.2) m0; fst <$> p.1.1)
    (λ j q pc, (∃ rc fct m', newReplicatorBFTController (PKEY := PKEY) iter hardware (λ _, true) (λ _, true) (λ _, true) (λ _, true) true
         bftGroup (NewModuleFactory q) m0 = Some (Some (pc, rc), fct, m')) ∧
       ∃ u t m, NewLocalConsensusController (λ _, true) (group_of i c) (Z.of_nat j) u empty_storage t m = Some (Some pc)) docs)
    as (cs & _ & Lcs & Hcs).
  { intros j q Hq. pose proof (lookup_lt_Some _ _ _ Hq).
    destruct (bft_controller_built q i (Z.of_nat j) c bftGroup m0 (Hdoc j q Hq) Hic ltac:(lia)) as (u & pc & rc & fct & m' & E1 & E2).
    exists pc. cbn [fst snd]. rewrite E1. split; [done|]. split; eauto. }
  destruct (group_decides sha Hsha sign verifySig verify (Z.to_nat i) (group_of i c) (replicate (Z.to_nat c) empty_storage)
    mr_ok (λ c b, is_Some (blockStorage c !! b))) with (added := λ _ : Z, true) (l := l) (es := es) (cs := cs) as (cs' & hs & Hrun & Lcs' & Hall).
  - lia.
  - intros node (k & Hk & ->)%group_elem. destruct (Hnamed i k) as (-> & _ & _); [split; [lia|]; exists c; split; [done|lia]|].
    split; [lia|]. by apply Hkeys.
  - intros node s (k & Hk & ->)%group_elem. by apply Hkeys.
  - lia.
  - intros j pc Hj. destruct (Hcs j pc Hj) as (q & Hq & _ & u & t & m & E). exists u, empty_storage, t, m.
    pose proof (lookup_lt_Some _ _ _ Hq). split_and!; [apply lookup_replicate_2; lia| |done].
    split; [by unfold empty_storage, regionCount; cbn; rewrite !length_replicate|]. by apply Forall_replicate.
  - done.
  - done.
  - exists cs, cs', hs. split_and!; [done| |done|lia|].
    + intros j q pc Hq Hpc. destruct (Hcs j pc Hpc) as (q' & Hq' & H & _). by simplify_eq.
    + intros j pc' Hpc'. destruct (Hall j pc' Hpc') as (bs & H1 & H2). exists bs. split; [|done].
      pose proof (lookup_lt_Some _ _ _ Hpc'). rewrite lookup_replicate_2 in H1 by lia. exact H1.
Qed.

End deployed.

(** ** A concrete group: group 0 of the run of [demo_configured] *)
#[local] Existing Instance Tree.lib.
#[local] Existing Instance Tree.tree_laws.
#[local] Existing Instance Toy.lib.
#[local] Existing Instance Toy.toy_laws.
#[local] Existing Instance LE.zpp.
#[local] Existing Instance LE.zpp_laws.
#[local] Existing Instance plain_protobuf.
#[local] Existing Instance plain_laws.

Lemma deployed_group_commits_witness :
  ∃ (docs : list Tree.node) cs cs', length docs = 2%nat ∧
    (∀ j q pc, docs !! j = Some q → cs !! j = Some pc → ∃ rc fct m',
       newReplicatorBFTController (PKEY := Toy.pkey) ModuleFactory.in_order 8 (λ _, true) (λ _, true) (λ _, true) (λ _, true) true
         0 (NewModuleFactory q) (mkMachine ∅ []) = Some (Some (pc, rc), fct, m')) ∧
    engine_run toy_sha duo_sign any_verify None cs (NewLeader 0 :: duo_events) = Some cs' ∧
    ∀ j pc', cs' !! j = Some pc' → ∃ bs, insert_all (empty_storage [2; 1]) ((λ b, (0%nat, b)) <$> bs) = Some (_storage pc') ∧
      (λ b, userRequests (body b)) <$> bs = [[sample_envelop; other_envelop]; [other_envelop]].
Proof.
  destruct demo_configured as [s H0].
  assert (node_of [2; 1] 0 0) as N0 by (split; [lia|]; by exists 2).
  destruct (H0 0 0 N0) as (_ & q0 & _ & _ & C0 & S0). destruct (H0 0 1 sample_node) as (_ & q1 & _ & _ & C1 & S1).
  pose proof (configured_doc sample_seed [2; 1] node_ski demo_pri q0 0 0 C0 S0) as D0.
  pose proof (configured_doc sample_seed [2; 1] node_ski demo_pri q1 0 1 C1 S1) as D1.
  destruct (deployed_group_commits (PKEY := Toy.pkey) ModuleFactory.in_order 8 ltac:(done) [2; 1] (addressed node_ski demo_pri) 51200
    demo_counts (addressed_ids [2; 1] node_ski demo_pri) ltac:(cbn; lia) sample_hosts toy_sha duo_sign any_verify trusting 0 2 [q0; q1] 0
    (mkMachine ∅ []) 0%nat duo_events toy_sha_ok ltac:(reflexivity) ltac:(reflexivity)) as (cs & cs' & hs & _ & Hb & Hrun & _ & Hall).
  - intros [|[|j]] q Hq; [injection Hq as <-; exact D0|injection Hq as <-; exact D1|done].
  - intros j Hj. split.
    + assert (j = 0 ∨ j = 1) as [->| ->] by lia; vm_compute; reflexivity.
    + intros s'. exists (vreplicate 64 0). split; [reflexivity|]. split; [|reflexivity].
      unfold arr_ok. rewrite vec_to_list_replicate. by apply Forall_replicate.
  - exact duo_good.
  - vm_compute. reflexivity.
  - exists [q0; q1], cs, cs'. split; [reflexivity|]. split; [exact Hb|]. split; [exact Hrun|].
    intros j pc' Hj. destruct (Hall j pc' Hj) as (bs & H1 & _ & H2 & _). exists bs. split; [exact H1|exact H2].
Defined.
